(* ===== verification/_CoqProject ===== *)
-Q . S2P
Prelude.v
Heap.v
Thread.v
Frame.v
FrameFacts.v
Sched.v
SchedProps.v
SchedSpec.v
CStr.v
World.v
Resume.v
SchedContext.v
Process.v
ProcessInv.v
ProcessProps.v
ProcessSched.v
Network.v
FrameIO.v
FrameIOProps.v
Mutex.v
LockSpec.v
LockMachine.v
HttpMsg.v
HttpTool.v
HttpToolProps.v
HttpWire.v
TcpConn.v
TcpConnProps.v
HttpServer.v
HttpServerProps.v
HttpStream.v
HttpExchange.v
HttpPipeline.v
Listener.v
Server.v
ServerProps.v
UdpExchange.v
Cluster.v
ServerImpl.v
ServerImplProps.v
Shutdown.v
SetProcTitle.v
SetProcTitleProps.v
Log.v
SimpleServer.v
ServerInit.v
ServerInitProps.v
Worker.v
WorkerProgress.v
WorkerShutdown.v
Farm.v
Signals.v
Dns.v
Https.v
HttpsProps.v
HttpOp.v
HttpOpProps.v
Rpc.v
RpcExchange.v
Defer.v
Examples.v
ExampleProps.v
HttpWorker.v
RpcWorker.v
