(* ===== verification/Prelude.v ===== *)
(** * tinyco: a verification library for a coroutine server framework

    tinyco is a C++ framework for network servers: user-level threads that block
    on sockets without blocking the process, a master process with workers that
    accept on shared listeners, an HTTP server and client, an RPC layer on top of
    it, a DNS cache and a log.  This library is a shallow embedding of its sources
    (src/) with the theorems that make each part correct.

    ** How the program is put together

    A process runs one scheduler ([Frame], frame.cc).  Every coroutine
    ([Thread], thread.cc) is in exactly one place: running, in the ready queue, in
    the heap of sleeping threads, in the map of threads that wait for a
    descriptor, or in the pool of free threads.  [Frame::accept], [send], [recv]
    and so on try a system call and, when it would block, enter the thread in
    the map and switch.  The server ([ServerImpl], server.cc) opens listeners
    (listener.cc), turns into a daemon, forks workers and lets each of them run one
    accept loop per listener (server.h); the loops of different processes take
    turns with a lock in shared memory (mutex.cc).  A connection is served by a
    coroutine that runs [HttpSrvWork::Run] (http_server.cc), which cuts the stream
    into requests with http-parser (http_tool.cc) and calls a handler, for RPC the
    one of rpc_impl.cc.  The clients (tcp_conn.cc, http_client.cc,
    https_client.cc, http_op.cc, channel.cc) use the same socket calls.  Signals
    reach the event loop through a socket pair that the handlers write to.

    ** How it is modelled

    - Scheduler state is explicit: [Frame.frame] is the record of the static
      members, thread objects live in a store indexed by addresses, so that two
      queues that hold one thread are aliases of one object; [None] is a null or
      dangling dereference.  [Sched.exec] is the step relation of a process (a
      coroutine calls an operation, or the main loop runs once).
    - Code that calls the operating system is a computation of the monad
      [World.IO] over a script of the environment's answers; it yields a result
      and the trace of the calls, or the trace so far when it is still waiting.
      Theorems hold for every script, so for every behaviour of the kernel, the
      peers and the other coroutines; where they need what the documentation of a
      call promises, the hypothesis is [FrameIO.os_ok] on the trace.
    - A process as a whole is the scheduler with the code of its coroutines
      ([Process]): a coroutine has a work object and the history of its calls, the
      one that executes makes its next call ([P_call]), leaves the processor where
      its code waits or sleeps ([P_block]) or ends ([P_exit]), and the main loop
      polls ([P_main]).  A coroutine that is resumed gets the answer to its wait
      from the state of the scheduler; [errno] belongs to the process, so it is any
      number by then.  Computations are resumed at any call because they look at
      the answers one by one ([Resume.causal]).  The worker of a server is such a
      program ([Worker.worker_program]); what business handlers do is a parameter
      ([Worker.Handlers]), for HTTP and RPC servers [HttpSrvWork::Run]
      ([HttpWorker.http_conn]).
    - Several processes are either a step relation on what they share
      ([LockMachine.mstep], one memory access of a lock at a time;
      [Signals.bus_step]) or a global sequence of calls whose projections are runs
      of the code ([Cluster.cluster_run]).  The compare-and-set of mutex.cc is a
      read and a write that other processes can come between: theorems that need
      it whole say that no [cmpxchgq] is torn ([LockMachine.torn]).  The theorems on
      shutting down are about histories of the coroutines that share a connection
      tracker ([Shutdown.worker_process]); executions of a worker under its
      scheduler are such histories ([Worker.worker_refines_process]).
    - Two programs at the ends of a connection are two runs whose traces are
      related by the network: [HttpExchange.tcp_run] orders their events so that
      each side receives, in order and cut in any way, a beginning of what the
      other side sent; a network of datagrams may lose, double and reorder them
      but does not make them up ([ExampleProps.udp_echo]).
    - http-parser is a parameter with its documented behaviour on the messages that
      the framework writes ([HttpWire.HttpParserSpec], [HttpStream.HttpStreamSpec]).
      It refuses headers beyond a limit ([HTTP_MAX_HEADER_SIZE], 80 KB, which the
      build does not change): what holds for every message holds when it is
      refused, too; what needs the message to be read asks for its header to be
      within the limit.
    - Machine integers are [Z] with the wrap-around written out ([wrap], [s32],
      [s64] below); strings and buffers are lists of bytes; [unordered_map] is a
      [gmap], and where the order of iteration shows it is any permutation
      ([HttpMsg.IterOrder]).
    - Fuel: [World.loop] is a [while] loop whose fuel is the number of answers
      left.  It is enough because each iteration that goes on makes a call
      ([productive]); [loop_unfold] is the fuel-free equation and [loop_inv] the
      invariant rule, and all proofs about loops use these.  Loops over data are
      structural.

    ** Files

    - [Prelude]: integers, bytes, lists, tactics.  [World]: calls, answers, the
      monad, loops.  [CStr]: util/string.{h,cc} and the C library's number
      functions.  [Network]: util/network.{h,cc}, util/time.h.
    - [Heap]: the contract of std::push_heap and pop_heap (class [HeapOps], with a
      sifting heap as its instance).  [Thread]: thread.{h,cc}.  [Frame]: the
      queues of frame.{h,cc}.  [FrameFacts], [Sched]: lemmas and the invariant
      [wf].  [SchedProps]: its theorems.
      [SchedSpec]: the abstract scheduler and the refinement.  [SchedContext]:
      what the scheduler does to the contexts of suspended coroutines.
    - [Resume]: computations that are resumed call by call.  [Process],
      [ProcessInv], [ProcessProps]: processes of coroutines with their code, for
      any [program]; the invariant; the theorems.  [ProcessSched]: processes are
      executions of the scheduler.  [Worker], [WorkerProgress], [WorkerShutdown]:
      the worker process of server.{h,cc}, with listeners, connections, datagrams
      and signals.
      [Farm]: several workers and the lock of a listener.
      [HttpWorker], [RpcWorker]: a worker's connections when they serve HTTP and RPC.
    - [FrameIO], [FrameIOProps]: the socket calls of frame.cc.
    - [Mutex]: mutex.{h,cc}.  [LockSpec]: the abstract lock and the class [LockImpl]
      that clients rely on.  [LockMachine]: every access of every process to the
      word of the lock, and the refinement.  [Listener]: listener.{h,cc}.
      [Server], [ServerProps]: the loops of server.h.  [UdpExchange]: datagrams
      from the socket to the work objects and at a client.  [Cluster]: several
      processes on one listener, proved against [LockImpl].  [SimpleServer]:
      [TcpSrv] and [UdpSrv].
    - [ServerImpl], [ServerImplProps]: configuration, master and workers of
      server.cc.  [SetProcTitle], [SetProcTitleProps]: util/setproctitle.c over a
      byte-addressed memory.  [ServerInit], [ServerInitProps]: [Initialize] and
      all it calls.  [Signals]: the pipe all processes share.  [Shutdown]: the
      coroutines of a worker from SIGHUP to its end, with monitors for traces.
    - [HttpMsg]: http_request, http_response.  [HttpTool], [HttpToolProps]:
      http_tool.  [HttpWire]: writer, http-parser and parser together.  [HttpServer],
      [HttpServerProps]: http_server.  [TcpConn], [TcpConnProps]: tcp_conn and
      http_client.  [Https], [HttpsProps]: https_client.  [HttpOp],
      [HttpOpProps]: http_op.
    - [HttpStream]: what a check of received bytes must decide (class
      [HttpStreamSpec]).  [HttpExchange]: client and server together, for every
      request handler that keeps its promise (class [Handler]).  [HttpPipeline]: a
      client that does not wait for its answer.  [RpcExchange]: a
      remote call end to end (services are [QuietMethods]).
    - [Dns]: dns_resolve_impl.  [Rpc]: rpc_impl, channel, controller and the method
      table of server.cc.  [Log]: util/log over a file system of names and inodes.
      [Defer]: util/defer.h.
    - [Examples], [ExampleProps]: the programs under example/.

    Definitions have the names of the source; where a C++ name is taken the class
    is put in front ([Response_SetHeader]).  A loop body is [<function>_body].

    ** What the theorems show

    - Scheduler: every execution is one of an abstract scheduler with a queue and
      two maps ([SchedSpec]); and ([SchedProps]) no step crashes, threads are
      neither lost nor doubled, the running thread is the one that executes, the
      ready queue is fair, sleepers wake exactly when due, the event-loop time-out is exact as
      long as it fits an [int], [Init] and [Fini] establish and free the state.
    - Processes ([ProcessProps]), for any program: no step crashes and none is
      missing, every coroutine is a run of its code whatever the others do, and
      it is interrupted only where it waits or sleeps.  Workers: what happens in
      one is a history of [Shutdown] ([Worker]), no coroutine ever waits for a
      descriptor for which another waits, so that a worker is never stuck
      ([WorkerProgress]); a client of a worker, or a remote call to it, has what
      the handler or the method computed, although the worker serves others at the
      same time ([HttpWorker], [RpcWorker]).
    - Socket calls ([FrameIOProps]): what results mean in terms of the bytes the
      kernel took or delivered, when a call does not return, and that [send]
      terminates when the kernel makes progress.
    - Locks: refinement of the abstract lock by every interleaving of memory
      accesses in which no [cmpxchgq] is torn, the one in which two processes get
      the lock, and recovery when the holder is killed ([LockMachine]); the accept
      loop's discipline ([ServerProps]) and, composed with the lock, exclusive
      accepting in a cluster of accept loops with crashes ([Cluster]), which
      executions of whole worker processes are as long as nothing is torn ([Farm]).
    - Start-up and processes: what [Initialize] establishes ([ServerInitProps]),
      setting titles keeps arguments and environment ([SetProcTitleProps]), a
      worker whose SIGCHLD the master reads is replaced ([ServerImplProps]), signals arrive in order
      at whichever process reads them ([Signals]).
    - HTTP: round trips of messages ([HttpMsg]), also through the parser of the
      receiving program ([HttpWire]), the result of parsing
      ([HttpToolProps]), independence of how the network cuts a request and the
      bounds of the request buffer ([HttpServerProps], [HttpPipeline]), exchanges of
      the clients ([TcpConnProps], [HttpsProps]) and how a one-call request ends
      ([HttpOpProps]).
    - End to end: a client that succeeds has exactly a response that the handler
      may give to the request it sent, and the server answers only whole requests;
      the exchange completes whenever the network delivers and the headers are within
      the parser's limit ([HttpExchange]); a
      remote call returns what the method computes ([RpcExchange]); every datagram
      reaches a work object of its own ([UdpExchange]); the datagram examples echo,
      the HTTP and RPC examples say "hello world!" and "world", and the resolver's
      test is answered from the cache ([ExampleProps]).
    - Shutting down ([Shutdown] for histories, [WorkerShutdown] for worker
      processes under their schedulers): after SIGHUP a worker enters at most one more
      connection per listener, ends within a round once no connection is left, and
      does not end before.
    - [Dns]: round robin and cache.  [Rpc]: the method table.  [Log]: rotation.
    - Defects: theorems that state what goes wrong, with the exact condition: two
      owners without a [lock] prefix, a listener that goes deaf after an error, a
      datagram loop that locks itself out, a stolen SIGCHLD, pipelined requests
      that overflow a buffer, and others.

    ** Not modelled

    - Third-party code is a parameter or answered by the environment: http-parser
      and curl (class [HttpTool.HttpLib]), c-ares ([Dns]), protobuf and the
      services ([Rpc]), jsoncpp (the value it made of the configuration is an
      argument), libevent (which events fire is a label of a step), OpenSSL (its
      calls are answered like system calls).
    - Machine contexts ([swapcontext]) are entry points or the place in the
      scheduler where a coroutine stopped; the contents of stacks is not modelled.
    - A process that forks while it serves (the master that starts a worker again)
      is modelled by its calls ([ServerImpl]) and not as a [program]; the two
      processes after the fork do not share their schedulers.
    - Declarations, includes and logging macros have no counterpart.
    - What http-parser does with messages that the framework does not write (chunked
      bodies, upgrades, requests by other clients) beyond what a theorem takes as
      the result of its call.
    - The lines that other components write to the log, and messages to stderr.
    - The abstract classes without code (work.h, dns_resolve.h).
    - The classes that protoc generates for the RPC example (class
      [Examples.Messages]).
*)

From stdpp Require Export prelude gmap list strings sorting.
From Stdlib Require Export ZArith Lia.
From Stdlib Require Export (notations) Ascii.
Abbreviation ascii := Ascii.ascii.

#[global] Open Scope Z_scope.

(** ** Machine integers

    A [w]-bit unsigned integer is a [Z] in [0, 2^w); arithmetic on it is
    arithmetic on [Z] followed by the wrap-around of the width.  [s32] is the
    conversion to the 32-bit two's complement [int]. *)

Declare Scope tinyco_scope.
Delimit Scope tinyco_scope with tinyco.
#[global] Open Scope tinyco_scope.

Definition wrap (w x : Z) : Z := x mod 2 ^ w.
Abbreviation u8 := (wrap 8).
Abbreviation u16 := (wrap 16).
Abbreviation u32 := (wrap 32).
Abbreviation u64 := (wrap 64).

Definition s32 (x : Z) : Z := (x + 2 ^ 31) mod 2 ^ 32 - 2 ^ 31.
Definition s64 (x : Z) : Z := (x + 2 ^ 63) mod 2 ^ 64 - 2 ^ 63.

Notation "'in_u' w x" := (0 <= x < 2 ^ w) (at level 10, w at level 9, x at level 9) : tinyco_scope.

Create HintDb tinyco.
Create Rewrite HintDb tinyco.

Lemma wrap_range w x : 0 <= w -> 0 <= wrap w x < 2 ^ w.
Proof. intros. unfold wrap. apply Z.mod_pos_bound. lia. Qed.

Lemma wrap_id w x : 0 <= x < 2 ^ w -> wrap w x = x.
Proof. apply Z.mod_small. Qed.

Lemma s32_range x : - 2 ^ 31 <= s32 x < 2 ^ 31.
Proof. unfold s32. pose proof (Z.mod_pos_bound (x + 2 ^ 31) (2 ^ 32)). lia. Qed.

Lemma s32_id x : - 2 ^ 31 <= x < 2 ^ 31 -> s32 x = x.
Proof. intros. unfold s32. rewrite Z.mod_small; lia. Qed.

Lemma s32_wraps x : 2 ^ 31 <= x < 2 ^ 32 -> s32 x = x - 2 ^ 32.
Proof.
  intros. unfold s32.
  replace (x + 2 ^ 31) with (x - 2 ^ 31 + 1 * 2 ^ 32) by lia.
  rewrite Z.mod_add, Z.mod_small; lia.
Qed.

Lemma s64_id x : - 2 ^ 63 <= x < 2 ^ 63 -> s64 x = x.
Proof. intros. unfold s64. rewrite Z.mod_small; lia. Qed.

#[export] Hint Resolve wrap_range s32_range : tinyco.
#[export] Hint Rewrite wrap_id s32_id s64_id using lia : tinyco.

(** ** Byte strings

    A [std::string] or a [char] buffer is a list of bytes. *)

Abbreviation bytes := (list ascii).

Definition lit (s : string) : bytes := String.list_ascii_of_string s.

#[export] Instance ascii_inhabited : Inhabited ascii := populate Ascii.zero.

(** [blen] is [std::string::size()]. *)
Definition blen (s : bytes) : Z := Z.of_nat (length s).

Lemma blen_nonneg s : 0 <= blen s.
Proof. unfold blen. lia. Qed.

Lemma blen_app s t : blen (s ++ t) = blen s + blen t.
Proof. unfold blen. rewrite length_app. lia. Qed.

#[export] Hint Resolve blen_nonneg : tinyco.
#[export] Hint Rewrite blen_app : tinyco.

(** ** Tactics *)

(** Reflect the boolean integer tests that occur in the context. *)
Ltac zbool :=
  repeat match goal with
  | H : context [?a =? ?b] |- _ => destruct (Z.eqb_spec a b)
  | H : context [?a <? ?b] |- _ => destruct (Z.ltb_spec a b)
  | H : context [?a <=? ?b] |- _ => destruct (Z.leb_spec a b)
  | |- context [?a =? ?b] => destruct (Z.eqb_spec a b)
  | |- context [?a <? ?b] => destruct (Z.ltb_spec a b)
  | |- context [?a <=? ?b] => destruct (Z.leb_spec a b)
  end.

(** Split the [match] or [if] at the head of the goal or of a hypothesis, keep
    the equation, and close the branches that contradict it. *)
Ltac split_match :=
  match goal with
  | |- context [match ?x with _ => _ end] => destruct x eqn:?; simplify_eq/=
  end.

Ltac split_match_in H :=
  match type of H with
  | context [match ?x with _ => _ end] => destruct x eqn:?; simplify_eq/=
  end.

(** Membership in concatenations of lists. *)
Ltac in_lists :=
  repeat (progress rewrite ?elem_of_app, ?elem_of_cons, ?elem_of_nil); tauto.

(** ** Lists *)

Section lists.
Context {A : Type}.
Implicit Types l k : list A.

Lemma lookup_lt_is_Some_Z l (i : nat) : (i < length l)%nat -> is_Some (l !! i).
Proof. apply lookup_lt_is_Some_2. Qed.

(** Writing [x] at [i] and the old [l !! j] at ... is a transposition: the two
    ways of filling a hole are permutations of each other. *)
Lemma insert_swap_perm l i j (x y : A) :
  (i < length l)%nat -> l !! j = Some y -> i <> j ->
  <[j := x]> (<[i := y]> l) ≡ₚ <[i := x]> l.
Proof.
  intros Hi Hj Hne.
  assert (Hj' : (j < length l)%nat) by eauto using lookup_lt_Some.
  destruct (lookup_lt_is_Some_2 l i Hi) as [z Hz].
  apply Permutation_inj; split; [by rewrite !length_insert|].
  exists (fun n => if decide (n = i) then j else if decide (n = j) then i else n).
  split.
  - intros a b. repeat case_decide; congruence.
  - intros n. case_decide; [subst n|case_decide; [subst n|]].
    + rewrite list_lookup_insert_ne, list_lookup_insert_eq by done.
      by rewrite list_lookup_insert_ne.
    + by rewrite !list_lookup_insert_eq by (rewrite ?length_insert; done).
    + by rewrite !list_lookup_insert_ne.
Qed.

Lemma removelast_last_split l (x : A) :
  last l = Some x -> l = removelast l ++ [x].
Proof.
  induction l as [|y l IH]; [done|]. destruct l as [|z l]; simpl in *.
  - by intros [= ->].
  - intros H. f_equal. by apply IH.
Qed.

Lemma length_removelast l : length (removelast l) = (length l - 1)%nat.
Proof.
  induction l as [|x l IH]; [done|]. destruct l as [|y l]; [done|].
  change (removelast (x :: y :: l)) with (x :: removelast (y :: l)).
  simpl length in *. rewrite IH. lia.
Qed.

Lemma lookup_removelast l (i : nat) :
  (i < length l - 1)%nat -> removelast l !! i = l !! i.
Proof.
  revert i. induction l as [|x l IH]; intros i Hi; [done|].
  destruct l as [|y l]; [simpl in Hi; lia|].
  change (removelast (x :: y :: l)) with (x :: removelast (y :: l)).
  destruct i; [done|]. simpl in Hi |- *. apply IH. simpl. lia.
Qed.

Lemma StronglySorted_impl (R R' : A -> A -> Prop) l :
  (forall a b, a ∈ l -> b ∈ l -> R a b -> R' a b) ->
  StronglySorted R l -> StronglySorted R' l.
Proof.
  intros Himp. induction 1 as [|a l Hs IH Hf]; constructor.
  - apply IH. set_solver.
  - rewrite Forall_forall in *. set_solver.
Qed.

End lists.
