(* ===== verification/Heap.v ===== *)
(** * Binary heaps: [std::push_heap] and [std::pop_heap]

    [Frame] keeps its sleeping threads in a [std::vector] that it orders with
    [std::push_heap] / [std::pop_heap] and a comparator object
    ([PendThread], [PopPendingTop] in src/frame.cc).  This file states what the
    C++ standard promises of the two algorithms as the class [HeapOps], proves
    that the sifting algorithms of the standard library's implementation keep
    the promise, and gives the instance the scheduler runs on.  The scheduler
    is proved against the class only.

    The comparator is any strict weak order; a vector is a list, and the heap
    property is the standard's: the parent of an element never compares less
    than the element, [comp parent child = false]. *)

From Equations Require Import Equations.
From S2P Require Import Prelude.

#[local] Open Scope nat_scope.

(** The parent of position [i] in the implicit tree. *)
Definition parent (i : nat) : nat := (i - 1) / 2.

Lemma parent_lt i : 0 < i -> parent i < i.
Proof. unfold parent. intros. apply Nat.Div0.div_lt_upper_bound; lia. Qed.

Lemma parent_child i h : 0 < i -> parent i = h <-> i = 2 * h + 1 \/ i = 2 * h + 2.
Proof.
  unfold parent. intros Hi.
  pose proof (Nat.div_mod_eq (i - 1) 2). pose proof (Nat.mod_upper_bound (i - 1) 2).
  lia.
Qed.

#[export] Hint Resolve parent_lt : tinyco.

(** A comparator: asymmetric, and with a transitive negation. *)
Class StrictWeak {A} (comp : A -> A -> bool) : Prop := {
  sw_asym a b : comp a b = true -> comp b a = false;
  sw_negtrans a b c : comp a b = false -> comp b c = false -> comp a c = false
}.

Definition is_heap {A} (comp : A -> A -> bool) (l : list A) : Prop :=
  forall i a b, 0 < i -> l !! parent i = Some a -> l !! i = Some b ->
  comp a b = false.

(** What [<algorithm>] promises of the two operations, for every comparator. *)
Class HeapOps := {
  push_heap {A} (comp : A -> A -> bool) : list A -> list A;
  pop_heap {A} (comp : A -> A -> bool) : list A -> list A;
  push_heap_perm {A} (comp : A -> A -> bool) l : push_heap comp l ≡ₚ l;
  push_heap_heap {A} (comp : A -> A -> bool) `{!StrictWeak comp} l x :
    is_heap comp l -> is_heap comp (push_heap comp (l ++ [x]));
  pop_heap_perm {A} (comp : A -> A -> bool) `{!StrictWeak comp} l :
    is_heap comp l -> pop_heap comp l ≡ₚ l;
  pop_heap_last {A} (comp : A -> A -> bool) l : last (pop_heap comp l) = head l;
  pop_heap_heap {A} (comp : A -> A -> bool) `{!StrictWeak comp} l :
    is_heap comp l -> is_heap comp (removelast (pop_heap comp l))
}.

(** ** The algorithms *)

Section algorithms.
Context {A : Type} (comp : A -> A -> bool).
Implicit Types l : list A.

(** [__push_heap]: move parents down until [v] fits in the hole. *)
Equations? sift_up (l : list A) (hole : nat) (v : A) : list A by wf hole lt :=
  sift_up l 0 v := <[0 := v]> l;
  sift_up l (S h) v with l !! parent (S h) => {
    | Some p with comp p v => {
      | true := sift_up (<[S h := p]> l) (parent (S h)) v;
      | false := <[S h := v]> l };
    | None := <[S h := v]> l }.
Proof. apply parent_lt; lia. Qed.

(** The descent of [__adjust_heap]: move the child that belongs on top into the
    hole until the hole has at most one child. *)
Equations? descend (l : list A) (hole len : nat) : list A * nat by wf (len - hole) lt :=
  descend l hole len with decide (hole < (len - 1) / 2) => {
    | right _ := (l, hole);
    | left _ with l !! (2 * (hole + 1)), l !! (2 * (hole + 1) - 1) => {
      | Some r, Some c with comp r c => {
        | true := descend (<[hole := c]> l) (2 * (hole + 1) - 1) len;
        | false := descend (<[hole := r]> l) (2 * (hole + 1)) len };
      | _, _ := (l, hole) } }.
Proof.
  all: assert (hole < (len - 1) / 2) as Hd by assumption;
    assert ((len - 1) / 2 <= len - 1) by (apply Nat.Div0.div_le_upper_bound; lia);
    assert (2 * ((len - 1) / 2) <= len - 1) by (apply Nat.Div0.mul_div_le); lia.
Qed.

(** The end of [__adjust_heap]: an only child moves up, then [v] is sifted up
    from the hole. *)
Definition adjust_heap (l : list A) (len : nat) (v : A) : list A :=
  let '(l, hole) := descend l 0 len in
  if decide (len = 2 * hole + 2) then
    match l !! (2 * hole + 1) with
    | Some c => sift_up (<[hole := c]> l) (2 * hole + 1) v
    | None => l
    end
  else sift_up l hole v.

Definition std_push_heap (l : list A) : list A :=
  match last l with
  | Some v => sift_up l (length l - 1) v
  | None => l
  end.

(** The first element goes to the back, the old last element is re-inserted
    into the rest. *)
Definition std_pop_heap (l : list A) : list A :=
  match l, last l with
  | x :: _ :: _, Some v => adjust_heap (removelast l) (length l - 1) v ++ [x]
  | _, _ => l
  end.

End algorithms.

(** ** Correctness *)

Section correctness.
Context {A : Type} (comp : A -> A -> bool).
Implicit Types l : list A.

Lemma sift_up_perm l h v :
  h < length l -> sift_up comp l h v ≡ₚ <[h := v]> l.
Proof.
  revert l. induction (lt_wf h) as [h _ IH]. intros l Hh.
  destruct h as [|h]; simp sift_up; [done|].
  destruct (l !! parent (S h)) as [p|] eqn:Hp; simp sift_up; [|done].
  destruct (comp p v); simp sift_up; [|done].
  pose proof (parent_lt (S h)).
  rewrite IH by (rewrite ?length_insert; lia).
  apply insert_swap_perm; [done|done|lia].
Qed.

Lemma length_sift_up l h v : length (sift_up comp l h v) = length l.
Proof.
  revert l. induction (lt_wf h) as [h _ IH]. intros l.
  destruct h as [|h]; simp sift_up; [by rewrite length_insert|].
  destruct (l !! parent (S h)) as [p|] eqn:Hp; simp sift_up; [|by rewrite length_insert].
  destruct (comp p v); simp sift_up; [|by rewrite length_insert].
  rewrite IH; [by rewrite length_insert | apply parent_lt; lia].
Qed.

(** The hole of a descent: the list is a heap except at the hole, and the
    parent of the hole dominates the children of the hole. *)
Definition hole_inv (l : list A) (h : nat) : Prop :=
  (forall i a b, 0 < i -> i <> h -> parent i <> h ->
     l !! parent i = Some a -> l !! i = Some b -> comp a b = false) /\
  (forall i a b, 0 < i -> 0 < h -> parent i = h ->
     l !! parent h = Some a -> l !! i = Some b -> comp a b = false).

(** The hole of an ascent: moreover the value to insert dominates the children
    of the hole. *)
Definition up_inv (l : list A) (h : nat) (v : A) : Prop :=
  hole_inv l h /\
  (forall i b, 0 < i -> parent i = h -> l !! i = Some b -> comp v b = false).

Context `{!StrictWeak comp}.

Lemma up_inv_stop l h v :
  up_inv l h v ->
  (forall p, 0 < h -> l !! parent h = Some p -> comp p v = false) ->
  is_heap comp (<[h := v]> l).
Proof.
  intros [[Hed _] Hch] Htop i a b Hi Ha Hb.
  destruct (decide (i = h)) as [->|].
  - pose proof (parent_lt h Hi).
    assert (h < length l) by (apply lookup_lt_Some in Hb; rewrite length_insert in Hb; done).
    rewrite list_lookup_insert_eq in Hb by done.
    rewrite list_lookup_insert_ne in Ha by lia. simplify_eq. eauto.
  - rewrite (list_lookup_insert_ne _ _ i) in Hb by done.
    destruct (decide (parent i = h)) as [<-|].
    + rewrite list_lookup_insert_eq in Ha.
      * simplify_eq. eauto.
      * pose proof (parent_lt i Hi). apply lookup_lt_Some in Hb. lia.
    + rewrite list_lookup_insert_ne in Ha by done. eauto.
Qed.

(** Moving a dominated parent into the hole keeps the ascent invariant. *)
Lemma up_inv_step l h v p :
  0 < h -> h < length l -> up_inv l h v -> l !! parent h = Some p -> comp p v = true ->
  up_inv (<[h := p]> l) (parent h) v.
Proof.
  intros Hh Hlen [[Hed Hgp] Hch] Hp Hpv.
  pose proof (parent_lt h Hh) as Hlt.
  pose proof (sw_asym _ _ Hpv) as Hvp.
  assert (Hsib : forall i b, 0 < i -> i <> h -> parent i = parent h ->
            l !! i = Some b -> comp p b = false).
  { intros i b Hi Hne Hpi Hb. eapply (Hed i); [done|done| |by rewrite Hpi|done].
    rewrite Hpi. lia. }
  assert (Hchild : forall i b, 0 < i -> parent i = parent h ->
            <[h := p]> l !! i = Some b -> b = p \/ comp p b = false).
  { intros i b Hi Hpi Hb. destruct (decide (i = h)) as [->|].
    - rewrite list_lookup_insert_eq in Hb by done. simplify_eq. by left.
    - rewrite list_lookup_insert_ne in Hb by done. right. eauto. }
  assert (Hpp : forall a, 0 < parent h -> l !! parent (parent h) = Some a -> comp a p = false).
  { intros a H0 Ha. pose proof (parent_lt _ H0).
    eapply (Hed (parent h)); try done; lia. }
  split; [split|].
  - intros i a b Hi Hne1 Hne2 Ha Hb.
    assert (i <> h) by (intros ->; done).
    rewrite (list_lookup_insert_ne _ _ i) in Hb by done.
    destruct (decide (parent i = h)) as [Hph|].
    + rewrite <- Hph, list_lookup_insert_eq in Ha by (rewrite Hph; done).
      simplify_eq. eapply (Hgp i); eauto.
    + rewrite list_lookup_insert_ne in Ha by done. eauto.
  - intros i a b Hi H0 Hpi Ha Hb. pose proof (parent_lt _ H0).
    rewrite list_lookup_insert_ne in Ha by lia.
    destruct (Hchild i b) as [->|]; [done..|eauto|].
    eapply sw_negtrans; eauto.
  - intros i b Hi Hpi Hb.
    destruct (Hchild i b) as [->|]; [done..|].
    eapply sw_negtrans; eauto.
Qed.

Lemma sift_up_heap l h v :
  h < length l -> up_inv l h v -> is_heap comp (sift_up comp l h v).
Proof.
  revert l. induction (lt_wf h) as [h _ IH]. intros l Hh Hinv.
  destruct h as [|h]; simp sift_up.
  { apply up_inv_stop; [done|lia]. }
  destruct (l !! parent (S h)) as [p|] eqn:Hp; simp sift_up.
  - destruct (comp p v) eqn:Hc; simp sift_up.
    + pose proof (parent_lt (S h)). apply IH; [lia|rewrite length_insert; lia|].
      apply up_inv_step; [lia|done..].
    + apply up_inv_stop; [done|]. intros. by simplify_eq.
  - apply up_inv_stop; [done|]. intros. by simplify_eq.
Qed.

(** Moving the dominating child [c] into the hole keeps the descent invariant. *)
Lemma hole_inv_step l h ci c :
  0 < ci -> parent ci = h -> l !! ci = Some c -> hole_inv l h ->
  (forall i b, 0 < i -> parent i = h -> l !! i = Some b -> i = ci \/ comp c b = false) ->
  hole_inv (<[h := c]> l) ci.
Proof.
  intros Hci Hpc Hc [Hed Hgp] Hbest.
  pose proof (parent_lt ci Hci) as Hlt.
  assert (Hlen : h < length l) by (apply lookup_lt_Some in Hc; lia).
  split.
  - intros i a b Hi Hne1 Hne2 Ha Hb.
    destruct (decide (i = h)) as [->|].
    + rewrite list_lookup_insert_eq in Hb by done. simplify_eq.
      pose proof (parent_lt (parent ci) Hi).
      rewrite list_lookup_insert_ne in Ha by lia. eapply (Hgp ci); eauto.
    + rewrite (list_lookup_insert_ne _ _ i) in Hb by done.
      destruct (decide (parent i = h)) as [Hpi|].
      * rewrite Hpi, list_lookup_insert_eq in Ha by done. simplify_eq.
        destruct (Hbest i b); done.
      * rewrite list_lookup_insert_ne in Ha by done. eauto.
  - intros i a b Hi _ Hpi Ha Hb.
    rewrite Hpc, list_lookup_insert_eq in Ha by done. simplify_eq.
    pose proof (parent_lt i Hi).
    rewrite list_lookup_insert_ne in Hb by lia.
    eapply (Hed i); eauto; lia.
Qed.

Lemma insert_hole_perm l h ci c v :
  h < length l -> l !! ci = Some c -> h <> ci ->
  <[ci := v]> (<[h := c]> l) ≡ₚ <[h := v]> l.
Proof. intros. by apply insert_swap_perm. Qed.

Lemma descend_eq l h len :
  descend comp l h len =
  if decide (h < (len - 1) / 2) then
    match l !! (2 * (h + 1)), l !! (2 * (h + 1) - 1) with
    | Some r, Some c =>
        if comp r c then descend comp (<[h := c]> l) (2 * (h + 1) - 1) len
        else descend comp (<[h := r]> l) (2 * (h + 1)) len
    | _, _ => (l, h)
    end
  else (l, h).
Proof.
  rewrite descend_equation_1.
  destruct (decide _) as [Hd|Hd]; simp descend; [|done].
  destruct (l !! (2 * (h + 1))) as [r|], (l !! (2 * (h + 1) - 1)) as [c|];
    simp descend; try done.
  by destruct (comp r c); simp descend.
Qed.

(** The descent ends at a position without two children; filling the final hole
    is filling the initial one, up to a permutation. *)
Lemma descend_spec l h l' h' :
  h < length l -> descend comp l h (length l) = (l', h') -> hole_inv l h ->
  length l' = length l /\ h' < length l /\ hole_inv l' h' /\
  length l <= 2 * h' + 2 /\ forall v, <[h' := v]> l' ≡ₚ <[h := v]> l.
Proof.
  remember (length l - h) as n eqn:Hn. revert l h Hn l' h'.
  induction (lt_wf n) as [n _ IH]. intros l h -> l' h' Hh Hd Hinv.
  rewrite descend_eq in Hd.
  assert (Hdm : 2 * ((length l - 1) / 2) <= length l - 1 < 2 * ((length l - 1) / 2) + 2).
  { pose proof (Nat.div_mod_eq (length l - 1) 2).
    pose proof (Nat.mod_upper_bound (length l - 1) 2). lia. }
  destruct (decide (h < (length l - 1) / 2)) as [Hlt|Hge].
  2: { simplify_eq. repeat split; try done; try apply Hinv; lia. }
  destruct (lookup_lt_is_Some_2 l (2 * (h + 1))) as [r Hr]; [lia|].
  destruct (lookup_lt_is_Some_2 l (2 * (h + 1) - 1)) as [c Hc]; [lia|].
  assert (Hkids : forall i, 0 < i -> parent i = h -> i = 2 * (h + 1) - 1 \/ i = 2 * (h + 1)).
  { intros i Hi Hp. apply parent_child in Hp; lia. }
  rewrite Hr, Hc in Hd.
  assert (Hgo : forall ci x, (ci = 2 * (h + 1) - 1 \/ ci = 2 * (h + 1)) -> l !! ci = Some x ->
    (forall i b, 0 < i -> parent i = h -> l !! i = Some b -> i = ci \/ comp x b = false) ->
    descend comp (<[h := x]> l) ci (length l) = (l', h') ->
    length l' = length l /\ h' < length l /\ hole_inv l' h' /\
    length l <= 2 * h' + 2 /\ forall v, <[h' := v]> l' ≡ₚ <[h := v]> l).
  { intros ci x Hci Hx Hbest Hdd.
    assert (Hpc : parent ci = h) by (apply parent_child; lia).
    assert (Hlci : ci < length l) by lia.
    destruct (IH (length (<[h := x]> l) - ci) ltac:(rewrite length_insert; lia)
                (<[h := x]> l) ci eq_refl l' h') as (H1 & H2 & H3 & H4 & H5).
    - by rewrite length_insert.
    - by rewrite length_insert.
    - eapply hole_inv_step; eauto; lia.
    - rewrite length_insert in H1, H2, H4. repeat split; try done; try apply H3.
      intros v. rewrite H5. apply insert_hole_perm; [done|done|lia]. }
  destruct (comp r c) eqn:Hrc.
  - apply (Hgo _ c (or_introl eq_refl) Hc); [|done].
    intros i b Hi Hp Hb. destruct (Hkids i Hi Hp) as [->| ->]; [by left|].
    right. simplify_eq. by apply sw_asym.
  - apply (Hgo _ r (or_intror eq_refl) Hr); [|done].
    intros i b Hi Hp Hb. destruct (Hkids i Hi Hp) as [->| ->]; [|by left].
    right. by simplify_eq.
Qed.

(** [adjust_heap] replaces the first element by [v] and restores the heap. *)
Lemma adjust_heap_spec l v :
  0 < length l -> hole_inv l 0 ->
  adjust_heap comp l (length l) v ≡ₚ <[0 := v]> l /\
  is_heap comp (adjust_heap comp l (length l) v).
Proof.
  intros Hl Hinv. unfold adjust_heap.
  destruct (descend comp l 0 (length l)) as [l' h] eqn:Hd.
  destruct (descend_spec _ _ _ _ Hl Hd Hinv) as (Hlen & Hh & Hinv' & Hsz & Hperm).
  case_decide as Heven.
  - destruct (lookup_lt_is_Some_2 l' (2 * h + 1)) as [c Hc]; [lia|].
    rewrite Hc.
    assert (Hpc : parent (2 * h + 1) = h) by (apply parent_child; lia).
    assert (Hstep : hole_inv (<[h := c]> l') (2 * h + 1)).
    { eapply hole_inv_step; eauto; [lia|]. intros i b Hi Hp Hb.
      apply lookup_lt_Some in Hb. apply parent_child in Hp; lia. }
    split.
    + rewrite sift_up_perm by (rewrite length_insert; lia).
      rewrite insert_hole_perm by (done || lia). apply Hperm.
    + apply sift_up_heap; [rewrite length_insert; lia|]. split; [done|].
      intros i b Hi Hp Hb. apply lookup_lt_Some in Hb. rewrite length_insert in Hb.
      apply parent_child in Hp; lia.
  - split.
    + rewrite sift_up_perm by lia. apply Hperm.
    + apply sift_up_heap; [lia|]. split; [done|].
      intros i b Hi Hp Hb. apply lookup_lt_Some in Hb.
      apply parent_child in Hp; lia.
Qed.

Lemma is_heap_hole l h : is_heap comp l -> hole_inv l h.
Proof.
  intros Hl. split; [by eauto|]. intros i a b Hi Hh Hp Ha Hb.
  assert (is_Some (l !! h)) as [x Hx].
  { apply lookup_lt_is_Some_2. apply lookup_lt_Some in Hb.
    pose proof (parent_lt i Hi). lia. }
  eapply sw_negtrans; [by eapply (Hl h)|]. eapply (Hl i); [done| |done]. by rewrite Hp.
Qed.

Lemma is_heap_prefix l k : is_heap comp (l ++ k) -> is_heap comp l.
Proof.
  intros Hl i a b Hi Ha Hb. eapply (Hl i); [done|..]; by apply lookup_app_l_Some.
Qed.

Lemma std_push_heap_heap l x :
  is_heap comp l -> is_heap comp (std_push_heap comp (l ++ [x])).
Proof.
  intros Hl. unfold std_push_heap. rewrite last_snoc, length_app. simpl.
  replace (length l + 1 - 1) with (length l) by lia.
  apply sift_up_heap; [rewrite length_app; simpl; lia|]. split; [split|].
  - intros i a b Hi Hne Hpne Ha Hb.
    assert (i < length l).
    { apply lookup_lt_Some in Hb. rewrite length_app in Hb. simpl in Hb. lia. }
    pose proof (parent_lt i Hi).
    rewrite lookup_app_l in Ha, Hb by lia. eauto.
  - intros i a b Hi _ Hp _ Hb. apply lookup_lt_Some in Hb.
    rewrite length_app in Hb. simpl in Hb. pose proof (parent_lt i Hi). lia.
  - intros i b Hi Hp Hb. apply lookup_lt_Some in Hb.
    rewrite length_app in Hb. simpl in Hb. pose proof (parent_lt i Hi). lia.
Qed.

Lemma std_pop_heap_heap l :
  is_heap comp l -> is_heap comp (removelast (std_pop_heap comp l)).
Proof.
  intros Hl. unfold std_pop_heap.
  destruct l as [|x [|y l]]; [done|by intros [] ?? ?|].
  destruct (last (x :: y :: l)) as [v|] eqn:Hv; [|by rewrite last_None in Hv].
  rewrite removelast_last.
  replace (length (x :: y :: l) - 1) with (length (removelast (x :: y :: l)))
    by apply length_removelast.
  apply adjust_heap_spec; [rewrite length_removelast; simpl; lia|].
  apply is_heap_hole. apply is_heap_prefix with [v].
  by rewrite <- (removelast_last_split _ _ Hv).
Qed.

(** The first element of a heap dominates every element. *)
Lemma heap_head_dominates l x y :
  is_heap comp l -> head l = Some x -> y ∈ l -> comp x y = false \/ y = x.
Proof.
  intros Hl Hx [i Hi]%list_elem_of_lookup. rewrite head_lookup in Hx.
  revert y Hi. induction (lt_wf i) as [i _ IH]. intros y Hi.
  destruct (decide (i = 0)) as [->|]; [right; congruence|]. left.
  pose proof (parent_lt i ltac:(lia)).
  destruct (lookup_lt_is_Some_2 l (parent i)) as [p Hp].
  { apply lookup_lt_Some in Hi. lia. }
  assert (comp p y = false) by (eapply (Hl i); eauto; lia).
  destruct (IH _ ltac:(done) p Hp) as [| ->]; [|done]. eapply sw_negtrans; eauto.
Qed.

End correctness.

(** ** The instance *)

Lemma std_push_heap_perm {A} (comp : A -> A -> bool) l : std_push_heap comp l ≡ₚ l.
Proof.
  unfold std_push_heap. destruct (last l) as [v|] eqn:Hv; [|done].
  rewrite last_lookup in Hv. pose proof (lookup_lt_Some _ _ _ Hv).
  replace (length l - 1) with (pred (length l)) by lia.
  rewrite sift_up_perm by done. by rewrite list_insert_id.
Qed.

Lemma std_pop_heap_perm {A} (comp : A -> A -> bool) `{!StrictWeak comp} l :
  is_heap comp l -> std_pop_heap comp l ≡ₚ l.
Proof.
  intros Hl. unfold std_pop_heap. destruct l as [|x [|y l]]; [done..|].
  destruct (last (x :: y :: l)) as [v|] eqn:Hv; [|done].
  pose proof (removelast_last_split _ _ Hv) as Hsplit.
  pose proof (length_removelast (x :: y :: l)) as Hlen.
  replace (length (x :: y :: l) - 1) with (length (removelast (x :: y :: l))) by done.
  destruct (adjust_heap_spec comp (removelast (x :: y :: l)) v) as [Hp _].
  - rewrite Hlen. simpl. lia.
  - apply is_heap_hole; [done|]. apply is_heap_prefix with [v]. by rewrite <- Hsplit.
  - rewrite Hp. rewrite Hsplit at 2.
    change (removelast (x :: y :: l)) with (x :: removelast (y :: l)).
    generalize (removelast (y :: l)) as k. intros k. simpl.
    rewrite !(Permutation_app_comm k). apply perm_swap.
Qed.

Lemma std_pop_heap_last {A} (comp : A -> A -> bool) l :
  last (std_pop_heap comp l) = head l.
Proof.
  unfold std_pop_heap. destruct l as [|x [|y l]]; [done..|].
  destruct (last (x :: y :: l)) eqn:Hv; [by rewrite last_snoc|by rewrite last_None in Hv].
Qed.

#[export] Instance std_heap_ops : HeapOps := {|
  push_heap := @std_push_heap;
  pop_heap := @std_pop_heap;
  push_heap_perm := @std_push_heap_perm;
  push_heap_heap := @std_push_heap_heap;
  pop_heap_perm := @std_pop_heap_perm;
  pop_heap_last := @std_pop_heap_last;
  pop_heap_heap := @std_pop_heap_heap
|}.

Example std_heap_run :
  let comp := fun a b : Z => (b <? a)%Z in
  let l := foldl (fun l x => std_push_heap comp (l ++ [x])) [] [7; 3; 9; 1; 5]%Z in
  std_pop_heap comp l = [3; 5; 9; 7; 1]%Z.
Proof. reflexivity. Qed.
