(* ===== verification/Thread.v ===== *)
(** * Coroutine threads (src/thread.h, src/thread.cc)

    A [Stack] is a block of memory of a given size, a [Thread] is a stack, a
    saved machine context ([ucontext_t]), a state and a wake-up time.  Fields
    that the constructor leaves uninitialised are [None] until they are
    written; [thread_id_] and [parent_] are never read nor written and have no
    field here.

    A machine context is either an entry point that [makecontext] has prepared
    (the function to call, on the thread's own stack) or the point of the
    scheduler at which [Thread::Schedule] saved the running computation: every
    caller saves the context and then leaves through [Frame::Schedule], so that
    the saved computation goes on after that call. *)

From S2P Require Import Prelude.

(** ** Stack *)

Record Stack := mkStack {
  stack_ : option Z;  (** the block, of the size it was allocated with *)
  size_ : Z
}.

Definition kMaxStackSize : Z := 128 * 1024.

Definition Stack_new : Stack := mkStack None 0.

Definition Stack_new_sized (size : Z) : Stack :=
  let size := if kMaxStackSize <? size then kMaxStackSize else size in
  mkStack (Some size) size.

(** The old block, if any, is released before the new one is allocated. *)
Definition Stack_Init (size : Z) (s : Stack) : bool * Stack :=
  (true, mkStack (Some size) size).

Definition GetStackBeginPoint (s : Stack) : option Z := stack_ s.
Definition Stack_Size (s : Stack) : Z := size_ s.

(** ** Thread *)

Definition tid := nat.
Definition Work := nat.

Inductive ThreadState := TS_STOP | TS_RUNNABLE | TS_PENDING | TS_DEAD.

#[export] Instance ThreadState_eq_dec : EqDecision ThreadState.
Proof. solve_decision. Defined.

(** The functions a context can start from. *)
Inductive BeginFrom :=
  | MainThreadLoop_fn
  | HandleProcess_fn (w : Work).

#[export] Instance BeginFrom_eq_dec : EqDecision BeginFrom.
Proof. solve_decision. Defined.

(** Where in [Frame] a running computation saved its context. *)
Inductive save_point :=
  | In_Init
  | In_InitHereAsNewThread
  | In_Sleep
  | In_io_wait (fd : Z).

Inductive ucontext :=
  | uc_entry (func : BeginFrom) (ss_sp : option Z) (ss_size : Z)
  | uc_saved (at_ : save_point).

Record Thread := mkThread {
  fun_ : option BeginFrom;
  t_stack_ : Stack;
  state_ : option ThreadState;
  uc_ : option ucontext;
  wakeup_ts_ : option Z
}.

Definition Thread_new : Thread := mkThread None Stack_new None None None.

Definition SetState (s : ThreadState) (t : Thread) : Thread :=
  mkThread (fun_ t) (t_stack_ t) (Some s) (uc_ t) (wakeup_ts_ t).

Definition GetState (t : Thread) : option ThreadState := state_ t.

Definition Pending (ms : Z) (t : Thread) : Thread :=
  mkThread (fun_ t) (t_stack_ t) (state_ t) (uc_ t) (Some ms).

(** Reading the field before it is written gives no particular value; [0] here. *)
Definition GetWakeupTime (t : Thread) : Z := default 0 (wakeup_ts_ t).

Definition Thread_Init (t : Thread) : bool * Thread :=
  let '(ok, s) := Stack_Init kMaxStackSize (t_stack_ t) in
  if ok then
    (true, mkThread (fun_ t) s (Some TS_STOP) (uc_ t) (wakeup_ts_ t))
  else (false, mkThread (fun_ t) s (state_ t) (uc_ t) (wakeup_ts_ t)).

(** [getcontext]: save the running computation. *)
Definition Thread_Schedule (p : save_point) (t : Thread) : Thread :=
  mkThread (fun_ t) (t_stack_ t) (state_ t) (Some (uc_saved p)) (wakeup_ts_ t).

Definition SetContext (func : BeginFrom) (t : Thread) : Thread :=
  mkThread (Some func) (t_stack_ t) (state_ t)
    (Some (uc_entry func (GetStackBeginPoint (t_stack_ t)) (Stack_Size (t_stack_ t))))
    (wakeup_ts_ t).

(** [setcontext]: the context to continue from; [None] when none was saved. *)
Definition RestoreContext (t : Thread) : option ucontext := uc_ t.

(** ** ThreadWrapper *)

Record ThreadWrapper := mkThreadWrapper { tw_t : option tid }.

(** [None]: the wrapper holds a null or dangling pointer. *)
Definition IsDead (store : gmap tid Thread) (w : ThreadWrapper) : option bool :=
  t ← tw_t w; th ← store !! t; Some (bool_decide (GetState th = Some TS_DEAD)).

Definition IsValid (w : ThreadWrapper) : bool :=
  match tw_t w with Some _ => true | None => false end.

(** ** Facts *)

(** A context is usable when restoring it either continues a saved computation
    or starts a function on a stack of the full size. *)
Definition uc_ok (u : ucontext) : Prop :=
  match u with
  | uc_entry _ sp size => sp = Some size /\ size = kMaxStackSize
  | uc_saved _ => True
  end.

Definition has_context (t : Thread) : Prop := exists u, RestoreContext t = Some u /\ uc_ok u.

Lemma has_context_Schedule p t : has_context (Thread_Schedule p t).
Proof. by eexists. Qed.

Lemma has_context_SetContext func t : has_context (SetContext func (Thread_Init t).2).
Proof. by eexists. Qed.

Lemma has_context_SetState s t : has_context (SetState s t) <-> has_context t.
Proof. done. Qed.

Lemma has_context_Pending ms t : has_context (Pending ms t) <-> has_context t.
Proof. done. Qed.

#[export] Hint Resolve has_context_Schedule has_context_SetContext : tinyco.
