(* ===== verification/Frame.v ===== *)
(** * The coroutine scheduler (src/frame.h, src/frame.cc)

    [frame] is the static state of class [Frame] together with the memory its
    pointers lead to: [store] holds the live [Thread] objects, a [Thread*] is
    an [option tid] ([None] is the null pointer).  [events] holds, for each
    thread, the [struct event] on its stack that it last handed to libevent.

    [Frame::Schedule] does not return to its caller: it continues in another
    context.  It is modelled as the new state together with the [control], the
    context that executes next.  [None] as a result means that the program
    crashed: a null or dangling [Thread*] was dereferenced, a context that was
    never saved was restored, or an object was deleted twice. *)

From S2P Require Import Prelude Heap Thread.

(** ** libevent

    The flags of the documented interface, and the part of [struct event] the
    program reads. *)

Definition EV_TIMEOUT : Z := 1.
Definition EV_READ : Z := 2.
Definition EV_WRITE : Z := 4.
Definition EV_CLOSED : Z := 128.

Record event := mkEvent {
  ev_fd : Z;
  ev_events : Z;
  ev_res : Z;
  ev_added : bool
}.

Inductive base_ptr := base_null | base_live | base_freed.

#[export] Instance base_ptr_eq_dec : EqDecision base_ptr.
Proof. solve_decision. Defined.

(** ** State *)

Record frame := mkFrame {
  store : gmap tid Thread;
  next_tid : tid;
  io_wait_map_ : gmap Z (option tid);
  thread_runnable_ : list (option tid);
  thread_free_ : list tid;
  thread_pending_ : list tid;
  main_thread_ : option tid;
  running_thread_ : option tid;
  base_ : base_ptr;
  last_loop_ts_ : Z;
  events : gmap tid event
}.

(** The statics before [Frame::Init]. *)
Definition frame0 : frame :=
  mkFrame ∅ 0%nat ∅ [] [] [] None None base_null 0 ∅.

Definition set_store f x := mkFrame f (next_tid x) (io_wait_map_ x) (thread_runnable_ x)
  (thread_free_ x) (thread_pending_ x) (main_thread_ x) (running_thread_ x) (base_ x)
  (last_loop_ts_ x) (events x).
Definition set_io f x := mkFrame (store x) (next_tid x) f (thread_runnable_ x)
  (thread_free_ x) (thread_pending_ x) (main_thread_ x) (running_thread_ x) (base_ x)
  (last_loop_ts_ x) (events x).
Definition set_runnable f x := mkFrame (store x) (next_tid x) (io_wait_map_ x) f
  (thread_free_ x) (thread_pending_ x) (main_thread_ x) (running_thread_ x) (base_ x)
  (last_loop_ts_ x) (events x).
Definition set_free f x := mkFrame (store x) (next_tid x) (io_wait_map_ x)
  (thread_runnable_ x) f (thread_pending_ x) (main_thread_ x) (running_thread_ x) (base_ x)
  (last_loop_ts_ x) (events x).
Definition set_pending f x := mkFrame (store x) (next_tid x) (io_wait_map_ x)
  (thread_runnable_ x) (thread_free_ x) f (main_thread_ x) (running_thread_ x) (base_ x)
  (last_loop_ts_ x) (events x).
Definition set_main f x := mkFrame (store x) (next_tid x) (io_wait_map_ x)
  (thread_runnable_ x) (thread_free_ x) (thread_pending_ x) f (running_thread_ x) (base_ x)
  (last_loop_ts_ x) (events x).
Definition set_running f x := mkFrame (store x) (next_tid x) (io_wait_map_ x)
  (thread_runnable_ x) (thread_free_ x) (thread_pending_ x) (main_thread_ x) f (base_ x)
  (last_loop_ts_ x) (events x).
Definition set_base f x := mkFrame (store x) (next_tid x) (io_wait_map_ x)
  (thread_runnable_ x) (thread_free_ x) (thread_pending_ x) (main_thread_ x)
  (running_thread_ x) f (last_loop_ts_ x) (events x).
Definition set_loop_ts f x := mkFrame (store x) (next_tid x) (io_wait_map_ x)
  (thread_runnable_ x) (thread_free_ x) (thread_pending_ x) (main_thread_ x)
  (running_thread_ x) (base_ x) f (events x).
Definition set_events f x := mkFrame (store x) (next_tid x) (io_wait_map_ x)
  (thread_runnable_ x) (thread_free_ x) (thread_pending_ x) (main_thread_ x)
  (running_thread_ x) (base_ x) (last_loop_ts_ x) f.

(** The context that executes: the main loop or a coroutine. *)
Inductive control := InMain | InThread (t : tid).

#[export] Instance control_eq_dec : EqDecision control.
Proof. solve_decision. Defined.

(** ** Memory *)

(** [new Thread]. *)
Definition new_Thread (x : frame) : tid * frame :=
  let t := next_tid x in
  (t, mkFrame (<[t := Thread_new]> (store x)) (S t) (io_wait_map_ x) (thread_runnable_ x)
        (thread_free_ x) (thread_pending_ x) (main_thread_ x) (running_thread_ x) (base_ x)
        (last_loop_ts_ x) (events x)).

(** [delete p]: nothing for a null pointer, a crash for a dangling one. *)
Definition delete_Thread (p : option tid) (x : frame) : option frame :=
  match p with
  | None => Some x
  | Some t =>
      match store x !! t with
      | Some _ => Some (set_store (delete t (store x)) x)
      | None => None
      end
  end.

(** [p->f()]. *)
Definition call (p : option tid) (f : Thread -> Thread) (x : frame) : option frame :=
  t ← p; th ← store x !! t; Some (set_store (<[t := f th]> (store x)) x).

#[global] Arguments call : simpl never.
#[global] Arguments delete_Thread : simpl never.

(** ** The ready queue *)

Definition Frame_Schedule (x : frame) : option (frame * control) :=
  match thread_runnable_ x with
  | [] =>
      m ← main_thread_ x; th ← store x !! m; _ ← RestoreContext th;
      Some (x, InMain)
  | p :: rest =>
      let x := set_runnable rest (set_running p x) in
      t ← p; th ← store x !! t; _ ← RestoreContext th;
      Some (x, InThread t)
  end.

(** ** Sleeping threads *)

Definition GetLastLoopTimestamp (x : frame) : Z := last_loop_ts_ x.

Section sleeping.
Context {HO : HeapOps}.

(** [true] when [a] wakes up after [b]: the top of the heap wakes up first. *)
Definition ThreadPendingTimeComp (s : gmap tid Thread) (a b : tid) : bool :=
  GetWakeupTime (default Thread_new (s !! b)) <?
  GetWakeupTime (default Thread_new (s !! a)).

Definition PendThread (t : tid) (x : frame) : frame :=
  set_pending (push_heap (ThreadPendingTimeComp (store x)) (thread_pending_ x ++ [t])) x.

Definition PopPendingTop (x : frame) : option (tid * frame) :=
  let v := pop_heap (ThreadPendingTimeComp (store x)) (thread_pending_ x) in
  t ← last v; Some (t, set_pending (removelast v) x).

(** The [while] loop: [sz] bounds the iterations.  After the last pop [*begin()]
    of the now empty vector reads the slot that was just vacated. *)
Fixpoint wakeup_loop (sz : nat) (n : tid) (nowms : Z) (x : frame) : option frame :=
  match sz with
  | O => Some x
  | S sz =>
      th ← store x !! n;
      if GetWakeupTime th <=? nowms then
        '(n, x) ← PopPendingTop x;
        x ← call (Some n) (Pending 0) x;
        x ← call (Some n) (SetState TS_RUNNABLE) x;
        let x := set_runnable (thread_runnable_ x ++ [Some n]) x in
        wakeup_loop sz (default n (head (thread_pending_ x))) nowms x
      else Some x
  end.

Definition WakeupPendingThread (x : frame) : option frame :=
  let nowms := GetLastLoopTimestamp x in
  match thread_pending_ x with
  | [] => Some x
  | n :: _ => wakeup_loop (length (thread_pending_ x)) n nowms x
  end.

(** [timeval] as [(tv_sec, tv_usec)].  [delta] is an [int]; the divisions are
    unsigned 64-bit. *)
Definition GetEventLoopTimeout (x : frame) : Z * Z :=
  let nowms := last_loop_ts_ x in
  match thread_pending_ x with
  | [] => (0, 100000)
  | mint :: _ =>
      let w := GetWakeupTime (default Thread_new (store x !! mint)) in
      if w <? nowms then (0, 0)
      else
        let delta := s32 (u64 (w - nowms)) in
        let tv_sec := s64 (u64 delta / 1000) in
        (tv_sec, s64 (u64 (u64 (u64 delta - u64 (tv_sec * 1000)) * 1000)))
  end.

(** [now] is [time::mstime()]. *)
Definition Frame_Sleep (now ms : Z) (x : frame) : option (frame * control) :=
  match running_thread_ x with
  | Some t =>
      x ← call (Some t) (Pending (u64 (now + ms))) x;
      x ← call (Some t) (SetState TS_STOP) x;
      let x := PendThread t x in
      x ← call (Some t) (Thread_Schedule In_Sleep) x;
      Frame_Schedule (set_running None x)
  | None => Frame_Schedule x
  end.

Definition UpdateLoopTimestamp (now : Z) (x : frame) : frame := set_loop_ts now x.

(** ** Input and output *)

(** Every caller hands the pointer to libevent, which a freed base crashes. *)
Definition GetEventBase (x : frame) : option frame :=
  match base_ x with
  | base_null => Some (set_base base_live x)
  | base_live => Some x
  | base_freed => None
  end.

(** The block with which [accept], [connect], [send], [recv] and [recvfrom]
    wait for the socket: assign and add the event, enter the wait map, save the
    context and schedule out. *)
Definition io_wait (fd evs : Z) (x : frame) : option (frame * control) :=
  x ← GetEventBase x;
  t ← running_thread_ x;
  let x := set_events (<[t := mkEvent fd evs 0 true]> (events x)) x in
  let x := set_io (<[fd := running_thread_ x]> (io_wait_map_ x)) x in
  x ← call (running_thread_ x) (Thread_Schedule (In_io_wait fd)) x;
  x ← call (running_thread_ x) (SetState TS_STOP) x;
  Frame_Schedule x.

(** The callback.  [io_wait_map_[fd]] of an absent [fd] is a null pointer. *)
Definition SocketReadOrWrite (fd : Z) (arg : tid) (x : frame) : frame :=
  let del e := mkEvent (ev_fd e) (ev_events e) (ev_res e) false in
  let x := set_events (alter del arg (events x)) x in
  let x := set_runnable (thread_runnable_ x ++ [default None (io_wait_map_ x !! fd)]) x in
  set_io (delete fd (io_wait_map_ x)) x.

(** One [event_base_loop(base, EVLOOP_ONCE)].  [fired] is libevent's choice: no
    event of a thread (the exit timer fired) or the added event of thread [t]
    with result [res].  At most one callback runs, since the callback breaks
    out of the loop. *)
Definition EventLoop (tv : Z * Z) (fired : option (tid * Z)) (x : frame) : option frame :=
  x ← GetEventBase x;
  match fired with
  | None => Some x
  | Some (t, res) =>
      e ← events x !! t;
      if ev_added e then
        let x := set_events
          (<[t := mkEvent (ev_fd e) (ev_events e) res (ev_added e)]> (events x)) x in
        Some (SocketReadOrWrite (ev_fd e) t x)
      else None
  end.

(** One iteration of the main loop.  The main context is never saved, so that
    returning to it starts the loop again: an iteration and a restart are the
    same step. *)
Definition MainThreadLoop (now : Z) (fired : option (tid * Z)) (x : frame)
    : option (frame * control) :=
  let x := UpdateLoopTimestamp now x in
  let timeout := GetEventLoopTimeout x in
  x ← EventLoop timeout fired x;
  x ← WakeupPendingThread x;
  Frame_Schedule x.

End sleeping.

(** ** Creating and ending threads *)

Definition AllocNewThread (x : frame) : option (tid * frame) :=
  match last (thread_free_ x) with
  | None => Some (new_Thread x)
  | Some t =>
      let x := set_free (removelast (thread_free_ x)) x in
      x ← call (Some t) (SetState TS_STOP) x;
      Some (t, x)
  end.

Definition CreateThread (w : Work) (x : frame) : option (ThreadWrapper * frame) :=
  '(t, x) ← AllocNewThread x;
  x ← call (Some t) (fun th => (Thread_Init th).2) x;
  x ← call (Some t) (SetContext (HandleProcess_fn w)) x;
  Some (mkThreadWrapper (Some t), set_runnable (thread_runnable_ x ++ [Some t]) x).

Definition RecycleRunningThread (x : frame) : option frame :=
  t ← running_thread_ x;
  x ← call (Some t) (SetState TS_DEAD) x;
  Some (set_running None (set_free (thread_free_ x ++ [t]) x)).

(** What follows [w->Run()] in [HandleProcess]; the run itself is the steps of
    the coroutine. *)
Definition HandleProcess (x : frame) : option (frame * control) :=
  x ← RecycleRunningThread x; Frame_Schedule x.

(** ** Start and stop *)

(** The body of the loop that fills the free list. *)
Definition push_new (x : frame) : frame :=
  let '(t, x) := new_Thread x in set_free (thread_free_ x ++ [t]) x.

(** [pool] is the number of threads the free list starts with. *)
Definition Frame_Init_pool (pool : nat) (x : frame) : option (bool * frame) :=
  match main_thread_ x, base_ x with
  | None, base_null =>
      let '(m, x) := new_Thread x in
      x ← call (Some m) (fun th => (Thread_Init th).2) x;
      x ← call (Some m) (SetContext MainThreadLoop_fn) x;
      let x := set_main (Some m) x in
      let '(r, x) := new_Thread x in
      let x := set_running (Some r) x in
      th ← store x !! r;
      let '(ok, th) := Thread_Init th in
      let x := set_store (<[r := th]> (store x)) x in
      if ok then
        let x := Nat.iter pool push_new x in
        x ← call (Some r) (Thread_Schedule In_Init) x;
        Some (true, set_base base_null x)
      else Some (false, x)
  | _, _ => Some (false, x)
  end.

Definition Frame_Init : frame -> option (bool * frame) := Frame_Init_pool 1000.

Definition InitHereAsNewThread (x : frame) : option frame :=
  let '(t, x) := new_Thread x in
  x ← call (Some t) (fun th => (Thread_Init th).2) x;
  x ← call (Some t) (Thread_Schedule In_InitHereAsNewThread) x;
  Some (set_running (Some t) x).

Fixpoint delete_all (l : list (option tid)) (x : frame) : option frame :=
  match l with
  | [] => Some x
  | p :: l => x ← delete_Thread p x; delete_all l x
  end.

Definition Frame_Fini (x : frame) : option (bool * frame) :=
  x ← delete_Thread (running_thread_ x) x;
  let x := set_running None x in
  x ← delete_Thread (main_thread_ x) x;
  let x := set_main None x in
  x ← delete_all (thread_runnable_ x) x;
  x ← delete_all (Some <$> thread_free_ x) x;
  x ← delete_all (map_to_list (io_wait_map_ x)).*2 x;
  match base_ x with
  | base_null => Some (true, x)
  | base_live => Some (true, set_base base_freed x)
  | base_freed => None
  end.
