(* ===== verification/FrameFacts.v ===== *)
(** * Facts on the scheduler's operations

    The sleeping queue: what [PendThread], [PopPendingTop] and
    [WakeupPendingThread] do to the heap, the store and the ready queue, and
    the bounds of [GetEventLoopTimeout].  Everything is proved against the
    interface [HeapOps]. *)

From S2P Require Import Prelude Heap Thread Frame.

(** The wake-up time of the thread [t] points to. *)
Definition wake (s : gmap tid Thread) (t : tid) : Z :=
  GetWakeupTime (default Thread_new (s !! t)).

(** What waking up does to the object: the wake-up time is cleared, the state
    becomes runnable. *)
Definition woken (th : Thread) : Thread := SetState TS_RUNNABLE (Pending 0 th).

(** The store after all threads of [due] have been woken. *)
Definition wake_all (due : list tid) (s : gmap tid Thread) : gmap tid Thread :=
  foldl (fun s t => alter woken t s) s due.

Lemma comp_wake s a b : ThreadPendingTimeComp s a b = (wake s b <? wake s a).
Proof. done. Qed.

#[export] Instance comp_strict_weak s : StrictWeak (ThreadPendingTimeComp s).
Proof. split; intros *; rewrite ?comp_wake; lia. Qed.

Lemma is_heap_ext {A} (c c' : A -> A -> bool) l :
  (forall a b, a ∈ l -> b ∈ l -> c a b = c' a b) -> is_heap c l -> is_heap c' l.
Proof.
  intros Heq Hl i a b Hi Ha Hb.
  rewrite <- Heq by eauto using list_elem_of_lookup_2. eauto.
Qed.

Lemma wake_insert_ne s t u th : t <> u -> wake (<[t := th]> s) u = wake s u.
Proof. intros. unfold wake. by rewrite lookup_insert_ne. Qed.

Lemma wake_insert_eq s t th : wake (<[t := th]> s) t = GetWakeupTime th.
Proof. unfold wake. by rewrite lookup_insert_eq. Qed.

(** An object outside the heap can change. *)
Lemma heap_insert_other s t th l :
  t ∉ l -> is_heap (ThreadPendingTimeComp s) l ->
  is_heap (ThreadPendingTimeComp (<[t := th]> s)) l.
Proof.
  intros Ht. apply is_heap_ext. intros a b Ha Hb. rewrite !comp_wake.
  rewrite !wake_insert_ne; set_solver.
Qed.

(** An object of the heap can change as long as its wake-up time does not. *)
Lemma heap_insert_same s t th th' l :
  s !! t = Some th -> GetWakeupTime th' = GetWakeupTime th ->
  is_heap (ThreadPendingTimeComp s) l ->
  is_heap (ThreadPendingTimeComp (<[t := th']> s)) l.
Proof.
  intros Ht Hw. apply is_heap_ext. intros a b _ _. rewrite !comp_wake.
  assert (forall c, wake (<[t := th']> s) c = wake s c) as Hc.
  { intros c. destruct (decide (t = c)) as [->|]; [|by rewrite wake_insert_ne].
    rewrite wake_insert_eq. unfold wake. by rewrite Ht. }
  by rewrite !Hc.
Qed.

#[export] Hint Resolve heap_insert_other : tinyco.

Lemma call_Some t th f x :
  store x !! t = Some th -> call (Some t) f x = Some (set_store (<[t := f th]> (store x)) x).
Proof. intros Ht. unfold call. simpl. by rewrite Ht. Qed.

Section sleeping.
Context {HO : HeapOps}.

Lemma PendThread_heap t x :
  is_heap (ThreadPendingTimeComp (store x)) (thread_pending_ x) ->
  is_heap (ThreadPendingTimeComp (store x)) (thread_pending_ (PendThread t x)).
Proof. intros. simpl. apply push_heap_heap; [apply _|done]. Qed.

Lemma PendThread_perm t x : thread_pending_ (PendThread t x) ≡ₚ t :: thread_pending_ x.
Proof. simpl. rewrite push_heap_perm. by rewrite Permutation_app_comm. Qed.

(** On a heap the popped thread is the first one, and what remains is a heap of
    the other threads. *)
Lemma PopPendingTop_spec n l x :
  is_heap (ThreadPendingTimeComp (store x)) (thread_pending_ x) ->
  thread_pending_ x = n :: l ->
  exists rest, PopPendingTop x = Some (n, set_pending rest x) /\
    n :: rest ≡ₚ thread_pending_ x /\ is_heap (ThreadPendingTimeComp (store x)) rest.
Proof.
  intros Hh Hl. unfold PopPendingTop.
  set (v := pop_heap _ _).
  assert (Hlast : last v = Some n) by (unfold v; rewrite pop_heap_last, Hl; done).
  rewrite Hlast. simpl. exists (removelast v). split; [done|]. split.
  - rewrite Permutation_cons_append. rewrite <- (removelast_last_split _ _ Hlast).
    unfold v. apply pop_heap_perm; [apply _|done].
  - unfold v. apply pop_heap_heap; [apply _|done].
Qed.

Lemma wake_all_lookup_other due s t : t ∉ due -> wake_all due s !! t = s !! t.
Proof.
  revert s. induction due as [|d due IH]; intros s Ht; [done|].
  simpl. rewrite IH by set_solver. apply lookup_alter_ne. set_solver.
Qed.

Lemma wake_all_lookup due s t :
  NoDup due -> t ∈ due -> wake_all due s !! t = woken <$> s !! t.
Proof.
  revert s. induction due as [|d due IH]; intros s Hnd Ht; [set_solver|].
  apply NoDup_cons in Hnd as [Hd Hnd]. simpl.
  destruct (decide (t = d)) as [->|].
  - rewrite wake_all_lookup_other by done. apply lookup_alter_eq.
  - apply elem_of_cons in Ht as [?|Ht]; [done|].
    rewrite IH by done. by rewrite lookup_alter_ne.
Qed.

(** Waking leaves the context of every object as it is. *)
Lemma wake_all_uc due s t : uc_ <$> wake_all due s !! t = uc_ <$> s !! t.
Proof.
  revert s. induction due as [|d due IH]; intros s; [done|]. simpl. rewrite IH.
  destruct (decide (d = t)) as [->|]; [|by rewrite lookup_alter_ne].
  rewrite lookup_alter_eq. by destruct (s !! t).
Qed.

Lemma wake_alter_ne s t u f : t <> u -> wake (alter f t s) u = wake s u.
Proof. intros. unfold wake. by rewrite lookup_alter_ne. Qed.

(** The invariant of the sleeping queue. *)
Record pending_ok (x : frame) : Prop := {
  pending_nodup : NoDup (thread_pending_ x);
  pending_live t : t ∈ thread_pending_ x -> is_Some (store x !! t);
  pending_heap : is_heap (ThreadPendingTimeComp (store x)) (thread_pending_ x)
}.

(** What waking up does, at time [now]: the threads of [due] move to the end of
    the ready queue in the order of their wake-up times, exactly those that are
    due, and nothing else changes. *)
Record wakes (now : Z) (x : frame) (due rest : list tid) : Prop := {
  wakes_perm : due ++ rest ≡ₚ thread_pending_ x;
  wakes_due t : t ∈ due -> wake (store x) t <= now;
  wakes_rest t : t ∈ rest -> now < wake (store x) t;
  wakes_sorted : StronglySorted (fun a b => wake (store x) a <= wake (store x) b) due
}.

Definition wakes_result (due rest : list tid) (x : frame) : frame :=
  set_runnable (thread_runnable_ x ++ (Some <$> due))
    (set_pending rest (set_store (wake_all due (store x)) x)).

Lemma heap_head_first x n t :
  pending_ok x -> head (thread_pending_ x) = Some n -> t ∈ thread_pending_ x ->
  wake (store x) n <= wake (store x) t.
Proof.
  intros Hok Hn Ht.
  destruct (heap_head_dominates (ThreadPendingTimeComp (store x)) _ n t
              (pending_heap _ Hok) Hn Ht) as [Hc| ->]; [|lia].
  rewrite comp_wake in Hc. lia.
Qed.

(** One iteration of the loop when the first thread is due. *)
Lemma wakeup_step x n l :
  pending_ok x -> thread_pending_ x = n :: l ->
  exists rest, let x1 := wakes_result [n] rest x in
    n :: rest ≡ₚ thread_pending_ x /\ pending_ok x1 /\
    ('(n, x) ← PopPendingTop x; x ← call (Some n) (Pending 0) x;
     x ← call (Some n) (SetState TS_RUNNABLE) x;
     Some (n, set_runnable (thread_runnable_ x ++ [Some n]) x)) = Some (n, x1).
Proof.
  intros Hok Hl.
  destruct (PopPendingTop_spec n l x (pending_heap _ Hok) Hl) as (rest & -> & Hp & Hh).
  exists rest. split; [done|].
  assert (is_Some (store x !! n)) as [th Hth].
  { apply Hok. rewrite Hl. set_solver. }
  assert (Hal : wake_all [n] (store x) = <[n := woken th]> (store x)).
  { simpl. apply map_eq. intros i. destruct (decide (i = n)) as [->|].
    - by rewrite lookup_alter_eq, Hth, lookup_insert_eq.
    - by rewrite lookup_alter_ne, lookup_insert_ne. }
  assert (Hnd : NoDup (n :: rest)) by (rewrite Hp; apply Hok).
  apply NoDup_cons in Hnd as [Hnin Hnd].
  split.
  - split; cbn [thread_pending_ wakes_result set_runnable set_pending set_store store].
    + done.
    + rewrite Hal. intros t Ht. destruct (decide (n = t)) as [->|]; [set_solver|].
      rewrite lookup_insert_ne by done. apply Hok. rewrite <- Hp. set_solver.
    + rewrite Hal. by apply heap_insert_other.
  - simpl. erewrite call_Some by done. simpl.
    erewrite call_Some by (simpl; by rewrite lookup_insert_eq). simpl.
    unfold wakes_result. rewrite Hal. by rewrite insert_insert_eq.
Qed.

Lemma wakes_result_compose due1 due2 rest1 rest2 x :
  wakes_result due2 rest2 (wakes_result due1 rest1 x) = wakes_result (due1 ++ due2) rest2 x.
Proof.
  unfold wakes_result, wake_all, set_runnable, set_pending, set_store. simpl.
  by rewrite foldl_app, fmap_app, app_assoc.
Qed.

(** Waking the first thread and then the due ones of the rest. *)
Lemma wakes_cons now x m rest1 due rest :
  pending_ok x -> head (thread_pending_ x) = Some m -> wake (store x) m <= now ->
  m :: rest1 ≡ₚ thread_pending_ x ->
  wakes now (wakes_result [m] rest1 x) due rest -> wakes now x (m :: due) rest.
Proof.
  intros Hok Hm Hdue Hp1 Hw.
  assert (Hnin : m ∉ rest1).
  { assert (Hnd : NoDup (m :: rest1)) by (rewrite Hp1; apply Hok).
    by apply NoDup_cons in Hnd as [??]. }
  assert (Hsub : forall t, t ∈ due ++ rest -> t ∈ rest1).
  { intros t. by rewrite (wakes_perm _ _ _ _ Hw). }
  assert (Hwk : forall t, t ∈ rest1 ->
            wake (store (wakes_result [m] rest1 x)) t = wake (store x) t).
  { intros t Ht. apply wake_alter_ne. by intros ->. }
  split.
  - simpl. rewrite (wakes_perm _ _ _ _ Hw). done.
  - intros t [->|Ht]%elem_of_cons; [done|].
    rewrite <- Hwk by set_solver. by apply (wakes_due _ _ _ _ Hw).
  - intros t Ht. rewrite <- Hwk by set_solver. by apply (wakes_rest _ _ _ _ Hw).
  - constructor.
    + eapply StronglySorted_impl; [|exact (wakes_sorted _ _ _ _ Hw)].
      intros a b Ha Hb. cbv beta. rewrite !Hwk by set_solver. done.
    + apply Forall_forall. intros t Ht. eapply heap_head_first; eauto.
      rewrite <- Hp1. set_solver.
Qed.

Lemma wakes_result_nil x : wakes_result [] (thread_pending_ x) x = x.
Proof. unfold wakes_result. simpl. rewrite app_nil_r. by destruct x. Qed.

Lemma wakeup_loop_spec sz n now x :
  pending_ok x -> sz = length (thread_pending_ x) ->
  (forall m, head (thread_pending_ x) = Some m -> n = m) ->
  exists due rest, wakes now x due rest /\
    wakeup_loop sz n now x = Some (wakes_result due rest x) /\
    pending_ok (wakes_result due rest x).
Proof.
  revert n x. induction sz as [|sz IH]; intros n x Hok Hsz Hn.
  { exists [], (thread_pending_ x). rewrite wakes_result_nil. split; [|done].
    assert (thread_pending_ x = []) as He by by apply nil_length_inv.
    split; rewrite ?He; set_solver || constructor. }
  destruct (thread_pending_ x) as [|m l] eqn:Hl; [done|].
  specialize (Hn m eq_refl) as ->.
  assert (is_Some (store x !! m)) as [th Hth] by (apply Hok; rewrite Hl; set_solver).
  assert (Hw : GetWakeupTime th = wake (store x) m) by (unfold wake; by rewrite Hth).
  cbn [wakeup_loop]. rewrite Hth. cbn [mbind option_bind]. rewrite Hw.
  destruct (Z.leb_spec (wake (store x) m) now) as [Hdue|Hlate].
  - destruct (wakeup_step x m l Hok Hl) as (rest1 & Hp1 & Hok1 & Hrun).
    set (x1 := wakes_result [m] rest1 x) in *.
    destruct (IH (default m (head rest1)) x1) as (due & rest & Hwakes & Hloop & Hokr).
    + done.
    + simpl. apply Permutation_length in Hp1. rewrite Hl in Hp1. simpl in *. lia.
    + intros k. simpl. by intros ->.
    + exists (m :: due), rest. unfold x1 in Hokr. rewrite wakes_result_compose in Hokr.
      split; [|split; [|done]].
      * eapply wakes_cons; eauto. by rewrite Hl.
      * revert Hrun. destruct (PopPendingTop x) as [[n' x0]|]; [|done]. simpl.
        destruct (call (Some n') (Pending 0) x0) as [x2|]; [|done]. simpl.
        destruct (call (Some n') (SetState TS_RUNNABLE) x2) as [x3|]; [|done]. simpl.
        intros [-> Hx3]%(inj Some)%pair_equal_spec.
        change (thread_pending_ x3)
          with (thread_pending_ (set_runnable (thread_runnable_ x3 ++ [Some m]) x3)).
        rewrite Hx3. change (thread_pending_ x1) with rest1.
        rewrite Hloop. unfold x1. by rewrite wakes_result_compose.
  - exists [], (thread_pending_ x). rewrite wakes_result_nil. split; [|done].
    split; [done|set_solver| |constructor]. intros t Ht.
    assert (wake (store x) m <= wake (store x) t); [|lia].
    eapply heap_head_first; eauto. by rewrite Hl.
Qed.

(** [WakeupPendingThread] never fails on a well-formed queue, and wakes exactly
    the threads that are due at the time of the last loop timestamp. *)
Lemma WakeupPendingThread_spec x :
  pending_ok x ->
  exists due rest, wakes (last_loop_ts_ x) x due rest /\
    WakeupPendingThread x = Some (wakes_result due rest x) /\
    pending_ok (wakes_result due rest x).
Proof.
  intros Hok. unfold WakeupPendingThread.
  destruct (thread_pending_ x) as [|n l] eqn:Hl.
  - exists [], (thread_pending_ x). rewrite wakes_result_nil. split; [|done].
    split; rewrite ?Hl; set_solver || constructor.
  - rewrite <- Hl. apply wakeup_loop_spec; [done..|]. rewrite Hl. simpl. congruence.
Qed.

(** The two ways the first sleeping thread determines the time-out. *)
Lemma GetEventLoopTimeout_due x n l :
  thread_pending_ x = n :: l -> wake (store x) n < last_loop_ts_ x ->
  GetEventLoopTimeout x = (0, 0).
Proof.
  intros Hl Hw. unfold GetEventLoopTimeout. rewrite Hl.
  unfold wake in Hw. by destruct (Z.ltb_spec (GetWakeupTime (default Thread_new (store x !! n)))
    (last_loop_ts_ x)); [|lia].
Qed.

Lemma GetEventLoopTimeout_delta x n l :
  thread_pending_ x = n :: l ->
  0 <= wake (store x) n - last_loop_ts_ x < 2 ^ 31 ->
  let d := wake (store x) n - last_loop_ts_ x in
  GetEventLoopTimeout x = (d / 1000, d mod 1000 * 1000).
Proof.
  intros Hl Hd d. unfold GetEventLoopTimeout. rewrite Hl. fold (wake (store x) n).
  destruct (Z.ltb_spec (wake (store x) n) (last_loop_ts_ x)); [lia|]. fold d in Hd |- *.
  rewrite (wrap_id 64 d) by lia. rewrite s32_id by lia. rewrite (wrap_id 64 d) by lia.
  pose proof (Z.div_mod d 1000). pose proof (Z.mod_pos_bound d 1000).
  assert (0 <= d / 1000 <= d) by (split; [apply Z.div_pos; lia|apply Z.div_le_upper_bound; lia]).
  rewrite (s64_id (d / 1000)) by lia. rewrite (wrap_id 64 (d / 1000 * 1000)) by lia.
  replace (d - d / 1000 * 1000) with (d mod 1000) by lia.
  rewrite (wrap_id 64 (d mod 1000)) by lia.
  rewrite (wrap_id 64 (d mod 1000 * 1000)) by lia. by rewrite s64_id by lia.
Qed.

(** A wake-up time 2^31 or more milliseconds away: the difference does not fit
    the [int] it is stored in, and the time-out becomes astronomic. *)
Lemma GetEventLoopTimeout_overflow x n l :
  thread_pending_ x = n :: l ->
  2 ^ 31 <= wake (store x) n - last_loop_ts_ x < 2 ^ 32 ->
  2 ^ 53 <= (GetEventLoopTimeout x).1.
Proof.
  intros Hl Hd. unfold GetEventLoopTimeout. rewrite Hl. fold (wake (store x) n).
  destruct (Z.ltb_spec (wake (store x) n) (last_loop_ts_ x)); [lia|].
  rewrite (wrap_id 64 (_ - _)) by lia. rewrite s32_wraps by lia.
  set (d := _ - _ - _). cbn [fst].
  assert (Hu : u64 d = d + 2 ^ 64).
  { unfold wrap. rewrite <- (Z.mod_add d 1) by lia. apply Z.mod_small. unfold d. lia. }
  rewrite Hu.
  assert (2 ^ 53 <= (d + 2 ^ 64) / 1000) by (apply Z.div_le_lower_bound; unfold d; lia).
  assert ((d + 2 ^ 64) / 1000 < 2 ^ 63) by (apply Z.div_lt_upper_bound; unfold d; lia).
  rewrite s64_id by lia. done.
Qed.

End sleeping.
