(* ===== verification/Sched.v ===== *)
(** * The scheduler as a state machine

    A configuration is the state of [Frame] and the context that executes.  The
    steps are an iteration of the main loop and the operations with which a
    coroutine enters the scheduler.  The invariant [wf] says that every thread
    object is in one place only (running, ready, asleep, waiting for a socket,
    free, or the main thread), that the ready queue holds no null pointer and
    only threads with a context to restore, that the sleeping queue is a heap,
    that the wait map and libevent's events agree, and that [running_thread_]
    is the coroutine that executes.  Every step that is enabled in a
    well-formed configuration succeeds and leads to a well-formed one. *)

From S2P Require Import Prelude Heap Thread Frame FrameFacts.

(** ** Configurations and steps *)

Record config := mkConfig { cfg_frame : frame; cfg_ctl : control }.

Inductive label :=
  | L_main (now : Z) (fired : option (tid * Z))
  | L_create (w : Work)
  | L_sleep (now ms : Z)
  | L_wait (fd evs : Z)
  | L_exit
  | L_init_here.

Section steps.
Context {HO : HeapOps}.

(** Run a step; [None] when it is not one of the executing context or when it
    crashes. *)
Definition exec (l : label) (c : config) : option config :=
  let x := cfg_frame c in
  match l, cfg_ctl c with
  | L_main now fired, InMain => '(x, k) ← MainThreadLoop now fired x; Some (mkConfig x k)
  | L_create w, InThread t => '(_, x) ← CreateThread w x; Some (mkConfig x (InThread t))
  | L_sleep now ms, InThread _ => '(x, k) ← Frame_Sleep now ms x; Some (mkConfig x k)
  | L_wait fd evs, InThread _ => '(x, k) ← io_wait fd evs x; Some (mkConfig x k)
  | L_exit, InThread _ => '(x, k) ← HandleProcess x; Some (mkConfig x k)
  | L_init_here, InThread _ =>
      x ← InitHereAsNewThread x; t ← running_thread_ x; Some (mkConfig x (InThread t))
  | _, _ => None
  end.

(** What the environment and the callers grant: libevent reports only events
    that were added and not yet reported, and no two coroutines wait for the
    same descriptor. *)
Definition enabled (l : label) (c : config) : bool :=
  let x := cfg_frame c in
  match l, cfg_ctl c with
  | L_main _ None, InMain => true
  | L_main _ (Some (t, _)), InMain =>
      match events x !! t with Some e => ev_added e | None => false end
  | L_wait fd _, InThread _ =>
      match io_wait_map_ x !! fd with Some _ => false | None => true end
  | L_create _, InThread _ | L_sleep _ _, InThread _
  | L_exit, InThread _ | L_init_here, InThread _ => true
  | _, _ => false
  end.

Inductive step : config -> label -> config -> Prop :=
  | step_exec c l c' : enabled l c = true -> exec l c = Some c' -> step c l c'.

Lemma step_inv c l c' : step c l c' -> enabled l c = true /\ exec l c = Some c'.
Proof. by destruct 1. Qed.

Lemma enabled_main now fired x :
  enabled (L_main now fired) (mkConfig x InMain) = true ->
  match fired with Some (t, _) => ev_added <$> events x !! t = Some true | None => True end.
Proof.
  destruct fired as [[t r]|]; [|done]. simpl. destruct (events x !! t); [|done]. simpl. congruence.
Qed.

(** Sequences of steps. *)
Inductive steps : config -> list label -> config -> Prop :=
  | steps_nil c : steps c [] c
  | steps_cons c l c1 ls c2 : step c l c1 -> steps c1 ls c2 -> steps c (l :: ls) c2.

Lemma steps_snoc c ls l c' :
  steps c (ls ++ [l]) c' -> exists c1, steps c ls c1 /\ step c1 l c'.
Proof.
  revert c. induction ls as [|l' ls IH]; intros c; simpl; inversion_clear 1 as [|????? H1 H2].
  - inversion H2; subst. eexists. split; [constructor|done].
  - destruct (IH _ H2) as (c2 & ? & ?). eexists. split; [econstructor; eauto|done].
Qed.

(** The same, as a program. *)
Fixpoint run (ls : list label) (c : config) : option config :=
  match ls with
  | [] => Some c
  | l :: ls => if enabled l c then c ← exec l c; run ls c else None
  end.

Lemma run_steps ls c c' : run ls c = Some c' <-> steps c ls c'.
Proof.
  revert c. induction ls as [|l ls IH]; intros c; simpl.
  - split; [intros [= <-]; constructor|by inversion 1].
  - split.
    + destruct (enabled l c) eqn:He; [|done]. intros (c1 & Hx & Hr)%bind_Some.
      econstructor; [by constructor|]. by apply IH.
    + inversion_clear 1 as [|????? Hst Hs]. destruct Hst as [??? He Hx]. rewrite He, Hx. simpl. by apply IH.
Qed.

End steps.

(** ** The invariant *)

(** Where the thread objects are. *)
Definition runq (x : frame) : list tid := omap id (thread_runnable_ x).
Definition waitq (x : frame) : list tid := omap id (map_to_list (io_wait_map_ x)).*2.
Definition holder (k : control) : list tid :=
  match k with InMain => [] | InThread t => [t] end.

Definition owned (x : frame) (k : control) : list tid :=
  holder k ++ runq x ++ thread_pending_ x ++ waitq x ++ thread_free_ x ++
  option_list (main_thread_ x).

(** Threads that some later [Frame::Schedule] continues. *)
Definition suspended (x : frame) : list tid := runq x ++ thread_pending_ x ++ waitq x.

Definition main_ok (x : frame) : Prop :=
  exists m th sp sz, main_thread_ x = Some m /\ store x !! m = Some th /\
    RestoreContext th = Some (uc_entry MainThreadLoop_fn sp sz).

Record wf (x : frame) (k : control) : Prop := {
  wf_nodup : NoDup (owned x k);
  wf_live t : t ∈ owned x k -> is_Some (store x !! t);
  wf_fresh t : is_Some (store x !! t) -> (t < next_tid x)%nat;
  wf_runnable : Forall is_Some (thread_runnable_ x);
  wf_ctx t th : t ∈ suspended x -> store x !! t = Some th -> has_context th;
  wf_main : main_ok x;
  wf_heap : is_heap (ThreadPendingTimeComp (store x)) (thread_pending_ x);
  wf_running t : k = InThread t -> running_thread_ x = Some t;
  wf_io fd p : io_wait_map_ x !! fd = Some p ->
    exists t e, p = Some t /\ events x !! t = Some e /\ ev_fd e = fd /\ ev_added e = true;
  wf_ev t e : events x !! t = Some e -> ev_added e = true ->
    io_wait_map_ x !! ev_fd e = Some (Some t);
  wf_base : base_ x <> base_freed
}.

(** ** Facts on the places *)

Lemma runq_snoc x t : omap id (thread_runnable_ x ++ [Some t]) = runq x ++ [t].
Proof. by rewrite omap_app. Qed.

Lemma elem_of_waitq x t : t ∈ waitq x <-> exists fd, io_wait_map_ x !! fd = Some (Some t).
Proof.
  unfold waitq. rewrite list_elem_of_omap. split.
  - intros (p & Hp & Hid). simpl in Hid. subst p. apply list_elem_of_fmap in Hp as ([fd q] & -> & Hq).
    apply elem_of_map_to_list in Hq. eauto.
  - intros [fd Hfd]. exists (Some t). split; [|done].
    apply list_elem_of_fmap. exists (fd, Some t). split; [done|]. by apply elem_of_map_to_list.
Qed.

Lemma waitq_insert (m : gmap Z (option tid)) fd t :
  m !! fd = None ->
  omap id (map_to_list (<[fd := Some t]> m)).*2 ≡ₚ t :: omap id (map_to_list m).*2.
Proof. intros Hm. rewrite map_to_list_insert by done. done. Qed.

Lemma waitq_delete (m : gmap Z (option tid)) fd t :
  m !! fd = Some (Some t) ->
  t :: omap id (map_to_list (delete fd m)).*2 ≡ₚ omap id (map_to_list m).*2.
Proof. intros Hm. rewrite <- (map_to_list_delete m fd (Some t)) by done. done. Qed.

Lemma suspended_owned x k t : t ∈ suspended x -> t ∈ owned x k.
Proof. unfold suspended, owned. in_lists. Qed.

Lemma main_owned x k m : main_thread_ x = Some m -> m ∈ owned x k.
Proof. unfold owned. intros ->. set_solver. Qed.

Section holder.
Context x t (Hwf : wf x (InThread t)).

Lemma holder_live : is_Some (store x !! t).
Proof. apply (wf_live _ _ Hwf). unfold owned. set_solver. Qed.

Lemma holder_not_suspended : t ∉ suspended x.
Proof.
  pose proof (wf_nodup _ _ Hwf) as Hnd. unfold owned in Hnd. simpl in Hnd.
  apply NoDup_cons in Hnd as [Hnin _]. intros Hs. apply Hnin. revert Hs.
  unfold suspended. in_lists.
Qed.

Lemma holder_not_main : main_thread_ x <> Some t.
Proof.
  intros Hm. pose proof (wf_nodup _ _ Hwf) as Hnd. unfold owned in Hnd. simpl in Hnd.
  apply NoDup_cons in Hnd as [Hnin _]. rewrite Hm in Hnin. set_solver.
Qed.

Lemma holder_no_event e : events x !! t = Some e -> ev_added e = false.
Proof.
  intros He. destruct (ev_added e) eqn:Ha; [|done].
  pose proof (wf_ev _ _ Hwf _ _ He Ha) as Hio. exfalso.
  apply holder_not_suspended. unfold suspended. rewrite !elem_of_app, elem_of_waitq. eauto.
Qed.

End holder.

(** The places only depend on some of the fields. *)
Lemma wf_intro x k x' k' :
  wf x k ->
  store x' = store x -> next_tid x' = next_tid x -> main_thread_ x' = main_thread_ x ->
  owned x' k' ≡ₚ owned x k ->
  Forall is_Some (thread_runnable_ x') ->
  (forall t th, t ∈ suspended x' -> store x !! t = Some th -> has_context th) ->
  is_heap (ThreadPendingTimeComp (store x)) (thread_pending_ x') ->
  (forall t, k' = InThread t -> running_thread_ x' = Some t) ->
  (forall fd p, io_wait_map_ x' !! fd = Some p ->
    exists t e, p = Some t /\ events x' !! t = Some e /\ ev_fd e = fd /\ ev_added e = true) ->
  (forall t e, events x' !! t = Some e -> ev_added e = true ->
    io_wait_map_ x' !! ev_fd e = Some (Some t)) ->
  base_ x' <> base_freed ->
  wf x' k'.
Proof.
  intros [Hnd Hlive Hfresh _ _ Hmain _ _ _ _ _] Hs Hn Hm Hp ???????.
  split; rewrite ?Hs, ?Hn; try done.
  - by rewrite Hp.
  - intros t. rewrite Hp. auto.
  - destruct Hmain as (m & th & sp & sz & ? & ? & ?). unfold main_ok. rewrite Hm, Hs. eauto 10.
Qed.

(** Changing one thread object. *)
Lemma wf_update x k t th th' :
  wf x k -> store x !! t = Some th ->
  (t ∈ thread_pending_ x -> GetWakeupTime th' = GetWakeupTime th) ->
  (t ∈ suspended x -> has_context th -> has_context th') ->
  (main_thread_ x = Some t -> uc_ th' = uc_ th) ->
  wf (set_store (<[t := th']> (store x)) x) k.
Proof.
  intros [Hnd Hlive Hfresh Hr Hctx Hmain Hheap Hrun Hio Hev Hb] Ht Hw Hc Hmt.
  split; try done; cbn [store set_store thread_pending_].
  - intros u Hu. destruct (decide (t = u)) as [->|];
      [rewrite lookup_insert_eq; eauto|rewrite lookup_insert_ne by done; eauto].
  - intros u. destruct (decide (t = u)) as [->|];
      [intros _; apply Hfresh; eauto|rewrite lookup_insert_ne by done; auto].
  - intros u thu Hu. destruct (decide (t = u)) as [->|].
    + rewrite lookup_insert_eq. intros [= <-]. eauto.
    + rewrite lookup_insert_ne by done. eauto.
  - destruct Hmain as (m & thm & sp & sz & Hm & Hsm & Hu).
    destruct (decide (t = m)) as [->|].
    + exists m, th', sp, sz. simpl. rewrite lookup_insert_eq. split; [done|]. split; [done|].
      simplify_eq. unfold RestoreContext in *. by rewrite Hmt.
    + exists m, thm, sp, sz. simpl. by rewrite lookup_insert_ne.
  - destruct (decide (t ∈ thread_pending_ x)).
    + by eapply heap_insert_same; eauto.
    + by apply heap_insert_other.
Qed.

Lemma wf_update_holder x t th th' :
  wf x (InThread t) -> store x !! t = Some th ->
  wf (set_store (<[t := th']> (store x)) x) (InThread t).
Proof.
  intros Hwf Ht. eapply wf_update; eauto.
  - intros Hp. exfalso. apply (holder_not_suspended x t Hwf).
    unfold suspended. in_lists.
  - intros Hs. by destruct (holder_not_suspended x t Hwf).
  - intros Hm. by destruct (holder_not_main x t Hwf).
Qed.

(** A coroutine that nothing refers to any more. *)
Lemma wf_drop_holder x t : wf x (InThread t) -> wf x InMain.
Proof.
  intros [Hnd Hlive Hfresh Hr Hctx Hmain Hheap Hrun Hio Hev Hb]. split; try done.
  - by apply NoDup_cons in Hnd as [_ ?].
  - intros u Hu. apply Hlive. by apply list_elem_of_further.
Qed.

(** ** The operations keep the invariant *)

(** Leaving through [Frame::Schedule] when no coroutine executes any more. *)
Lemma Schedule_wf x :
  wf x InMain ->
  exists x' k, Frame_Schedule x = Some (x', k) /\ wf x' k /\ owned x' k ≡ₚ owned x InMain /\
    match thread_runnable_ x with
    | [] => x' = x /\ k = InMain
    | p :: rest => exists t, p = Some t /\ k = InThread t /\
        x' = set_runnable rest (set_running (Some t) x)
    end.
Proof.
  intros Hwf. unfold Frame_Schedule.
  destruct (thread_runnable_ x) as [|p rest] eqn:Hr.
  - destruct (wf_main _ _ Hwf) as (m & th & sp & sz & Hm & Hs & Hu).
    rewrite Hm. simpl. rewrite Hs. simpl. rewrite Hu. simpl.
    by eexists _, _.
  - pose proof (wf_runnable _ _ Hwf) as Hall. rewrite Hr in Hall.
    apply Forall_cons in Hall as [[t ->] Hall].
    assert (Hrq : runq x = t :: omap id rest) by (unfold runq; by rewrite Hr).
    assert (Hsus : t ∈ suspended x) by (unfold suspended; rewrite Hrq; set_solver).
    destruct (wf_live _ _ Hwf t (suspended_owned _ _ _ Hsus)) as [th Hth].
    destruct (wf_ctx _ _ Hwf t th Hsus Hth) as (u & Hu & _).
    simpl. rewrite Hth. simpl. rewrite Hu. simpl.
    eexists _, _. split; [done|].
    match goal with |- wf ?y ?k /\ _ =>
      assert (Hown : owned y k ≡ₚ owned x InMain) by (unfold owned; rewrite Hrq; done) end.
    split; [|eauto].
    eapply wf_intro; [exact Hwf|done..|exact Hown| | | | | | |]; simpl.
    + done.
    + intros v thv Hv. apply (wf_ctx _ _ Hwf). revert Hv.
      unfold suspended. rewrite Hrq. simpl. rewrite elem_of_cons. auto.
    + apply (wf_heap _ _ Hwf).
    + by intros ? [= ->].
    + apply (wf_io _ _ Hwf).
    + apply (wf_ev _ _ Hwf).
    + apply (wf_base _ _ Hwf).
Qed.

(** A coroutine that has handed itself to a queue leaves the processor. *)
Lemma schedule_out y (own : list tid) :
  wf y InMain -> owned y InMain ≡ₚ own ->
  exists x' k, Frame_Schedule y = Some (x', k) /\ wf x' k /\ owned x' k ≡ₚ own.
Proof.
  intros Hwf Hown. destruct (Schedule_wf y Hwf) as (x' & k & -> & ? & Ho & _).
  eexists _, _. split; [done|]. split; [done|]. by rewrite Ho.
Qed.

Lemma GetEventBase_wf x k :
  wf x k -> exists b, GetEventBase x = Some (set_base b x) /\ wf (set_base b x) k.
Proof.
  intros Hwf. pose proof (wf_base _ _ Hwf) as Hb. unfold GetEventBase.
  assert (Hset : forall b, b <> base_freed -> wf (set_base b x) k).
  { intros b Hne. by destruct Hwf. }
  destruct (base_ x) eqn:E; [|exists base_live|done].
  - exists base_live. auto.
  - split; [by destruct x; simplify_eq/=|auto].
Qed.

Section operations.
Context {HO : HeapOps}.

Lemma Frame_Sleep_wf now ms x t :
  wf x (InThread t) ->
  exists x' k, Frame_Sleep now ms x = Some (x', k) /\ wf x' k /\
    owned x' k ≡ₚ owned x (InThread t).
Proof.
  intros Hwf. unfold Frame_Sleep. rewrite (wf_running _ _ Hwf t eq_refl).
  destruct (holder_live x t Hwf) as [th Hth].
  rewrite (call_Some _ _ _ _ Hth). simpl.
  erewrite call_Some by (simpl; apply lookup_insert_eq). simpl.
  erewrite call_Some by (simpl; apply lookup_insert_eq). simpl.
  set (th1 := SetState TS_STOP (Pending (u64 (now + ms)) th)).
  set (th2 := Thread_Schedule In_Sleep th1).
  rewrite !insert_insert_eq.
  match goal with |- context [Frame_Schedule ?y] => set (y0 := y) end.
  pose proof (wf_update_holder x t th th2 Hwf Hth) as Hwf2.
  assert (Hperm : thread_pending_ y0 ≡ₚ t :: thread_pending_ x).
  { simpl. rewrite push_heap_perm. by rewrite Permutation_app_comm. }
  assert (Hown : owned y0 InMain ≡ₚ owned x (InThread t)).
  { unfold owned. rewrite Hperm. unfold runq, waitq, y0. simpl. solve_Permutation. }
  apply schedule_out; [|exact Hown].
  eapply wf_intro; [exact Hwf2|done..|exact Hown| | | | | | |].
  - apply (wf_runnable _ _ Hwf).
  - intros v thv Hv. destruct (decide (v = t)) as [->|Hne].
    + simpl. rewrite lookup_insert_eq. intros [= <-]. apply has_context_Schedule.
    + apply (wf_ctx _ _ Hwf2). revert Hv. unfold suspended. rewrite Hperm.
      unfold runq, waitq, y0. simpl. in_lists.
  - simpl. replace (<[t := th2]> (store x)) with (<[t := th2]> (<[t := th1]> (store x)))
      by apply insert_insert_eq.
    eapply heap_insert_same; [apply lookup_insert_eq|done|].
    apply push_heap_heap; [apply _|]. apply heap_insert_other; [|apply (wf_heap _ _ Hwf)].
    intros Hin. apply (holder_not_suspended x t Hwf). unfold suspended. in_lists.
  - done.
  - apply (wf_io _ _ Hwf2).
  - apply (wf_ev _ _ Hwf2).
  - apply (wf_base _ _ Hwf2).
Qed.

(** The wait map and libevent's events agree after a coroutine without an event
    enters both. *)
Lemma io_agree_insert x t fd evs :
  wf x (InThread t) -> io_wait_map_ x !! fd = None ->
  let io := <[fd := Some t]> (io_wait_map_ x) in
  let ev := <[t := mkEvent fd evs 0 true]> (events x) in
  (forall fd' p, io !! fd' = Some p ->
    exists u e, p = Some u /\ ev !! u = Some e /\ ev_fd e = fd' /\ ev_added e = true) /\
  (forall u e, ev !! u = Some e -> ev_added e = true -> io !! ev_fd e = Some (Some u)).
Proof.
  intros Hwf Hfd io ev. split.
  - intros fd' p. destruct (decide (fd = fd')) as [->|Hne]; unfold io, ev.
    + rewrite lookup_insert_eq. intros [= <-].
      exists t, (mkEvent fd' evs 0 true). by rewrite lookup_insert_eq.
    + rewrite lookup_insert_ne by done. intros Hp.
      destruct (wf_io _ _ Hwf _ _ Hp) as (u & e & -> & He & Hefd & Ha).
      exists u, e. rewrite lookup_insert_ne; [done|].
      intros ->. rewrite (holder_no_event x u Hwf e He) in Ha. done.
  - intros u e. destruct (decide (t = u)) as [->|Hne]; unfold io, ev.
    + rewrite lookup_insert_eq. intros [= <-] _. simpl. apply lookup_insert_eq.
    + rewrite lookup_insert_ne by done. intros He Ha.
      pose proof (wf_ev _ _ Hwf _ _ He Ha) as Hio.
      rewrite lookup_insert_ne; [done|]. intros ->. congruence.
Qed.

Lemma io_wait_wf fd evs x t :
  wf x (InThread t) -> io_wait_map_ x !! fd = None ->
  exists x' k, io_wait fd evs x = Some (x', k) /\ wf x' k /\
    owned x' k ≡ₚ owned x (InThread t).
Proof.
  intros Hwf Hfd. unfold io_wait.
  destruct (GetEventBase_wf x _ Hwf) as (b & -> & Hwfb). simpl.
  rewrite (wf_running _ _ Hwf t eq_refl). simpl.
  destruct (holder_live x t Hwf) as [th Hth].
  erewrite call_Some by done. simpl.
  rewrite (wf_running _ _ Hwf t eq_refl).
  erewrite call_Some by (simpl; apply lookup_insert_eq). simpl. rewrite insert_insert_eq.
  match goal with |- context [Frame_Schedule ?y] => set (y0 := y) end.
  set (th2 := SetState TS_STOP (Thread_Schedule (In_io_wait fd) th)) in *.
  pose proof (wf_update_holder x t th th2 Hwf Hth) as Hwf2.
  assert (Hwait : waitq y0 ≡ₚ t :: waitq x) by (apply waitq_insert; done).
  destruct (io_agree_insert x t fd evs Hwf Hfd) as [Hio Hev].
  assert (Hown : owned y0 InMain ≡ₚ owned x (InThread t)).
  { unfold owned. rewrite Hwait. unfold runq, y0. simpl. solve_Permutation. }
  apply schedule_out; [|exact Hown].
  eapply wf_intro; [exact Hwf2|done..|exact Hown| | | |done|exact Hio|exact Hev|].
  - apply (wf_runnable _ _ Hwf).
  - intros v thv Hv. destruct (decide (v = t)) as [->|Hne].
    + simpl. rewrite lookup_insert_eq. intros [= <-]. apply has_context_Schedule.
    + apply (wf_ctx _ _ Hwf2). revert Hv. unfold suspended. rewrite Hwait.
      unfold runq, y0. simpl. in_lists.
  - apply (wf_heap _ _ Hwf2).
  - apply (wf_base _ _ Hwfb).
Qed.

(** A reported event moves its thread from the wait map to the ready queue. *)
Lemma EventLoop_wf tv fired x :
  wf x InMain ->
  match fired with Some (t, _) => ev_added <$> events x !! t = Some true | None => True end ->
  exists x', EventLoop tv fired x = Some x' /\ wf x' InMain /\
    owned x' InMain ≡ₚ owned x InMain /\
    thread_runnable_ x' = thread_runnable_ x ++ (Some <$> (fst <$> option_list fired)) /\
    thread_pending_ x' = thread_pending_ x /\ store x' = store x /\
    last_loop_ts_ x' = last_loop_ts_ x.
Proof.
  intros Hwf0 Hf. unfold EventLoop.
  destruct (GetEventBase_wf x _ Hwf0) as (b & -> & Hwf). simpl.
  destruct fired as [[t res]|]; [|eexists; rewrite app_nil_r; by split_and!].
  destruct (events x !! t) as [e|] eqn:He; simplify_eq/=. rewrite Hf.
  pose proof (wf_ev _ _ Hwf0 t e He Hf) as Hio.
  eexists. split; [done|]. unfold SocketReadOrWrite. simpl. rewrite Hio. simpl.
  match goal with |- wf ?y _ /\ _ => set (y0 := y) end.
  assert (Hwait : t :: waitq y0 ≡ₚ waitq x) by (apply waitq_delete; done).
  assert (Hrq : runq y0 = runq x ++ [t]) by apply runq_snoc.
  assert (Hown : owned y0 InMain ≡ₚ owned x InMain).
  { unfold owned. rewrite <- Hwait, Hrq. simpl. solve_Permutation. }
  split; [|done].
  eapply wf_intro; [exact Hwf|done..|exact Hown| | | |done| | |]; simpl.
  - apply Forall_app. split; [apply (wf_runnable _ _ Hwf0)|]. by repeat constructor.
  - intros v thv Hv. apply (wf_ctx _ _ Hwf0). revert Hv. unfold suspended.
    rewrite <- Hwait, Hrq. simpl. in_lists.
  - apply (wf_heap _ _ Hwf0).
  - intros fd p Hp. apply lookup_delete_Some in Hp as [Hne Hp].
    destruct (wf_io _ _ Hwf0 _ _ Hp) as (u & e' & -> & He' & Hfd & Ha).
    exists u, e'. assert (t <> u) by (intros ->; congruence).
    by rewrite lookup_alter_ne, lookup_insert_ne.
  - intros u e'. destruct (decide (t = u)) as [->|Hne].
    + rewrite lookup_alter_eq, lookup_insert_eq. simpl. by intros [= <-].
    + rewrite lookup_alter_ne, lookup_insert_ne by done. intros He' Ha.
      pose proof (wf_ev _ _ Hwf0 _ _ He' Ha) as Hio'.
      rewrite lookup_delete_ne; [done|]. intros Heq. congruence.
  - apply (wf_base _ _ Hwf).
Qed.

Lemma wf_pending_ok x k : wf x k -> pending_ok x.
Proof.
  intros Hwf. split.
  - pose proof (wf_nodup _ _ Hwf) as Hnd. unfold owned in Hnd.
    by apply NoDup_app in Hnd as (_ & _ & [_ [_ [Hnd _]%NoDup_app]]%NoDup_app).
  - intros t Ht. apply (wf_live _ _ Hwf). unfold owned. in_lists.
  - apply (wf_heap _ _ Hwf).
Qed.

Lemma pending_ok_loop_ts now x : pending_ok x -> pending_ok (set_loop_ts now x).
Proof. by intros []. Qed.

Lemma wakes_result_wf x due rest :
  wf x InMain -> wakes (last_loop_ts_ x) x due rest -> pending_ok (wakes_result due rest x) ->
  wf (wakes_result due rest x) InMain /\
  owned (wakes_result due rest x) InMain ≡ₚ owned x InMain.
Proof.
  intros Hwf Hw Hok. set (y := wakes_result due rest x) in *.
  assert (Hrq : runq y = runq x ++ due).
  { unfold runq, y. simpl. rewrite omap_app. f_equal. clear. induction due; csimpl; congruence. }
  assert (Hown : owned y InMain ≡ₚ owned x InMain).
  { unfold owned. rewrite Hrq, <- (wakes_perm _ _ _ _ Hw). simpl. solve_Permutation. }
  assert (Hlk : forall t, uc_ <$> store y !! t = uc_ <$> store x !! t).
  { intros. apply wake_all_uc. }
  assert (Hsome : forall t, is_Some (store y !! t) <-> is_Some (store x !! t)).
  { intros t. rewrite <- !(fmap_is_Some uc_). by rewrite Hlk. }
  split; [|done]. split; try apply Hwf.
  - rewrite Hown. apply (wf_nodup _ _ Hwf).
  - intros t Ht. rewrite Hown in Ht. apply Hsome, (wf_live _ _ Hwf), Ht.
  - intros t Ht. apply (wf_fresh _ _ Hwf), Hsome, Ht.
  - apply Forall_app. split; [apply (wf_runnable _ _ Hwf)|].
    apply Forall_fmap, Forall_forall. simpl. eauto.
  - intros t th Ht Hth. specialize (Hlk t). rewrite Hth in Hlk.
    destruct (store x !! t) as [th0|] eqn:Hth0; simplify_eq/=.
    unfold has_context, RestoreContext. rewrite Hlk. apply (wf_ctx _ _ Hwf t); [|done].
    revert Ht. unfold suspended. rewrite Hrq, <- (wakes_perm _ _ _ _ Hw). simpl. in_lists.
  - destruct (wf_main _ _ Hwf) as (m & th & sp & sz & Hm & Hs & Hu).
    specialize (Hlk m). rewrite Hs in Hlk.
    destruct (store y !! m) as [th'|] eqn:Hth'; simplify_eq/=.
    exists m, th', sp, sz. split_and!; [done..|]. unfold RestoreContext in *. congruence.
  - apply Hok.
Qed.

Lemma UpdateLoopTimestamp_wf now x k : wf x k -> wf (UpdateLoopTimestamp now x) k.
Proof. by intros []. Qed.

(** The ready queue after one iteration of the main loop and before the
    switch: the old one, then the thread whose event was reported, then the
    threads whose time has come. *)
Lemma MainThreadLoop_wf now fired x :
  wf x InMain ->
  match fired with Some (t, _) => ev_added <$> events x !! t = Some true | None => True end ->
  exists x' k due rest y, MainThreadLoop now fired x = Some (x', k) /\ wf x' k /\
    owned x' k ≡ₚ owned x InMain /\ wakes now x due rest /\
    Frame_Schedule y = Some (x', k) /\ wf y InMain /\
    thread_runnable_ y = thread_runnable_ x ++ (Some <$> (fst <$> option_list fired)) ++
                         (Some <$> due) /\
    thread_pending_ y = rest /\ store y = wake_all due (store x).
Proof.
  intros Hwf Hf. unfold MainThreadLoop.
  pose proof (UpdateLoopTimestamp_wf now _ _ Hwf) as Hwf1.
  destruct (EventLoop_wf (GetEventLoopTimeout (UpdateLoopTimestamp now x)) fired _ Hwf1 Hf)
    as (x2 & -> & Hwf2 & Hown2 & Hr2 & Hp2 & Hs2 & Ht2). simpl in *.
  destruct (WakeupPendingThread_spec x2) as (due & rest & Hw & -> & Hok).
  { eauto using wf_pending_ok. }
  simpl. destruct (wakes_result_wf x2 due rest Hwf2 Hw Hok) as [Hwf3 Hown3].
  destruct (Schedule_wf _ Hwf3) as (x' & k & Hs & ? & Ho & _).
  exists x', k, due, rest, (wakes_result due rest x2). split_and!; try done.
  - by rewrite Ho, Hown3.
  - rewrite Ht2 in Hw. destruct Hw as [Hw1 Hw2 Hw3 Hw4].
    rewrite ?Hp2, ?Hs2 in *. by split.
  - simpl. by rewrite Hr2, <- app_assoc.
  - simpl. by rewrite Hs2.
Qed.

(** A new object is a free thread. *)
Lemma new_Thread_wf x k :
  wf x k ->
  let '(t, x1) := new_Thread x in
  wf (set_free (thread_free_ x1 ++ [t]) x1) k /\ t ∉ owned x k.
Proof.
  intros Hwf. unfold new_Thread. set (t := next_tid x). simpl.
  assert (Hnew : store x !! t = None).
  { apply eq_None_not_Some. intros Hs. apply (wf_fresh _ _ Hwf) in Hs. unfold t in Hs. lia. }
  assert (Hnin : t ∉ owned x k).
  { intros Hin. apply (wf_live _ _ Hwf) in Hin. rewrite Hnew in Hin. by destruct Hin. }
  split; [|done].
  match goal with |- wf ?y _ => set (y0 := y) end.
  assert (Hown : owned y0 k ≡ₚ t :: owned x k).
  { unfold owned, y0. simpl. solve_Permutation. }
  assert (Hlk : forall u, u ∈ owned x k -> store y0 !! u = store x !! u).
  { intros u Hu. apply lookup_insert_ne. by intros <-. }
  split; try apply Hwf.
  - rewrite Hown. constructor; [done|apply (wf_nodup _ _ Hwf)].
  - intros u Hu. rewrite Hown in Hu. apply elem_of_cons in Hu as [->|Hu].
    + simpl. rewrite lookup_insert_eq. eauto.
    + rewrite Hlk by done. by apply (wf_live _ _ Hwf).
  - intros u. simpl. destruct (decide (t = u)) as [->|]; [lia|].
    rewrite lookup_insert_ne by done. intros Hu%(wf_fresh _ _ Hwf). unfold t. lia.
  - intros u th Hu. rewrite Hlk by (by apply suspended_owned). by apply (wf_ctx _ _ Hwf).
  - destruct (wf_main _ _ Hwf) as (m & th & sp & sz & Hm & Hs & Hu).
    exists m, th, sp, sz. rewrite Hlk by (by apply main_owned). done.
  - simpl. apply heap_insert_other; [|apply (wf_heap _ _ Hwf)].
    intros Hin. apply Hnin. unfold owned. in_lists.
Qed.

(** A free thread is nowhere else. *)
Lemma free_elsewhere x k t :
  wf x k -> t ∈ thread_free_ x ->
  (t ∉ suspended x) /\ main_thread_ x <> Some t /\ (t ∉ holder k).
Proof.
  intros Hwf Ht.
  assert (Hp : owned x k ≡ₚ
    thread_free_ x ++ (holder k ++ suspended x ++ option_list (main_thread_ x))).
  { unfold owned, suspended. solve_Permutation. }
  pose proof (wf_nodup _ _ Hwf) as Hnd. rewrite Hp in Hnd.
  apply NoDup_app in Hnd as (_ & Hd & _). specialize (Hd t Ht).
  split_and!; [|intros Hm; rewrite Hm in Hd|]; revert Hd; simpl; in_lists.
Qed.

(** Taking a thread from the free list and making it ready. *)
Lemma start_free_wf x k t w th :
  wf x k -> last (thread_free_ x) = Some t -> store x !! t = Some th ->
  let y := set_runnable (thread_runnable_ x ++ [Some t])
    (set_free (removelast (thread_free_ x))
      (set_store (<[t := SetContext (HandleProcess_fn w) (Thread_Init th).2]> (store x)) x)) in
  wf y k /\ owned y k ≡ₚ owned x k.
Proof.
  intros Hwf Hl Hth y.
  pose proof (removelast_last_split _ _ Hl) as Hfree.
  destruct (free_elsewhere x k t Hwf) as (Hns & Hnm & _); [rewrite Hfree; in_lists|].
  assert (Hwf2 : wf (set_store (<[t := SetContext (HandleProcess_fn w) (Thread_Init th).2]>
                                  (store x)) x) k).
  { eapply wf_update; eauto; [|by intros].
    intros Hp. exfalso. apply Hns. unfold suspended. in_lists. }
  assert (Hrq : runq y = runq x ++ [t]) by apply runq_snoc.
  assert (Hown : owned y k ≡ₚ owned x k).
  { unfold owned. rewrite Hrq. rewrite Hfree at 1. unfold waitq, y. simpl. solve_Permutation. }
  split; [|done].
  eapply wf_intro; [exact Hwf2|done..|exact Hown| | | | | | |].
  - apply Forall_app. split; [apply (wf_runnable _ _ Hwf)|]. by repeat constructor.
  - intros v thv Hv. destruct (decide (v = t)) as [->|Hne].
    + simpl. rewrite lookup_insert_eq. intros [= <-]. apply has_context_SetContext.
    + apply (wf_ctx _ _ Hwf2). revert Hv. unfold suspended. rewrite Hrq.
      unfold waitq, y. simpl. in_lists.
  - apply (wf_heap _ _ Hwf2).
  - apply (wf_running _ _ Hwf2).
  - apply (wf_io _ _ Hwf2).
  - apply (wf_ev _ _ Hwf2).
  - apply (wf_base _ _ Hwf2).
Qed.

Lemma CreateThread_wf w x k :
  wf x k ->
  exists t x', CreateThread w x = Some (mkThreadWrapper (Some t), x') /\ wf x' k /\
    thread_runnable_ x' = thread_runnable_ x ++ [Some t] /\
    (exists th, store x' !! t = Some th /\ fun_ th = Some (HandleProcess_fn w) /\
       state_ th = Some TS_STOP) /\
    match last (thread_free_ x) with
    | Some f => t = f /\ owned x' k ≡ₚ owned x k
    | None => (t ∉ owned x k) /\ owned x' k ≡ₚ t :: owned x k
    end.
Proof.
  intros Hwf. unfold CreateThread, AllocNewThread.
  destruct (last (thread_free_ x)) as [t|] eqn:Hl.
  - assert (is_Some (store x !! t)) as [th Hth].
    { apply (wf_live _ _ Hwf). unfold owned. rewrite (removelast_last_split _ _ Hl). in_lists. }
    simpl. erewrite call_Some by done. simpl.
    erewrite call_Some by (simpl; apply lookup_insert_eq). simpl.
    erewrite call_Some by (simpl; apply lookup_insert_eq). simpl. rewrite !insert_insert_eq.
    destruct (start_free_wf x k t w th Hwf Hl Hth) as [Hwf' Hown].
    eexists _, _. split; [done|]. split; [exact Hwf'|]. split; [done|].
    split; [|done]. eexists. simpl. by rewrite lookup_insert_eq.
  - apply last_None in Hl.
    pose proof (new_Thread_wf x k Hwf) as Hn. unfold new_Thread in *. simpl in *.
    destruct Hn as [Hwf1 Hnin]. rewrite Hl in Hwf1. simpl in Hwf1.
    set (t := next_tid x) in *.
    erewrite call_Some by (simpl; apply lookup_insert_eq). simpl.
    erewrite call_Some by (simpl; apply lookup_insert_eq). simpl. rewrite !insert_insert_eq.
    destruct (start_free_wf _ k t w Thread_new Hwf1 eq_refl (lookup_insert_eq _ _ _))
      as [Hwf' Hown].
    simpl in Hwf'. rewrite insert_insert_eq in Hwf'.
    eexists _, _. split; [done|]. rewrite Hl. split; [exact Hwf'|]. split; [done|].
    split; [eexists; simpl; by rewrite lookup_insert_eq|]. split; [done|].
    simpl in Hown. rewrite insert_insert_eq in Hown. rewrite Hown.
    unfold owned. simpl. rewrite Hl. solve_Permutation.
Qed.

Lemma HandleProcess_wf x t :
  wf x (InThread t) ->
  exists x' k y, HandleProcess x = Some (x', k) /\ wf x' k /\
    owned x' k ≡ₚ owned x (InThread t) /\
    Frame_Schedule y = Some (x', k) /\ last (thread_free_ y) = Some t /\
    GetState <$> store y !! t = Some (Some TS_DEAD).
Proof.
  intros Hwf. unfold HandleProcess, RecycleRunningThread.
  rewrite (wf_running _ _ Hwf t eq_refl). simpl.
  destruct (holder_live x t Hwf) as [th Hth]. erewrite call_Some by done. simpl.
  match goal with |- context [Frame_Schedule ?y] => set (y0 := y) end.
  pose proof (wf_update_holder x t th (SetState TS_DEAD th) Hwf Hth) as Hwf2.
  assert (Hown : owned y0 InMain ≡ₚ owned x (InThread t)).
  { unfold owned, runq, waitq, y0. simpl. solve_Permutation. }
  destruct (schedule_out y0 (owned x (InThread t))) as (x' & k & Hs & Hwf' & Ho); [|done|].
  - pose proof Hwf2 as [??????????].
    eapply wf_intro; [exact Hwf2|done|done|done|exact Hown|done..].
  - exists x', k, y0. split_and!; try done; simpl.
    + apply last_snoc.
    + by rewrite lookup_insert_eq.
Qed.

(** The object of the coroutine that called stays allocated, and nothing refers
    to it any more. *)
Lemma InitHereAsNewThread_wf x t :
  wf x (InThread t) ->
  exists x' u, InitHereAsNewThread x = Some x' /\ running_thread_ x' = Some u /\
    wf x' (InThread u) /\ (u ∉ owned x (InThread t)) /\
    t :: owned x' (InThread u) ≡ₚ u :: owned x (InThread t).
Proof.
  intros Hwf0. pose proof (wf_drop_holder _ _ Hwf0) as Hwf.
  pose proof (new_Thread_wf x _ Hwf0) as Hn0.
  pose proof (new_Thread_wf x InMain Hwf) as Hn.
  unfold InitHereAsNewThread. unfold new_Thread in *. simpl in *.
  destruct Hn as [Hwf1 _], Hn0 as [_ Hnin]. set (u := next_tid x) in *.
  erewrite call_Some by (simpl; apply lookup_insert_eq). simpl.
  erewrite call_Some by (simpl; apply lookup_insert_eq). simpl. rewrite !insert_insert_eq.
  eexists _, u. split; [done|]. split; [done|]. split; [|split; [done|]].
  2: { unfold owned, runq, waitq. simpl. solve_Permutation. }
  eapply wf_update in Hwf1 as Hwf2; [|simpl; apply lookup_insert_eq|..].
  - eapply wf_intro; [exact Hwf2|..].
    + simpl. by rewrite insert_insert_eq.
    + done.
    + done.
    + unfold owned, runq, waitq. simpl. solve_Permutation.
    + apply (wf_runnable _ _ Hwf2).
    + apply (wf_ctx _ _ Hwf2).
    + apply (wf_heap _ _ Hwf2).
    + by intros ? [= ->].
    + apply (wf_io _ _ Hwf2).
    + apply (wf_ev _ _ Hwf2).
    + apply (wf_base _ _ Hwf2).
  - done.
  - intros _ _. apply has_context_Schedule.
  - intros Hm. exfalso. apply Hnin. apply main_owned. done.
Qed.

End operations.

(** ** What a step does to the queues *)

Lemma call_inv p f x x' :
  call p f x = Some x' ->
  exists t th, p = Some t /\ store x !! t = Some th /\
    x' = set_store (<[t := f th]> (store x)) x.
Proof.
  unfold call. destruct p as [t|]; simpl; [|done].
  destruct (store x !! t) as [th|] eqn:E; simpl; [|done]. intros [= <-]. eauto.
Qed.

Ltac destruct_calls :=
  repeat match goal with
  | H : _ ≫= _ = Some _ |- _ => apply bind_Some in H as (? & ? & ?)
  | H : call _ _ _ = Some _ |- _ => apply call_inv in H as (? & ? & ? & ? & ->)
  | _ => progress simplify_eq/=
  end.

Section queues.
Context {HO : HeapOps}.

(** The steps that end in [Frame::Schedule]. *)
Definition switches (l : label) : bool :=
  match l with L_create _ | L_init_here => false | _ => true end.

Lemma Schedule_inv y x' k :
  Frame_Schedule y = Some (x', k) ->
  store x' = store y /\ thread_pending_ x' = thread_pending_ y /\
  match thread_runnable_ y with
  | [] => k = InMain /\ thread_runnable_ x' = []
  | p :: rest => exists t, p = Some t /\ k = InThread t /\ thread_runnable_ x' = rest
  end.
Proof.
  unfold Frame_Schedule. destruct (thread_runnable_ y) as [|p rest] eqn:Hr.
  - destruct (main_thread_ y) as [m|]; simpl; [|done].
    destruct (store y !! m) as [th|]; simpl; [|done].
    destruct (RestoreContext th); simpl; [|done]. intros [= <- <-]. done.
  - destruct p as [t|]; simpl; [|done].
    destruct (store y !! t) as [th|]; simpl; [|done].
    destruct (RestoreContext th); simpl; [|done]. intros [= <- <-]. split_and!; eauto.
Qed.

Lemma Schedule_set_events y x' k e :
  Frame_Schedule y = Some (x', k) ->
  Frame_Schedule (set_events e y) = Some (set_events e x', k).
Proof.
  unfold Frame_Schedule. simpl. destruct (thread_runnable_ y) as [|p rest];
    intros (m & -> & (th & Hm & (u & Hu & [= <- <-])%bind_Some)%bind_Some)%bind_Some;
    simpl in *; rewrite Hm; simpl; by rewrite Hu.
Qed.

Lemma Schedule_free y x' k :
  Frame_Schedule y = Some (x', k) -> thread_free_ x' = thread_free_ y.
Proof.
  unfold Frame_Schedule. destruct (thread_runnable_ y) as [|p rest].
  - intros (m & _ & (th & _ & (u & _ & [= <- <-])%bind_Some)%bind_Some)%bind_Some. done.
  - intros (m & _ & (th & _ & (u & _ & [= <- <-])%bind_Some)%bind_Some)%bind_Some. done.
Qed.

(** A step of a coroutine touches only its own object and new ones, appends to
    the ready queue, and keeps the others asleep. *)
Record quiet (t : tid) (x y : frame) (more : list (option tid)) : Prop := {
  quiet_run : thread_runnable_ y = thread_runnable_ x ++ more;
  quiet_pend u : u ∈ thread_pending_ x -> u ∈ thread_pending_ y;
  quiet_store u : u <> t -> (u < next_tid x)%nat -> u ∉ thread_free_ x ->
    store y !! u = store x !! u
}.

Lemma Frame_Sleep_quiet now ms x t x' k :
  running_thread_ x = Some t -> Frame_Sleep now ms x = Some (x', k) ->
  exists y, quiet t x y [] /\ Frame_Schedule y = Some (x', k).
Proof.
  intros Hr H. unfold Frame_Sleep in H. rewrite Hr in H. destruct_calls.
  eexists. split; [|done]. split; simpl.
  - by rewrite app_nil_r.
  - intros u Hu. rewrite push_heap_perm. in_lists.
  - intros u Hne _ _. rewrite !lookup_insert_ne; done.
Qed.

Lemma io_wait_quiet fd evs x t x' k :
  running_thread_ x = Some t -> io_wait fd evs x = Some (x', k) ->
  exists y, quiet t x y [] /\ Frame_Schedule y = Some (x', k).
Proof.
  intros Hr H. unfold io_wait, GetEventBase in H.
  destruct (base_ x); simplify_eq/=; rewrite Hr in H; simpl in H; destruct_calls;
    (eexists; split; [|done]; split; simpl;
     [by rewrite app_nil_r|done|intros u Hne _ _; rewrite !lookup_insert_ne; congruence]).
Qed.

Lemma HandleProcess_quiet x t x' k :
  running_thread_ x = Some t -> HandleProcess x = Some (x', k) ->
  exists y, quiet t x y [] /\ Frame_Schedule y = Some (x', k).
Proof.
  intros Hr H. unfold HandleProcess, RecycleRunningThread in H. rewrite Hr in H. simpl in H.
  destruct_calls. eexists. split; [|done]. split; simpl.
  - by rewrite app_nil_r.
  - done.
  - intros u Hne _ _. by rewrite lookup_insert_ne.
Qed.

Lemma CreateThread_quiet w x t r x' :
  CreateThread w x = Some (r, x') -> exists more, quiet t x x' more.
Proof.
  intros H. unfold CreateThread, AllocNewThread in H.
  destruct (last (thread_free_ x)) as [f|] eqn:Hl; destruct_calls;
    eexists; (split; simpl; [done|done|]); intros u Hne Hlt Hfr.
  - rewrite !lookup_insert_ne; try done; intros ->; apply Hfr;
      rewrite (removelast_last_split _ _ Hl); in_lists.
  - assert (next_tid x <> u) by lia. by rewrite !lookup_insert_ne.
Qed.

Lemma InitHereAsNewThread_quiet x t x' :
  InitHereAsNewThread x = Some x' -> quiet t x x' [].
Proof.
  intros H. unfold InitHereAsNewThread in H. simpl in H. destruct_calls.
  split; simpl; [by rewrite app_nil_r|done|].
  intros u Hne Hlt _. assert (next_tid x <> u) by lia. by rewrite !lookup_insert_ne.
Qed.

(** Every step of a coroutine is quiet, followed by a switch or not. *)
Lemma coroutine_step l x t c' :
  running_thread_ x = Some t -> exec l (mkConfig x (InThread t)) = Some c' ->
  exists y more, quiet t x y more /\
    if switches l then Frame_Schedule y = Some (cfg_frame c', cfg_ctl c')
    else y = cfg_frame c' /\ exists u, cfg_ctl c' = InThread u.
Proof.
  intros Hr H. destruct l; simpl in H; try done;
    apply bind_Some in H as (r & Hop & H); [destruct r as [rw x']|destruct r as [x' k]..|].
  - simplify_eq/=. destruct (CreateThread_quiet _ _ t _ _ Hop) as [more ?]. eauto 10.
  - simplify_eq/=. destruct (Frame_Sleep_quiet _ _ _ _ _ _ Hr Hop) as (y & ? & ?). eauto.
  - simplify_eq/=. destruct (io_wait_quiet _ _ _ _ _ _ Hr Hop) as (y & ? & ?). eauto.
  - simplify_eq/=. destruct (HandleProcess_quiet _ _ _ _ Hr Hop) as (y & ? & ?). eauto.
  - apply bind_Some in H as (u & Hu & H). simplify_eq/=.
    pose proof (InitHereAsNewThread_quiet _ t _ Hop). eauto 10.
Qed.

End queues.
