(* ===== verification/SchedProps.v ===== *)
(** * Correctness of the scheduler

    The theorems about the state machine of [Sched]: the initial state, safety
    of every step, the sleeping queue, fairness of the ready queue, the
    time-out of the event loop, and start and stop. *)

From S2P Require Import Prelude Heap Thread Frame FrameFacts Sched.

(** ** Start *)

Lemma push_new_iter n x k :
  wf x k ->
  let y := Nat.iter n push_new x in
  wf y k /\ thread_free_ y = thread_free_ x ++ seq (next_tid x) n /\
  next_tid y = (next_tid x + n)%nat /\ running_thread_ y = running_thread_ x /\
  thread_runnable_ y = thread_runnable_ x /\ thread_pending_ y = thread_pending_ x /\
  io_wait_map_ y = io_wait_map_ x /\ main_thread_ y = main_thread_ x /\
  forall t, (t < next_tid x)%nat -> store y !! t = store x !! t.
Proof.
  intros Hwf. induction n as [|n (Hy & Hf & Hn & Hr & Hq & Hp & Hi & Hb & Hs)]; simpl.
  { rewrite app_nil_r, Nat.add_0_r. done. }
  set (y := Nat.iter n push_new x) in *.
  pose proof (new_Thread_wf y k Hy) as [Hwf1 _].
  split; [exact Hwf1|]. simpl. rewrite Hf, Hn.
  split_and!; try done; try lia.
  - rewrite <- app_assoc. f_equal. by rewrite <- seq_S.
  - intros t Ht. rewrite lookup_insert_ne by lia. by apply Hs.
Qed.

(** The state of [Frame::Init] when it starts to fill the free list. *)
Definition init_th0 : Thread := SetContext MainThreadLoop_fn (Thread_Init Thread_new).2.
Definition init_th1 : Thread := (Thread_Init Thread_new).2.
Definition init_x0 : frame :=
  mkFrame (<[1%nat := init_th1]> (<[0%nat := init_th0]> ∅)) 2%nat ∅ [] [] [] (Some 0%nat)
    (Some 1%nat) base_null 0 ∅.

Lemma init_x0_wf : wf init_x0 (InThread 1%nat).
Proof.
  split; simpl; try done.
  - apply (bool_decide_unpack _). reflexivity.
  - intros t Ht. unfold owned in Ht. simpl in Ht.
    apply elem_of_cons in Ht as [->|[->|[]%elem_of_nil]%elem_of_cons]; by eexists.
  - intros t [th Ht]. destruct (decide (t = 0%nat)) as [->|]; [lia|].
    destruct (decide (t = 1%nat)) as [->|]; [lia|].
    rewrite !lookup_insert_ne in Ht by done. done.
  - intros t th []%elem_of_nil.
  - exists 0%nat, init_th0. eexists _, _. done.
  - by intros ? [= ->].
Qed.

Lemma Frame_Init_ok n :
  exists x, Frame_Init_pool n frame0 = Some (true, x) /\ wf x (InThread 1%nat) /\
    thread_free_ x = seq 2 n /\ thread_runnable_ x = [] /\ thread_pending_ x = [] /\
    io_wait_map_ x = ∅ /\ main_thread_ x = Some 0%nat.
Proof.
  unfold Frame_Init_pool.
  cbn [main_thread_ base_ frame0 new_Thread].
  erewrite call_Some by (cbn; apply lookup_insert_eq). cbn [mbind option_bind].
  erewrite call_Some by (cbn; apply lookup_insert_eq). cbn [mbind option_bind].
  cbn [set_store set_main set_running new_Thread store next_tid].
  rewrite !insert_insert_eq. cbn -[Nat.iter].
  rewrite lookup_insert_eq. cbn -[Nat.iter].
  match goal with |- context [Nat.iter n push_new ?x] => change x with init_x0 end.
  destruct (push_new_iter n init_x0 _ init_x0_wf)
    as (Hwf1 & Hf & Hn & Hr & Hq & Hp & Hi & Hm & Hs).
  set (y := Nat.iter n push_new init_x0) in *.
  assert (Hs1 : store y !! 1%nat = Some init_th1) by (apply Hs; simpl; lia).
  rewrite (call_Some _ _ _ _ Hs1). simpl.
  pose proof (wf_update_holder _ _ _ (Thread_Schedule In_Init init_th1) Hwf1 Hs1) as Hwf2.
  eexists. split; [done|]. split; [destruct Hwf2; by split|]. by simpl.
Qed.

(** ** Reachable configurations *)

Section reachable.
Context {HO : HeapOps}.

(** [Frame::Init], and control in the coroutine that called it. *)
Definition boot (pool : nat) : option config :=
  '(ok, x) ← Frame_Init_pool pool frame0;
  if (ok : bool) then t ← running_thread_ x; Some (mkConfig x (InThread t)) else None.

Definition reachable (pool : nat) (c : config) : Prop :=
  exists b ls, boot pool = Some b /\ steps b ls c.

Lemma boot_wf pool : exists b, boot pool = Some b /\ wf (cfg_frame b) (cfg_ctl b).
Proof.
  destruct (Frame_Init_ok pool) as (x & Hi & Hwf & _).
  exists (mkConfig x (InThread 1%nat)). split; [|done].
  unfold boot. rewrite Hi. simpl. by rewrite (wf_running _ _ Hwf 1%nat eq_refl).
Qed.

(** The heart of safety: an enabled step does not crash, and keeps the
    invariant. *)
Lemma exec_wf l c :
  wf (cfg_frame c) (cfg_ctl c) -> enabled l c = true ->
  exists c', exec l c = Some c' /\ wf (cfg_frame c') (cfg_ctl c').
Proof.
  destruct c as [x k]. simpl. intros Hwf He.
  destruct l, k; try done; try (destruct fired as [[]|]; done); simpl.
  - destruct (MainThreadLoop_wf now fired x Hwf (enabled_main _ _ _ He))
      as (x' & k & _ & _ & _ & -> & ? & _). simpl. eauto.
  - destruct (CreateThread_wf w x _ Hwf) as (u & x' & -> & ? & _). simpl. eauto.
  - destruct (Frame_Sleep_wf now ms x t Hwf) as (x' & k & -> & ? & _). simpl. eauto.
  - simpl in He. destruct (io_wait_map_ x !! fd) eqn:Hio; [done|].
    destruct (io_wait_wf fd evs x t Hwf Hio) as (x' & k & -> & ? & _). simpl. eauto.
  - destruct (HandleProcess_wf x t Hwf) as (x' & k & _ & -> & ? & _). simpl. eauto.
  - destruct (InitHereAsNewThread_wf x t Hwf) as (x' & u & -> & Hu & ? & _). simpl.
    rewrite Hu. simpl. eauto.
Qed.

Lemma steps_wf c ls c' :
  steps c ls c' -> wf (cfg_frame c) (cfg_ctl c) -> wf (cfg_frame c') (cfg_ctl c').
Proof.
  induction 1 as [|c l c1 ls c2 [He Hx]%step_inv _ IH]; [done|]. intros Hwf. apply IH.
  destruct (exec_wf _ _ Hwf He) as (c'' & Hx' & ?). by simplify_eq.
Qed.

Lemma reachable_wf pool c : reachable pool c -> wf (cfg_frame c) (cfg_ctl c).
Proof.
  intros (b & ls & Hb & Hs). destruct (boot_wf pool) as (b' & Hb' & Hwf).
  simplify_eq. eauto using steps_wf.
Qed.

End reachable.

(** ** Theorems *)

Section theorems.
Context {HO : HeapOps}.

(** What a step does to the ready queue: it appends; a switching step then
    takes the first thread and runs it, or goes to the main loop when there is
    none. *)
Lemma step_queue c l c' :
  wf (cfg_frame c) (cfg_ctl c) -> step c l c' ->
  exists more, let q := thread_runnable_ (cfg_frame c) ++ more in
    if switches l then
      match q with
      | [] => cfg_ctl c' = InMain /\ thread_runnable_ (cfg_frame c') = []
      | p :: rest => exists t, p = Some t /\ cfg_ctl c' = InThread t /\
          thread_runnable_ (cfg_frame c') = rest
      end
    else thread_runnable_ (cfg_frame c') = q.
Proof.
  intros Hwf [He Hx]%step_inv. destruct c as [x [|t]].
  - destruct l; try done. simpl in Hx.
    destruct (MainThreadLoop_wf now fired x Hwf (enabled_main _ _ _ He))
      as (x' & k & due & rest & y & Hm & _ & _ & _ & Hs & _ & Hq & _).
    rewrite Hm in Hx. simplify_eq/=. eexists. rewrite <- Hq.
    by destruct (Schedule_inv _ _ _ Hs) as (_ & _ & ?).
  - destruct (coroutine_step l x t c' (wf_running _ _ Hwf t eq_refl) Hx)
      as (y & more & [Hq _ _] & Hsw).
    exists more. simpl. rewrite <- Hq. destruct (switches l).
    + by destruct (Schedule_inv _ _ _ Hsw) as (_ & _ & ?).
    + by destruct Hsw as [-> _].
Qed.

(** A queued thread moves one place forward with every switch. *)
Lemma queue_advance c ls c' k t :
  steps c ls c' -> wf (cfg_frame c) (cfg_ctl c) ->
  thread_runnable_ (cfg_frame c) !! k = Some (Some t) ->
  (length (filter (fun l => switches l = true) ls) <= k)%nat ->
  thread_runnable_ (cfg_frame c') !!
    (k - length (filter (fun l => switches l = true) ls))%nat = Some (Some t).
Proof.
  intros Hs. revert k. induction Hs as [c|c l c1 ls c2 Hst Hs IH]; intros k Hwf Hk Hle.
  { simpl. by rewrite Nat.sub_0_r. }
  assert (Hwf1 : wf (cfg_frame c1) (cfg_ctl c1)).
  { eapply steps_wf; [|exact Hwf]. econstructor; [exact Hst|constructor]. }
  destruct (step_queue c l c1 Hwf Hst) as [more Hq]. cbv zeta in Hq.
  pose proof (lookup_app_l_Some _ more _ _ Hk) as Hk'.
  rewrite filter_cons in *. destruct (switches l) eqn:Hsw; case_decide; try done; simpl in *.
  - destruct (thread_runnable_ (cfg_frame c) ++ more) as [|p rest]; [done|].
    destruct Hq as (u & -> & Hctl & Hr). destruct k as [|k]; [lia|].
    apply IH; [done| |lia]. by rewrite Hr.
  - apply IH; [done| |done]. by rewrite Hq.
Qed.

(** What a step does to a sleeping thread. *)
Lemma step_sleeper c l c' t :
  wf (cfg_frame c) (cfg_ctl c) -> step c l c' -> t ∈ thread_pending_ (cfg_frame c) ->
  (t ∈ thread_pending_ (cfg_frame c') /\
     wake (store (cfg_frame c')) t = wake (store (cfg_frame c)) t /\
     forall now fired, l = L_main now fired -> now < wake (store (cfg_frame c)) t) \/
  (exists now fired, l = L_main now fired /\ wake (store (cfg_frame c)) t <= now /\
     (cfg_ctl c' = InThread t \/ t ∈ runq (cfg_frame c'))).
Proof.
  intros Hwf [He Hx]%step_inv Ht. destruct c as [x [|h]]; simpl in Ht, Hwf |- *.
  - destruct l; try done. simpl in Hx.
    destruct (MainThreadLoop_wf now fired x Hwf (enabled_main _ _ _ He))
      as (x' & k & due & rest & y & Hm & _ & _ & Hw & Hs & _ & Hq & Hp & Hst).
    rewrite Hm in Hx. simplify_eq/=.
    destruct (Schedule_inv _ _ _ Hs) as (Hs1 & Hs2 & Hs3).
    pose proof Ht as Ht'. rewrite <- (wakes_perm _ _ _ _ Hw) in Ht'.
    apply elem_of_app in Ht' as [Hd|Hr].
    + right. exists now, fired. split; [done|]. split; [by apply (wakes_due _ _ _ _ Hw)|].
      assert (Hin : Some t ∈ thread_runnable_ y).
      { rewrite Hq, !elem_of_app. right; right. by apply list_elem_of_fmap_2. }
      destruct (thread_runnable_ y) as [|p q]; [by apply elem_of_nil in Hin|].
      destruct Hs3 as (u & -> & -> & Hr'). apply elem_of_cons in Hin as [[= ->]|Hin]; [auto|].
      right. unfold runq. rewrite Hr'. apply list_elem_of_omap. eauto.
    + left. rewrite Hs1, Hs2. split; [done|]. split.
      * assert (t ∉ due).
        { pose proof (pending_nodup _ (wf_pending_ok _ _ Hwf)) as Hnd.
          rewrite <- (wakes_perm _ _ _ _ Hw) in Hnd. apply NoDup_app in Hnd as (_ & Hd & _).
          intros Hin. by apply (Hd t). }
        unfold wake. by rewrite Hst, wake_all_lookup_other.
      * intros ? ? [= <- <-]. by apply (wakes_rest _ _ _ _ Hw).
  - left. destruct (coroutine_step l x h c' (wf_running _ _ Hwf h eq_refl) Hx)
      as (y & more & [_ Hqp Hqs] & Hsw).
    assert (Hy : t ∈ thread_pending_ y /\ wake (store y) t = wake (store x) t).
    { split; [by apply Hqp|]. unfold wake. rewrite Hqs; [done|..].
      - intros ->. apply (holder_not_suspended x h Hwf). unfold suspended. in_lists.
      - apply (wf_fresh _ _ Hwf), (pending_live _ (wf_pending_ok _ _ Hwf)), Ht.
      - intros Hfr. destruct (free_elsewhere _ _ _ Hwf Hfr) as (Hns & _). apply Hns.
        unfold suspended. in_lists. }
    assert (Hd : store (cfg_frame c') = store y /\
      thread_pending_ (cfg_frame c') = thread_pending_ y).
    { destruct (switches l); [|by destruct Hsw as [-> _]].
      by destruct (Schedule_inv _ _ _ Hsw) as (-> & -> & _). }
    destruct Hd as [-> ->]. simpl. destruct Hy. split_and!; try done.
    intros now fired ->. done.
Qed.

(** A state in which the thread that waits for [fd] is forgotten. *)
Definition forget_waiter (fd : Z) (t1 : tid) (x : frame) : frame :=
  set_events (alter (fun e => mkEvent (ev_fd e) (ev_events e) (ev_res e) false) t1 (events x))
    (set_io (delete fd (io_wait_map_ x)) x).

Lemma forget_waiter_wf x k fd t1 :
  wf x k -> io_wait_map_ x !! fd = Some (Some t1) ->
  wf (forget_waiter fd t1 x) k /\ (t1 ∉ owned (forget_waiter fd t1 x) k) /\
  is_Some (store x !! t1).
Proof.
  intros Hwf Hfd. set (y := forget_waiter fd t1 x).
  assert (Hwait : t1 :: waitq y ≡ₚ waitq x) by by apply waitq_delete.
  assert (Hown : owned x k ≡ₚ t1 :: owned y k).
  { unfold owned. rewrite <- Hwait. unfold y, runq. simpl. solve_Permutation. }
  pose proof (wf_nodup _ _ Hwf) as Hnd. rewrite Hown in Hnd. apply NoDup_cons in Hnd as [Hnin Hnd].
  destruct (wf_io _ _ Hwf _ _ Hfd) as (u & e & [= <-] & He & Hefd & Ha).
  split_and!; [|done|apply (wf_live _ _ Hwf); rewrite Hown; in_lists].
  split; try apply Hwf; try done.
  - intros t Ht. apply (wf_live _ _ Hwf). rewrite Hown. in_lists.
  - intros t th Ht. apply (wf_ctx _ _ Hwf). revert Ht. unfold suspended. rewrite <- Hwait.
    unfold runq, y. simpl. in_lists.
  - simpl. intros fd' p [Hne Hp]%lookup_delete_Some.
    destruct (wf_io _ _ Hwf _ _ Hp) as (v & e' & -> & He' & Hfd' & Ha').
    exists v, e'. assert (t1 <> v) by (intros ->; congruence). simpl. by rewrite lookup_alter_ne.
  - simpl. intros v e'. destruct (decide (t1 = v)) as [->|].
    + rewrite lookup_alter_eq, He. simpl. by intros [= <-].
    + rewrite lookup_alter_ne by done. intros He' Ha'.
      pose proof (wf_ev _ _ Hwf _ _ He' Ha') as Hio.
      rewrite lookup_delete_ne; [done|]. intros Heq. congruence.
Qed.

(** Waiting does not look at the events of other threads nor at the old entry
    of the wait map. *)
Lemma io_wait_forget x t fd evs t1 x' k :
  running_thread_ x = Some t ->
  io_wait fd evs (forget_waiter fd t1 x) = Some (x', k) ->
  exists e, io_wait fd evs x = Some (set_events e x', k).
Proof.
  intros Hr H. unfold io_wait, GetEventBase in *. simpl in H.
  destruct (base_ x); simplify_eq/=; rewrite Hr in *; simpl in *; destruct_calls;
    repeat (rewrite ?Hr; erewrite call_Some by (simpl; first [done|apply lookup_insert_eq]); simpl);
    match goal with H : Frame_Schedule _ = _, L : <[_ := _]> _ !! _ = _ |- _ =>
      rewrite insert_delete_eq in H; rewrite lookup_insert_eq in L; simplify_eq; eexists;
      match goal with |- Frame_Schedule ?y = _ =>
        apply (Schedule_set_events _ _ _ (events y)) in H; exact H end
    end.
Qed.

Lemma io_wait_live fd evs x x' k t :
  io_wait fd evs x = Some (x', k) -> is_Some (store x !! t) -> is_Some (store x' !! t).
Proof.
  intros H Ht. unfold io_wait, GetEventBase in H.
  destruct (base_ x); simplify_eq/=; destruct_calls;
    match goal with H : Frame_Schedule _ = _ |- _ =>
      destruct (Schedule_inv _ _ _ H) as (-> & _) end; simpl;
    rewrite !lookup_insert_is_Some'; auto.
Qed.

(** C1: from every configuration the scheduler can reach after [Frame::Init],
    every step that the environment and the callers may take succeeds (no null
    or dangling thread pointer is dereferenced and no unsaved context is
    restored) and leads to a well-formed configuration again. *)
Theorem scheduler_safe pool c l :
  reachable pool c -> enabled l c = true ->
  exists c', exec l c = Some c' /\ wf (cfg_frame c') (cfg_ctl c').
Proof. intros Hr. apply exec_wf. eauto using reachable_wf. Qed.

(** Whenever a coroutine executes, [running_thread_] points to it, so that
    the operations of [Frame] save and queue the context of their caller; and
    every entry of the ready queue is a live thread other than the executing
    one, with a context that can be restored. *)
Theorem running_thread_current pool c :
  reachable pool c ->
  (forall t, cfg_ctl c = InThread t -> running_thread_ (cfg_frame c) = Some t) /\
  (forall p, p ∈ thread_runnable_ (cfg_frame c) ->
     exists t th, p = Some t /\ store (cfg_frame c) !! t = Some th /\ has_context th /\
       cfg_ctl c <> InThread t).
Proof.
  intros Hwf%reachable_wf. split; [apply (wf_running _ _ Hwf)|].
  intros p Hp.
  pose proof (proj1 (Forall_forall _ _) (wf_runnable _ _ Hwf) p Hp) as [t ->].
  assert (Hs : t ∈ suspended (cfg_frame c)).
  { unfold suspended. apply elem_of_app. left. apply list_elem_of_omap. eauto. }
  destruct (wf_live _ _ Hwf t (suspended_owned _ _ _ Hs)) as [th Hth].
  exists t, th. split_and!; [done|done|eapply wf_ctx; eauto|].
  intros Hc. rewrite Hc in Hwf. by apply (holder_not_suspended _ _ Hwf).
Qed.

(** C17: the ready queue is first-in first-out without starvation: a thread at
    position [k] of the queue executes after exactly [k + 1] switches, whatever
    the other coroutines, the clock and libevent do. *)
Theorem fifo_fairness pool c ls l c' k t :
  reachable pool c -> thread_runnable_ (cfg_frame c) !! k = Some (Some t) ->
  steps c (ls ++ [l]) c' ->
  length (filter (fun l => switches l = true) ls) = k -> switches l = true ->
  cfg_ctl c' = InThread t.
Proof.
  intros Hwf%reachable_wf Hk Hs Hn Hl. apply steps_snoc in Hs as (c1 & Hs & Hst).
  pose proof (queue_advance c ls c1 k t Hs Hwf Hk ltac:(lia)) as Hk1.
  rewrite Hn, Nat.sub_diag in Hk1.
  destruct (step_queue c1 l c' (steps_wf _ _ _ Hs Hwf) Hst) as [more Hq].
  rewrite Hl in Hq. destruct (thread_runnable_ (cfg_frame c1)) as [|p q]; [done|].
  simpl in Hq, Hk1. destruct Hq as (u & Hu & Hc & _). congruence.
Qed.

(** C16: a sleeping thread is neither woken early nor forgotten.  As long as no
    iteration of the main loop has a timestamp at or after its wake-up time,
    every step leaves it asleep with the same wake-up time; the first iteration
    with such a timestamp makes it run or puts it in the ready queue. *)
Theorem sleep_exact pool c l c' t :
  reachable pool c -> step c l c' -> t ∈ thread_pending_ (cfg_frame c) ->
  (t ∈ thread_pending_ (cfg_frame c') /\
     wake (store (cfg_frame c')) t = wake (store (cfg_frame c)) t /\
     forall now fired, l = L_main now fired -> now < wake (store (cfg_frame c)) t) \/
  (exists now fired, l = L_main now fired /\ wake (store (cfg_frame c)) t <= now /\
     (cfg_ctl c' = InThread t \/ t ∈ runq (cfg_frame c'))).
Proof. intros Hr. apply step_sleeper. eauto using reachable_wf. Qed.

(** [WakeupPendingThread] moves exactly the sleeping threads that are due at
    the last loop timestamp to the end of the ready queue, in the order of
    their wake-up times, clears their wake-up times and marks them runnable,
    and leaves the others asleep in a heap. *)
Theorem wakeup_exactly_due x :
  pending_ok x ->
  exists due rest,
    WakeupPendingThread x =
      Some (set_runnable (thread_runnable_ x ++ (Some <$> due))
             (set_pending rest (set_store (wake_all due (store x)) x))) /\
    due ++ rest ≡ₚ thread_pending_ x /\
    (forall t, t ∈ due -> wake (store x) t <= last_loop_ts_ x) /\
    (forall t, t ∈ rest -> last_loop_ts_ x < wake (store x) t) /\
    StronglySorted (fun a b => wake (store x) a <= wake (store x) b) due /\
    is_heap (ThreadPendingTimeComp (wake_all due (store x))) rest.
Proof.
  intros Hok. destruct (WakeupPendingThread_spec x Hok) as (due & rest & [] & -> & []).
  exists due, rest. split_and!; done.
Qed.


(** C38: the time-out handed to the event loop: none when the first sleeper is
    overdue, the exact distance to its wake-up time in seconds and microseconds
    when that is less than 2^31 ms away, and 100 ms when nobody sleeps. *)
Theorem event_loop_timeout x :
  pending_ok x ->
  match thread_pending_ x with
  | [] => GetEventLoopTimeout x = (0, 100000)
  | n :: _ =>
      let d := wake (store x) n - last_loop_ts_ x in
      (forall t, t ∈ thread_pending_ x -> wake (store x) n <= wake (store x) t) /\
      (d < 0 -> GetEventLoopTimeout x = (0, 0)) /\
      (0 <= d < 2 ^ 31 -> exists sec usec, GetEventLoopTimeout x = (sec, usec) /\
         0 <= usec < 1000000 /\ sec * 1000000 + usec = d * 1000)
  end.
Proof.
  intros Hok. destruct (thread_pending_ x) as [|n l] eqn:Hl.
  { unfold GetEventLoopTimeout. by rewrite Hl. }
  intros d. split_and!.
  - intros t Ht. eapply heap_head_first; [done|by rewrite Hl|by rewrite Hl].
  - intros. eapply GetEventLoopTimeout_due; eauto. unfold d in *. lia.
  - intros Hd. eexists _, _. split; [eapply GetEventLoopTimeout_delta; eauto|].
    fold d. pose proof (Z.div_mod d 1000). pose proof (Z.mod_pos_bound d 1000). lia.
Qed.

(** A sleep of 2^31 ms or more overflows the [int] that holds the distance
    to the wake-up time: instead of that distance the event loop is given a
    time-out of at least 2^53 seconds. *)
Theorem event_loop_timeout_overflow x n l :
  thread_pending_ x = n :: l ->
  2 ^ 31 <= wake (store x) n - last_loop_ts_ x < 2 ^ 32 ->
  2 ^ 53 <= (GetEventLoopTimeout x).1.
Proof. apply GetEventLoopTimeout_overflow. Qed.

(** When a work ends, its thread goes to the free list and its wrapper
    reports it dead; but the next [CreateThread] takes that very object, and
    the old wrapper then reports it alive. *)
Theorem dead_until_reused pool c t c1 :
  reachable pool c -> cfg_ctl c = InThread t -> exec L_exit c = Some c1 ->
  IsDead (store (cfg_frame c1)) (mkThreadWrapper (Some t)) = Some true /\
  forall w, exists x2, CreateThread w (cfg_frame c1) = Some (mkThreadWrapper (Some t), x2) /\
    IsDead (store x2) (mkThreadWrapper (Some t)) = Some false.
Proof.
  intros Hwf%reachable_wf Hc Hx. destruct c as [x k]; simpl in *. subst k. simpl in Hx.
  destruct (HandleProcess_wf x t Hwf) as (x' & k & y & Hp & Hwf' & _ & Hs & Hl & Hd).
  rewrite Hp in Hx. simplify_eq/=. destruct (Schedule_inv _ _ _ Hs) as (Hst & _ & _).
  assert (Hfree : thread_free_ x' = thread_free_ y) by eauto using Schedule_free.
  split.
  - unfold IsDead. simpl. rewrite Hst. destruct (store y !! t); simplify_eq/=.
    by rewrite Hd.
  - intros w. destruct (CreateThread_wf w x' k Hwf') as (u & x2 & Hcr & _ & _ & (th & Hth & _ & Hss) & Hu).
    rewrite Hfree, Hl in Hu. destruct Hu as [-> _].
    exists x2. split; [done|]. unfold IsDead. simpl. rewrite Hth. simpl.
    unfold GetState. by rewrite Hss.
Qed.

(** The wait map holds one thread per descriptor: when a second coroutine
    waits for a descriptor, the first one disappears from every queue although
    its object is still allocated, and it is never scheduled again. *)
Theorem second_waiter_loses_first pool c t fd evs t1 :
  reachable pool c -> cfg_ctl c = InThread t ->
  io_wait_map_ (cfg_frame c) !! fd = Some (Some t1) ->
  exists x' k, io_wait fd evs (cfg_frame c) = Some (x', k) /\ (t1 ∉ owned x' k) /\
    is_Some (store x' !! t1).
Proof.
  intros Hwf%reachable_wf Hc Hfd. rewrite Hc in Hwf. set (x := cfg_frame c) in *.
  destruct (forget_waiter_wf x _ fd t1 Hwf Hfd) as (Hwf1 & Hnin & Hlive).
  destruct (io_wait_wf fd evs _ t Hwf1) as (x' & k & Hw & Hwf' & Hown).
  { apply lookup_delete_eq. }
  destruct (io_wait_forget x t fd evs t1 x' k) as [e Hx];
    [by apply (wf_running _ _ Hwf)|done|].
  eexists _, _. split; [exact Hx|]. split.
  - change (owned (set_events e x') k) with (owned x' k). by rewrite Hown.
  - simpl. eapply io_wait_live; [exact Hw|]. done.
Qed.

End theorems.

(** ** Start and stop *)

Lemma delete_all_spec l x :
  NoDup l -> (forall t, t ∈ l -> is_Some (store x !! t)) ->
  exists s, delete_all (Some <$> l) x = Some (set_store s x) /\
    (forall t, t ∈ l -> s !! t = None) /\ (forall t, t ∉ l -> s !! t = store x !! t).
Proof.
  revert x. induction l as [|d l IH]; intros x Hnd Hl; csimpl.
  { exists (store x). split_and!; [by destruct x|by intros ? ?%elem_of_nil|done]. }
  apply NoDup_cons in Hnd as [Hd Hnd].
  destruct (Hl d) as [th Hth]; [in_lists|]. unfold delete_Thread. rewrite Hth. simpl.
  destruct (IH (set_store (delete d (store x)) x)) as (s & -> & Hin & Hout).
  - done.
  - intros t Ht. simpl. rewrite lookup_delete_ne by (by intros ->). apply Hl. in_lists.
  - simpl in *. exists s. split_and!; [done|..].
    + intros t [->|Ht]%elem_of_cons; [|by apply Hin].
      rewrite Hout by done. apply lookup_delete_eq.
    + intros t [Hne Ht]%not_elem_of_cons. rewrite Hout by done. by rewrite lookup_delete_ne.
Qed.

Lemma delete_all_app l k x :
  delete_all (l ++ k) x = (x ← delete_all l x; delete_all k x).
Proof.
  revert x. induction l as [|p l IH]; intros x; [done|]. simpl.
  destruct (delete_Thread p x); simpl; [apply IH|done].
Qed.

(** The objects [Frame::Fini] deletes, in its order. *)
Definition fini_list (x : frame) (t : tid) : list tid :=
  t :: option_list (main_thread_ x) ++ runq x ++ thread_free_ x ++ waitq x.

Lemma wf_runnable_eq x k : wf x k -> thread_runnable_ x = Some <$> runq x.
Proof.
  intros Hwf. pose proof (wf_runnable _ _ Hwf) as Hall. unfold runq.
  induction Hall as [|p l [t ->] _ IH]; csimpl; congruence.
Qed.

Lemma wf_io_eq x k : wf x k -> (map_to_list (io_wait_map_ x)).*2 = Some <$> waitq x.
Proof.
  intros Hwf. unfold waitq.
  assert (Hall : Forall is_Some (map_to_list (io_wait_map_ x)).*2).
  { apply Forall_fmap, Forall_forall. intros [fd p] Hp%elem_of_map_to_list. simpl.
    destruct (wf_io _ _ Hwf _ _ Hp) as (t & _ & -> & _). eauto. }
  induction Hall as [|p l [t ->] _ IH]; csimpl; congruence.
Qed.

Lemma fini_list_perm x t : fini_list x t ++ thread_pending_ x ≡ₚ owned x (InThread t).
Proof. unfold fini_list, owned. simpl. solve_Permutation. Qed.

(** Deleting looks at the store only. *)
Lemma delete_all_frame f l x :
  (forall s y, f (set_store s y) = set_store s (f y)) -> (forall y, store (f y) = store y) ->
  delete_all l (f x) = f <$> delete_all l x.
Proof.
  intros Hf Hs. revert x. induction l as [|[t|] l IH]; intros x; simpl; unfold delete_Thread; simpl; [done| |apply IH].
  rewrite Hs. destruct (store x !! t); simpl; [|done]. rewrite <- Hf. apply IH.
Qed.

Lemma delete_all_store l x y : delete_all l x = Some y -> exists s, y = set_store s x.
Proof.
  revert x. induction l as [|[t|] l IH]; intros x; simpl; unfold delete_Thread; simpl.
  - intros [= <-]. exists (store x). by destruct x.
  - destruct (store x !! t); simpl; [|done]. intros [s ->]%IH. eauto.
  - apply IH.
Qed.

Lemma Frame_Fini_eq x t y :
  wf x (InThread t) -> delete_all (Some <$> fini_list x t) x = Some y ->
  Frame_Fini x = Some (true,
    let z := set_main None (set_running None y) in
    match base_ x with base_null => z | _ => set_base base_freed z end).
Proof.
  intros Hwf Hy. unfold fini_list in Hy. rewrite fmap_cons, !fmap_app in Hy.
  rewrite <- (wf_runnable_eq _ _ Hwf), <- (wf_io_eq _ _ Hwf) in Hy.
  replace (Some <$> option_list (main_thread_ x)) with [main_thread_ x] in Hy
    by (destruct (wf_main _ _ Hwf) as (m & _ & _ & _ & -> & _); done).
  simpl delete_all in Hy. apply bind_Some in Hy as (x1 & H1 & Hy).
  apply bind_Some in Hy as (x2 & H2 & Hy).
  rewrite delete_all_app in Hy. apply bind_Some in Hy as (x3 & H3 & Hy).
  rewrite delete_all_app in Hy. apply bind_Some in Hy as (x4 & H4 & H5).
  assert (Hc : forall p z z', delete_Thread p z = Some z' -> delete_all [p] z = Some z').
  { intros p z z' Hz. simpl. by rewrite Hz. }
  destruct (delete_all_store _ _ _ (Hc _ _ _ H1)) as [s1 ->].
  destruct (delete_all_store _ _ _ (Hc _ _ _ H2)) as [s2 ->].
  destruct (delete_all_store _ _ _ H3) as [s3 ->].
  destruct (delete_all_store _ _ _ H4) as [s4 ->].
  destruct (delete_all_store _ _ _ H5) as [s5 ->].
  assert (Hdel : forall l z z', delete_all l z = Some z' ->
    delete_all l (set_main None (set_running None z)) =
    Some (set_main None (set_running None z'))).
  { intros l z z' Hz.
    rewrite (delete_all_frame (fun z => set_main None (set_running None z))) by done.
    by rewrite Hz. }
  unfold Frame_Fini. rewrite (wf_running _ _ Hwf t eq_refl), H1. simpl.
  assert (Hm : delete_Thread (main_thread_ x) (set_running None (set_store s1 x)) =
               Some (set_running None (set_store s2 (set_store s1 x)))).
  { pose proof (delete_all_frame (set_running None) [main_thread_ x] (set_store s1 x)
      ltac:(done) ltac:(done)) as Hfr. rewrite (Hc _ _ _ H2) in Hfr. simpl in Hfr.
    by destruct (delete_Thread (main_thread_ x) (set_running None (set_store s1 x))). }
  rewrite Hm. simpl. rewrite (Hdel _ _ _ H3). simpl. rewrite (Hdel _ _ _ H4). simpl.
  rewrite (Hdel _ _ _ H5). simpl.
  pose proof (wf_base _ _ Hwf). by destruct (base_ x).
Qed.

Section start_stop.
Context {HO : HeapOps}.

(** [Frame::Init] on the initial statics succeeds and establishes the
    invariant, with the caller as the executing coroutine, the pool of 1000 free
    threads, and empty queues. *)
Theorem frame_init_establishes :
  exists x, Frame_Init frame0 = Some (true, x) /\ wf x (InThread 1%nat) /\
    thread_free_ x = seq 2 1000 /\ thread_runnable_ x = [] /\ thread_pending_ x = [] /\
    io_wait_map_ x = ∅ /\ main_thread_ x = Some 0%nat.
Proof. exact (Frame_Init_ok 1000). Qed.

(** [Frame::Fini] called by a coroutine deletes every thread object once,
    except the sleeping ones, which stay allocated; and once the event base
    exists it keeps the pointer to the freed base, so that a later
    [Frame::Init] refuses to run. *)
Theorem frame_fini_frees pool c t :
  reachable pool c -> cfg_ctl c = InThread t ->
  let x := cfg_frame c in
  exists y, Frame_Fini x = Some (true, y) /\
    (forall u, u ∈ owned x (InThread t) -> u ∉ thread_pending_ x -> store y !! u = None) /\
    (forall u, u ∈ thread_pending_ x -> is_Some (store y !! u)) /\
    (base_ x = base_live -> Frame_Init y = Some (false, y)).
Proof.
  intros Hwf%reachable_wf Hc x. rewrite Hc in Hwf. fold x in Hwf.
  pose proof (fini_list_perm x t) as Hp.
  pose proof (wf_nodup _ _ Hwf) as Hnd. rewrite <- Hp in Hnd.
  apply NoDup_app in Hnd as (Hnd & Hdis & _).
  destruct (delete_all_spec (fini_list x t) x Hnd) as (s & Hdel & Hin & Hout).
  { intros u Hu. apply (wf_live _ _ Hwf). rewrite <- Hp. in_lists. }
  rewrite (Frame_Fini_eq _ _ _ Hwf Hdel). eexists. split; [done|].
  assert (Hs : forall z, store (match base_ x with base_null => z
                               | _ => set_base base_freed z end) = store z).
  { intros. by destruct (base_ x). }
  cbv zeta. rewrite Hs. simpl. split_and!.
  - intros u Hu Hnp. apply Hin. rewrite <- Hp, elem_of_app in Hu. tauto.
  - intros u Hu. rewrite Hout by (intros Hf; by apply (Hdis u)).
    apply (wf_live _ _ Hwf). unfold owned. in_lists.
  - intros Hb. rewrite Hb. done.
Qed.

End start_stop.

(** ** Witnesses

    A run with a pool of two threads: the initial coroutine (thread 1) creates
    a coroutine (thread 3) and sleeps until 1050; the new one waits for
    descriptor 9 and the main loop takes over. *)

Definition demo_cfg (ls : list label) : config :=
  default (mkConfig frame0 InMain) (b ← boot 2; run ls b).

Lemma demo_reachable ls :
  match (b ← boot 2; run ls b) with Some _ => true | None => false end = true ->
  reachable 2 (demo_cfg ls).
Proof.
  unfold demo_cfg. destruct (boot 2) as [b|] eqn:Hb; simpl; [|done].
  destruct (run ls b) as [c|] eqn:Hr; simpl; [|done]. intros _.
  exists b, ls. split; [done|]. by apply run_steps.
Qed.

Definition demo_ls : list label := [L_create 7%nat; L_sleep 1000 50; L_wait 9 EV_READ].

Example demo_run :
  let c := demo_cfg demo_ls in
  cfg_ctl c = InMain /\ thread_pending_ (cfg_frame c) = [1%nat] /\
  waitq (cfg_frame c) = [3%nat] /\ thread_free_ (cfg_frame c) = [2%nat].
Proof. vm_compute. done. Qed.

Lemma scheduler_safe_witness :
  exists c', exec (L_main 1060 (Some (3%nat, EV_READ))) (demo_cfg demo_ls) = Some c' /\
    wf (cfg_frame c') (cfg_ctl c').
Proof.
  apply (scheduler_safe 2); [apply demo_reachable; vm_compute; reflexivity|].
  vm_compute. reflexivity.
Defined.

Lemma running_thread_current_witness :
  running_thread_ (cfg_frame (demo_cfg [L_create 7%nat])) = Some 1%nat.
Proof.
  apply (running_thread_current 2 (demo_cfg [L_create 7%nat]));
    [apply demo_reachable; vm_compute; reflexivity|vm_compute; reflexivity].
Defined.

(** Thread 3 is second in the queue behind thread 2; two switches later it runs. *)
Lemma fifo_fairness_witness :
  cfg_ctl (demo_cfg [L_create 7%nat; L_create 8%nat; L_sleep 1000 50; L_exit]) = InThread 2%nat.
Proof.
  apply (fifo_fairness 2 (demo_cfg [L_create 7%nat; L_create 8%nat]) [L_sleep 1000 50] L_exit
           _ 1 2%nat).
  - apply demo_reachable. vm_compute. reflexivity.
  - vm_compute. reflexivity.
  - apply run_steps. vm_compute. reflexivity.
  - reflexivity.
  - reflexivity.
Defined.

Lemma sleep_exact_witness :
  let c := demo_cfg demo_ls in
  let c' := demo_cfg (demo_ls ++ [L_main 1060 None]) in
  (1%nat ∈ thread_pending_ (cfg_frame c') /\
     wake (store (cfg_frame c')) 1%nat = wake (store (cfg_frame c)) 1%nat /\
     forall now fired, L_main 1060 None = L_main now fired ->
       now < wake (store (cfg_frame c)) 1%nat) \/
  (exists now fired, L_main 1060 None = L_main now fired /\
     wake (store (cfg_frame c)) 1%nat <= now /\
     (cfg_ctl c' = InThread 1%nat \/ 1%nat ∈ runq (cfg_frame c'))).
Proof.
  apply (sleep_exact 2).
  - apply demo_reachable. vm_compute. reflexivity.
  - constructor; vm_compute; reflexivity.
  - vm_compute. left.
Defined.

Lemma wakeup_exactly_due_witness :
  exists due rest, due ++ rest ≡ₚ thread_pending_ (cfg_frame (demo_cfg demo_ls)).
Proof.
  destruct (wakeup_exactly_due (cfg_frame (demo_cfg demo_ls))) as (due & rest & _ & H & _).
  - eapply wf_pending_ok, (reachable_wf 2), demo_reachable. vm_compute. reflexivity.
  - exists due, rest. exact H.
Defined.


Lemma event_loop_timeout_witness :
  let x := set_loop_ts 1000 (cfg_frame (demo_cfg demo_ls)) in
  exists sec usec, GetEventLoopTimeout x = (sec, usec) /\ 0 <= usec < 1000000 /\
    sec * 1000000 + usec = (wake (store x) 1%nat - last_loop_ts_ x) * 1000.
Proof.
  pose proof (event_loop_timeout (set_loop_ts 1000 (cfg_frame (demo_cfg demo_ls)))) as Ht.
  assert (Hp : thread_pending_ (set_loop_ts 1000 (cfg_frame (demo_cfg demo_ls))) = [1%nat])
    by (vm_compute; reflexivity).
  rewrite Hp in Ht. destruct Ht as (_ & _ & Ht).
  - apply pending_ok_loop_ts. eapply wf_pending_ok, (reachable_wf 2), demo_reachable.
    vm_compute. reflexivity.
  - apply Ht. vm_compute. split; [discriminate|reflexivity].
Defined.

Lemma event_loop_timeout_overflow_witness :
  2 ^ 53 <= (GetEventLoopTimeout (set_loop_ts 1000
    (cfg_frame (demo_cfg [L_create 7%nat; L_sleep 1000 (2 ^ 31 + 5)])))).1.
Proof.
  apply (event_loop_timeout_overflow _ 1%nat []).
  - vm_compute. reflexivity.
  - vm_compute. split; [discriminate|reflexivity].
Defined.

Lemma dead_until_reused_witness :
  IsDead (store (cfg_frame (demo_cfg [L_create 7%nat; L_sleep 1000 50; L_exit])))
    (mkThreadWrapper (Some 3%nat)) = Some true.
Proof.
  apply (dead_until_reused 2 (demo_cfg [L_create 7%nat; L_sleep 1000 50])).
  - apply demo_reachable. vm_compute. reflexivity.
  - vm_compute. reflexivity.
  - vm_compute. reflexivity.
Defined.

(** Threads 3 and 2 both wait for descriptor 9. *)
Lemma second_waiter_loses_first_witness :
  let c := demo_cfg [L_create 7%nat; L_create 8%nat; L_sleep 1000 50; L_wait 9 EV_READ] in
  exists x' k, io_wait 9 EV_READ (cfg_frame c) = Some (x', k) /\ (3%nat ∉ owned x' k) /\
    is_Some (store x' !! 3%nat).
Proof.
  apply (second_waiter_loses_first 2 _ 2%nat).
  - apply demo_reachable. vm_compute. reflexivity.
  - vm_compute. reflexivity.
  - vm_compute. reflexivity.
Defined.

Lemma frame_fini_frees_witness :
  exists y, Frame_Fini (cfg_frame (demo_cfg [L_create 7%nat])) = Some (true, y).
Proof.
  destruct (frame_fini_frees 2 (demo_cfg [L_create 7%nat]) 1%nat) as (y & H & _).
  - apply demo_reachable. vm_compute. reflexivity.
  - vm_compute. reflexivity.
  - exists y. exact H.
Defined.
