(* ===== verification/SchedSpec.v ===== *)
(** * What the scheduler promises: an abstract scheduler, and the refinement

    The specification forgets thread objects, contexts, the heap, libevent's
    events and the pool: a coroutine is a name, the ready queue a sequence, the
    sleepers a finite map to wake-up times, the waiters a finite map from
    descriptors.  Every step of [Frame] in a reachable configuration is a step of
    the specification with the same label. *)

From S2P Require Import Prelude Heap Thread Frame FrameFacts Sched SchedProps.

(** ** The specification *)

Record sched := mkSched {
  cur : option tid;
  ready : list tid;
  asleep : gmap tid Z;
  waiting : gmap Z tid
}.

(** One coroutine executes at first. *)
Definition sched0 : sched := mkSched (Some 1%nat) [] ∅ ∅.

(** The head of the ready queue executes next, or the main loop if it is empty. *)
Definition dispatch (r : list tid) (a : gmap tid Z) (w : gmap Z tid) : sched :=
  match r with
  | [] => mkSched None [] a w
  | t :: r => mkSched (Some t) r a w
  end.

(** A coroutine that is nowhere yet. *)
Definition fresh (s : sched) (t : tid) : Prop :=
  cur s <> Some t /\ (t ∉ ready s) /\ asleep s !! t = None /\ forall fd, waiting s !! fd <> Some t.

(** [due] are the sleepers whose time has come, in the order of their times. *)
Definition due_now (now : Z) (a : gmap tid Z) (due : list tid) : Prop :=
  NoDup due /\ (forall t, t ∈ due <-> exists w, a !! t = Some w /\ w <= now) /\
  StronglySorted (fun t u => default 0 (a !! t) <= default 0 (a !! u)) due.

Definition still_asleep (now : Z) (a : gmap tid Z) : gmap tid Z := filter (fun e => now < e.2) a.

(** A reported event ends the wait of its thread. *)
Inductive reported (w : gmap Z tid) : option (tid * Z) -> list tid -> gmap Z tid -> Prop :=
  | rep_none : reported w None [] w
  | rep_some fd t res : w !! fd = Some t -> reported w (Some (t, res)) [t] (delete fd w).

Inductive sched_step (s : sched) : label -> sched -> Prop :=
  | sp_main now fired up w due :
      cur s = None -> reported (waiting s) fired up w -> due_now now (asleep s) due ->
      sched_step s (L_main now fired) (dispatch (ready s ++ up ++ due) (still_asleep now (asleep s)) w)
  | sp_create k t u :
      cur s = Some t -> fresh s u ->
      sched_step s (L_create k) (mkSched (Some t) (ready s ++ [u]) (asleep s) (waiting s))
  | sp_sleep now ms t :
      cur s = Some t ->
      sched_step s (L_sleep now ms) (dispatch (ready s) (<[t := u64 (now + ms)]> (asleep s)) (waiting s))
  | sp_wait fd evs t :
      cur s = Some t -> waiting s !! fd = None ->
      sched_step s (L_wait fd evs) (dispatch (ready s) (asleep s) (<[fd := t]> (waiting s)))
  | sp_exit t :
      cur s = Some t -> sched_step s L_exit (dispatch (ready s) (asleep s) (waiting s))
  | sp_init_here t u :
      cur s = Some t -> fresh s u ->
      sched_step s L_init_here (mkSched (Some u) (ready s) (asleep s) (waiting s)).

Inductive sched_steps : sched -> list label -> sched -> Prop :=
  | sps_nil s : sched_steps s [] s
  | sps_cons s l s1 ls s2 : sched_step s l s1 -> sched_steps s1 ls s2 -> sched_steps s (l :: ls) s2.

(** ** The abstraction function *)

Definition sleepers (x : frame) : gmap tid Z :=
  list_to_map ((fun t => (t, wake (store x) t)) <$> thread_pending_ x).
Definition waiters (x : frame) : gmap Z tid := omap id (io_wait_map_ x).
Definition running (k : control) : option tid := match k with InMain => None | InThread t => Some t end.

Definition abs (x : frame) (k : control) : sched := mkSched (running k) (runq x) (sleepers x) (waiters x).

Lemma sleepers_lookup x t w :
  NoDup (thread_pending_ x) ->
  sleepers x !! t = Some w <-> t ∈ thread_pending_ x /\ w = wake (store x) t.
Proof.
  intros Hnd. unfold sleepers. rewrite <- elem_of_list_to_map.
  - rewrite list_elem_of_fmap. naive_solver.
  - rewrite <- list_fmap_compose. simpl. by rewrite list_fmap_id.
Qed.

Lemma sleepers_None x t :
  NoDup (thread_pending_ x) -> sleepers x !! t = None <-> t ∉ thread_pending_ x.
Proof.
  intros Hnd. rewrite eq_None_not_Some. unfold is_Some. setoid_rewrite (sleepers_lookup x t _ Hnd). naive_solver.
Qed.

Lemma waiters_lookup x fd t : waiters x !! fd = Some t <-> io_wait_map_ x !! fd = Some (Some t).
Proof. unfold waiters. rewrite lookup_omap. destruct (io_wait_map_ x !! fd) as [[]|]; simpl; naive_solver. Qed.

(** A map of sleepers is determined by the threads and their times. *)
Lemma sleepers_eq x (m : gmap tid Z) :
  NoDup (thread_pending_ x) ->
  (forall t w, m !! t = Some w <-> t ∈ thread_pending_ x /\ w = wake (store x) t) -> sleepers x = m.
Proof.
  intros Hnd Hm. apply map_eq. intros t. apply option_eq. intros w.
  by rewrite sleepers_lookup, Hm.
Qed.

Lemma sleepers_same x y :
  thread_pending_ y = thread_pending_ x ->
  (forall t, t ∈ thread_pending_ x -> store y !! t = store x !! t) -> sleepers y = sleepers x.
Proof.
  intros Hp Hs. unfold sleepers. rewrite Hp. f_equal. apply list_fmap_ext. intros i t Ht.
  unfold wake. by rewrite Hs by (by eapply list_elem_of_lookup_2).
Qed.

(** A coroutine that is neither suspended nor executing. *)
Lemma fresh_abs x k t : wf x k -> t ∉ suspended x -> t ∉ holder k -> fresh (abs x k) t.
Proof.
  intros Hwf Hn Hh. unfold suspended in Hn. rewrite !not_elem_of_app in Hn.
  destruct Hn as (Hr & Hp & Hw). split; [|split; [done|split]]; simpl.
  - destruct k; simpl in *; [done|]. intros [= ->]. set_solver.
  - apply sleepers_None; [|done]. exact (pending_nodup _ (wf_pending_ok x k Hwf)).
  - intros fd Hfd%waiters_lookup. apply Hw, elem_of_waitq. eauto.
Qed.

(** ** Each operation is a step of the specification *)

Lemma Schedule_abs y x' k :
  Frame_Schedule y = Some (x', k) -> Forall is_Some (thread_runnable_ y) ->
  abs x' k = dispatch (runq y) (sleepers y) (waiters y).
Proof.
  unfold Frame_Schedule, runq. destruct (thread_runnable_ y) as [|p rest] eqn:Hr; intros H Hs.
  - apply bind_Some in H as (m & _ & (th & _ & (u & _ & [= <- <-])%bind_Some)%bind_Some).
    unfold abs, runq. by rewrite Hr.
  - apply bind_Some in H as (t & -> & (th & _ & (u & _ & [= <- <-])%bind_Some)%bind_Some). done.
Qed.

Lemma Schedule_io y x' k : Frame_Schedule y = Some (x', k) -> io_wait_map_ x' = io_wait_map_ y.
Proof.
  unfold Frame_Schedule. destruct (thread_runnable_ y) as [|p rest];
    intros (m & _ & (th & _ & (u & _ & [= <- <-])%bind_Some)%bind_Some)%bind_Some; done.
Qed.

Section operations.
Context {HO : HeapOps}.

Section thread.
Context (x : frame) (t : tid) (Hwf : wf x (InThread t)).

Lemma thread_not_pending : t ∉ thread_pending_ x.
Proof. intros Hp. apply (holder_not_suspended x t Hwf). unfold suspended. in_lists. Qed.

Lemma Frame_Sleep_abs now ms x' k :
  Frame_Sleep now ms x = Some (x', k) ->
  abs x' k = dispatch (runq x) (<[t := u64 (now + ms)]> (sleepers x)) (waiters x).
Proof.
  pose proof thread_not_pending as Hnp.
  pose proof (pending_nodup _ (wf_pending_ok x _ Hwf)) as Hnd.
  unfold Frame_Sleep. rewrite (wf_running _ _ Hwf t eq_refl). intros H. destruct_calls.
  rewrite ?lookup_insert_eq in *. simplify_eq/=.
  match goal with H : Frame_Schedule ?y = _, Hn : ?v ∉ _ |- _ =>
    set (y0 := y) in H; rename H into Hs; try rename v into t end.
  rewrite (Schedule_abs _ _ _ Hs) by apply (wf_runnable _ _ Hwf). unfold dispatch.
  assert (Hp : thread_pending_ y0 ≡ₚ t :: thread_pending_ x).
  { unfold y0. simpl. rewrite push_heap_perm. by rewrite Permutation_app_comm. }
  change (runq y0) with (runq x). change (waiters y0) with (waiters x).
  replace (sleepers y0) with (<[t := u64 (now + ms)]> (sleepers x)); [done|]. symmetry.
  apply sleepers_eq; [rewrite Hp; by constructor|]. intros u w. rewrite Hp, elem_of_cons.
  assert (Hw : wake (store y0) u = if decide (u = t) then u64 (now + ms) else wake (store x) u).
  { unfold wake, y0. simpl. case_decide as E; [by rewrite E, lookup_insert_eq|].
    by rewrite !lookup_insert_ne by congruence. }
  rewrite Hw. destruct (decide (u = t)) as [->|Hne].
  - rewrite lookup_insert_eq. naive_solver.
  - rewrite lookup_insert_ne by done. rewrite sleepers_lookup by done. naive_solver.
Qed.

Lemma io_wait_abs fd evs x' k :
  io_wait fd evs x = Some (x', k) -> io_wait_map_ x !! fd = None ->
  abs x' k = dispatch (runq x) (sleepers x) (<[fd := t]> (waiters x)).
Proof.
  pose proof thread_not_pending as Hnp. unfold io_wait. intros H Hfd. destruct (GetEventBase_wf x _ Hwf) as (b & Hb & _). rewrite Hb in H.
  pose proof (wf_running _ _ Hwf t eq_refl) as Hrun. simpl in H. rewrite Hrun in H. destruct_calls.
  match goal with H : Frame_Schedule ?y = _, Hn : ?v ∉ _ |- _ =>
    set (y0 := y) in H; rename H into Hs; try rename v into t end.
  rewrite (Schedule_abs _ _ _ Hs) by apply (wf_runnable _ _ Hwf).
  change (runq y0) with (runq x). replace (sleepers y0) with (sleepers x).
  - f_equal. unfold waiters, y0. simpl. by erewrite omap_insert_Some.
  - symmetry. apply sleepers_same; [done|]. intros u Hu. unfold y0. simpl.
    rewrite !lookup_insert_ne by (intros ->; by apply Hnp). done.
Qed.

Lemma HandleProcess_abs x' k :
  HandleProcess x = Some (x', k) -> abs x' k = dispatch (runq x) (sleepers x) (waiters x).
Proof.
  pose proof thread_not_pending as Hnp.
  unfold HandleProcess, RecycleRunningThread. rewrite (wf_running _ _ Hwf t eq_refl). intros H.
  simpl in H. destruct_calls.
  match goal with H : Frame_Schedule ?y = _, Hn : ?v ∉ _ |- _ =>
    set (y0 := y) in H; rename H into Hs; try rename v into t end.
  rewrite (Schedule_abs _ _ _ Hs) by apply (wf_runnable _ _ Hwf).
  change (runq y0) with (runq x). change (waiters y0) with (waiters x). f_equal.
  apply sleepers_same; [done|]. intros u Hu. unfold y0. simpl.
  rewrite lookup_insert_ne by (intros ->; by apply Hnp). done.
Qed.

(** The thread that a step puts into use: a free one or a new one. *)
Lemma unused_thread u : (u ∈ thread_free_ x \/ u = next_tid x) -> fresh (abs x (InThread t)) u.
Proof.
  intros [Hu| ->].
  - destruct (free_elsewhere x _ u Hwf Hu) as (? & _ & ?). by apply fresh_abs.
  - destruct (new_Thread_wf x _ Hwf) as [_ Hn]. unfold owned in Hn. apply fresh_abs; [done|..];
      intros Hu; apply Hn; revert Hu; unfold suspended; in_lists.
Qed.

Lemma CreateThread_places w r x' :
  CreateThread w x = Some (r, x') -> exists u, (u ∈ thread_free_ x \/ u = next_tid x) /\
    thread_runnable_ x' = thread_runnable_ x ++ [Some u] /\ thread_pending_ x' = thread_pending_ x /\
    io_wait_map_ x' = io_wait_map_ x /\ forall v, v <> u -> store x' !! v = store x !! v.
Proof.
  intros H. unfold CreateThread, AllocNewThread in H.
  destruct (last (thread_free_ x)) as [f|] eqn:Hl; destruct_calls.
  - eexists. split; [left; by eapply last_Some_elem_of|]. split_and!; try done.
    intros v Hne. by rewrite !lookup_insert_ne.
  - exists (next_tid x). split; [by right|]. split_and!; try done.
    intros v Hne. by rewrite !lookup_insert_ne.
Qed.

Lemma CreateThread_abs w r x' :
  CreateThread w x = Some (r, x') -> exists u, fresh (abs x (InThread t)) u /\
    abs x' (InThread t) = mkSched (Some t) (runq x ++ [u]) (sleepers x) (waiters x).
Proof.
  intros (u & Hu & Hr & Hp & Hio & Hs)%CreateThread_places.
  pose proof (unused_thread u Hu) as Hf. exists u. split; [done|].
  unfold abs, runq, waiters. rewrite Hr, Hio, omap_app. f_equal. apply sleepers_same; [done|].
  intros v Hv. apply Hs. intros ->. destruct Hf as (_ & _ & Hn & _). simpl in Hn.
  apply sleepers_None in Hn; [done|]. exact (pending_nodup _ (wf_pending_ok x _ Hwf)).
Qed.

Lemma InitHereAsNewThread_abs x' u :
  InitHereAsNewThread x = Some x' -> running_thread_ x' = Some u ->
  fresh (abs x (InThread t)) u /\ abs x' (InThread u) = mkSched (Some u) (runq x) (sleepers x) (waiters x).
Proof.
  pose proof (unused_thread (next_tid x) (or_intror eq_refl)) as Hf.
  assert (Hn : next_tid x ∉ thread_pending_ x).
  { destruct Hf as (_ & _ & Hn & _). simpl in Hn. apply sleepers_None in Hn; [done|].
    exact (pending_nodup _ (wf_pending_ok x _ Hwf)). }
  intros H Hu. unfold InitHereAsNewThread in H. simpl in H. destruct_calls. split; [exact Hf|].
  unfold abs, runq, waiters. simpl. f_equal. apply sleepers_same; [done|].
  intros v Hv. simpl. rewrite !lookup_insert_ne by (intros <-; done). done.
Qed.
End thread.

(** An iteration of the main loop. *)
Lemma EventLoop_io tv fired x x' :
  wf x InMain ->
  match fired with Some (t, _) => ev_added <$> events x !! t = Some true | None => True end ->
  EventLoop tv fired x = Some x' ->
  exists up w, reported (waiters x) fired up w /\ waiters x' = w /\ up = fst <$> option_list fired.
Proof.
  intros Hwf Hf H. unfold EventLoop in H. destruct (GetEventBase_wf x _ Hwf) as (b & Hb & _).
  rewrite Hb in H. simpl in H. destruct fired as [[t res]|]; simplify_eq/=.
  - destruct (events x !! t) as [e|] eqn:He; simplify_eq/=. rewrite Hf in H. simplify_eq.
    eexists _, _. split; [apply rep_some, waiters_lookup; exact (wf_ev _ _ Hwf t e He Hf)|].
    split; [|done]. unfold waiters, SocketReadOrWrite. simpl. by rewrite omap_delete.
  - eexists _, _. split; [apply rep_none|done].
Qed.

Lemma MainThreadLoop_abs now fired x x' k :
  wf x InMain ->
  match fired with Some (t, _) => ev_added <$> events x !! t = Some true | None => True end ->
  MainThreadLoop now fired x = Some (x', k) ->
  exists up w due, reported (waiters x) fired up w /\ due_now now (sleepers x) due /\
    abs x' k = dispatch (runq x ++ up ++ due) (still_asleep now (sleepers x)) w.
Proof.
  intros Hwf Hf H. pose proof (pending_nodup _ (wf_pending_ok x _ Hwf)) as Hnd.
  destruct (MainThreadLoop_wf now fired x Hwf Hf) as (x2 & k2 & due & rest & y & H2 & _ & _ & Hw & Hs & Hwfy & Hr & Hp & Hst).
  rewrite H in H2. injection H2 as <- <-.
  assert (Hio : exists up w, reported (waiters x) fired up w /\ waiters y = w /\ up = fst <$> option_list fired).
  { unfold MainThreadLoop in H. apply bind_Some in H as (x3 & He & H). apply bind_Some in H as (x4 & Hwk & H).
    destruct (EventLoop_io _ _ _ _ (UpdateLoopTimestamp_wf now _ _ Hwf) Hf He) as (up & w & Hrep & Hw3 & Hup).
    exists up, w. split; [exact Hrep|]. split; [|done]. rewrite <- Hw3. unfold waiters. f_equal.
    apply Schedule_io in H, Hs. rewrite <- Hs, H.
    destruct (EventLoop_wf (GetEventLoopTimeout (UpdateLoopTimestamp now x)) _ _ (UpdateLoopTimestamp_wf now _ _ Hwf) Hf) as (x5 & He5 & Hwf5 & _).
    rewrite He in He5. injection He5 as <-.
    destruct (WakeupPendingThread_spec x3 (wf_pending_ok _ _ Hwf5)) as (d & r & _ & Hwk' & _).
    rewrite Hwk in Hwk'. by injection Hwk' as ->. }
  destruct Hio as (up & w & Hrep & Hwy & Hup). exists up, w, due. split; [done|].
  pose proof Hw as [Hperm Hdue Hrest Hsort].
  assert (Hnd2 : NoDup (due ++ rest)) by by rewrite Hperm.
  apply NoDup_app in Hnd2 as (Hndd & Hdis & Hndr).
  split.
  - split; [done|]. split.
    + intros t. split.
      * intros Ht. exists (wake (store x) t). split; [|auto]. apply sleepers_lookup; [done|].
        split; [|done]. rewrite <- Hperm. in_lists.
      * intros (v & Hv & Hle). apply sleepers_lookup in Hv as [Ht ->]; [|done].
        rewrite <- Hperm, elem_of_app in Ht. destruct Ht as [Ht|Ht]; [done|]. specialize (Hrest t Ht). lia.
    + eapply StronglySorted_impl; [|exact Hsort]. intros a b Ha Hb Hab. cbv beta.
      assert (Hl : forall c, c ∈ due -> sleepers x !! c = Some (wake (store x) c)).
      { intros c Hc. apply sleepers_lookup; [done|]. split; [|done]. rewrite <- Hperm. in_lists. }
      rewrite !Hl by done. done.
  - rewrite (Schedule_abs _ _ _ Hs (wf_runnable _ _ Hwfy)). f_equal.
    + unfold runq. rewrite Hr, !omap_app. f_equal. rewrite <- Hup.
      assert (Hid : forall l : list tid, omap id (Some <$> l) = l) by (induction l; csimpl; congruence).
      by rewrite !Hid.
    + apply sleepers_eq; [by rewrite Hp|]. intros t v. unfold still_asleep.
      rewrite map_lookup_filter_Some, (sleepers_lookup x t v Hnd), <- Hperm, elem_of_app, Hp. simpl.
      assert (Hwk : t ∈ rest -> wake (store y) t = wake (store x) t).
      { intros Ht. unfold wake. rewrite Hst, wake_all_lookup_other; [done|]. intros Hd. by apply (Hdis t). }
      split.
      * intros [[[Hd|Hd] ->] Hlt]; [specialize (Hdue t Hd); lia|]. by rewrite Hwk.
      * intros [Ht ->]. rewrite Hwk by done. auto.
    + done.
Qed.

(** The simulation. *)
Lemma exec_refines c l c' :
  wf (cfg_frame c) (cfg_ctl c) -> enabled l c = true -> exec l c = Some c' ->
  sched_step (abs (cfg_frame c) (cfg_ctl c)) l (abs (cfg_frame c') (cfg_ctl c')).
Proof.
  destruct c as [x k]. simpl. intros Hwf He Hx.
  destruct l, k as [|t]; try done; try (destruct fired as [[]|]; done);
    simpl in Hx; apply bind_Some in Hx as (r & Hop & Hx).
  - destruct r as [x' k']. injection Hx as <-.
    destruct (MainThreadLoop_abs _ _ _ _ _ Hwf (enabled_main _ _ _ He) Hop) as (up & w & due & Hrep & Hdue & Ha).
    simpl. rewrite Ha. by apply sp_main.
  - destruct r as [r x']. injection Hx as <-. destruct (CreateThread_abs x t Hwf _ _ _ Hop) as (u & Hf & Ha).
    simpl. rewrite Ha. by apply sp_create.
  - destruct r as [x' k']. injection Hx as <-. simpl. rewrite (Frame_Sleep_abs x t Hwf _ _ _ _ Hop).
    by apply (sp_sleep (abs x (InThread t))).
  - destruct r as [x' k']. injection Hx as <-. simpl in He |- *. destruct (io_wait_map_ x !! fd) eqn:Hio; [done|].
    rewrite (io_wait_abs x t Hwf _ _ _ _ Hop Hio). apply (sp_wait (abs x (InThread t))); [done|].
    simpl. unfold waiters. by rewrite lookup_omap, Hio.
  - destruct r as [x' k']. injection Hx as <-. simpl. rewrite (HandleProcess_abs x t Hwf _ _ Hop).
    by apply (sp_exit (abs x (InThread t)) t).
  - apply bind_Some in Hx as (u & Hu & [= <-]). simpl.
    destruct (InitHereAsNewThread_abs x t Hwf _ _ Hop Hu) as [Hf Ha]. rewrite Ha.
    by apply (sp_init_here (abs x (InThread t)) t).
Qed.

End operations.

Section theorems.
Context {HO : HeapOps}.

Lemma boot_abs pool b : boot pool = Some b -> abs (cfg_frame b) (cfg_ctl b) = sched0.
Proof.
  destruct (Frame_Init_ok pool) as (x & Hi & Hwf & _ & Hr & Hp & Hio & _).
  unfold boot. rewrite Hi. simpl. rewrite (wf_running _ _ Hwf 1%nat eq_refl). simpl. intros [= <-].
  unfold abs, runq, sleepers, waiters. simpl. by rewrite Hr, Hp, Hio.
Qed.

(** C2: The scheduler implements its specification: every execution of [Frame] from
    its start is one of the abstract scheduler, in which coroutines are names, the
    ready queue is first-in first-out, a sleep ends in the first iteration of the
    main loop whose time has reached it, sleepers that are due together wake in the
    order of their times, a reported descriptor wakes exactly the coroutine that
    waits for it, before the due sleepers, and a new coroutine goes to the end of
    the queue under a name nobody has. *)
Theorem scheduler_refines pool b ls c :
  boot pool = Some b -> steps b ls c -> sched_steps sched0 ls (abs (cfg_frame c) (cfg_ctl c)).
Proof.
  intros Hb Hs. rewrite <- (boot_abs pool b Hb). destruct (boot_wf pool) as (b' & Hb' & Hwf).
  rewrite Hb in Hb'. injection Hb' as <-. clear Hb.
  induction Hs as [|c0 l c1 ls c2 [He Hx]%step_inv _ IH]; [constructor|].
  destruct (exec_wf _ _ Hwf He) as (c' & Hx' & Hwf'). rewrite Hx in Hx'. injection Hx' as <-.
  eapply sps_cons; [by apply exec_refines|by apply IH].
Qed.

End theorems.

(** One coroutine sleeps, a second one waits for descriptor 9 and is resumed. *)
Lemma scheduler_refines_witness :
  sched_steps sched0 (demo_ls ++ [L_main 1060 (Some (3%nat, EV_READ))])
    (mkSched (Some 3%nat) [1%nat] ∅ ∅).
Proof.
  destruct (boot 2) as [b|] eqn:Hb; [|vm_compute in Hb; discriminate Hb].
  destruct (run (demo_ls ++ [L_main 1060 (Some (3%nat, EV_READ))]) b) as [c|] eqn:Hr;
    [|vm_compute in Hb; injection Hb as <-; vm_compute in Hr; discriminate Hr].
  assert (E : abs (cfg_frame c) (cfg_ctl c) = mkSched (Some 3%nat) [1%nat] ∅ ∅).
  { vm_compute in Hb. injection Hb as <-. vm_compute in Hr. injection Hr as <-. vm_compute. reflexivity. }
  rewrite <- E. apply (scheduler_refines 2 b); [exact Hb|]. apply run_steps. exact Hr.
Defined.
