(* ===== verification/CStr.v ===== *)
(** * Strings: util/string.h and util/string.cc

    [Split] as the loop over [std::getline] that it is, the trimming functions
    as [std::find_if] and [erase], and the conversions between numbers and
    decimal text of the C library that the framework uses. *)

From stdpp Require Import pretty.
From S2P Require Import Prelude.

Abbreviation char_code c := (Z.of_N (Ascii.N_of_ascii c)).

(** ** Split *)

(** The loop [while (std::getline(ss, item, delim)) *(result++) = item]; [item]
    holds the characters extracted so far.  At the end of the stream [getline]
    fails when it extracted nothing. *)
Fixpoint Split_loop (delim : ascii) (ss item : bytes) : list bytes :=
  match ss with
  | [] => if decide (item = []) then [] else [item]
  | c :: ss => if decide (c = delim) then item :: Split_loop delim ss []
               else Split_loop delim ss (item ++ [c])
  end.

Definition Split (s : bytes) (delim : ascii) : list bytes :=
  let elems := Split_loop delim s [] in
  if decide (elems = []) then [s] else elems.

(** ** Trimming *)

(** [std::isspace] in the C locale; [ch] is the value of a signed [char]. *)
Definition isspace (c : ascii) : bool :=
  (char_code c =? 32) || ((9 <=? char_code c) && (char_code c <=? 13)).

(** [std::find_if(begin, end, !isspace)]: what starts at the found position. *)
Fixpoint find_if_not_space (s : bytes) : bytes :=
  match s with
  | [] => []
  | c :: s' => if negb (isspace c) then s else find_if_not_space s'
  end.

Definition ltrim (s : bytes) : bytes := find_if_not_space s.
Definition rtrim (s : bytes) : bytes := rev (find_if_not_space (rev s)).
Definition trim (s : bytes) : bytes := rtrim (ltrim s).
Definition ltrim_copy (s : bytes) : bytes := ltrim s.
Definition rtrim_copy (s : bytes) : bytes := rtrim s.
Definition trim_copy (s : bytes) : bytes := trim s.

(** ** Numbers as text *)

(** [std::to_string] and [operator<<] on an integer. *)
Definition to_string (z : Z) : bytes := lit (pretty z).

Definition isdigit (c : ascii) : bool := (48 <=? char_code c) && (char_code c <=? 57).

Fixpoint digits_value (acc : Z) (s : bytes) : Z :=
  match s with
  | [] => acc
  | c :: s => if isdigit c then digits_value (10 * acc + (char_code c - 48)) s else acc
  end.

(** [strtol] in base 10: white space, a sign, digits; out of range saturates. *)
Definition strtol (s : bytes) : Z :=
  let s := find_if_not_space s in
  let v := match s with
           | c :: s' => if char_code c =? 45 then - digits_value 0 s'
                        else if char_code c =? 43 then digits_value 0 s'
                        else digits_value 0 s
           | [] => 0
           end in
  Z.max (- 2 ^ 63) (Z.min (2 ^ 63 - 1) v).

(** [atoi] is [(int) strtol(s, NULL, 10)] in the C library. *)
Definition atoi (s : bytes) : Z := s32 (strtol s).

(** [std::stoul] in base 10: [None] is the exception for no digits or a value out
    of range. *)
Definition stoul (s : bytes) : option Z :=
  let s := find_if_not_space s in
  let '(neg, s) := match s with
    | c :: s' => if char_code c =? 45 then (true, s')
                 else if char_code c =? 43 then (false, s') else (false, s)
    | [] => (false, s)
    end in
  match s with
  | c :: _ =>
      if isdigit c then
        let v := digits_value 0 s in
        if v <? 2 ^ 64 then Some (u64 (if neg then - v else v)) else None
      else None
  | [] => None
  end.

(** ** Joining, the inverse of [Split] *)

Fixpoint join (delim : ascii) (l : list bytes) : bytes :=
  match l with
  | [] => []
  | [x] => x
  | x :: l => x ++ delim :: join delim l
  end.

Section split.
Context (delim : ascii).

Lemma Split_loop_piece x ss item :
  delim ∉ x -> Split_loop delim (x ++ ss) item = Split_loop delim ss (item ++ x).
Proof.
  revert item. induction x as [|c x IH]; intros item Hx; simpl; [by rewrite app_nil_r|].
  rewrite decide_False by set_solver. rewrite IH by set_solver. by rewrite <- app_assoc.
Qed.

Lemma Split_loop_join l :
  l <> [] -> Forall (fun x => delim ∉ x) l -> last l <> Some [] ->
  Split_loop delim (join delim l) [] = l.
Proof.
  intros Hne Hall. induction Hall as [|x l Hx Hall IH]; [done|]. destruct l as [|y l]; simpl; intros Hl.
  - rewrite <- (app_nil_r x) at 1. rewrite Split_loop_piece by done. simpl.
    rewrite decide_False; [done|]. intros ->. done.
  - rewrite Split_loop_piece by done. simpl. rewrite decide_True by done. f_equal. by apply IH.
Qed.

Lemma Split_join l :
  l <> [] -> Forall (fun x => delim ∉ x) l -> last l <> Some [] ->
  Split (join delim l) delim = l.
Proof. intros. unfold Split. rewrite Split_loop_join by done. by rewrite decide_False. Qed.

Lemma join_cons x l : l <> [] -> join delim (x :: l) = x ++ delim :: join delim l.
Proof. by destruct l. Qed.

(** What the loop keeps of the stream: everything but a final delimiter. *)
Lemma Split_loop_spec ss item :
  let l := Split_loop delim ss item in
  (l = [] <-> ss = [] /\ item = []) /\
  (delim ∉ item -> Forall (fun x => delim ∉ x) l) /\
  (item ++ ss = join delim l \/ (l <> [] /\ item ++ ss = join delim l ++ [delim])).
Proof.
  revert item. induction ss as [|c ss IH]; intros item; simpl.
  - case_decide as Hd; rewrite app_nil_r.
    + subst. split; [done|]. split; [constructor|by left].
    + split; [by split; [|intros []]|]. split; [by repeat constructor|]. by left.
  - case_decide as Hd.
    + subst c. destruct (IH []) as (H1 & H2 & H3). split; [by split; [|intros []]|].
      split; [intros; constructor; [done|apply H2; set_solver]|].
      destruct (decide (Split_loop delim ss [] = [])) as [E|E].
      * apply H1 in E as [-> _]. simpl. right. done.
      * rewrite join_cons by done. simpl in H3.
        destruct H3 as [H3|[_ H3]]; [left; by do 2 f_equal|right].
        split; [done|]. rewrite <- app_assoc. simpl. by do 2 f_equal.
    + destruct (IH (item ++ [c])) as (H1 & H2 & H3). split; [|split].
      * rewrite H1. split; intros [H H']; [by destruct item|done].
      * intros. apply H2. rewrite elem_of_app, list_elem_of_singleton. by intros [?| ->].
      * by rewrite <- !app_assoc in H3.
Qed.

Lemma join_inj l k :
  l <> [] -> k <> [] -> Forall (fun x => delim ∉ x) l -> Forall (fun x => delim ∉ x) k ->
  last l <> Some [] -> last k <> Some [] -> join delim l = join delim k -> l = k.
Proof. intros. rewrite <- (Split_join l), <- (Split_join k) by done. congruence. Qed.

End split.

(** ** Trimming *)

Lemma find_if_not_space_spec s :
  exists p, s = p ++ find_if_not_space s /\ Forall (fun c => isspace c = true) p /\
    forall c r, find_if_not_space s = c :: r -> isspace c = false.
Proof.
  induction s as [|c s (p & E & Hp & Hh)]; simpl.
  - exists []. naive_solver.
  - destruct (isspace c) eqn:Hc; simpl.
    + exists (c :: p). simpl. split; [congruence|]. split; [by constructor|done].
    + exists []. naive_solver.
Qed.

Lemma rtrim_spec s :
  exists q, s = rtrim s ++ q /\ Forall (fun c => isspace c = true) q /\
    forall c r, rtrim s = r ++ [c] -> isspace c = false.
Proof.
  unfold rtrim. destruct (find_if_not_space_spec (rev s)) as (p & E & Hp & Hh).
  exists (rev p). split_and!.
  - by rewrite <- rev_app_distr, <- E, rev_involutive.
  - rewrite Forall_forall in *. intros c Hc. apply Hp.
    apply list_elem_of_In, in_rev. by rewrite <- list_elem_of_In.
  - intros c r H. apply (f_equal (@rev _)) in H. rewrite rev_involutive, rev_app_distr in H.
    exact (Hh _ _ H).
Qed.

(** ** Decimal text *)

Lemma pretty_N_char_digit n :
  (n < 10)%N -> isdigit (pretty_N_char n) = true /\ char_code (pretty_N_char n) - 48 = Z.of_N n.
Proof.
  destruct n as [|p]; [done|]. intros H.
  do 4 (destruct p as [p|p|]; try done; try (exfalso; lia)).
Qed.

Lemma pretty_N_go_digits x s :
  Forall (fun c => isdigit c = true) (lit s) ->
  Forall (fun c => isdigit c = true) (lit (pretty_N_go x s)).
Proof.
  revert s. induction (N.lt_wf_0 x) as [x _ IH]; intros s Hs.
  assert (x = 0 \/ 0 < x)%N as [->|?] by lia; [by rewrite pretty_N_go_0|].
  rewrite pretty_N_go_step by done. apply IH; [by apply N.div_lt|].
  constructor; [|done]. apply pretty_N_char_digit, N.mod_lt. done.
Qed.

Lemma pretty_N_go_value x s :
  digits_value 0 (lit (pretty_N_go x s)) = digits_value (Z.of_N x) (lit s).
Proof.
  revert s. induction (N.lt_wf_0 x) as [x _ IH]; intros s.
  assert (x = 0 \/ 0 < x)%N as [->|?] by lia; [by rewrite pretty_N_go_0|].
  rewrite pretty_N_go_step, IH by (done || by apply N.div_lt). simpl.
  destruct (pretty_N_char_digit (x mod 10)) as [-> ->]; [by apply N.mod_lt|].
  f_equal. rewrite N2Z.inj_div, N2Z.inj_mod. pose proof (Z.div_mod (Z.of_N x) 10). lia.
Qed.

Lemma to_string_nonneg z :
  0 <= z -> to_string z = lit (pretty (Z.to_N z)).
Proof. intros H. unfold to_string. by destruct z. Qed.

Lemma to_string_digits z : 0 <= z -> Forall (fun c => isdigit c = true) (to_string z).
Proof.
  intros H. rewrite to_string_nonneg by done. unfold pretty, pretty_N.
  case_decide; [by repeat constructor|]. by apply pretty_N_go_digits.
Qed.

Lemma to_string_value z : 0 <= z -> digits_value 0 (to_string z) = z.
Proof.
  intros H. rewrite to_string_nonneg by done. unfold pretty, pretty_N.
  case_decide; [simpl; lia|]. rewrite pretty_N_go_value. simpl. lia.
Qed.

Lemma to_string_inj a b : 0 <= a -> 0 <= b -> to_string a = to_string b -> a = b.
Proof. intros. rewrite <- (to_string_value a), <- (to_string_value b) by done. congruence. Qed.

Lemma to_string_nonempty z : 0 <= z -> to_string z <> [].
Proof.
  intros H. rewrite to_string_nonneg by done. unfold pretty, pretty_N. case_decide; [done|].
  intros E. pose proof (pretty_N_go_value (Z.to_N z) "") as Hv. rewrite E in Hv. simpl in Hv. lia.
Qed.

Lemma pretty_N_go_length x s :
  (length (lit (pretty_N_go x s)) <= N.to_nat x + length (lit s))%nat.
Proof.
  revert s. induction (N.lt_wf_0 x) as [x _ IH]; intros s.
  assert (x = 0 \/ 0 < x)%N as [->|?] by lia; [by rewrite pretty_N_go_0|].
  rewrite pretty_N_go_step by done. specialize (IH (x / 10)%N ltac:(by apply N.div_lt)).
  etrans; [apply IH|]. pose proof (N.div_lt x 10). simpl. lia.
Qed.

(** A rough bound: decimal text is not longer than the number, but for 0. *)
Lemma to_string_length z : 0 <= z -> blen (to_string z) <= z + 1.
Proof.
  intros H. rewrite to_string_nonneg by done. unfold pretty, pretty_N, blen.
  case_decide; [simpl; lia|]. pose proof (pretty_N_go_length (Z.to_N z) ""). simpl in *. lia.
Qed.

(** A character that is not a digit does not occur in decimal text. *)
Lemma to_string_no c z : 0 <= z -> isdigit c = false -> c ∉ to_string z.
Proof.
  intros Hz Hc Hin. pose proof (to_string_digits z Hz) as Hd. rewrite Forall_forall in Hd.
  apply Hd in Hin. congruence.
Qed.

Lemma isdigit_not_space c : isdigit c = true -> isspace c = false.
Proof. unfold isdigit, isspace. intros H. zbool; simpl in *; lia || done. Qed.

(** [atoi] reads back what [to_string] wrote. *)
Lemma atoi_to_string z : 0 <= z < 2 ^ 31 -> atoi (to_string z) = z.
Proof.
  intros Hz. pose proof (to_string_digits z ltac:(lia)) as Hd.
  pose proof (to_string_nonempty z ltac:(lia)) as Hne. pose proof (to_string_value z ltac:(lia)) as Hv.
  unfold atoi, strtol. destruct (to_string z) as [|c s]; [done|].
  apply Forall_cons in Hd as [Hc _]. simpl find_if_not_space.
  rewrite (isdigit_not_space _ Hc). simpl negb. cbv iota.
  rewrite (proj2 (Z.eqb_neq (char_code c) 45)), (proj2 (Z.eqb_neq (char_code c) 43))
    by (unfold isdigit in Hc; zbool; lia || done).
  rewrite Hv, Z.min_r, Z.max_r by lia. apply s32_id. lia.
Qed.

#[export] Hint Resolve to_string_no to_string_nonempty : tinyco.
