(* ===== verification/World.v ===== *)
(** * System calls

    The functions of the framework that talk to the operating system are
    computations over a [world]: the script of the answers the environment will
    give (one per call, in order) and the current [errno].  A computation
    yields its result, the trace of the calls it made with their answers and the
    rest of the script ([Done]), or the trace so far when it still waits for an
    answer at the end of the script ([Blocked]).  Every property is proved for
    all scripts, so for every behaviour of the kernel, of the peers and of the
    other coroutines; what a [Blocked] trace looks like says when a function
    does not return.

    [loop] is a [while] loop.  Its fuel is the length of the script, which is
    enough because every iteration that continues makes at least one call:
    [loop_unfold] is the equation of the loop without any fuel. *)

From S2P Require Import Prelude.

(** ** Calls and answers *)

Record sockaddr := mkSockaddr { sin_addr : Z; sin_port : Z }.

(** The return value, the [errno] that goes with a negative one, and the bytes
    or the address that the call stored. *)
Record resp := mkResp {
  r_ret : Z;
  r_errno : Z;
  r_data : bytes;
  r_addr : sockaddr
}.

(** Calls of the OpenSSL library. *)
Inductive ssl_call :=
  | l_BIO_new
  | l_SSL_CTX_new
  | l_SSL_new
  | l_SSL_connect
  | l_SSL_write (buf : bytes) (num : Z)
  | l_SSL_read (len : Z)
  | l_SSL_get_error (ret : Z)
  | l_SSL_shutdown.

Inductive syscall :=
  | c_socket (type : Z)
  | c_fcntl_getfl (fd : Z)
  | c_fcntl_setfl (fd flags : Z)
  | c_setsockopt (fd level opt val : Z)
  | c_getsockopt (fd level opt len : Z)
  | c_accept (fd : Z)
  | c_connect (fd : Z) (addr : sockaddr)
  | c_bind (fd : Z) (addr : sockaddr)
  | c_listen (fd backlog : Z)
  | c_send (fd : Z) (buf : bytes) (flags : Z)
  | c_recv (fd len flags : Z)
  | c_sendto (fd : Z) (buf : bytes) (flags : Z) (addr : sockaddr)
  | c_recvfrom (fd len flags : Z)
  | c_close (fd : Z)
  | c_shutdown (fd how : Z)
  (* SIOCGIFADDR on the interface [name]; the answer's address is in the request *)
  | c_ioctl_ifaddr (fd : Z) (name : bytes)
  | c_open (path : bytes)
  | c_write (fd : Z) (buf : bytes)
  | c_unlink (path : bytes)
  (* [fcntl(fd, F_SETLK, {l_type})] on the whole file *)
  | c_fcntl_setlk (fd l_type : Z)
  (* [AtomicMtx::TryLock] and [Unlock] on a listener's shared word *)
  | c_trylock
  | c_unlock
  | c_forced_unlock (pid : Z)
  (* reads of state that other coroutines change *)
  | c_graceful
  | c_connsize
  (* a work object for a connection or a datagram is built and its thread created *)
  | c_create_tcp (fd port : Z) (tracked : bool)
  | c_create_udp (sockfd : Z) (reqpkg : bytes) (src dst : sockaddr) (port : Z)
  | c_create_srv (tcp : bool) (listener : nat)
  | c_openssl (f : ssl_call)
  | c_fork
  | c_setsid
  | c_dup2 (fd newfd : Z)
  | c_sigprocmask (how : Z) (sigs : list Z)
  | c_sigaction (sig : Z)
  (* the two descriptors are the address of the answer *)
  | c_socketpair
  (* [SetProcTitle] of a restarted worker: what it does to memory is [SetProcTitle.setproctitle] *)
  | c_set_title (title : bytes)
  (* whether a thread is dead, a state that other coroutines change *)
  | c_is_dead
  | c_waitpid
  (* the coroutine waits for a descriptor and is resumed with [ev_res] *)
  | c_wait (fd evs : Z)
  (* the coroutine sleeps *)
  | c_sleep (ms : Z).

Abbreviation io_event := (syscall * resp)%type.
Abbreviation io_trace := (list io_event).

Record world := mkWorld { script : list resp; errno : Z }.

(** ** Constants (Linux) *)

Definition EINTR : Z := 4.
Definition EAGAIN : Z := 11.
Definition EWOULDBLOCK : Z := 11.
Definition EADDRINUSE : Z := 98.
Definition EINPROGRESS : Z := 115.
Definition SOCK_STREAM : Z := 1.
Definition SOCK_DGRAM : Z := 2.
Definition O_NONBLOCK : Z := 2048.
Definition SOL_SOCKET : Z := 1.
Definition SO_REUSEADDR : Z := 2.
Definition SO_ERROR : Z := 4.

(** ** The monad *)

Inductive outcome (A : Type) : Type :=
  | Done (a : A) (t : io_trace) (w : world)
  | Blocked (t : io_trace).
Arguments Done {A} a t w.
Arguments Blocked {A} t.

Definition IO (A : Type) : Type := world -> outcome A.

Definition io_ret {A} (a : A) : IO A := fun w => Done a [] w.

Definition io_bind {A B} (m : IO A) (k : A -> IO B) : IO B := fun w =>
  match m w with
  | Blocked t => Blocked t
  | Done a t1 w1 =>
      match k a w1 with
      | Blocked t2 => Blocked (t1 ++ t2)
      | Done b t2 w2 => Done b (t1 ++ t2) w2
      end
  end.

Notation "'let*' x ':=' m 'in' k" := (io_bind m (fun x => k))
  (at level 10, x pattern, m at level 200, k at level 200) : tinyco_scope.

(** A call sets [errno] when it fails. *)
Definition sys (c : syscall) : IO resp := fun w =>
  match script w with
  | [] => Blocked []
  | r :: s => Done r [(c, r)] (mkWorld s (if r_ret r <? 0 then r_errno r else errno w))
  end.

(** After a wait any [errno] of another coroutine may be the current one. *)
Definition wait (fd evs : Z) : IO Z := fun w =>
  match script w with
  | [] => Blocked []
  | r :: s => Done (r_ret r) [(c_wait fd evs, r)] (mkWorld s (r_errno r))
  end.

Definition get_errno : IO Z := fun w => Done (errno w) [] w.
Definition set_errno (e : Z) : IO unit := fun w => Done tt [] (mkWorld (script w) e).

Section loops.
Context {S R : Type} (body : S -> IO (S + R)).

Fixpoint loop_fuel (n : nat) (s : S) : IO R :=
  match n with
  | O => fun _ => Blocked []
  | Datatypes.S n =>
      let* r := body s in
      match r with
      | inl s => loop_fuel n s
      | inr r => io_ret r
      end
  end.

(** [inl] continues with a new loop state, [inr] leaves the loop. *)
Definition loop (s : S) : IO R := fun w => loop_fuel (Datatypes.S (length (script w))) s w.

End loops.

(** ** Inversion *)

Lemma io_bind_inv {A B} (m : IO A) (k : A -> IO B) w b t w2 :
  io_bind m k w = Done b t w2 ->
  exists a t1 w1 t2, m w = Done a t1 w1 /\ k a w1 = Done b t2 w2 /\ t = t1 ++ t2.
Proof.
  unfold io_bind. destruct (m w) as [a t1 w1|]; [|done].
  destruct (k a w1) as [b' t2 w2'|] eqn:E; [|done].
  intros [= <- <- <-]. eauto 10.
Qed.

Lemma io_bind_blocked {A B} (m : IO A) (k : A -> IO B) w t :
  io_bind m k w = Blocked t ->
  m w = Blocked t \/
  exists a t1 w1 t2, m w = Done a t1 w1 /\ k a w1 = Blocked t2 /\ t = t1 ++ t2.
Proof.
  unfold io_bind. destruct (m w) as [a t1 w1|t1]; [|intros [= <-]; by left].
  destruct (k a w1) as [b' t2 w2'|] eqn:E; [done|].
  intros [= <-]. eauto 10.
Qed.

Lemma io_ret_inv {A} (a b : A) t w w' : io_ret a w = Done b t w' -> a = b /\ t = [] /\ w' = w.
Proof. unfold io_ret. by intros [= <- <- <-]. Qed.

Lemma sys_inv c w r t w' :
  sys c w = Done r t w' ->
  t = [(c, r)] /\ script w = r :: script w' /\
  errno w' = if r_ret r <? 0 then r_errno r else errno w.
Proof. unfold sys. destruct (script w) as [|r' s]; [done|]. by intros [= <- <- <-]. Qed.

Lemma wait_inv fd evs w v t w' :
  wait fd evs w = Done v t w' ->
  exists r, v = r_ret r /\ t = [(c_wait fd evs, r)] /\ script w = r :: script w'.
Proof. unfold wait. destruct (script w) as [|r' s]; [done|]. intros [= <- <- <-]. eauto. Qed.

Lemma sys_blocked c w t : sys c w = Blocked t -> t = [] /\ script w = [].
Proof. unfold sys. destruct (script w); [|done]. by intros [= <-]. Qed.

Lemma wait_blocked fd evs w t : wait fd evs w = Blocked t -> t = [] /\ script w = [].
Proof. unfold wait. destruct (script w); [|done]. by intros [= <-]. Qed.

(** Take apart every computation with a known outcome. *)
Ltac io_inv :=
  repeat match goal with
  | H : io_bind _ _ _ = Done _ _ _ |- _ =>
      let a := fresh "a" in let t := fresh "t" in let w := fresh "w" in
      let u := fresh "t" in let H1 := fresh "H" in
      apply io_bind_inv in H as (a & t & w & u & H1 & H & ?); subst
  | H : io_bind _ _ _ = Blocked _ |- _ =>
      let a := fresh "a" in let t := fresh "t" in let w := fresh "w" in
      let u := fresh "t" in let H1 := fresh "H" in
      apply io_bind_blocked in H as [H|(a & t & w & u & H1 & H & ?)]; subst
  | H : io_ret _ _ = Done _ _ _ |- _ => apply io_ret_inv in H as (? & ? & ?); subst
  | H : io_ret _ _ = Blocked _ |- _ => discriminate H
  | H : sys _ _ = Done _ _ _ |- _ => apply sys_inv in H as (? & ? & ?); subst
  | H : sys _ _ = Blocked _ |- _ => apply sys_blocked in H as (? & ?); subst
  | H : wait _ _ _ = Done _ _ _ |- _ => apply wait_inv in H as (? & ? & ? & ?); subst
  | H : wait _ _ _ = Blocked _ |- _ => apply wait_blocked in H as (? & ?); subst
  | H : get_errno _ = Done _ _ _ |- _ => unfold get_errno in H; injection H as <- <- <-
  | H : get_errno _ = Blocked _ |- _ => discriminate H
  | H : set_errno _ _ = Done _ _ _ |- _ => unfold set_errno in H; injection H as <- <- <-
  | H : set_errno _ _ = Blocked _ |- _ => discriminate H
  end.

(** ** Traces of outcomes *)

Definition trace_of {A} (o : outcome A) : io_trace := match o with Done _ t _ | Blocked t => t end.

(** The calls of [t] come first. *)
Definition after {A} (t : io_trace) (o : outcome A) : outcome A :=
  match o with Done a u w => Done a (t ++ u) w | Blocked u => Blocked (t ++ u) end.

Lemma trace_after {A} t (o : outcome A) : trace_of (after t o) = t ++ trace_of o.
Proof. by destruct o. Qed.

Lemma io_bind_after {A B} (m : IO A) (k : A -> IO B) w :
  io_bind m k w = match m w with Done a t w' => after t (k a w') | Blocked t => Blocked t end.
Proof. unfold io_bind. destruct (m w); [|done]. by destruct (k a w0). Qed.

(** ** Answers are consumed in order *)

(** The trace accounts for exactly the part of the script that was used; a
    computation that blocks has used all of it. *)
Definition sane {A} (m : IO A) : Prop :=
  (forall w a t w', m w = Done a t w' -> script w = t.*2 ++ script w') /\
  (forall w t, m w = Blocked t -> script w = t.*2).

Lemma sane_done {A} (m : IO A) w a t w' : sane m -> m w = Done a t w' -> script w = t.*2 ++ script w'.
Proof. intros [H _]. apply H. Qed.

Lemma sane_blocked {A} (m : IO A) w t : sane m -> m w = Blocked t -> script w = t.*2.
Proof. intros [_ H]. apply H. Qed.

(** A loop body that makes a call whenever it continues. *)
Definition productive {S R} (body : S -> IO (S + R)) : Prop :=
  (forall s, sane (body s)) /\
  forall s w s' t w', body s w = Done (inl s') t w' -> t <> [].

Lemma sane_ret {A} (a : A) : sane (io_ret a).
Proof. split; intros; by io_inv. Qed.

Lemma sane_bind {A B} (m : IO A) (k : A -> IO B) :
  sane m -> (forall a, sane (k a)) -> sane (io_bind m k).
Proof.
  intros Hm Hk. split; intros; io_inv; try by eauto using sane_blocked.
  - rewrite fmap_app, <- app_assoc.
    match goal with H1 : m _ = _, H2 : k _ _ = _ |- _ =>
      rewrite <- (sane_done _ _ _ _ _ (Hk _) H2); exact (sane_done _ _ _ _ _ Hm H1) end.
  - rewrite fmap_app.
    match goal with H1 : m _ = _, H2 : k _ _ = _ |- _ =>
      rewrite <- (sane_blocked _ _ _ (Hk _) H2); exact (sane_done _ _ _ _ _ Hm H1) end.
Qed.

Lemma sane_sys c : sane (sys c).
Proof. split; intros; by io_inv. Qed.

Lemma sane_wait fd evs : sane (wait fd evs).
Proof. split; intros; by io_inv. Qed.

Lemma sane_get_errno : sane get_errno.
Proof. split; intros; by io_inv. Qed.

Lemma sane_set_errno e : sane (set_errno e).
Proof. split; intros; by io_inv. Qed.

Lemma sane_if {A} (b : bool) (m n : IO A) : sane m -> sane n -> sane (if b then m else n).
Proof. by destruct b. Qed.

#[export] Hint Resolve sane_ret sane_bind sane_sys sane_wait sane_get_errno sane_set_errno
  sane_if : tinyco.

(** Prove that a concrete computation is sane. *)
Ltac sane_tac :=
  repeat first
    [ progress intros
    | apply sane_ret | apply sane_sys | apply sane_wait | apply sane_get_errno
    | apply sane_set_errno | apply sane_if
    | apply sane_bind
    | solve [auto with tinyco]
    | match goal with |- sane (match ?x with _ => _ end) => destruct x end
    | match goal with |- sane ((match ?x with _ => _ end) _) => destruct x end ].

(** ** Loops *)

Section loop_facts.
Context {S R : Type} (body : S -> IO (S + R)).

Lemma script_shorter (Hp : productive body) s w s' t w' :
  body s w = Done (inl s') t w' -> (length (script w') < length (script w))%nat.
Proof.
  destruct Hp as [Hsane Hprod]. intros Hb.
  rewrite (sane_done _ _ _ _ _ (Hsane _) Hb), length_app, length_fmap.
  pose proof (Hprod _ _ _ _ _ Hb). destruct t; [done|simpl; lia].
Qed.

(** More fuel than answers changes nothing. *)
Lemma loop_fuel_enough (Hp : productive body) n m s w :
  (length (script w) < n)%nat -> (length (script w) < m)%nat ->
  loop_fuel body n s w = loop_fuel body m s w.
Proof.
  revert m s w. induction n as [|n IH]; intros m s w Hn Hm; [lia|]. destruct m as [|m]; [lia|].
  simpl. unfold io_bind. destruct (body s w) as [[s'|r] t w'|] eqn:Hb; [|done..].
  pose proof (script_shorter Hp _ _ _ _ _ Hb). by rewrite (IH m s' w') by lia.
Qed.

(** The loop is its own unfolding: no fuel is visible. *)
Lemma loop_unfold (Hp : productive body) s w :
  loop body s w =
  (let* r := body s in match r with inl s => loop body s | inr r => io_ret r end) w.
Proof.
  unfold loop at 1. simpl. unfold io_bind.
  destruct (body s w) as [[s'|r] t w'|] eqn:Hb; [|done..].
  pose proof (script_shorter Hp _ _ _ _ _ Hb). unfold loop.
  by rewrite (loop_fuel_enough Hp _ (Datatypes.S (length (script w')))) by lia.
Qed.

(** The invariant rule.  [I] relates the loop state to the trace so far; [ok] is
    what is known of every call; [Q] holds of a result and the whole trace, [B]
    of the trace of a loop that is still waiting. *)
Lemma loop_inv (Hp : productive body) (ok : io_event -> Prop) (I : S -> io_trace -> Prop)
    (Q : R -> io_trace -> Prop) (B : io_trace -> Prop) :
  (forall s acc w s' t w', I s acc -> body s w = Done (inl s') t w' -> Forall ok t ->
     I s' (acc ++ t)) ->
  (forall s acc w r t w', I s acc -> body s w = Done (inr r) t w' -> Forall ok t ->
     Q r (acc ++ t)) ->
  (forall s acc w t, I s acc -> body s w = Blocked t -> Forall ok t -> B (acc ++ t)) ->
  forall s acc w, I s acc ->
  match loop body s w with
  | Done r t w' => Forall ok t -> Q r (acc ++ t)
  | Blocked t => Forall ok t -> B (acc ++ t)
  end.
Proof.
  intros Hstep Hexit Hblock s acc w. unfold loop.
  assert (Hn : (length (script w) < Datatypes.S (length (script w)))%nat) by lia.
  generalize dependent (Datatypes.S (length (script w))). intros n.
  revert s acc w. induction n as [|n IH]; intros s acc w Hn HI; [lia|].
  simpl. unfold io_bind. destruct (body s w) as [[s'|r] t w'|t] eqn:Hb.
  - pose proof (script_shorter Hp _ _ _ _ _ Hb).
    assert (HI' : Forall ok t -> I s' (acc ++ t)) by eauto.
    specialize (IH s' (acc ++ t) w' ltac:(lia)).
    destruct (loop_fuel body n s' w') as [r t2 w2|t2];
      rewrite Forall_app, app_assoc; intros [??]; by apply IH; [apply HI'|].
  - simpl. rewrite app_nil_r. eauto.
  - eauto.
Qed.

(** The same without assumptions on the calls, for loops that finish. *)
Lemma loop_rule (Hp : productive body) (I : S -> io_trace -> Prop) (Q : R -> io_trace -> Prop) s w :
  (forall s acc w s' t w', I s acc -> body s w = Done (inl s') t w' -> I s' (acc ++ t)) ->
  (forall s acc w r t w', I s acc -> body s w = Done (inr r) t w' -> Q r (acc ++ t)) ->
  I s [] ->
  match loop body s w with Done r t _ => Q r t | Blocked _ => True end.
Proof.
  intros Hstep Hexit HI.
  pose proof (loop_inv Hp (fun _ => True) I Q (fun _ => True)
    ltac:(eauto) ltac:(eauto) ltac:(done) s [] w HI) as H.
  destruct (loop body s w); [|done]. apply H. by apply Forall_true.
Qed.

Lemma sane_loop s : productive body -> sane (loop body s).
Proof.
  intros Hp. enough (Hn : forall n s w, (length (script w) < n)%nat ->
    match loop_fuel body n s w with
    | Done _ t w' => script w = t.*2 ++ script w'
    | Blocked t => script w = t.*2
    end).
  { unfold loop. split; intros w; intros;
      specialize (Hn (Datatypes.S (length (script w))) s w ltac:(lia));
      match goal with H : _ = _ |- _ => by rewrite H in Hn end. }
  intros n. induction n as [|n IH]; intros s0 w Hn; [lia|].
  simpl. unfold io_bind. destruct (body s0 w) as [[s'|r] t w'|t] eqn:Hb.
  - pose proof (script_shorter Hp _ _ _ _ _ Hb). specialize (IH s' w' ltac:(lia)).
    apply sane_done in Hb; [|apply Hp]. destruct (loop_fuel body n s' w');
      by rewrite fmap_app, Hb, IH, ?app_assoc.
  - simpl. rewrite app_nil_r. eapply sane_done; [apply Hp|exact Hb].
  - eapply sane_blocked; [apply Hp|exact Hb].
Qed.

End loop_facts.

#[export] Hint Resolve sane_loop : tinyco.

(** Evaluate a computation on a concrete script. *)
Ltac io_run m :=
  let r := eval vm_compute in m in
  let E := fresh "E" in
  assert (E : m = r) by (vm_compute; reflexivity); rewrite E in *; clear E.
