(* ===== verification/Resume.v ===== *)
(** * Running a computation one answer at a time

    A computation of [World.IO] takes a whole script of answers.  A coroutine gets
    its answers one by one, and between two of them other coroutines may run.  A
    computation is [causal] when more answers only make it go on: what it did on
    the answers so far stays, and which call it makes next does not depend on the
    answer to it.  All computations built with the monad are.  A causal computation
    is then a state machine whose state is the history of its calls: [demand] is
    the call it wants answered next, and any answer extends the history. *)

From S2P Require Import Prelude World.

Record causal {A} (m : IO A) : Prop := {
  causal_done s e a t s' e' u :
    m (mkWorld s e) = Done a t (mkWorld s' e') -> m (mkWorld (s ++ u) e) = Done a t (mkWorld (s' ++ u) e');
  causal_next s e t :
    m (mkWorld s e) = Blocked t ->
    exists c, forall r u, exists t', trace_of (m (mkWorld (s ++ r :: u) e)) = t ++ (c, r) :: t'
}.

(** ** The monad *)

Section causal.
Context {A B : Type}.

Lemma causal_ret (a : A) : causal (io_ret a).
Proof. split; intros *; [|done]. unfold io_ret. by intros [= <- <- <- <-]. Qed.

Lemma trace_bind (m : IO A) (k : A -> IO B) w :
  exists t, trace_of (io_bind m k w) = trace_of (m w) ++ t.
Proof.
  rewrite io_bind_after. destruct (m w) as [a t w'|t].
  - exists (trace_of (k a w')). apply trace_after.
  - exists []. by rewrite app_nil_r.
Qed.

Lemma causal_bind (m : IO A) (k : A -> IO B) :
  causal m -> (forall a, causal (k a)) -> causal (io_bind m k).
Proof.
  intros Hm Hk. split.
  - intros s e b t s' e' u H. apply io_bind_inv in H as (a & t1 & [s1 e1] & t2 & H1 & H2 & ->).
    rewrite io_bind_after, (causal_done _ Hm _ _ _ _ _ _ u H1), (causal_done _ (Hk a) _ _ _ _ _ _ u H2). done.
  - intros s e t H. apply io_bind_blocked in H as [H|(a & t1 & [s1 e1] & t2 & H1 & H2 & ->)].
    + destruct (causal_next _ Hm _ _ _ H) as [c Hc]. exists c. intros r u. destruct (Hc r u) as [t' Ht].
      destruct (trace_bind m k (mkWorld (s ++ r :: u) e)) as [v ->]. rewrite Ht, <- app_assoc. by eexists.
    + destruct (causal_next _ (Hk a) _ _ _ H2) as [c Hc]. exists c. intros r u. destruct (Hc r u) as [t' Ht].
      exists t'. rewrite io_bind_after, (causal_done _ Hm _ _ _ _ _ _ (r :: u) H1), trace_after, Ht.
      by rewrite app_assoc.
Qed.

End causal.

Lemma causal_sys c : causal (sys c).
Proof.
  unfold sys. split; intros [|r s] e; cbn [script errno app]; try done.
  - by intros ???? u [= <- <- <- <-].
  - intros t [= <-]. exists c. intros r u. by eexists.
Qed.

Lemma causal_wait fd evs : causal (wait fd evs).
Proof.
  unfold wait. split; intros [|r s] e; cbn [script errno app]; try done.
  - by intros ???? u [= <- <- <- <-].
  - intros t [= <-]. exists (c_wait fd evs). intros r u. by eexists.
Qed.

Lemma causal_get_errno : causal get_errno.
Proof. split; intros *; [|done]. unfold get_errno. by intros [= <- <- <- <-]. Qed.

Lemma causal_set_errno e : causal (set_errno e).
Proof. split; intros *; [|done]. unfold set_errno. by intros [= <- <- <- <-]. Qed.

(** ** Loops *)

Section loop.
Context {S R : Type} (body : S -> IO (S + R)) (Hp : productive body) (Hc : forall s, causal (body s)).

Lemma loop_more n s w u :
  (length (script w) < n)%nat ->
  match loop body s w with
  | Done a t w' => loop body s (mkWorld (script w ++ u) (errno w)) = Done a t (mkWorld (script w' ++ u) (errno w'))
  | Blocked t => exists c, forall r v, exists t',
      trace_of (loop body s (mkWorld (script w ++ r :: v) (errno w))) = t ++ (c, r) :: t'
  end.
Proof.
  revert s w. induction n as [|n IH]; intros s [a0 e] Hn; [lia|]. cbn [script errno] in *.
  rewrite (loop_unfold body Hp s (mkWorld a0 e)). rewrite io_bind_after.
  destruct (body s (mkWorld a0 e)) as [[s'|r] t [s1 e1]|t] eqn:Hb.
  - pose proof (script_shorter body Hp _ _ _ _ _ Hb) as Hs. cbn [script] in Hs.
    specialize (IH s' (mkWorld s1 e1) ltac:(cbn [script]; lia)). cbn [script errno] in IH.
    destruct (loop body s' (mkWorld s1 e1)) as [a t2 w2|t2]; cbn [after].
    + rewrite (loop_unfold body Hp). rewrite io_bind_after, (causal_done _ (Hc s) _ _ _ _ _ _ u Hb). by rewrite IH.
    + destruct IH as [c IH]. exists c. intros r v. destruct (IH r v) as [t' Ht]. exists t'.
      rewrite (loop_unfold body Hp), io_bind_after, (causal_done _ (Hc s) _ _ _ _ _ _ (r :: v) Hb).
      by rewrite trace_after, Ht, app_assoc.
  - cbn [after io_ret]. rewrite (loop_unfold body Hp), io_bind_after, (causal_done _ (Hc s) _ _ _ _ _ _ u Hb). done.
  - destruct (causal_next _ (Hc s) _ _ _ Hb) as [c Hn']. exists c. intros r v. destruct (Hn' r v) as [t' Ht].
    rewrite (loop_unfold body Hp).
    match goal with |- context [io_bind ?m ?k ?w] => destruct (trace_bind m k w) as [x ->] end.
    rewrite Ht, <- app_assoc. by eexists.
Qed.

Lemma causal_loop s : causal (loop body s).
Proof.
  split.
  - intros a0 e a t s' e' u H. pose proof (loop_more _ s (mkWorld a0 e) u (Nat.lt_succ_diag_r _)) as Hm.
    by rewrite H in Hm.
  - intros a0 e t H. pose proof (loop_more _ s (mkWorld a0 e) [] (Nat.lt_succ_diag_r _)) as Hm. by rewrite H in Hm.
Qed.

End loop.

#[export] Hint Resolve causal_ret causal_bind causal_sys causal_wait causal_get_errno causal_set_errno : tinyco.

(** Prove that a concrete computation is causal. *)
Ltac causal_tac :=
  repeat first
    [ progress intros
    | apply causal_ret | apply causal_sys | apply causal_wait | apply causal_get_errno | apply causal_set_errno
    | apply causal_bind
    | solve [auto with tinyco]
    | match goal with |- causal (let _ := _ in _) => cbv zeta end
    | match goal with |- causal (match ?x with _ => _ end) => destruct x end ].

(** ** Histories *)

Section history.
Context {A : Type} (m : IO A) (e : Z).

(** With the first [errno] [e], [m] makes exactly the calls of [h] on the answers
    of [h]. *)
Definition runs (h : io_trace) : Prop := trace_of (m (mkWorld h.*2 e)) = h.

Definition no_answer : resp := mkResp 0 0 [] (mkSockaddr 0 0).

(** The call whose answer [m] waits for after [h]; [None]: it has returned. *)
Definition demand (h : io_trace) : option syscall :=
  fst <$> trace_of (m (mkWorld (h.*2 ++ [no_answer]) e)) !! length h.

(** It has returned [a] after [h]. *)
Definition returned (a : A) (h : io_trace) : Prop := exists w, m (mkWorld h.*2 e) = Done a h w.
Definition result (h : io_trace) : option A :=
  match m (mkWorld h.*2 e) with Done a _ _ => Some a | Blocked _ => None end.

Context (Hs : sane m) (Hc : causal m).

Lemma runs_nil : runs [].
Proof.
  unfold runs. cbn [fmap list_fmap]. destruct (m (mkWorld [] e)) as [a t w|t] eqn:E; cbn [trace_of].
  - apply sane_done in E; [|done]. cbn [script] in E. destruct t; [done|by destruct w].
  - apply sane_blocked in E; [|done]. by destruct t.
Qed.

Lemma demand_None h : runs h -> demand h = None -> exists a, returned a h.
Proof.
  unfold runs, demand, returned. intros Hr Hd. destruct (m (mkWorld h.*2 e)) as [a t w|t] eqn:E; cbn [trace_of] in Hr.
  { subst t. eauto. }
  subst t. destruct (causal_next _ Hc _ _ _ E) as [c Hn]. destruct (Hn no_answer []) as [t' Ht].
  rewrite Ht, lookup_app_r, Nat.sub_diag in Hd by lia. done.
Qed.

Lemma returned_demand a h : returned a h -> demand h = None.
Proof.
  unfold demand. intros ([s e'] & E). rewrite (causal_done _ Hc _ _ _ _ _ _ [no_answer] E). cbn [trace_of].
  by rewrite lookup_ge_None_2.
Qed.

Lemma demand_answer h c r : runs h -> demand h = Some c -> runs (h ++ [(c, r)]).
Proof.
  unfold runs, demand. intros Hr Hd. destruct (m (mkWorld h.*2 e)) as [a t [s e']|t] eqn:E; cbn [trace_of] in Hr; subst t.
  { rewrite (causal_done _ Hc _ _ _ _ _ _ [no_answer] E) in Hd. cbn [trace_of] in Hd.
    by rewrite lookup_ge_None_2 in Hd. }
  destruct (causal_next _ Hc _ _ _ E) as [c' Hn].
  assert (c' = c) as ->.
  { destruct (Hn no_answer []) as [t' Ht]. rewrite Ht, lookup_app_r, Nat.sub_diag in Hd by lia. by injection Hd. }
  destruct (Hn r []) as [t' Ht]. rewrite fmap_app. cbn [fmap list_fmap].
  enough (length t' = 0%nat) as ->%nil_length_inv by done.
  enough (length (h ++ (c, r) :: t') <= length (h.*2 ++ [r]))%nat as Hl
    by (rewrite !length_app, length_fmap in Hl; simpl in Hl; lia).
  rewrite <- Ht, <- (length_fmap snd). destruct (m (mkWorld (h.*2 ++ [r]) e)) as [a t w|t] eqn:E2; cbn [trace_of].
  - apply sane_done in E2; [|done]. cbn [script] in E2. rewrite E2, length_app. lia.
  - apply sane_blocked in E2; [|done]. cbn [script] in E2. by rewrite E2.
Qed.

Lemma returned_runs a h : returned a h -> runs h.
Proof. intros (w & E). unfold runs. by rewrite E. Qed.

Lemma result_returned a h : runs h -> result h = Some a -> returned a h.
Proof.
  unfold runs, result, returned. destruct (m (mkWorld h.*2 e)) as [b t w|t] eqn:E; [|done]. cbn [trace_of].
  intros -> [= ->]. eauto.
Qed.

End history.

#[global] Arguments demand : simpl never.
