(* ===== verification/SchedContext.v ===== *)
(** * What the scheduler does to suspended coroutines

    A coroutine that is not executing is known by its saved context and by the
    descriptor of the event it handed to libevent ([place]).  Nobody but the
    coroutine itself changes them; every operation keeps the set of coroutines
    ([coroutines]: the executing one and those that [Frame::Schedule] will
    continue), up to the one that is created or that ends. *)

From S2P Require Import Prelude Heap Thread Frame FrameFacts Sched SchedProps.

Definition coroutines (x : frame) (k : control) : list tid := holder k ++ suspended x.

Definition place (x : frame) (t : tid) : option ucontext * option Z :=
  (store x !! t ≫= RestoreContext, ev_fd <$> events x !! t).

Definition others (x : frame) : list tid := thread_free_ x ++ option_list (main_thread_ x).

Lemma owned_coroutines x k : owned x k ≡ₚ coroutines x k ++ others x.
Proof. unfold owned, coroutines, suspended, others. solve_Permutation. Qed.

Lemma coroutines_owned x k x' k' :
  owned x' k' ≡ₚ owned x k -> others x' ≡ₚ others x -> coroutines x' k' ≡ₚ coroutines x k.
Proof.
  rewrite !owned_coroutines. intros H Ho. rewrite Ho in H. by apply Permutation_app_inv_r in H.
Qed.

Lemma place_store x y t :
  uc_ <$> store y !! t = uc_ <$> store x !! t -> ev_fd <$> events y !! t = ev_fd <$> events x !! t ->
  place y t = place x t.
Proof.
  unfold place. intros Hs ->. f_equal.
  destruct (store x !! t), (store y !! t); simplify_eq/=; done.
Qed.

Lemma place_same x y t :
  store y !! t = store x !! t -> events y !! t = events x !! t -> place y t = place x t.
Proof. intros H1 H2. apply place_store; congruence. Qed.

(** The switch touches the ready queue and the running thread only. *)
Lemma Schedule_rest y x' k :
  Frame_Schedule y = Some (x', k) ->
  store x' = store y /\ events x' = events y /\ others x' = others y.
Proof.
  unfold Frame_Schedule. destruct (thread_runnable_ y) as [|p rest];
    intros (m & _ & (th & _ & (u & _ & [= <- <-])%bind_Some)%bind_Some)%bind_Some; done.
Qed.

Section operations.
Context {HO : HeapOps}.

Lemma exec_main_places now fired x x' k' :
  wf x InMain -> enabled (L_main now fired) (mkConfig x InMain) = true ->
  exec (L_main now fired) (mkConfig x InMain) = Some (mkConfig x' k') ->
  wf x' k' /\ coroutines x' k' ≡ₚ coroutines x InMain /\ forall t, place x' t = place x t.
Proof.
  intros Hwf He Hx.
  destruct (MainThreadLoop_wf now fired x Hwf (enabled_main _ _ _ He)) as (x1 & k1 & _ & _ & _ & Hm & Hwf' & Hown & _).
  cbn [exec cfg_frame cfg_ctl] in Hx. rewrite Hm in Hx. cbn [mbind option_bind] in Hx. injection Hx as <- <-.
  split; [done|]. unfold MainThreadLoop in Hm.
  pose proof (UpdateLoopTimestamp_wf now _ _ Hwf) as Hwf1.
  destruct (EventLoop_wf (GetEventLoopTimeout (UpdateLoopTimestamp now x)) fired _ Hwf1 (enabled_main _ _ _ He))
    as (x2 & Hel & Hwf2 & _ & _ & _ & Hs2 & _).
  destruct (WakeupPendingThread_spec x2) as (due & rest & _ & Hw & _); [eauto using wf_pending_ok|].
  rewrite Hel in Hm. cbn [mbind option_bind] in Hm. rewrite Hw in Hm. cbn [mbind option_bind] in Hm.
  apply Schedule_rest in Hm as (Hs & Hev & Ho). cbn [wakes_result set_runnable set_pending set_store store events] in Hs, Hev.
  change (others (wakes_result due rest x2)) with (others x2) in Ho.
  assert (H2 : others x2 = others x /\ forall t, ev_fd <$> events x2 !! t = ev_fd <$> events x !! t).
  { clear -Hel. unfold EventLoop, GetEventBase in Hel. cbn [base_ UpdateLoopTimestamp set_loop_ts] in Hel.
    destruct (base_ x); [..|done]; cbn [mbind option_bind] in Hel; (destruct fired as [[t res]|]; [|by injection Hel as <-]);
    apply bind_Some in Hel as (e & Hfe & Hel); simpl in Hfe; (destruct (ev_added e); [|done]); injection Hel as <-;
    (split; [done|]); intros u; simpl;
    (destruct (decide (t = u)) as [->|]; [|by rewrite lookup_alter_ne, lookup_insert_ne by done]);
    by rewrite lookup_alter_eq, lookup_insert_eq, Hfe. }
  destruct H2 as [H2o H2e]. split.
  - apply coroutines_owned; [done|]. by rewrite Ho, H2o.
  - intros t. apply place_store; [by rewrite Hs, wake_all_uc, Hs2|by rewrite Hev].
Qed.

Section thread.
Context (x : frame) (t : tid) (Hwf : wf x (InThread t)).

Lemma exec_sleep_places now ms :
  exists x' k', exec (L_sleep now ms) (mkConfig x (InThread t)) = Some (mkConfig x' k') /\ wf x' k' /\
    coroutines x' k' ≡ₚ coroutines x (InThread t) /\
    (forall u, u <> t -> place x' u = place x u) /\ (place x' t).1 = Some (uc_saved In_Sleep).
Proof.
  destruct (Frame_Sleep_wf now ms x t Hwf) as (x' & k' & Hs & Hwf' & Hown). exists x', k'.
  cbn [exec cfg_frame cfg_ctl]. rewrite Hs. split; [done|]. split; [done|].
  unfold Frame_Sleep in Hs. rewrite (wf_running _ _ Hwf t eq_refl) in Hs.
  destruct (holder_live x t Hwf) as [th Hth]. cbv beta iota in Hs. rewrite (call_Some _ _ _ _ Hth) in Hs. simpl in Hs.
  do 2 (erewrite call_Some in Hs by (simpl; apply lookup_insert_eq); simpl in Hs).
  apply Schedule_rest in Hs as (Hst & Hev & Ho).
  simpl in Hst, Hev. split; [apply coroutines_owned; [done|by rewrite Ho]|]. split.
  - intros u Hne. apply place_same; [|by rewrite Hev]. rewrite Hst. by rewrite !lookup_insert_ne by done.
  - unfold place. rewrite Hst, lookup_insert_eq. done.
Qed.

Lemma exec_wait_places fd evs :
  io_wait_map_ x !! fd = None ->
  exists x' k', exec (L_wait fd evs) (mkConfig x (InThread t)) = Some (mkConfig x' k') /\ wf x' k' /\
    coroutines x' k' ≡ₚ coroutines x (InThread t) /\
    (forall u, u <> t -> place x' u = place x u) /\ place x' t = (Some (uc_saved (In_io_wait fd)), Some fd).
Proof.
  intros Hfd. destruct (io_wait_wf fd evs x t Hwf Hfd) as (x' & k' & Hs & Hwf' & Hown). exists x', k'.
  cbn [exec cfg_frame cfg_ctl]. rewrite Hs. split; [done|]. split; [done|].
  unfold io_wait in Hs. destruct (GetEventBase_wf x _ Hwf) as (b & Hb & _). rewrite Hb in Hs.
  simpl in Hs. rewrite (wf_running _ _ Hwf t eq_refl) in Hs. simpl in Hs.
  destruct (holder_live x t Hwf) as [th Hth].
  erewrite call_Some in Hs by done. simpl in Hs. rewrite (wf_running _ _ Hwf t eq_refl) in Hs.
  erewrite call_Some in Hs by (simpl; apply lookup_insert_eq). simpl in Hs.
  apply Schedule_rest in Hs as (Hst & Hev & Ho). simpl in Hst, Hev.
  split; [apply coroutines_owned; [done|by rewrite Ho]|]. split.
  - intros u Hne. by apply place_same; rewrite ?Hst, ?Hev, ?lookup_insert_ne by done.
  - unfold place. by rewrite Hst, Hev, !lookup_insert_eq.
Qed.

Lemma exec_exit_places :
  exists x' k', exec L_exit (mkConfig x (InThread t)) = Some (mkConfig x' k') /\ wf x' k' /\
    t :: coroutines x' k' ≡ₚ coroutines x (InThread t) /\ forall u, place x' u = place x u.
Proof.
  destruct (HandleProcess_wf x t Hwf) as (x' & k' & _ & Hs & Hwf' & Hown & _). exists x', k'.
  cbn [exec cfg_frame cfg_ctl]. rewrite Hs. split; [done|]. split; [done|].
  unfold HandleProcess, RecycleRunningThread in Hs. rewrite (wf_running _ _ Hwf t eq_refl) in Hs.
  cbn [mbind option_bind] in Hs. destruct (holder_live x t Hwf) as [th Hth].
  rewrite (call_Some _ _ _ _ Hth) in Hs. simpl in Hs. apply Schedule_rest in Hs as (Hst & Hev & Ho).
  simpl in Hst, Hev. split.
  - rewrite !owned_coroutines, Ho in Hown. unfold others in Hown. cbn [thread_free_ set_running set_free set_store main_thread_] in Hown.
    apply (Permutation_app_inv_r (others x)). rewrite <- Hown. unfold others. solve_Permutation.
  - intros u. apply place_store; [|by rewrite Hev]. rewrite Hst.
    destruct (decide (t = u)) as [->|Hne]; [by rewrite lookup_insert_eq, Hth|by rewrite lookup_insert_ne].
Qed.

End thread.

(** The place of a coroutine that has not started yet. *)
Definition at_entry (x : frame) (t : tid) : Prop := exists f sp sz, (place x t).1 = Some (uc_entry f sp sz).

Lemma CreateThread_keeps_places w x k :
  wf x k ->
  exists t x', CreateThread w x = Some (mkThreadWrapper (Some t), x') /\ wf x' k /\ (t ∉ coroutines x k) /\
    coroutines x' k ≡ₚ t :: coroutines x k /\ (forall u, u ∈ coroutines x k -> place x' u = place x u) /\
    at_entry x' t.
Proof.
  intros Hwf. destruct (CreateThread_wf w x k Hwf) as (t & x' & Hc & Hwf' & _ & _ & Hlast). exists t, x'.
  split; [done|]. split; [done|]. unfold CreateThread, AllocNewThread in Hc.
  destruct (last (thread_free_ x)) as [f|] eqn:Hl.
  - destruct Hlast as [-> Hown]. pose proof (removelast_last_split _ _ Hl) as Hfree.
    destruct (free_elsewhere x k f Hwf) as (Hns & _ & Hh); [rewrite Hfree; in_lists|].
    assert (Hnc : f ∉ coroutines x k) by (unfold coroutines; by rewrite not_elem_of_app).
    destruct (wf_live _ _ Hwf f) as [th Hth]; [unfold owned; rewrite Hfree; in_lists|]. simpl in Hc.
    erewrite call_Some in Hc by done. simpl in Hc.
    do 2 (erewrite call_Some in Hc by (simpl; apply lookup_insert_eq); simpl in Hc). injection Hc as <-. split; [done|]. split; [|split].
    + unfold coroutines, suspended, runq, waitq. simpl. rewrite omap_app. simpl. solve_Permutation.
    + intros u Hu. assert (f <> u) by (by intros ->). by apply place_same; simpl; rewrite ?lookup_insert_ne by done.
    + eexists _, _, _. unfold place. simpl. by rewrite lookup_insert_eq.
  - apply last_None in Hl. destruct Hlast as [Hnin Hown]. simpl in Hc.
    do 2 (erewrite call_Some in Hc by (simpl; apply lookup_insert_eq); simpl in Hc). injection Hc as <- <-.
    assert (Hnc : next_tid x ∉ coroutines x k) by (rewrite owned_coroutines, not_elem_of_app in Hnin; tauto).
    split; [done|]. split; [|split].
    + unfold coroutines, suspended, runq, waitq. simpl. rewrite omap_app. simpl. solve_Permutation.
    + intros u Hu. assert (next_tid x <> u) by (by intros <-). by apply place_same; simpl; rewrite ?lookup_insert_ne by done.
    + eexists _, _, _. unfold place. simpl. by rewrite lookup_insert_eq.
Qed.

Lemma InitHere_places x t :
  wf x (InThread t) ->
  exists x' u, exec L_init_here (mkConfig x (InThread t)) = Some (mkConfig x' (InThread u)) /\ wf x' (InThread u) /\
    (u ∉ coroutines x (InThread t)) /\ suspended x' = suspended x /\ forall v, v ∈ suspended x -> place x' v = place x v.
Proof.
  intros Hwf. destruct (InitHereAsNewThread_wf x t Hwf) as (x' & u & Hi & Hr & Hwf' & Hu & _). exists x', u.
  cbn [exec cfg_frame cfg_ctl]. rewrite Hi. cbn [mbind option_bind]. rewrite Hr. split; [done|]. split; [done|].
  rewrite owned_coroutines, not_elem_of_app in Hu. destruct Hu as [Hu _]. split; [done|].
  unfold InitHereAsNewThread in Hi. simpl in Hi.
  do 2 (erewrite call_Some in Hi by (simpl; apply lookup_insert_eq); simpl in Hi).
  injection Hi as <-. simpl in Hr. injection Hr as <-. split; [done|].
  intros v Hv. assert (next_tid x <> v) by (intros E; apply Hu; rewrite E; apply elem_of_app; by right).
  by apply place_same; simpl; rewrite ?lookup_insert_ne by done.
Qed.

End operations.
