(* ===== verification/Process.v ===== *)
(** * A process: coroutines with their code on the scheduler

    [Sched] is the scheduler without the code that coroutines run, [World] is the
    code of one coroutine without the others.  A [proc] puts them together: every
    coroutine has a work object and the history of its calls, and the context that
    executes decides which of them goes on.  A call is answered by the environment
    ([P_call]); a wait or a sleep saves the context and switches ([P_block]) and is
    answered when the scheduler restores the context, from the state of the
    scheduler; a call that creates a work object also creates its thread; a work
    object whose [Run] has returned is deleted and its thread recycled ([P_exit]);
    the main loop polls and wakes ([P_main]).

    [errno] belongs to the process: while a coroutine does not execute, others
    change it, so that it is any number when the coroutine goes on. *)

From S2P Require Import Prelude Heap Thread Frame FrameFacts Sched SchedProps SchedContext World Resume.

(** ** Programs *)

(** Work objects have a type [J] of descriptions; [Sh] is the state of the process
    that its coroutines share. *)
Record program (J Sh : Type) := mkProgram {
  code : J -> IO bool;                               (** [Run], then the destructor; [false]: the process ends *)
  spawn : syscall -> option J;                       (** the work object a call creates *)
  shared : J -> io_event -> Sh -> option Sh;         (** effect of a call; [None]: no such answer *)
  deleted : J -> Sh -> Sh                            (** effect of the destructor *)
}.
Arguments mkProgram {J Sh}.
Arguments code {J Sh}.
Arguments spawn {J Sh}.
Arguments shared {J Sh}.
Arguments deleted {J Sh}.

(** ** State *)

(** The context of a thread: its work object, [errno] when it started, its calls. *)
Record coroutine (J : Type) := mkCo { co_work : Work; co_job : J; co_errno : Z; co_hist : io_trace }.
Arguments mkCo {J}.
Arguments co_work {J}.
Arguments co_job {J}.
Arguments co_errno {J}.
Arguments co_hist {J}.

(** What happens in a process, in order. *)
Inductive pevent :=
  | pe_call (w : Work) (e : io_event)
  | pe_delete (w : Work).

(** [jobs] has all work objects ever made; the address of one is its position. *)
Record proc (J Sh : Type) := mkProc {
  cfg : config;
  cos : gmap tid (coroutine J);
  jobs : list J;
  sh : Sh;
  plog : list pevent
}.
Arguments mkProc {J Sh}.
Arguments cfg {J Sh}.
Arguments cos {J Sh}.
Arguments jobs {J Sh}.
Arguments sh {J Sh}.
Arguments plog {J Sh}.

Definition call_by (w : Work) (e : pevent) : option io_event :=
  match e with pe_call v c => if decide (v = w) then Some c else None | pe_delete _ => None end.
Definition calls_by (w : Work) (l : list pevent) : io_trace := omap (call_by w) l.

Inductive plabel :=
  | P_main (now : Z) (fired : option (tid * Z)) (e : Z)
  | P_call (r : resp)
  | P_block (now e : Z)
  | P_exit (e : Z).

Section process.
Context {HO : HeapOps} {J Sh : Type} (P : program J Sh).

Definition set_cfg (c : config) (p : proc J Sh) : proc J Sh := mkProc c (cos p) (jobs p) (sh p) (plog p).
Definition set_cos (m : gmap tid (coroutine J)) (p : proc J Sh) : proc J Sh := mkProc (cfg p) m (jobs p) (sh p) (plog p).
Definition set_sh (s : Sh) (p : proc J Sh) : proc J Sh := mkProc (cfg p) (cos p) (jobs p) s (plog p).
Definition ctl (p : proc J Sh) : control := cfg_ctl (cfg p).
Definition fr (p : proc J Sh) : frame := cfg_frame (cfg p).

Definition next_call (co : coroutine J) : option syscall := demand (code P (co_job co)) (co_errno co) (co_hist co).
Definition co_result (co : coroutine J) : option bool := result (code P (co_job co)) (co_errno co) (co_hist co).

(** The calls that leave the processor. *)
Definition block_label (now : Z) (c : syscall) : option label :=
  match c with
  | c_wait fd evs => Some (L_wait fd evs)
  | c_sleep ms => Some (L_sleep now ms)
  | _ => None
  end.

(** ** Steps *)

(** The call of coroutine [co] on thread [t] is answered. *)
Definition happen (t : tid) (co : coroutine J) (e : io_event) (p : proc J Sh) : proc J Sh :=
  mkProc (cfg p) (<[t := mkCo (co_work co) (co_job co) (co_errno co) (co_hist co ++ [e])]> (cos p)) (jobs p) (sh p)
    (plog p ++ [pe_call (co_work co) e]).

(** A new work object and its thread. *)
Definition create (j : J) (p : proc J Sh) : option (proc J Sh) :=
  let w := length (jobs p) in
  '(tw, x) ← CreateThread w (fr p);
  t ← tw_t tw;
  Some (mkProc (mkConfig x (ctl p)) (<[t := mkCo w j 0 []]> (cos p)) (jobs p ++ [j]) (sh p) (plog p)).

(** What a coroutine finds where its context was saved: after a wait the result in
    its [struct event]; [Sleep] returns nothing. *)
Definition wakeup_answer (x : frame) (t : tid) (e : Z) (at_ : save_point) : option resp :=
  match at_ with
  | In_Sleep => Some (mkResp (-1) e [] (mkSockaddr 0 0))
  | In_io_wait _ => ev ← events x !! t; Some (mkResp (ev_res ev) e [] (mkSockaddr 0 0))
  | _ => None
  end.

(** The context that was restored goes on, with [errno] [e]. *)
Definition enter (e : Z) (p : proc J Sh) : option (proc J Sh) :=
  match ctl p with
  | InMain => Some p
  | InThread t =>
      co ← cos p !! t;
      u ← store (fr p) !! t ≫= RestoreContext;
      match u with
      | uc_entry _ _ _ => Some (set_cos (<[t := mkCo (co_work co) (co_job co) e (co_hist co)]> (cos p)) p)
      | uc_saved at_ => c ← next_call co; r ← wakeup_answer (fr p) t e at_; Some (happen t co (c, r) p)
      end
  end.

Definition pexec (l : plabel) (p : proc J Sh) : option (proc J Sh) :=
  match l, ctl p with
  | P_main now fired e, InMain => c ← exec (L_main now fired) (cfg p); enter e (set_cfg c p)
  | P_call r, InThread t =>
      co ← cos p !! t; c ← next_call co; s ← shared P (co_job co) (c, r) (sh p);
      let p := happen t co (c, r) (set_sh s p) in
      match spawn P c with Some j => create j p | None => Some p end
  | P_block now e, InThread t =>
      co ← cos p !! t; c ← next_call co; l ← block_label now c; k ← exec l (cfg p); enter e (set_cfg k p)
  | P_exit e, InThread t =>
      co ← cos p !! t; k ← exec L_exit (cfg p);
      enter e (mkProc k (delete t (cos p)) (jobs p) (deleted P (co_job co) (sh p)) (plog p ++ [pe_delete (co_work co)]))
  | _, _ => None
  end.

(** When a step can be taken: the executing coroutine is at such a call, the answer
    is one that the shared state allows, no other coroutine waits for the same
    descriptor; [main] (the work object 0) does not return into the scheduler. *)
Definition current (p : proc J Sh) : option (coroutine J) :=
  match ctl p with InThread t => cos p !! t | InMain => None end.

Definition penabled (l : plabel) (p : proc J Sh) : bool :=
  match l, current p with
  | P_main now fired _, None => enabled (L_main now fired) (cfg p)
  | P_call r, Some co =>
      match next_call co with
      | Some c =>
          match block_label 0 c, shared P (co_job co) (c, r) (sh p) with None, Some _ => true | _, _ => false end
      | None => false
      end
  | P_block now _, Some co =>
      match next_call co with
      | Some c => match block_label now c with Some l => enabled l (cfg p) | None => false end
      | None => false
      end
  | P_exit _, Some co =>
      match co_result co with Some true => negb (Nat.eqb (co_work co) 0) | _ => false end
  | _, _ => false
  end.

Inductive pstep : proc J Sh -> plabel -> proc J Sh -> Prop :=
  | pstep_exec p l p' : penabled l p = true -> pexec l p = Some p' -> pstep p l p'.

Inductive psteps : proc J Sh -> list plabel -> proc J Sh -> Prop :=
  | psteps_nil p : psteps p [] p
  | psteps_snoc p ls p1 l p2 : psteps p ls p1 -> pstep p1 l p2 -> psteps p (ls ++ [l]) p2.

(** The same, as a program. *)
Fixpoint prun (ls : list plabel) (p : proc J Sh) : option (proc J Sh) :=
  match ls with
  | [] => Some p
  | l :: ls => if penabled l p then p ← pexec l p; prun ls p else None
  end.

(** ** What code must be like *)

(** What the composition needs of [Run] functions; the monad's tactics prove it. *)
Class Coded : Prop := {
  coded_sane j : sane (code P j);
  coded_causal j : causal (code P j)
}.

(** ** The beginning *)

(** [Frame::Init] in [main], whose code is that of [j0]; the work objects [pre] are
    created; [here]: [Frame::InitHereAsNewThread] (in [ServerImpl::Run]). *)
Fixpoint create_all (pre : list J) (p : proc J Sh) : option (proc J Sh) :=
  match pre with
  | [] => Some p
  | j :: pre => p ← create j p; create_all pre p
  end.

(** The executing coroutine goes on as a new thread object. *)
Definition init_here (p : proc J Sh) : option (proc J Sh) :=
  match ctl p with
  | InThread t =>
      co ← cos p !! t; k ← exec L_init_here (cfg p);
      match cfg_ctl k with
      | InThread u => Some (set_cos (<[u := co]> (delete t (cos p))) (set_cfg k p))
      | InMain => None
      end
  | InMain => None
  end.

Definition start (pool : nat) (j0 : J) (pre : list J) (here : bool) (e : Z) (s : Sh) : option (proc J Sh) :=
  b ← boot pool;
  match cfg_ctl b with
  | InThread t =>
      p ← create_all pre (mkProc b {[t := mkCo 0%nat j0 e []]} [j0] s []);
      if here then init_here p else Some p
  | InMain => None
  end.

(** The processes that can come about. *)
Definition preachable (pool : nat) (j0 : J) (pre : list J) (here : bool) (e : Z) (s : Sh) (p : proc J Sh) : Prop :=
  exists p0 ls, start pool j0 pre here e s = Some p0 /\ psteps p0 ls p.

(** The function of [main] has returned, or a coroutine has ended the process. *)
Definition process_ended (p : proc J Sh) : Prop :=
  exists co b, current p = Some co /\ co_result co = Some b /\ (co_work co = 0%nat \/ b = false).

(** The executing coroutine wants to wait for a descriptor for which another one
    waits already. *)
Definition waits_twice (p : proc J Sh) : Prop :=
  exists co fd evs, current p = Some co /\ next_call co = Some (c_wait fd evs) /\ is_Some (io_wait_map_ (fr p) !! fd).

(** Some answer to every call fits the shared state. *)
Definition answerable : Prop := forall j c s, block_label 0 c = None -> exists r, is_Some (shared P j (c, r) s).

End process.

#[global] Arguments Coded {J Sh} P.
#[global] Arguments coded_sane {J Sh P _} j.
#[global] Arguments coded_causal {J Sh P _} j.
