(* ===== verification/ProcessInv.v ===== *)
(** * The invariant of a process

    Every coroutine has made exactly the calls of its code on its answers; the
    context of one that does not execute is saved where it waits for the answer to
    its next call, or it has not started; work objects are distinct and either have
    a coroutine or are deleted after their code has returned. *)

From S2P Require Import Prelude Heap Thread Frame FrameFacts Sched SchedProps SchedContext World Resume Process.

Lemma calls_by_app w l k : calls_by w (l ++ k) = calls_by w l ++ calls_by w k.
Proof. apply omap_app. Qed.

Lemma calls_by_call_eq w l e : calls_by w (l ++ [pe_call w e]) = calls_by w l ++ [e].
Proof. rewrite calls_by_app. unfold calls_by. simpl. by rewrite decide_True. Qed.

Lemma calls_by_call_ne w v l e : v <> w -> calls_by w (l ++ [pe_call v e]) = calls_by w l.
Proof. intros. rewrite calls_by_app. unfold calls_by. simpl. rewrite decide_False by done. by rewrite app_nil_r. Qed.

Lemma calls_by_delete w v l : calls_by w (l ++ [pe_delete v]) = calls_by w l.
Proof. rewrite calls_by_app. by rewrite app_nil_r. Qed.

Section process.
Context {HO : HeapOps} {J Sh : Type} (P : program J Sh).
Context (Hsane : forall j, sane (code P j)) (Hcausal : forall j, causal (code P j)).
Implicit Types (p : proc J Sh) (co : coroutine J).

Abbreviation next_call := (next_call P).

(** ** The invariant *)

(** The call that a saved context waits for. *)
Definition parked (x : frame) (t : tid) co : Prop :=
  match (place x t).1 with
  | Some (uc_entry _ _ _) => co_hist co = []
  | Some (uc_saved In_Sleep) => exists ms, next_call co = Some (c_sleep ms)
  | Some (uc_saved (In_io_wait fd)) => (exists evs, next_call co = Some (c_wait fd evs)) /\ (place x t).2 = Some fd
  | _ => False
  end.

Record co_ok p co : Prop := {
  co_runs : runs (code P (co_job co)) (co_errno co) (co_hist co);
  co_jobs : jobs p !! co_work co = Some (co_job co);
  co_log : calls_by (co_work co) (plog p) = co_hist co;
  co_live : pe_delete (co_work co) ∉ plog p
}.

(** The coroutines of [parkings] are at rest; those that execute are not. *)
Record pinv_at (parkings : list tid) p : Prop := {
  pi_wf : wf (fr p) (ctl p);
  pi_cos t : is_Some (cos p !! t) <-> t ∈ coroutines (fr p) (ctl p);
  pi_co t co : cos p !! t = Some co -> co_ok p co;
  pi_parked t co : t ∈ parkings -> cos p !! t = Some co -> parked (fr p) t co;
  pi_inj t u co co' : cos p !! t = Some co -> cos p !! u = Some co' -> co_work co = co_work co' -> t = u;
  pi_gone w j : jobs p !! w = Some j ->
    (exists t co, cos p !! t = Some co /\ co_work co = w) \/
    (pe_delete w ∈ plog p /\ exists e, returned (code P j) e true (calls_by w (plog p)));
  pi_fresh w : (length (jobs p) <= w)%nat -> calls_by w (plog p) = [] /\ pe_delete w ∉ plog p
}.

Definition pinv p : Prop := pinv_at (suspended (fr p)) p.
Definition pinv_switch p : Prop := pinv_at (coroutines (fr p) (ctl p)) p.

(** ** What happens to the executing coroutine *)

Lemma holder_co ps p t :
  pinv_at ps p -> ctl p = InThread t -> exists co, cos p !! t = Some co.
Proof. intros H Hk. apply (pi_cos _ _ H). rewrite Hk. left. Qed.

Lemma next_call_runs co c r :
  runs (code P (co_job co)) (co_errno co) (co_hist co) -> next_call co = Some c ->
  runs (code P (co_job co)) (co_errno co) (co_hist co ++ [(c, r)]).
Proof. intros. by apply demand_answer. Qed.

(** A coroutine goes on: it is not at rest any more. *)
Lemma update_inv ps qs p p' t co co' :
  pinv_at ps p -> cos p !! t = Some co ->
  co_work co' = co_work co -> co_job co' = co_job co ->
  runs (code P (co_job co')) (co_errno co') (co_hist co') ->
  cfg p' = cfg p -> jobs p' = jobs p -> cos p' = <[t := co']> (cos p) ->
  calls_by (co_work co) (plog p') = co_hist co' ->
  (forall w, w <> co_work co -> calls_by w (plog p') = calls_by w (plog p)) ->
  (forall w, pe_delete w ∈ plog p' <-> pe_delete w ∈ plog p) ->
  (forall u, u ∈ qs -> u ∈ ps /\ u <> t) ->
  pinv_at qs p'.
Proof.
  intros H Ht Ew Ej Hr Ec Ejs Eco El Elo Ed Hq. pose proof (pi_co _ _ H t co Ht) as Hok.
  assert (Hlk : forall u cu, cos p' !! u = Some cu ->
    (u = t /\ cu = co') \/ (u <> t /\ cos p !! u = Some cu /\ co_work cu <> co_work co)).
  { intros u cu. rewrite Eco. destruct (decide (u = t)) as [->|Hn].
    - rewrite lookup_insert_eq. intros [= <-]. by left.
    - rewrite lookup_insert_ne by done. intros Hu. right. split; [done|]. split; [done|].
      intros E. apply Hn. by eapply (pi_inj _ _ H). }
  split; unfold fr, ctl; rewrite ?Ec, ?Ejs.
  - apply H.
  - intros u. rewrite Eco. pose proof (pi_cos _ _ H u) as Hd. unfold fr, ctl in Hd. rewrite <- Hd.
    destruct (decide (u = t)) as [->|Hn]; [rewrite lookup_insert_eq, Ht; split; eauto|by rewrite lookup_insert_ne].
  - intros u cu [[-> ->]|(Hn & Hu & Hw)]%Hlk.
    + split; [done|rewrite Ew, Ej, Ejs; apply Hok|by rewrite Ew|rewrite Ew, Ed; apply Hok].
    + pose proof (pi_co _ _ H u cu Hu) as Hou. split; [apply Hou|rewrite Ejs; apply Hou|rewrite Elo by done; apply Hou|].
      rewrite Ed. apply Hou.
  - intros u cu Hu Hcu. destruct (Hq u Hu) as [Hps Hn]. destruct (Hlk u cu Hcu) as [[? _]|(_ & Hu' & _)]; [done|].
    exact (pi_parked _ _ H u cu Hps Hu').
  - intros u v cu cv [[-> ->]|(Hn & Hu & Hw)]%Hlk [[-> ->]|(Hn' & Hv & Hw')]%Hlk; rewrite ?Ew; try done.
    all: by apply (pi_inj _ _ H).
  - intros w j Hj. destruct (pi_gone _ _ H w j Hj) as [(u & cu & Hu & Hw)|(Hd & e & He)].
    + left. destruct (decide (u = t)) as [->|Hn].
      * rewrite Ht in Hu. injection Hu as <-. exists t, co'. by rewrite Eco, lookup_insert_eq, Ew.
      * exists u, cu. by rewrite Eco, lookup_insert_ne.
    + right. split; [by apply Ed|]. exists e. rewrite Elo; [done|]. intros ->. by apply (co_live _ _ Hok).
  - intros w Hw. destruct (pi_fresh _ _ H w Hw) as [H1 H2]. rewrite Ed. split; [|done]. rewrite Elo; [done|].
    intros ->. pose proof (co_jobs _ _ Hok) as Hj. apply lookup_lt_Some in Hj. lia.
Qed.

Lemma happen_inv ps qs p t co c r :
  pinv_at ps p -> cos p !! t = Some co -> next_call co = Some c ->
  (forall u, u ∈ qs -> u ∈ ps /\ u <> t) ->
  pinv_at qs (happen t co (c, r) p).
Proof.
  intros H Ht Hc Hq. pose proof (pi_co _ _ H t co Ht) as Hok.
  apply (update_inv ps qs p _ t co (mkCo (co_work co) (co_job co) (co_errno co) (co_hist co ++ [(c, r)]))); try done;
    cbn [plog happen co_job co_errno co_hist].
  - apply next_call_runs; [apply Hok|done].
  - by rewrite calls_by_call_eq, (co_log _ _ Hok).
  - intros w Hw. by apply calls_by_call_ne.
  - intros w. rewrite elem_of_app, list_elem_of_singleton. naive_solver.
Qed.

(** A coroutine that has not started takes the [errno] it finds. *)
Lemma begin_inv ps qs p t co e :
  pinv_at ps p -> cos p !! t = Some co -> co_hist co = [] ->
  (forall u, u ∈ qs -> u ∈ ps /\ u <> t) ->
  pinv_at qs (set_cos (<[t := mkCo (co_work co) (co_job co) e (co_hist co)]> (cos p)) p).
Proof.
  intros H Ht Hh Hq. pose proof (pi_co _ _ H t co Ht) as Hok.
  apply (update_inv ps qs p _ t co (mkCo (co_work co) (co_job co) e (co_hist co))); try done;
    cbn [plog set_cos co_job co_errno co_hist].
  - rewrite Hh. by apply runs_nil.
  - apply (co_log _ _ Hok).
Qed.

(** Only the context and the places of the threads matter. *)
Lemma pinv_cfg ps qs p c :
  pinv_at ps p -> wf (cfg_frame c) (cfg_ctl c) ->
  coroutines (cfg_frame c) (cfg_ctl c) ≡ₚ coroutines (fr p) (ctl p) ->
  (forall t co, t ∈ qs -> cos p !! t = Some co -> parked (cfg_frame c) t co) ->
  pinv_at qs (set_cfg c p).
Proof.
  intros H Hwf Hc Hq. split; try apply H; [done| | |done].
  - intros t. cbn [fr ctl set_cfg cfg cos]. rewrite Hc. apply H.
  - intros t co Ht. by destruct (pi_co _ _ H t co Ht).
Qed.

Lemma pinv_sh ps p s : pinv_at ps p -> pinv_at ps (set_sh s p).
Proof.
  intros H. split; try apply H. intros t co Ht. by destruct (pi_co _ _ H t co Ht).
Qed.

Lemma parked_place x y t co : place y t = place x t -> parked x t co -> parked y t co.
Proof. unfold parked. by intros ->. Qed.

Lemma pinv_weaken ps qs p : pinv_at ps p -> (forall t, t ∈ qs -> t ∈ ps) -> pinv_at qs p.
Proof. intros H Hq. split; try apply H. intros t co Ht. by apply (pi_parked _ _ H), Hq. Qed.

(** ** Entering a context *)

Definition blocks (c : syscall) : Prop := match c with c_wait _ _ | c_sleep _ => True | _ => False end.

(** What [enter] adds to the log. *)
Definition entered p (more : list pevent) : Prop :=
  more = [] \/ exists t co c r, ctl p = InThread t /\ cos p !! t = Some co /\ next_call co = Some c /\ blocks c /\
    more = [pe_call (co_work co) (c, r)].

Lemma not_holder p ps t u :
  pinv_at ps p -> ctl p = InThread t -> u ∈ suspended (fr p) -> u <> t.
Proof. intros H Hk Hu ->. apply (holder_not_suspended (fr p) t); [|done]. rewrite <- Hk. apply H. Qed.

Lemma enter_inv p e :
  pinv_switch p ->
  exists p' more, enter P e p = Some p' /\ pinv p' /\ cfg p' = cfg p /\ jobs p' = jobs p /\ sh p' = sh p /\
    plog p' = plog p ++ more /\ entered p more /\
    (forall t, InThread t <> ctl p -> cos p' !! t = cos p !! t) /\
    (forall t co, ctl p = InThread t -> cos p !! t = Some co -> more = [] -> co_hist co = []).
Proof.
  intros H. unfold enter, pinv. destruct (ctl p) as [|t] eqn:Hk.
  { exists p, []. rewrite app_nil_r. split; [done|]. split; [|split_and!; try done; by left].
    apply (pinv_weaken _ _ _ H). unfold coroutines. rewrite Hk. done. }
  assert (Hq : forall u, u ∈ suspended (fr p) -> u ∈ coroutines (fr p) (ctl p) /\ u <> t).
  { intros u Hu. split; [unfold coroutines; apply elem_of_app; by right|by eapply not_holder]. }
  destruct (holder_co _ _ _ H Hk) as [co Ht]. rewrite Ht. cbn [mbind option_bind].
  assert (Hpk : parked (fr p) t co) by (apply (pi_parked _ _ H); [rewrite Hk; left|done]).
  unfold parked, place in Hpk. cbn [fst snd] in Hpk. destruct (store (fr p) !! t ≫= RestoreContext) as [[f sp sz|at_]|] eqn:Hu; [..|done].
  - eexists _, []. split; [done|]. split; [by apply (begin_inv _ _ _ _ _ e H)|]. rewrite app_nil_r.
    split_and!; try done; [by left| |naive_solver].
    intros u Hn. cbn [cos set_cos]. rewrite lookup_insert_ne; [done|]. intros ->. done.
  - assert (exists c r, next_call co = Some c /\ blocks c /\ wakeup_answer (fr p) t e at_ = Some r) as (c & r & Hc & Hb & Hr).
    { destruct at_ as [| | |fd]; try done.
      - destruct Hpk as [ms Hc]. eexists _, _. split; [exact Hc|]. by split.
      - destruct Hpk as [[evs Hc] Hev]. destruct (events (fr p) !! t) as [ev|] eqn:Eev; [|done].
        eexists _, (mkResp (ev_res ev) e [] (mkSockaddr 0 0)). split; [exact Hc|]. split; [done|]. cbn [wakeup_answer]. by rewrite Eev. }
    rewrite Hc. cbn [mbind option_bind]. rewrite Hr. cbn [mbind option_bind].
    eexists _, [pe_call (co_work co) (c, r)]. split; [done|]. split; [by apply (happen_inv _ _ _ _ _ _ r H)|].
    split_and!; try done.
    + right. exists t, co, c, r. done.
    + intros u Hn. cbn [cos happen]. rewrite lookup_insert_ne; [done|]. intros ->. done.
Qed.

(** ** Creating and deleting work objects *)

Lemma create_inv p t j :
  pinv p -> ctl p = InThread t ->
  exists p' u, create j p = Some p' /\ pinv p' /\ ctl p' = InThread t /\ jobs p' = jobs p ++ [j] /\ sh p' = sh p /\
    plog p' = plog p /\ cos p !! u = None /\ cos p' = <[u := mkCo (length (jobs p)) j 0 []]> (cos p).
Proof.
  intros H Hk. unfold create.
  destruct (CreateThread_keeps_places (length (jobs p)) (fr p) (ctl p) (pi_wf _ _ H)) as (u & x & Hc & Hwf & Hu & Hcs & Hpl & Hent).
  rewrite Hc. cbn [mbind option_bind tw_t]. set (w := length (jobs p)) in *. set (cu := mkCo w j 0 []).
  assert (Hnone : cos p !! u = None).
  { destruct (cos p !! u) eqn:E; [|done]. exfalso. apply Hu, (pi_cos _ _ H). by rewrite E. }
  eexists _, u. split; [done|]. split; [|by split_and!].
  destruct (pi_fresh _ _ H w ltac:(done)) as [Hcalls Hdel].
  assert (Hold : forall v cv, cos p !! v = Some cv -> co_work cv <> w /\ u <> v).
  { intros v cv Hv. split; [|intros <-; congruence]. pose proof (co_jobs _ _ (pi_co _ _ H v cv Hv)) as Hj.
    apply lookup_lt_Some in Hj. unfold w. lia. }
  split; unfold fr, ctl; cbn [cfg cos jobs plog cfg_frame cfg_ctl]; [done|..].
  - intros v. rewrite Hcs, elem_of_cons. pose proof (pi_cos _ _ H v) as Hd. unfold fr, ctl in Hd. rewrite <- Hd.
    destruct (decide (u = v)) as [<-|Hn]; [rewrite lookup_insert_eq; naive_solver|rewrite lookup_insert_ne by done; naive_solver].
  - intros v cv. destruct (decide (u = v)) as [<-|Hn].
    + rewrite lookup_insert_eq. intros [= <-]. split; cbn; [by apply runs_nil| |done|done].
      unfold w. by rewrite list_lookup_middle.
    + rewrite lookup_insert_ne by done. intros Hv. destruct (pi_co _ _ H v cv Hv). split; try done. cbn [jobs].
      by apply lookup_app_l_Some.
  - intros v cv Hsus. destruct (decide (u = v)) as [<-|Hn].
    + rewrite lookup_insert_eq. intros [= <-]. destruct Hent as (f & sp & sz & Hent). unfold parked. by rewrite Hent.
    + rewrite lookup_insert_ne by done. intros Hv. 
      assert (Hin : v ∈ coroutines (fr p) (ctl p)) by (apply (pi_cos _ _ H); eauto).
      eapply parked_place; [by apply Hpl|]. apply (pi_parked _ _ H); [|done].
      unfold coroutines in Hin. apply elem_of_app in Hin as [Hin|]; [|done]. rewrite Hk in Hin. apply list_elem_of_singleton in Hin as ->.
      exfalso. apply (holder_not_suspended x t); [|done]. by rewrite Hk in Hwf.
  - intros v1 v2 c1 c2. destruct (decide (u = v1)) as [<-|Hn1], (decide (u = v2)) as [<-|Hn2];
      rewrite ?lookup_insert_eq, ?lookup_insert_ne by done; [done|..].
    + intros [= <-] H2 E. by destruct (Hold _ _ H2).
    + intros H1 [= <-] E. by destruct (Hold _ _ H1).
    + apply (pi_inj _ _ H).
  - intros v jv Hj. apply lookup_app_Some in Hj as [Hj|[Hge Hj]].
    + destruct (pi_gone _ _ H v jv Hj) as [(v1 & c1 & H1 & E)|?]; [|by right]. left. exists v1, c1.
      rewrite lookup_insert_ne; [done|]. by destruct (Hold _ _ H1).
    + left. exists u, cu. rewrite lookup_insert_eq. split; [done|]. apply list_lookup_singleton_Some in Hj as [Hj _].
      cbn [co_work cu]. unfold w. lia.
  - intros v. rewrite length_app. cbn [length]. intros Hv. apply (pi_fresh _ _ H). lia.
Qed.

(** The work object of a coroutine that has returned is deleted. *)
Lemma delete_inv p t co k :
  pinv p -> ctl p = InThread t -> cos p !! t = Some co -> co_result P co = Some true ->
  wf (cfg_frame k) (cfg_ctl k) -> t :: coroutines (cfg_frame k) (cfg_ctl k) ≡ₚ coroutines (fr p) (ctl p) ->
  (forall u, place (cfg_frame k) u = place (fr p) u) ->
  pinv_switch (mkProc k (delete t (cos p)) (jobs p) (deleted P (co_job co) (sh p)) (plog p ++ [pe_delete (co_work co)])).
Proof.
  intros H Hk Ht Hn Hwf Hcs Hpl. pose proof (pi_co _ _ H t co Ht) as Hok.
  assert (Hnd : NoDup (t :: coroutines (cfg_frame k) (cfg_ctl k))).
  { rewrite Hcs. pose proof (wf_nodup _ _ (pi_wf _ _ H)) as Hnd. rewrite owned_coroutines in Hnd. by apply NoDup_app in Hnd as [? _]. }
  apply NoDup_cons in Hnd as [Hnin _].
  assert (Hlk : forall u cu, delete t (cos p) !! u = Some cu -> u <> t /\ cos p !! u = Some cu /\ co_work cu <> co_work co).
  { intros u cu [Hne Hu]%lookup_delete_Some. split; [done|]. split; [done|]. intros E. apply Hne. symmetry. by eapply (pi_inj _ _ H). }
  split; unfold fr, ctl; cbn [cfg cos jobs plog]; [done|..].
  - intros u. pose proof (pi_cos _ _ H u) as Hd. rewrite <- Hcs, elem_of_cons in Hd.
    destruct (decide (u = t)) as [->|Hne].
    + rewrite lookup_delete_eq. split; [by intros [? ?]|done].
    + rewrite lookup_delete_ne by done. naive_solver.
  - intros u cu (Hne & Hu & Hw)%Hlk. destruct (pi_co _ _ H u cu Hu). split; cbn [plog jobs]; try done.
    + by rewrite calls_by_delete.
    + intros [?|Hd%list_elem_of_singleton]%elem_of_app; [done|]. congruence.
  - intros u cu Hin (Hne & Hu & Hw)%Hlk. eapply parked_place; [apply Hpl|]. apply (pi_parked _ _ H); [|done].
    assert (Hc : u ∈ coroutines (fr p) (ctl p)) by (rewrite <- Hcs; by right).
    unfold coroutines in Hc. rewrite Hk in Hc. apply elem_of_app in Hc as [Hc%list_elem_of_singleton|Hc]; done.
  - intros u v cu cv (_ & Hu & _)%Hlk (_ & Hv & _)%Hlk. by apply (pi_inj _ _ H).
  - intros w j Hj. rewrite calls_by_delete. destruct (decide (w = co_work co)) as [->|Hw].
    + right. split; [apply elem_of_app; right; left|]. exists (co_errno co). rewrite (co_log _ _ Hok).
      rewrite (co_jobs _ _ Hok) in Hj. injection Hj as <-. by apply result_returned; [apply Hok|].
    + destruct (pi_gone _ _ H w j Hj) as [(u & cu & Hu & Hw')|[Hd He]].
      * left. exists u, cu. split; [|done]. apply lookup_delete_Some. split; [|done]. intros <-. congruence.
      * right. split; [apply elem_of_app; by left|done].
  - intros w Hw. rewrite calls_by_delete. destruct (pi_fresh _ _ H w Hw) as [H1 H2]. split; [done|].
    intros [?|Hd%list_elem_of_singleton]%elem_of_app; [done|]. injection Hd as ->.
    pose proof (co_jobs _ _ Hok) as Hj. apply lookup_lt_Some in Hj. lia.
Qed.

End process.
