(* ===== verification/ProcessProps.v ===== *)
(** * Correctness of the composition

    No enabled step of a process crashes and a process is stuck only for reasons of
    its code; every coroutine is a run of its code, so that what is proved for all
    scripts of answers holds for the coroutines of every process; and a coroutine is
    interrupted by others only where it waits or sleeps. *)

From S2P Require Import Prelude Heap Thread Frame FrameFacts Sched SchedProps SchedContext World Resume Process ProcessInv.

(** ** One step *)

Section process.
Context {HO : HeapOps} {J Sh : Type} (P : program J Sh).
Context (Hsane : forall j, sane (code P j)) (Hcausal : forall j, causal (code P j)).
Implicit Types (p : proc J Sh) (co : coroutine J).

Lemma main_inv p now fired e :
  pinv P p -> penabled P (P_main now fired e) p = true ->
  exists c, ctl p = InMain /\ exec (L_main now fired) (cfg p) = Some c /\ pinv_switch P (set_cfg c p).
Proof.
  intros H He. assert (ctl p = InMain /\ enabled (L_main now fired) (cfg p) = true) as [Hk Hen].
  { unfold penabled, current in He. destruct (ctl p) as [|t] eqn:Hk; [done|].
    destruct (holder_co _ _ _ _ H Hk) as [co Hco]. by rewrite Hco in He. }
  pose proof (pi_wf _ _ _ H) as Hwf. unfold ctl, fr in Hk, Hwf. destruct (cfg p) as [x k] eqn:Ec. cbn [cfg_ctl cfg_frame] in *. subst k.
  destruct (exec_wf (L_main now fired) (mkConfig x InMain) Hwf Hen) as ([x' k'] & Hx & _).
  exists (mkConfig x' k'). split; [unfold ctl; by rewrite Ec|]. split; [done|].
  destruct (exec_main_places now fired x x' k' Hwf Hen Hx) as (Hwf' & Hc & Hpl).
  apply (pinv_cfg P (suspended (fr p))); [done|done|by unfold fr, ctl; rewrite Ec|].
  intros t co Ht Hco. eapply parked_place; [apply Hpl|]. cbn [fr ctl set_cfg cfg cfg_frame cfg_ctl] in Ht. rewrite Hc in Ht.
  pose proof (pi_parked _ _ _ H t co) as Hp. unfold fr in Hp. rewrite Ec in Hp. by apply Hp.
Qed.

Lemma block_inv p t co c now l :
  pinv P p -> ctl p = InThread t -> cos p !! t = Some co -> next_call P co = Some c ->
  block_label now c = Some l -> enabled l (cfg p) = true ->
  exists k, exec l (cfg p) = Some k /\ pinv_switch P (set_cfg k p).
Proof.
  intros H Hk Ht Hc Hl He. pose proof (pi_wf _ _ _ H) as Hwf. pose proof (pi_parked _ _ _ H) as Hpk.
  unfold ctl, fr in Hk, Hwf, Hpk.
  destruct (cfg p) as [x k] eqn:Ec. cbn [cfg_ctl cfg_frame] in *. subst k.
  assert (Hgo : forall x' k', wf x' k' -> coroutines x' k' ≡ₚ coroutines x (InThread t) ->
    (forall u, u <> t -> place x' u = place x u) -> parked P x' t co -> pinv_switch P (set_cfg (mkConfig x' k') p)).
  { intros x' k' Hwf' Hcs Hpl Hp. apply (pinv_cfg P _ _ p (mkConfig x' k') H Hwf'); [unfold fr, ctl; by rewrite Ec|]. intros u cu Hu Hcu.
    destruct (decide (u = t)) as [->|Hn]; [by simplify_eq|]. eapply parked_place; [by apply Hpl|]. apply Hpk; [|done].
    unfold ctl, fr in Hu. cbn [set_cfg cfg cfg_frame cfg_ctl] in Hu. rewrite Hcs in Hu. by apply elem_of_cons in Hu as [?|?]. }
  destruct c; try done; injection Hl as <-.
  - simpl in He. destruct (io_wait_map_ x !! fd) eqn:Hfd; [done|].
    destruct (exec_wait_places x t Hwf fd evs Hfd) as (x' & k' & Hx & Hwf' & Hcs & Hpl & Hp). exists (mkConfig x' k'). split; [done|].
    apply Hgo; try done. unfold parked. rewrite Hp. split; [by exists evs|done].
  - destruct (exec_sleep_places x t Hwf now ms) as (x' & k' & Hx & Hwf' & Hcs & Hpl & Hp). exists (mkConfig x' k'). split; [done|].
    apply Hgo; try done. unfold parked. rewrite Hp. by exists ms.
Qed.

Lemma exit_inv p t co :
  pinv P p -> ctl p = InThread t -> cos p !! t = Some co -> co_result P co = Some true ->
  exists k, exec L_exit (cfg p) = Some k /\
    pinv_switch P (mkProc k (delete t (cos p)) (jobs p) (deleted P (co_job co) (sh p)) (plog p ++ [pe_delete (co_work co)])).
Proof.
  intros H Hk Ht Hn. pose proof (pi_wf _ _ _ H) as Hwf. unfold ctl, fr in Hk, Hwf.
  destruct (cfg p) as [x k] eqn:Ec. cbn [cfg_ctl cfg_frame] in *. subst k.
  destruct (exec_exit_places x t Hwf) as (x' & k' & Hx & Hwf' & Hcs & Hpl). exists (mkConfig x' k'). split; [done|].
  apply delete_inv; unfold fr, ctl; rewrite ?Ec; done.
Qed.

(** The two kinds of steps: the executing coroutine makes a call, and perhaps
    creates a work object; or it leaves, and a context is entered. *)
Inductive step_shape p p' : Prop :=
  | shape_call t co c r p1 :
      ctl p = InThread t -> cos p !! t = Some co -> next_call P co = Some c -> ~ blocks c ->
      pinv P p1 -> cfg p1 = cfg p -> cos p1 = cos (happen t co (c, r) p) -> plog p1 = plog p ++ [pe_call (co_work co) (c, r)] -> jobs p1 = jobs p ->
      shared P (co_job co) (c, r) (sh p) = Some (sh p1) ->
      match spawn P c with
      | Some j => create j p1 = Some p'
      | None => p' = p1
      end -> step_shape p p'
  | shape_switch p1 e :
      pinv_switch P p1 -> jobs p1 = jobs p ->
      ((cos p1 = cos p /\ sh p1 = sh p /\ plog p1 = plog p) \/
       exists t co, ctl p = InThread t /\ cos p !! t = Some co /\ co_result P co = Some true /\
         cos p1 = delete t (cos p) /\ sh p1 = deleted P (co_job co) (sh p) /\ plog p1 = plog p ++ [pe_delete (co_work co)]) ->
      enter P e p1 = Some p' -> step_shape p p'.

Lemma pexec_inv p l :
  pinv P p -> penabled P l p = true ->
  exists p', pexec P l p = Some p' /\ pinv P p' /\ step_shape p p'.
Proof.
  intros H He.
  assert (Hsw : forall p1 e, pinv_switch P p1 -> jobs p1 = jobs p ->
    ((cos p1 = cos p /\ sh p1 = sh p /\ plog p1 = plog p) \/
     exists t co, ctl p = InThread t /\ cos p !! t = Some co /\ co_result P co = Some true /\
       cos p1 = delete t (cos p) /\ sh p1 = deleted P (co_job co) (sh p) /\ plog p1 = plog p ++ [pe_delete (co_work co)]) ->
    exists p', enter P e p1 = Some p' /\ pinv P p' /\ step_shape p p').
  { intros p1 e H1 Hj Hor. destruct (enter_inv P Hsane Hcausal p1 e H1) as (p' & more & He' & Hp' & _).
    exists p'. split; [done|]. split; [done|]. by eapply shape_switch. }
  destruct l as [now fired e|r|now e|e].
  { destruct (main_inv p now fired e H He) as (c & Hk & Hx & Hs). unfold pexec. rewrite Hk, Hx. cbn [mbind option_bind].
    apply Hsw; [done|done|by left]. }
  all: unfold penabled, current in He; unfold pexec; destruct (ctl p) as [|t] eqn:Hk; [done|];
    destruct (holder_co _ _ _ _ H Hk) as [co Ht]; rewrite Ht in He |- *; cbn [mbind option_bind].
  - destruct (next_call P co) as [c|] eqn:Hc; [|done]. cbn [mbind option_bind].
    destruct (block_label 0 c) eqn:Hb; [done|]. destruct (shared P (co_job co) (c, r) (sh p)) as [s|] eqn:Hs; [|done]. cbn [mbind option_bind].
    assert (Hnb : ~ blocks c) by (intros Hbl; by destruct c).
    set (p1 := happen t co (c, r) (set_sh s p)).
    assert (Hp1 : pinv P p1).
    { apply (happen_inv P Hsane Hcausal (suspended (fr p))); [|done|done|].
      - by apply pinv_sh.
      - intros u Hu. split; [done|]. exact (not_holder P p _ t u H Hk Hu). }
    assert (Hpost : forall p', (match spawn P c with Some j => create j p1 = Some p' | None => p' = p1 end) -> step_shape p p').
    { intros p' Hp'. by apply (shape_call p p' t co c r p1). }
    destruct (spawn P c) as [j|].
    + destruct (create_inv P Hsane p1 t j Hp1 Hk) as (p' & u & Hcr & Hp' & _). exists p'. split; [done|]. split; [done|]. by apply Hpost.
    + exists p1. split; [done|]. split; [done|]. by apply Hpost.
  - destruct (next_call P co) as [c|] eqn:Hc; [|done]. cbn [mbind option_bind].
    destruct (block_label now c) as [l|] eqn:Hb; [|done]. cbn [mbind option_bind].
    destruct (block_inv p t co c now l H Hk Ht Hc Hb He) as (k & Hx & Hs). rewrite Hx. cbn [mbind option_bind].
    apply Hsw; [done|done|by left].
  - destruct (co_result P co) as [[]|] eqn:Hc; [|done..].
    destruct (exit_inv p t co H Hk Ht Hc) as (k & Hx & Hs). rewrite Hx. cbn [mbind option_bind].
    apply Hsw; [done|done|]. right. by exists t, co.
Qed.

(** ** The beginning *)

Lemma first_inv pool j0 e s :
  exists x, boot pool = Some (mkConfig x (InThread 1%nat)) /\
    pinv P (mkProc (mkConfig x (InThread 1%nat)) {[(1%nat : tid) := mkCo 0%nat j0 e []]} [j0] s []).
Proof.
  destruct (Frame_Init_ok pool) as (x & Hi & Hwf & _ & Hr & Hp & Hio & _). exists x. split.
  { unfold boot. rewrite Hi. cbn [mbind option_bind]. by rewrite (wf_running _ _ Hwf 1%nat eq_refl). }
  assert (Hsus : suspended x = []) by (unfold suspended, runq, waitq; by rewrite Hr, Hp, Hio).
  unfold pinv, fr. cbn [cfg cfg_frame]. rewrite Hsus. split; unfold fr, ctl; cbn [cfg cfg_frame cfg_ctl cos jobs plog]; [done|..].
  - intros t. unfold coroutines. rewrite Hsus. cbn [holder app]. rewrite list_elem_of_singleton.
    destruct (decide (t = 1%nat)) as [->|Hn]; [rewrite lookup_singleton_eq; split; eauto|].
    rewrite lookup_singleton_ne by done. split; [by intros [? ?]|done].
  - intros t co [<- <-]%lookup_singleton_Some. split; cbn; [by apply runs_nil|done|done|by intros ?%elem_of_nil].
  - by intros t co Ht%elem_of_nil.
  - by intros t u co co' [<- <-]%lookup_singleton_Some [<- <-]%lookup_singleton_Some.
  - intros w j [-> ->]%list_lookup_singleton_Some. left. exists 1%nat, (mkCo 0%nat j e []). by rewrite lookup_singleton_eq.
  - intros w _. split; [done|]. by intros ?%elem_of_nil.
Qed.

Lemma create_all_inv pre p t :
  pinv P p -> ctl p = InThread t ->
  exists p', create_all pre p = Some p' /\ pinv P p' /\ ctl p' = InThread t /\ jobs p' = jobs p ++ pre /\ sh p' = sh p /\
    plog p' = plog p.
Proof.
  revert p. induction pre as [|j pre IH]; intros p H Hk; cbn [create_all].
  { exists p. rewrite app_nil_r. done. }
  destruct (create_inv P Hsane p t j H Hk) as (p1 & u & Hc & H1 & Hk1 & Hj & Hs & Hl & _). rewrite Hc. cbn [mbind option_bind].
  destruct (IH p1 H1 Hk1) as (p' & Hc' & H' & Hk' & Hj' & Hs' & Hl'). exists p'. rewrite Hj', Hj, <- app_assoc.
  split_and!; try done; congruence.
Qed.

(** The coroutine moves to another thread object. *)
Lemma init_here_inv p t :
  pinv P p -> ctl p = InThread t ->
  exists p', init_here p = Some p' /\ pinv P p' /\ jobs p' = jobs p /\ sh p' = sh p /\ plog p' = plog p.
Proof.
  intros H Hk. unfold init_here. rewrite Hk. destruct (holder_co _ _ _ _ H Hk) as [co Ht]. rewrite Ht. cbn [mbind option_bind].
  pose proof (pi_wf _ _ _ H) as Hwf. unfold ctl, fr in Hk, Hwf.
  destruct (cfg p) as [x k] eqn:Ec. cbn [cfg_ctl cfg_frame] in *. subst k.
  destruct (InitHere_places x t Hwf) as (x' & u & Hx & Hwf' & Hu & Hsus & Hpl). rewrite Hx. cbn [mbind option_bind cfg_ctl].
  eexists. split; [done|]. split; [|done].
  assert (Hfr : suspended (fr p) = suspended x) by (unfold fr; by rewrite Ec).
  assert (Hcs : coroutines (fr p) (ctl p) = t :: suspended x) by (unfold coroutines, fr, ctl; by rewrite Ec).
  assert (Hnu : cos p !! u = None).
  { destruct (cos p !! u) eqn:E; [|done]. exfalso. apply Hu. unfold coroutines. change (holder (InThread t) ++ suspended x) with (t :: suspended x).
    rewrite <- Hcs. apply (pi_cos _ _ _ H). by rewrite E. }
  assert (Hnt : t ∉ suspended x) by (apply holder_not_suspended; done).
  assert (Hlk : forall v cv, <[u := co]> (delete t (cos p)) !! v = Some cv ->
    exists v0, cos p !! v0 = Some cv /\ (v = u /\ v0 = t \/ v <> u /\ v <> t /\ v0 = v)).
  { intros v cv. destruct (decide (v = u)) as [->|Hn].
    - rewrite lookup_insert_eq. intros [= <-]. exists t. auto.
    - rewrite lookup_insert_ne by done. intros [Hne Hv]%lookup_delete_Some. exists v. split; [done|]. right. done. }
  unfold pinv. unfold fr at 1. cbn [cfg set_cos set_cfg cfg_frame]. rewrite Hsus.
  split; unfold fr, ctl; cbn [cfg cos jobs plog set_cos set_cfg cfg_frame cfg_ctl]; [done|..].
  - intros v. unfold coroutines. rewrite Hsus. cbn [holder app]. rewrite elem_of_cons.
    destruct (decide (v = u)) as [->|Hn]; [rewrite lookup_insert_eq; split; eauto|]. rewrite lookup_insert_ne by done.
    destruct (decide (v = t)) as [->|Hnv].
    + rewrite lookup_delete_eq. split; [by intros [? ?]|]. by intros [?|?].
    + rewrite lookup_delete_ne by done. rewrite (pi_cos _ _ _ H v), Hcs, elem_of_cons. naive_solver.
  - intros v cv (v0 & Hv & _)%Hlk. by destruct (pi_co _ _ _ H v0 cv Hv).
  - intros v cv Hin (v0 & Hv & [[-> ->]|(_ & _ & ->)])%Hlk.
    + exfalso. apply Hu. apply elem_of_app. by right.
    + eapply parked_place; [by apply Hpl|]. pose proof (pi_parked _ _ _ H v cv) as Hp. rewrite Hfr in Hp. unfold fr in Hp.
      rewrite Ec in Hp. by apply Hp.
  - intros v1 v2 c1 c2 (w1 & H1 & E1)%Hlk (w2 & H2 & E2)%Hlk Hw. pose proof (pi_inj _ _ _ H _ _ _ _ H1 H2 Hw). naive_solver.
  - intros w j Hj. destruct (pi_gone _ _ _ H w j Hj) as [(v & cv & Hv & Hw)|?]; [left|by right].
    destruct (decide (v = t)) as [->|Hn].
    + rewrite Ht in Hv. injection Hv as <-. exists u, co. by rewrite lookup_insert_eq.
    + exists v, cv. rewrite lookup_insert_ne by (intros <-; congruence). by rewrite lookup_delete_ne.
  - apply (pi_fresh _ _ _ H).
Qed.

Lemma start_inv pool j0 pre here e s :
  exists p, start pool j0 pre here e s = Some p /\ pinv P p /\ jobs p = j0 :: pre /\ sh p = s /\ plog p = [].
Proof.
  unfold start. destruct (first_inv pool j0 e s) as (x & -> & H). cbn [mbind option_bind cfg_ctl].
  destruct (create_all_inv pre _ 1%nat H eq_refl) as (p & -> & Hp & Hk & Hj & Hs & Hl). cbn [mbind option_bind].
  destruct here; [|by exists p].
  destruct (init_here_inv p 1%nat Hp Hk) as (p' & -> & Hp' & Hj' & Hs' & Hl'). exists p'. by rewrite Hj', Hs', Hl'.
Qed.

Lemma psteps_inv p ls p' : psteps P p ls p' -> pinv P p -> pinv P p'.
Proof.
  induction 1 as [|p ls p1 l p2 _ IH Hst]; [done|]. intros H. destruct Hst as [p1 l p2 He Hx].
  destruct (pexec_inv p1 l (IH H) He) as (p3 & Hx' & Hp3 & _). by simplify_eq.
Qed.

(** ** Interruptions *)

Definition by_work (e : pevent) : Work := match e with pe_call w _ | pe_delete w => w end.

(** After a call of [w] something else happened: then what [w] does next, or wants
    to do, is a wait or a sleep. *)
Definition interrupted_well p : Prop :=
  forall l1 w a x l2, plog p = l1 ++ pe_call w a :: x :: l2 -> by_work x <> w ->
  match calls_by w l2 with
  | [] => forall t co, cos p !! t = Some co -> co_work co = w -> exists c, next_call P co = Some c /\ blocks c
  | (c, _) :: _ => blocks c
  end.

(** Only contexts without a call in the log change. *)
Lemma interrupted_same p p' :
  interrupted_well p -> plog p' = plog p ->
  (forall t co, cos p' !! t = Some co -> cos p !! t = Some co \/ calls_by (co_work co) (plog p) = []) ->
  interrupted_well p'.
Proof.
  intros H Hl Hc l1 w a x l2 Hs Hx. rewrite Hl in Hs. specialize (H l1 w a x l2 Hs Hx).
  destruct (calls_by w l2) as [|[c r] l3]; [|done]. intros t co Ht Hw.
  destruct (Hc t co Ht) as [Ht'|Hn]; [by eapply H|]. exfalso. rewrite Hw, Hs, calls_by_app in Hn. unfold calls_by in Hn.
  simpl in Hn. rewrite decide_True in Hn by done. by destruct (omap (call_by w) l1).
Qed.

(** An event of [v], while all others are at rest. *)
Lemma interrupted_snoc ps p p' x :
  pinv_at P ps p -> interrupted_well p -> plog p' = plog p ++ [x] ->
  (forall t co, cos p' !! t = Some co -> co_work co <> by_work x -> cos p !! t = Some co) ->
  (forall t co, cos p !! t = Some co -> co_work co <> by_work x -> co_hist co <> [] ->
     exists c, next_call P co = Some c /\ blocks c) ->
  match x with
  | pe_call v (c, r) => exists t co, cos p !! t = Some co /\ co_work co = v /\ next_call P co = Some c
  | pe_delete v => forall t co, cos p' !! t = Some co -> co_work co <> v
  end ->
  interrupted_well p'.
Proof.
  intros Hp H Hl Hkeep Hrest Hx l1 w a y l2 Hs Hy. rewrite Hl in Hs.
  destruct l2 as [|z l2 _] using rev_ind.
  - change (l1 ++ [pe_call w a; y]) with (l1 ++ [pe_call w a] ++ [y]) in Hs. rewrite app_assoc in Hs.
    apply app_inj_tail in Hs as [Hs ->]. cbn. intros t co Ht Hw. assert (Hne : co_work co <> by_work y) by congruence.
    specialize (Hkeep t co Ht Hne). apply (Hrest t co Hkeep Hne). rewrite <- (co_log _ _ _ (pi_co _ _ _ Hp t co Hkeep)), Hw, Hs.
    rewrite calls_by_call_eq. by destruct (calls_by w l1).
  - rewrite !app_comm_cons, app_assoc in Hs. apply app_inj_tail in Hs as [Hs ->]. specialize (H l1 w a y l2 Hs Hy).
    rewrite calls_by_app. destruct (calls_by w l2) as [|[c r] l3] eqn:Ecalls; [|done]. cbn [app].
    destruct z as [v [c r]|v].
    + unfold calls_by. cbn [omap list_omap call_by]. destruct (decide (v = w)) as [->|Hn].
      * destruct Hx as (t & co & Ht & Hw & Hc). destruct (H t co Ht Hw) as (c' & Hc' & Hb). congruence.
      * intros t co Ht Hw. apply (H t co); [|done]. apply Hkeep; [done|]. cbn [by_work]. congruence.
    + cbn. intros t co Ht Hw. apply (H t co); [|done]. apply Hkeep; [done|]. cbn [by_work]. by eapply Hx.
Qed.

Lemma parked_blocks x t co : parked P x t co -> co_hist co <> [] -> exists c, next_call P co = Some c /\ blocks c.
Proof.
  unfold parked. destruct (place x t).1 as [[|[]]|]; try done.
  - intros [ms ?] _. by eexists.
  - intros [[evs ?] _] _. by eexists.
Qed.

(** Entering changes neither the threads nor their work objects. *)
Lemma enter_works p p' e t co :
  enter P e p = Some p' -> cos p' !! t = Some co ->
  exists co0, cos p !! t = Some co0 /\ co_work co = co_work co0.
Proof.
  unfold enter. intros He Ht. destruct (ctl p) as [|u]; [injection He as <-; eauto|].
  apply bind_Some in He as (co1 & Hu & (k & _ & He)%bind_Some).
  assert (Hcos : exists c', cos p' = <[u := c']> (cos p) /\ co_work c' = co_work co1).
  { destruct k as [f sp sz|a]; [injection He as <-; by eexists|].
    apply bind_Some in He as (c & _ & (r & _ & He)%bind_Some). injection He as <-. by eexists. }
  destruct Hcos as (c' & Hcos & Hw). rewrite Hcos in Ht. destruct (decide (u = t)) as [->|Hn].
  - rewrite lookup_insert_eq in Ht. injection Ht as <-. eauto.
  - rewrite lookup_insert_ne in Ht by done. eauto.
Qed.

Lemma enter_interrupted p p' e :
  pinv_switch P p -> interrupted_well p -> enter P e p = Some p' -> interrupted_well p'.
Proof.
  intros Hp H He. destruct (enter_inv P Hsane Hcausal p e Hp) as (p1 & more & He' & _ & _ & _ & _ & Hl & Hent & Hoth & Hbeg).
  rewrite He in He'. injection He' as <-. destruct Hent as [->|(t & co & c & r & Hk & Ht & Hc & Hb & ->)].
  - rewrite app_nil_r in Hl. apply (interrupted_same p); [done|done|]. intros t co Ht.
    destruct (decide (InThread t = ctl p)) as [Hk|Hn]; [|left; by rewrite <- Hoth].
    right. destruct (enter_works _ _ _ _ _ He Ht) as (co0 & Ht0 & ->).
    rewrite (co_log _ _ _ (pi_co _ _ _ Hp t co0 Ht0)). by apply (Hbeg t co0).
  - eapply (interrupted_snoc _ p); [exact Hp|done|exact Hl|..].
    + intros u cu Hu Hw. destruct (decide (u = t)) as [->|Hn]; [|by rewrite <- Hoth by (rewrite Hk; congruence)].
      exfalso. apply Hw. destruct (enter_works _ _ _ _ _ He Hu) as (co0 & Ht0 & ->). cbn [by_work]. congruence.
    + intros u cu Hu _ Hh. eapply parked_blocks; [|exact Hh]. apply (pi_parked _ _ _ Hp); [|done]. apply (pi_cos _ _ _ Hp). by rewrite Hu.
    + by exists t, co.
Qed.

Lemma step_interrupted p p' : pinv P p -> step_shape p p' -> interrupted_well p -> interrupted_well p'.
Proof.
  intros Hp Hst H.
  assert (Hrest : forall t co u cu, ctl p = InThread t -> cos p !! t = Some co -> cos p !! u = Some cu -> co_work cu <> co_work co ->
    co_hist cu <> [] -> exists c, next_call P cu = Some c /\ blocks c).
  { intros t co u cu Hk Ht Hu Hw Hh. eapply parked_blocks; [|exact Hh]. apply (pi_parked _ _ _ Hp); [|done].
    assert (Hin : u ∈ coroutines (fr p) (ctl p)) by (apply (pi_cos _ _ _ Hp); by rewrite Hu). unfold coroutines in Hin. rewrite Hk in Hin.
    apply elem_of_app in Hin as [Hin%list_elem_of_singleton|]; [|done]. subst u. congruence. }
  destruct Hst as [t co c r p1 Hk Ht Hc Hb Hp1 Hcfg Hcos Hl Hj _ Hsp|p1 e Hp1 Hj Hor He].
  - assert (H1 : interrupted_well p1).
    { eapply (interrupted_snoc _ p _ _ Hp H Hl); cbn [by_work].
      - intros u cu. rewrite Hcos. cbn [cos happen]. destruct (decide (t = u)) as [->|Hn].
        + rewrite lookup_insert_eq. by intros [= <-].
        + by rewrite lookup_insert_ne.
      - intros u cu Hu Hw Hh. by eapply Hrest.
      - by exists t, co. }
    destruct (spawn P c) as [j|]; [|by subst].
    assert (Hk1 : ctl p1 = InThread t) by (unfold ctl; by rewrite Hcfg).
    destruct (create_inv P Hsane p1 t j Hp1 Hk1) as (p2 & u & Hcr & _ & _ & _ & _ & Hl2 & Hu & Hcos2).
    rewrite Hsp in Hcr. injection Hcr as <-. apply (interrupted_same p1); [done|done|]. intros v cv. rewrite Hcos2.
    destruct (decide (u = v)) as [->|Hn]; [|rewrite lookup_insert_ne by done; by left]. rewrite lookup_insert_eq. intros [= <-]. right.
    cbn [co_work]. by apply (pi_fresh _ _ _ Hp1).
  - apply (enter_interrupted p1 p' e Hp1); [|done]. destruct Hor as [(Hcos & _ & Hl)|(t & co & Hk & Ht & Hn & Hcos & _ & Hl)].
    + apply (interrupted_same p); [done|done|]. intros t co Ht. left. by rewrite <- Hcos.
    + eapply (interrupted_snoc _ p _ _ Hp H Hl); cbn [by_work].
      * intros u cu. rewrite Hcos. by intros [_ ?]%lookup_delete_Some.
      * intros u cu Hu Hw Hh. by eapply Hrest.
      * intros u cu. rewrite Hcos. intros [Hne Hu]%lookup_delete_Some Hw. apply Hne. symmetry. by eapply (pi_inj _ _ _ Hp).
Qed.

Lemma psteps_interrupted p ls p' : psteps P p ls p' -> pinv P p -> interrupted_well p -> interrupted_well p'.
Proof.
  intros Hs Hp H. induction Hs as [|p ls p1 l p2 Hs IH Hst]; [done|]. specialize (IH Hp H). destruct Hst as [p1 l p2 He Hx].
  pose proof (psteps_inv _ _ _ Hs Hp) as Hp1. destruct (pexec_inv p1 l Hp1 He) as (p3 & Hx' & _ & Hsh). simplify_eq.
  by eapply step_interrupted.
Qed.

(** ** What can be observed *)

Record observed := mkObs { ob_jobs : list J; ob_sh : Sh; ob_log : list pevent }.
Definition obs p : observed := mkObs (jobs p) (sh p) (plog p).

(** The process without its scheduler: work objects make calls, wait and are
    deleted. *)
Inductive change (o : observed) : observed -> Prop :=
  | ch_call w j c r s :
      ob_jobs o !! w = Some j -> ~ blocks c -> shared P j (c, r) (ob_sh o) = Some s ->
      change o (mkObs (ob_jobs o ++ option_list (spawn P c)) s (ob_log o ++ [pe_call w (c, r)]))
  | ch_block w j c r :
      ob_jobs o !! w = Some j -> blocks c -> change o (mkObs (ob_jobs o) (ob_sh o) (ob_log o ++ [pe_call w (c, r)]))
  | ch_delete w j :
      ob_jobs o !! w = Some j -> change o (mkObs (ob_jobs o) (deleted P j (ob_sh o)) (ob_log o ++ [pe_delete w])).

Lemma enter_changes p p' e : pinv_switch P p -> enter P e p = Some p' -> rtc change (obs p) (obs p').
Proof.
  intros Hp He. destruct (enter_inv P Hsane Hcausal p e Hp) as (p1 & more & He' & _ & _ & Hj & Hs & Hl & Hent & _).
  rewrite He in He'. injection He' as <-. unfold obs. rewrite Hj, Hs, Hl.
  destruct Hent as [->|(t & co & c & r & Hk & Ht & Hc & Hb & ->)]; [by rewrite app_nil_r|].
  apply rtc_once. apply (ch_block (mkObs (jobs p) (sh p) (plog p)) _ (co_job co)); [|done]. apply (pi_co _ _ _ Hp t co Ht).
Qed.

Lemma step_changes p p' : pinv P p -> step_shape p p' -> rtc change (obs p) (obs p').
Proof.
  intros Hp [t co c r p1 Hk Ht Hc Hb Hp1 Hcfg Hcos Hl Hj Hs Hsp|p1 e Hp1 Hj Hor He].
  - apply rtc_once. pose proof (co_jobs _ _ _ (pi_co _ _ _ Hp t co Ht)) as Hjob.
    pose proof (ch_call (obs p) _ _ c r _ Hjob Hb Hs) as Hch. cbn [obs ob_jobs ob_log] in Hch.
    destruct (spawn P c) as [j|]; cbn [option_list] in Hch.
    + destruct (create_inv P Hsane p1 t j Hp1 ltac:(unfold ctl; by rewrite Hcfg)) as (p2 & u & Hcr & _ & _ & Hj2 & Hs2 & Hl2 & _).
      rewrite Hsp in Hcr. injection Hcr as <-. unfold obs at 2. by rewrite Hj2, Hs2, Hl2, Hj, Hl.
    + subst p'. unfold obs at 2. rewrite app_nil_r in Hch. by rewrite Hj, Hl.
  - etrans; [|by eapply enter_changes]. unfold obs. rewrite Hj.
    destruct Hor as [(_ & -> & ->)|(t & co & Hk & Ht & Hn & _ & -> & ->)]; [done|].
    apply rtc_once. apply (ch_delete (mkObs (jobs p) (sh p) (plog p))). apply (pi_co _ _ _ Hp t co Ht).
Qed.

Lemma psteps_changes p ls p' : psteps P p ls p' -> pinv P p -> rtc change (obs p) (obs p').
Proof.
  induction 1 as [|p ls p1 l p2 Hs IH Hst]; [done|]. intros Hp. etrans; [by apply IH|]. destruct Hst as [p1 l p2 He Hx].
  pose proof (psteps_inv _ _ _ Hs Hp) as Hp1. destruct (pexec_inv p1 l Hp1 He) as (p3 & Hx' & _ & Hsh). simplify_eq.
  by apply step_changes.
Qed.

End process.

#[global] Arguments observed J Sh : clear implicits.

(** ** Theorems *)

Section theorems.
Context {HO : HeapOps} {J Sh : Type} (P : program J Sh) {Hcoded : Coded P}.
Context (pool : nat) (j0 : J) (pre : list J) (here : bool) (e0 : Z) (s0 : Sh).

Abbreviation reachable_process := (preachable P pool j0 pre here e0 s0).

Lemma log_runs p w j :
  pinv P p -> jobs p !! w = Some j ->
  exists e, runs (code P j) e (calls_by w (plog p)) /\
    (pe_delete w ∈ plog p -> returned (code P j) e true (calls_by w (plog p))).
Proof.
  intros Hp Hj. destruct (pi_gone _ _ _ Hp w j Hj) as [(t & co & Ht & <-)|(Hd & e & He)].
  - destruct (pi_co _ _ _ Hp t co Ht) as [Hrun Hjob Hlog Hlive]. rewrite Hjob in Hj. injection Hj as <-.
    exists (co_errno co). rewrite Hlog. done.
  - exists e. split; [by eapply returned_runs|done].
Qed.

Lemma preachable_changes p : reachable_process p -> rtc (change P) (mkObs (j0 :: pre) s0 []) (obs p).
Proof.
  intros (p0 & ls & Hst & Hs). destruct (start_inv P coded_sane pool j0 pre here e0 s0) as (p1 & Hst' & Hp & Hj & Hsh & Hl).
  rewrite Hst in Hst'. injection Hst' as <-. replace (mkObs (j0 :: pre) s0 []) with (obs p0).
  - eapply psteps_changes; [apply coded_sane|apply coded_causal|done|done].
  - unfold obs. by rewrite Hj, Hsh, Hl.
Qed.

Lemma preachable_inv p : reachable_process p -> pinv P p.
Proof.
  intros (p0 & ls & Hst & Hs). destruct (start_inv P coded_sane pool j0 pre here e0 s0) as (p1 & Hst' & Hp & _). simplify_eq.
  eapply psteps_inv; [apply coded_sane|apply coded_causal|done|done].
Qed.

(** Why a process does not go on. *)
Lemma progress p :
  answerable P -> pinv P p -> (exists l, penabled P l p = true) \/ process_ended P p \/ waits_twice P p.
Proof.
  intros Hans Hp.
  destruct (ctl p) as [|t] eqn:Hk.
  { left. exists (P_main 0 None 0). unfold penabled, current. rewrite Hk. unfold ctl in Hk. simpl. by rewrite Hk. }
  destruct (holder_co _ _ _ _ Hp Hk) as [co Ht].
  assert (Hcur : current p = Some co) by (unfold current; by rewrite Hk).
  destruct (next_call P co) as [c|] eqn:Hc.
  - destruct (block_label 0 c) as [l|] eqn:Hb.
    + destruct (enabled l (cfg p)) eqn:He.
      * left. exists (P_block 0 0). unfold penabled. by rewrite Hcur, Hc, Hb.
      * right. right. unfold ctl in Hk. destruct c; simplify_eq/=; rewrite Hk in He; [|done].
        exists co, fd, evs. split; [done|]. split; [done|]. unfold fr. destruct (io_wait_map_ _ !! fd); [eauto|done].
    + left. destruct (Hans (co_job co) c (sh p) Hb) as (r & s & Hs). exists (P_call r).
      unfold penabled. by rewrite Hcur, Hc, Hb, Hs.
  - pose proof (co_runs _ _ _ (pi_co _ _ _ Hp t co Ht)) as Hrun.
    destruct (demand_None _ _ (coded_causal _) _ Hrun Hc) as (b & w & Hret).
    assert (Hres : co_result P co = Some b) by (unfold co_result, result; by rewrite Hret).
    destruct (Nat.eqb_spec (co_work co) 0) as [Hz|Hn]; [right; left; exists co, b; auto|].
    destruct b; [|right; left; exists co, false; auto].
    left. exists (P_exit 0). unfold penabled. rewrite Hcur, Hres. by apply negb_true_iff, Nat.eqb_neq.
Qed.

(** C3: A process of coroutines is safe: it starts, in every state that it reaches
    every step that can be taken succeeds (no null or dangling [Thread*], no context
    that was never saved, no coroutine that is resumed at another call than the one
    it waits for), and there is such a step, unless
    [main] has returned, the process was ended by a coroutine (exit), or a
    coroutine wants to wait for a descriptor for which another one waits already. *)
Theorem process_safe :
  answerable P ->
  is_Some (start pool j0 pre here e0 s0) /\
  forall p, reachable_process p ->
    (forall l, penabled P l p = true -> is_Some (pexec P l p)) /\
    ((exists l, penabled P l p = true) \/ process_ended P p \/ waits_twice P p).
Proof.
  intros Hans. split. { destruct (start_inv P coded_sane pool j0 pre here e0 s0) as (p & -> & _). eauto. }
  intros p Hr. pose proof (preachable_inv p Hr) as Hp. split; [|by apply progress].
  intros l He. destruct (pexec_inv P coded_sane coded_causal p l Hp He) as (p' & -> & _). eauto.
Qed.

(** C8: Every coroutine of a process is a run of its code: for each work object ever
    created, in the interleaving of all events of the process its own events are
    exactly the calls that its [Run] makes on these answers, in order; and it has
    been deleted only after [Run] and the destructor have returned on them.  So
    what is proved of a function for all scripts of answers holds of every
    coroutine that executes it, whatever the others do. *)
Theorem coroutines_run_their_code p w j :
  reachable_process p -> jobs p !! w = Some j ->
  exists e, runs (code P j) e (calls_by w (plog p)) /\
    (pe_delete w ∈ plog p -> returned (code P j) e true (calls_by w (plog p))).
Proof.
  intros Hr. apply log_runs, preachable_inv, Hr.
Qed.

(** C9: Coroutines are interrupted only where they wait or sleep: when in the history
    of a process an event of another coroutine comes directly after a call of [w],
    the next call of [w] is a wait for a descriptor or a sleep (if it makes one at
    all).  What a coroutine does between two of these is atomic for all others. *)
Theorem cooperative_atomicity p l1 w a x l2 c r l3 :
  reachable_process p -> plog p = l1 ++ pe_call w a :: x :: l2 -> by_work x <> w ->
  calls_by w l2 = (c, r) :: l3 -> blocks c.
Proof.
  intros (p0 & ls & Hst & Hs) Hl Hx Hc.
  destruct (start_inv P coded_sane pool j0 pre here e0 s0) as (p1 & Hst' & Hp & _ & _ & Hlog). simplify_eq.
  match goal with H : psteps P ?q ls p |- _ => rename q into q0 end.
  assert (H0 : interrupted_well P q0) by (intros k1 v b y k2 Hk; rewrite Hlog in Hk; by destruct k1).
  pose proof (psteps_interrupted P coded_sane coded_causal _ _ _ Hs Hp H0 l1 w a x l2 Hl Hx) as H. by rewrite Hc in H.
Qed.

End theorems.

(** ** Witnesses *)

Section runs.
Context {HO : HeapOps} {J Sh : Type} (P : program J Sh).

Lemma prun_psteps q ks p ls p' : psteps P q ks p -> prun P ls p = Some p' -> exists ms, psteps P q ms p'.
Proof.
  revert ks p. induction ls as [|l ls IH]; intros ks p Hs H; cbn [prun] in H; [injection H as <-; eauto|].
  destruct (penabled P l p) eqn:He; [|done]. apply bind_Some in H as (p1 & Hx & H). eapply (IH (ks ++ [l])); [|exact H].
  eapply psteps_snoc; [exact Hs|by constructor].
Qed.

Lemma prun_preachable pool j0 pre here e s ls p :
  (p0 ← start pool j0 pre here e s; prun P ls p0) = Some p -> preachable P pool j0 pre here e s p.
Proof.
  intros (p0 & Hst & Hr)%bind_Some. destruct (prun_psteps p0 [] p0 ls p (psteps_nil _ _) Hr) as [ms Hms]. by exists p0, ms.
Qed.

End runs.

(** [main] starts a coroutine and sleeps; the coroutine waits until it may send. *)
Definition demo_code (j : bool) : IO bool :=
  if j then let* _ := sys (c_create_srv true 0) in let* _ := sys (c_sleep 10) in io_ret true
  else let* _ := sys (c_recv 5 1 0) in let* _ := wait 5 2 in let* _ := sys (c_send 5 [] 0) in io_ret true.
Definition demo_program : program bool unit :=
  mkProgram demo_code (fun c => match c with c_create_srv _ _ => Some false | _ => None end) (fun _ _ s => Some s) (fun _ s => s).

#[local] Instance demo_coded : Coded demo_program.
Proof. split; intros []; cbn [code demo_program demo_code]; [sane_tac|sane_tac|causal_tac|causal_tac]. Qed.

Lemma demo_answerable : answerable demo_program.
Proof. intros j c s _. exists (mkResp 0 0 [] (mkSockaddr 0 0)). by eexists. Qed.

Definition demo_labels : list plabel :=
  [P_call (mkResp 0 0 [] (mkSockaddr 0 0)); P_block 100 0; P_call (mkResp (-1) 11 [] (mkSockaddr 0 0)); P_block 101 0;
   P_main 102 (Some (2%nat, 2)) 11; P_call (mkResp 0 0 [] (mkSockaddr 0 0)); P_exit 0; P_main 110 None 0].
Definition demo_end : option (proc bool unit) :=
  p0 ← start 1 true [] false 0 tt; prun demo_program demo_labels p0.

Definition demo_log : list pevent :=
  let a r e := mkResp r e [] (mkSockaddr 0 0) in
  [pe_call 0%nat (c_create_srv true 0, a 0 0); pe_call 1%nat (c_recv 5 1 0, a (-1) 11); pe_call 1%nat (c_wait 5 2, a 2 11);
   pe_call 1%nat (c_send 5 [] 0, a 0 0); pe_delete 1%nat; pe_call 0%nat (c_sleep 10, a (-1) 0)].

Lemma demo_end_log : (plog <$> demo_end) = Some demo_log /\ (jobs <$> demo_end) = Some [true; false].
Proof. split; vm_compute; reflexivity. Qed.

Lemma demo_reaches :
  exists p, preachable demo_program 1 true [] false 0 tt p /\ plog p = demo_log /\ jobs p = [true; false].
Proof.
  pose proof demo_end_log as [Hl Hj]. destruct demo_end as [p|] eqn:E; [|discriminate Hl]. exists p.
  injection Hl as Hl. injection Hj as Hj. split; [|split; [exact Hl|exact Hj]].
  unfold demo_end in E. exact (prun_preachable demo_program 1 true [] false 0 tt demo_labels p E).
Qed.

Lemma process_safe_witness :
  exists p, plog p = demo_log /\
    ((exists l, penabled demo_program l p = true) \/ process_ended demo_program p \/ waits_twice demo_program p).
Proof.
  destruct demo_reaches as (p & Hp & Hl & _). exists p. split; [exact Hl|].
  destruct (process_safe demo_program 1 true [] false 0 tt demo_answerable) as [_ H]. exact (proj2 (H p Hp)).
Defined.

Lemma coroutines_run_their_code_witness :
  exists e, returned (demo_code false) e true (calls_by 1%nat demo_log).
Proof.
  destruct demo_reaches as (p & Hp & Hl & Hj).
  destruct (coroutines_run_their_code demo_program 1 true [] false 0 tt p 1%nat false Hp ltac:(rewrite Hj; reflexivity))
    as (e & _ & H). exists e. rewrite Hl in H. apply H. unfold demo_log. do 4 right. left.
Defined.

Lemma cooperative_atomicity_witness : blocks (c_sleep 10).
Proof.
  destruct demo_reaches as (p & Hp & Hl & _).
  refine (cooperative_atomicity demo_program 1 true [] false 0 tt p [] 0%nat _ _ _ (c_sleep 10) _ [] Hp Hl _ _);
    [discriminate|reflexivity].
Defined.
