(* ===== verification/ProcessSched.v ===== *)
(** * Processes are executions of the scheduler

    The configurations that a process goes through are those of an execution of
    [Sched], so that all that is proved of the scheduler holds of processes; and in
    them the maps of waiting and sleeping threads agree with the places where the
    contexts were saved. *)

From S2P Require Import Prelude Heap Thread Frame FrameFacts Sched SchedProps SchedSpec SchedContext World Resume.
From S2P Require Import Process ProcessInv ProcessProps.

(** ** Saved contexts and the queues *)

Record saved_ok (x : frame) : Prop := {
  saved_wait fd t : waiters x !! fd = Some t -> place x t = (Some (uc_saved (In_io_wait fd)), Some fd);
  saved_sleep t w : sleepers x !! t = Some w -> (place x t).1 = Some (uc_saved In_Sleep)
}.

Lemma waiter_suspended x fd t : waiters x !! fd = Some t -> t ∈ suspended x.
Proof.
  intros H%waiters_lookup. unfold suspended. rewrite !elem_of_app. right. right. apply elem_of_waitq. eauto.
Qed.

Lemma sleeper_suspended x k t w : wf x k -> sleepers x !! t = Some w -> t ∈ suspended x.
Proof.
  intros Hwf [H _]%sleepers_lookup; [|apply (pending_nodup _ (wf_pending_ok x k Hwf))].
  unfold suspended. rewrite !elem_of_app. right. by left.
Qed.

(** When the maps only lose entries and the places of the others stay. *)
Lemma saved_ok_sub x y :
  saved_ok x -> waiters y ⊆ waiters x -> sleepers y ⊆ sleepers x ->
  (forall t, (exists fd, waiters x !! fd = Some t) \/ is_Some (sleepers x !! t) -> place y t = place x t) -> saved_ok y.
Proof.
  intros [Hw Hs] Hsw Hss Hp. split.
  - intros fd t H. pose proof (lookup_weaken _ _ _ _ H Hsw) as Hx. rewrite Hp by eauto. by apply Hw.
  - intros t w H. pose proof (lookup_weaken _ _ _ _ H Hss) as Hx. rewrite Hp by eauto. by eapply Hs.
Qed.

Section scheduler.
Context {HO : HeapOps}.

Lemma dispatch_maps r a w : asleep (dispatch r a w) = a /\ waiting (dispatch r a w) = w.
Proof. by destruct r. Qed.

Lemma exec_saved c l c' :
  wf (cfg_frame c) (cfg_ctl c) -> enabled l c = true -> exec l c = Some c' -> saved_ok (cfg_frame c) -> saved_ok (cfg_frame c').
Proof.
  intros Hwf He Hx Hok. pose proof (exec_refines c l c' Hwf He Hx) as Hr. destruct c as [x k], c' as [x' k']. cbn [cfg_frame cfg_ctl] in *.
  assert (Hsus : forall t, (exists fd, waiters x !! fd = Some t) \/ is_Some (sleepers x !! t) -> t ∈ suspended x).
  { intros t [[fd H]|[w H]]; [by eapply waiter_suspended|by eapply sleeper_suspended]. }
  assert (exists y, sched_step (abs x k) l y /\ sleepers x' = asleep y /\ waiters x' = waiting y) as (y & Hy & Hs' & Hw') by eauto.
  clear Hr. destruct l, k as [|t]; try done; try (destruct fired as [[]|]; done).
  - destruct (exec_main_places now fired x x' k' Hwf He Hx) as (_ & _ & Hpl).
    inversion Hy as [? ? up w due Hcur Hrep Hdue| | | | |]; subst.
    destruct (dispatch_maps (ready (abs x InMain) ++ up ++ due) (still_asleep now (asleep (abs x InMain))) w) as [Ha Hb].
    rewrite Ha in Hs'. rewrite Hb in Hw'. apply (saved_ok_sub x); [done| | |intros; apply Hpl].
    + rewrite Hw'. inversion Hrep; subst; [done|apply delete_subseteq].
    + rewrite Hs'. apply map_filter_subseteq.
  - inversion Hy; subst. cbn [exec cfg_frame cfg_ctl] in Hx.
    destruct (CreateThread_keeps_places w x _ Hwf) as (tn & x2 & Hc & _ & _ & _ & Hpl & _). rewrite Hc in Hx. cbn [mbind option_bind] in Hx. injection Hx as <- <-.
    apply (saved_ok_sub x); [done|by rewrite Hw'|by rewrite Hs'|]. intros v Hv. apply Hpl, elem_of_app. right. by apply Hsus.
  - destruct (exec_sleep_places x t Hwf now ms) as (x2 & k2 & Hx2 & _ & _ & Hpl & Hp). rewrite Hx in Hx2. injection Hx2 as <- <-.
    inversion Hy; subst. match goal with H : cur _ = Some ?v |- _ => cbn in H; injection H as <- end.
    match type of Hs' with _ = asleep (dispatch ?r ?a ?w) => destruct (dispatch_maps r a w) as [Ha Hb]; rewrite Ha in Hs'; rewrite Hb in Hw' end.
    split.
    + intros fd v H. rewrite Hw' in H. rewrite Hpl; [by apply Hok|]. intros ->.
      by apply (holder_not_suspended x t Hwf), (waiter_suspended x fd).
    + intros v w H. rewrite Hs' in H. apply lookup_insert_Some in H as [[<- _]|[Hn H]]; [done|].
      rewrite Hpl by done. by apply (saved_sleep _ Hok v w).
  - simpl in He. destruct (io_wait_map_ x !! fd) eqn:Hio; [done|].
    destruct (exec_wait_places x t Hwf fd evs Hio) as (x2 & k2 & Hx2 & _ & _ & Hpl & Hp). rewrite Hx in Hx2. injection Hx2 as <- <-.
    inversion Hy; subst. match goal with H : cur _ = Some ?v |- _ => cbn in H; injection H as <- end.
    match type of Hs' with _ = asleep (dispatch ?r ?a ?w) => destruct (dispatch_maps r a w) as [Ha Hb]; rewrite Ha in Hs'; rewrite Hb in Hw' end.
    split.
    + intros fd' v H. rewrite Hw' in H. apply lookup_insert_Some in H as [[<- <-]|[Hn H]]; [done|]. rewrite Hpl; [by apply Hok|]. intros ->.
      by apply (holder_not_suspended x t Hwf), (waiter_suspended x fd').
    + intros v w H. rewrite Hs' in H. rewrite Hpl; [by apply (saved_sleep _ Hok v w)|]. intros ->.
      by apply (holder_not_suspended x t Hwf), (sleeper_suspended x (InThread t) t w).
  - destruct (exec_exit_places x t Hwf) as (x2 & k2 & Hx2 & _ & _ & Hpl). rewrite Hx in Hx2. injection Hx2 as <- <-.
    inversion Hy; subst.
    match type of Hs' with _ = asleep (dispatch ?r ?a ?w) => destruct (dispatch_maps r a w) as [Ha Hb]; rewrite Ha in Hs'; rewrite Hb in Hw' end.
    apply (saved_ok_sub x); [done|by rewrite Hw'|by rewrite Hs'|]. intros; apply Hpl.
  - destruct (InitHere_places x t Hwf) as (x2 & tn & Hx2 & _ & _ & _ & Hpl). rewrite Hx in Hx2. injection Hx2 as -> ->.
    inversion Hy; subst. apply (saved_ok_sub x); [done|by rewrite Hw'|by rewrite Hs'|]. intros v Hv. by apply Hpl, Hsus.
Qed.

Lemma steps_saved c ls c' :
  steps c ls c' -> wf (cfg_frame c) (cfg_ctl c) -> saved_ok (cfg_frame c) -> saved_ok (cfg_frame c').
Proof.
  induction 1 as [|c l c1 ls c2 [He Hx]%step_inv _ IH]; [done|]. intros Hwf Hok.
  destruct (exec_wf _ _ Hwf He) as (c3 & Hx' & Hwf1). replace c1 with c3 in * by congruence.
  apply IH; [done|]. by eapply (exec_saved c l c3).
Qed.

Lemma reachable_saved pool c : reachable pool c -> saved_ok (cfg_frame c).
Proof.
  intros (b & ls & Hb & Hs). destruct (boot_wf pool) as (b' & Hb' & Hwf). replace b' with b in Hwf by congruence.
  apply (steps_saved _ _ _ Hs Hwf). pose proof (boot_abs pool b Hb) as Ha. unfold abs in Ha. injection Ha as _ _ Hs0 Hw0.
  split; [rewrite Hw0|rewrite Hs0]; by intros ? ? ?%lookup_empty_Some.
Qed.

Lemma steps_trans c1 l1 c2 l2 c3 : steps c1 l1 c2 -> steps c2 l2 c3 -> steps c1 (l1 ++ l2) c3.
Proof. induction 1 as [|c l c1 ls c2 Hst _ IH]; [done|]. intros H. econstructor; [done|by apply IH]. Qed.

End scheduler.

(** ** A process schedules *)

Section process.
Context {HO : HeapOps} {J Sh : Type} (P : program J Sh).

Lemma create_sched j (p p' : proc J Sh) t :
  ctl p = InThread t -> create j p = Some p' -> step (cfg p) (L_create (length (jobs p))) (cfg p').
Proof.
  intros Hk H. unfold create in H. apply bind_Some in H as ([tw x] & Hc & (u & _ & H)%bind_Some). injection H as <-. cbn [cfg].
  unfold ctl, fr in *. destruct (cfg p) as [y k]. cbn [cfg_ctl cfg_frame] in *. subst k. constructor; [done|].
  cbn [exec cfg_frame cfg_ctl]. by rewrite Hc.
Qed.

Lemma enter_cfg e (p p' : proc J Sh) : enter P e p = Some p' -> cfg p' = cfg p.
Proof.
  unfold enter. destruct (ctl p) as [|t]; [by intros [= <-]|].
  intros (co & _ & (u & _ & H)%bind_Some)%bind_Some. destruct u as [f sp sz|a]; [by injection H as <-|].
  apply bind_Some in H as (c & _ & (r & _ & H)%bind_Some). by injection H as <-.
Qed.

Lemma pstep_sched p l p' : pstep P p l p' -> exists ls, steps (cfg p) ls (cfg p').
Proof.
  intros [p0 l0 p1 He Hx]. clear p l p'. unfold pexec, penabled, current in *.
  assert (Hone : forall l c, enabled l (cfg p0) = true -> exec l (cfg p0) = Some c -> cfg p1 = c -> exists ls, steps (cfg p0) ls (cfg p1)).
  { intros l c Hen Hxc <-. exists [l]. econstructor; [by constructor|constructor]. }
  destruct l0 as [now fired e|r|now e|e], (ctl p0) as [|t] eqn:Hk; try done.
  - apply bind_Some in Hx as (c & Hc & Hen%enter_cfg). by eapply Hone.
  - apply bind_Some in Hx as (co & Ht & (c & Hc & (s & Hs & Hx)%bind_Some)%bind_Some).
    destruct (spawn P c) as [j|]; [|injection Hx as <-; exists []; constructor].
    eexists. econstructor; [exact (create_sched j (happen t co (c, r) (set_sh s p0)) p1 t Hk Hx)|constructor].
  - apply bind_Some in Hx as (co & Ht & (c & Hc & (l & Hl & (k & Hxk & Hen%enter_cfg)%bind_Some)%bind_Some)%bind_Some).
    rewrite Ht, Hc, Hl in He. by eapply Hone.
  - apply bind_Some in Hx as (co & Ht & (k & Hxk & Hen%enter_cfg)%bind_Some). eapply (Hone L_exit); [|exact Hxk|exact Hen].
    unfold ctl in Hk. simpl. by rewrite Hk.
Qed.

Lemma psteps_sched p ls p' : psteps P p ls p' -> exists ks, steps (cfg p) ks (cfg p').
Proof.
  induction 1 as [|p ls p1 l p2 _ [ks IH] Hst]; [by exists []; constructor|].
  destruct (pstep_sched _ _ _ Hst) as [k Hk]. exists (ks ++ k). by eapply steps_trans.
Qed.

Lemma create_all_sched pre (p p' : proc J Sh) t :
  ctl p = InThread t -> create_all pre p = Some p' -> exists ks, steps (cfg p) ks (cfg p') /\ ctl p' = InThread t.
Proof.
  revert p. induction pre as [|j pre IH]; intros p Hk H; cbn [create_all] in H.
  { injection H as <-. exists []. split; [constructor|done]. }
  apply bind_Some in H as (p1 & Hc & H). pose proof (create_sched j p p1 t Hk Hc) as Hst.
  assert (Hk1 : ctl p1 = InThread t).
  { unfold create in Hc. apply bind_Some in Hc as ([tw x] & _ & (u & _ & Hc)%bind_Some). by injection Hc as <-. }
  destruct (IH p1 Hk1 H) as (ks & Hks & Hk'). eexists (_ :: ks). split; [by econstructor|done].
Qed.

(** The configuration of a process is one that the scheduler reaches. *)
Lemma preachable_sched pool j0 pre here e s p : preachable P pool j0 pre here e s p -> reachable pool (cfg p).
Proof.
  intros (p0 & ls & Hst & Hs). unfold start in Hst. apply bind_Some in Hst as (b & Hb & Hst).
  destruct (cfg_ctl b) as [|t] eqn:Hk; [done|]. apply bind_Some in Hst as (p1 & Hc & Hst).
  pose proof (fun H => create_all_sched _ _ _ t H Hc) as Hca. destruct (Hca Hk) as (k1 & H1 & Hk1). cbn [cfg] in H1. clear Hca.
  assert (exists k2, steps (cfg p1) k2 (cfg p0)) as [k2 H2].
  { destruct here; [|injection Hst as <-; exists []; constructor]. unfold init_here in Hst. rewrite Hk1 in Hst.
    apply bind_Some in Hst as (co & _ & (k & Hx & Hst)%bind_Some). destruct (cfg_ctl k); [done|]. injection Hst as <-.
    exists [L_init_here]. econstructor; [|constructor]. constructor; [|exact Hx]. unfold ctl in Hk1. simpl. by rewrite Hk1. }
  destruct (psteps_sched _ _ _ Hs) as [k3 H3]. exists b, (k1 ++ k2 ++ k3). split; [done|].
  eapply steps_trans; [exact H1|]. by eapply steps_trans.
Qed.

(** A descriptor for which somebody waits is that of the next call of a coroutine. *)
Lemma waiter_call p fd :
  pinv P p -> saved_ok (fr p) -> is_Some (io_wait_map_ (fr p) !! fd) ->
  exists t co evs, t ∈ suspended (fr p) /\ cos p !! t = Some co /\ next_call P co = Some (c_wait fd evs).
Proof.
  intros Hp Hok [q Hq]. destruct (wf_io _ _ (pi_wf _ _ _ Hp) fd q Hq) as (t & e & -> & _).
  assert (Hw : waiters (fr p) !! fd = Some t) by (by apply waiters_lookup).
  pose proof (waiter_suspended _ _ _ Hw) as Hin.
  assert (is_Some (cos p !! t)) as [co Hco] by (apply (pi_cos _ _ _ Hp), elem_of_app; by right).
  pose proof (pi_parked _ _ _ Hp t co Hin Hco) as Hpk. unfold parked in Hpk. rewrite (saved_wait _ Hok fd t Hw) in Hpk.
  destruct Hpk as [[evs He] _]. by exists t, co, evs.
Qed.

End process.
