(* ===== verification/Network.v ===== *)
(** * Network helpers: util/network.h, util/network.cc, util/time.h

    Socket options as sequences of system calls, addresses as text.  The claims
    at the end: [SetNonBlock] changes the one flag it means to, and the text of
    an address determines the address. *)

From S2P Require Import Prelude CStr World.

(** ** Addresses *)

(** [union IP]: two views of the same bytes. *)
Record IP := mkIP { ip_bits : Z }.
Definition af_inet_ip (ip : IP) : Z := u32 (ip_bits ip).
Definition af_inet6_ip (ip : IP) : Z := u64 (ip_bits ip).

Definition ip_of (a : Z) : IP := mkIP (u32 a).

(** Network byte order on a little-endian machine. *)
Definition ntohs (x : Z) : Z := Z.lor (Z.shiftl (Z.land x 255) 8) (Z.land (Z.shiftr x 8) 255).
Definition htons (x : Z) : Z := ntohs x.

(** [inet_ntoa]: the first octet is the lowest byte in memory. *)
Definition octet (a : Z) (i : Z) : Z := Z.land (Z.shiftr a (8 * i)) 255.
Definition inet_ntoa (a : Z) : bytes :=
  join "."%char [to_string (octet a 0); to_string (octet a 1);
                 to_string (octet a 2); to_string (octet a 3)].

Definition ntoa (ip : IP) : bytes := inet_ntoa (af_inet_ip ip).

Definition InetAddrToString (addr : sockaddr) : bytes :=
  inet_ntoa (sin_addr addr) ++ lit ":" ++ to_string (ntohs (sin_port addr)).

Record EndPoint := mkEndPoint { ep_ip : IP; ep_port : Z }.
Definition EndPoint_default : EndPoint := mkEndPoint (mkIP 0) 0.
Definition EndPoint_ToString (e : EndPoint) : bytes :=
  ntoa (ep_ip e) ++ lit ":" ++ to_string (ep_port e).

(** ** Socket options *)

Definition IFNAMSIZ : Z := 16.

(** The results of [socket] and [ioctl] are not looked at; whatever the request
    structure holds afterwards is the address. *)
Definition GetEthAddr (eth : bytes) : IO (bool * IP) :=
  let* s := sys (c_socket SOCK_DGRAM) in
  let fd := s32 (r_ret s) in
  let* r := sys (c_ioctl_ifaddr fd (take (Z.to_nat (IFNAMSIZ - 1)) eth)) in
  let* _ := sys (c_close fd) in
  io_ret (true, ip_of (sin_addr (r_addr r))).

Definition SetNonBlock (fd : Z) : IO Z :=
  let* r := sys (c_fcntl_getfl fd) in
  let flags := s32 (r_ret r) in
  if flags <? 0 then io_ret flags
  else
    let flags := Z.lor flags O_NONBLOCK in
    let* r := sys (c_fcntl_setfl fd flags) in
    io_ret (s32 (r_ret r)).

Definition SetReuseAddr (fd : Z) : IO Z :=
  let* r := sys (c_setsockopt fd SOL_SOCKET SO_REUSEADDR 1) in
  io_ret (s32 (r_ret r)).

(** ** util/time.h *)

Record timeval := mkTimeval { tv_sec : Z; tv_usec : Z }.

(** [mstime] after [gettimeofday] stored [tv]. *)
Definition mstime (tv : timeval) : Z := u64 (u64 (tv_sec tv) * 1000 + u64 (tv_usec tv) / 1000).

(** ** Facts *)

Lemma sane_SetNonBlock fd : sane (SetNonBlock fd).
Proof. unfold SetNonBlock. sane_tac. Qed.

Lemma sane_SetReuseAddr fd : sane (SetReuseAddr fd).
Proof. unfold SetReuseAddr. sane_tac. Qed.

Lemma sane_GetEthAddr eth : sane (GetEthAddr eth).
Proof. unfold GetEthAddr. sane_tac. Qed.

#[export] Hint Resolve sane_SetNonBlock sane_SetReuseAddr sane_GetEthAddr : tinyco.

Lemma land_255 x : Z.land x 255 = x mod 256.
Proof. change 255 with (Z.ones 8). by rewrite Z.land_ones. Qed.

Lemma octet_spec a i : 0 <= i -> octet a i = a / 256 ^ i mod 256.
Proof.
  intros. unfold octet. rewrite land_255, Z.shiftr_div_pow2 by lia.
  by rewrite Z.pow_mul_r by lia.
Qed.

Lemma octet_range a i : 0 <= octet a i < 256.
Proof. unfold octet. rewrite land_255. by apply Z.mod_pos_bound. Qed.

(** The four octets determine a 32-bit address. *)
Lemma octets_inj a b :
  0 <= a < 2 ^ 32 -> 0 <= b < 2 ^ 32 ->
  octet a 0 = octet b 0 -> octet a 1 = octet b 1 -> octet a 2 = octet b 2 -> octet a 3 = octet b 3 ->
  a = b.
Proof.
  intros Ha Hb. rewrite !octet_spec by lia. intros.
  enough (forall x, 0 <= x < 2 ^ 32 -> x = x / 256 ^ 0 mod 256 + 256 * (x / 256 ^ 1 mod 256)
    + 65536 * (x / 256 ^ 2 mod 256) + 16777216 * (x / 256 ^ 3 mod 256)) as Hd.
  { rewrite (Hd a), (Hd b) by done. lia. }
  intros x Hx. clear - Hx. Z.to_euclidean_division_equations. lia.
Qed.

Lemma ntohs_spec x : 0 <= x < 2 ^ 16 -> ntohs x = 256 * (x mod 256) + x / 256.
Proof.
  intros Hx. unfold ntohs. rewrite !land_255, Z.shiftr_div_pow2, Z.shiftl_mul_pow2 by lia.
  rewrite (Z.mod_small (x / 2 ^ 8)) by (Z.to_euclidean_division_equations; lia).
  rewrite <- Z.add_nocarry_lor; [change (2 ^ 8) with 256; lia|]. apply Z.bits_inj'. intros n Hn.
  rewrite Z.land_spec, Z.bits_0. destruct (Z.lt_ge_cases n 8).
  - by rewrite Z.mul_pow2_bits_low.
  - rewrite (Z.bits_above_log2 (x / 2 ^ 8)), andb_false_r; [done| |].
    + Z.to_euclidean_division_equations; lia.
    + destruct (Z.lt_ge_cases 0 (x / 2 ^ 8)) as [Hp|Hp].
      * apply Z.log2_lt_pow2; [done|]. apply Z.lt_le_trans with (2 ^ 8).
        -- Z.to_euclidean_division_equations; lia.
        -- apply Z.pow_le_mono_r; lia.
      * rewrite Z.log2_nonpos; lia.
Qed.

Lemma ntohs_range x : 0 <= x < 2 ^ 16 -> 0 <= ntohs x < 2 ^ 16.
Proof. intros. rewrite ntohs_spec by done. Z.to_euclidean_division_equations; lia. Qed.

Lemma ntohs_involutive x : 0 <= x < 2 ^ 16 -> ntohs (ntohs x) = x.
Proof.
  intros Hx. rewrite (ntohs_spec (ntohs x)) by (by apply ntohs_range).
  rewrite ntohs_spec by done. Z.to_euclidean_division_equations; lia.
Qed.

Lemma ntohs_inj x y : 0 <= x < 2 ^ 16 -> 0 <= y < 2 ^ 16 -> ntohs x = ntohs y -> x = y.
Proof.
  intros Hx Hy H. rewrite <- (ntohs_involutive x), <- (ntohs_involutive y) by done. congruence.
Qed.

Lemma octet_text a i : to_string (octet a i) <> [] /\ ("."%char ∉ to_string (octet a i)) /\
  (":"%char ∉ to_string (octet a i)).
Proof. pose proof (octet_range a i). split_and!; auto with tinyco lia. Qed.

Lemma inet_ntoa_inj a b :
  0 <= a < 2 ^ 32 -> 0 <= b < 2 ^ 32 -> inet_ntoa a = inet_ntoa b -> a = b.
Proof.
  intros Ha Hb H. unfold inet_ntoa in H. apply join_inj in H; try done;
    try (by repeat constructor; apply octet_text); try (simpl; intros [= E]; by apply octet_text in E).
  injection H as H0 H1 H2 H3.
  assert (forall i, to_string (octet a i) = to_string (octet b i) -> octet a i = octet b i) as Hi.
  { intros i. apply to_string_inj; apply octet_range. }
  apply octets_inj; auto.
Qed.

Lemma inet_ntoa_no_colon a : ":"%char ∉ inet_ntoa a.
Proof.
  unfold inet_ntoa. simpl. rewrite !elem_of_app, !elem_of_cons, !elem_of_app, !elem_of_cons,
    !elem_of_app, !elem_of_cons.
  pose proof (octet_text a 0) as (_ & _ & ?). pose proof (octet_text a 1) as (_ & _ & ?).
  pose proof (octet_text a 2) as (_ & _ & ?). pose proof (octet_text a 3) as (_ & _ & ?). intuition discriminate.
Qed.

(** Two strings cut at their first [c] are equal when their parts are. *)
Lemma app_sep_inj (c : ascii) (a b x y : bytes) :
  c ∉ a -> c ∉ b -> a ++ c :: x = b ++ c :: y -> a = b /\ x = y.
Proof.
  revert b. induction a as [|d a IH]; intros [|e b] Ha Hb H; simplify_eq/=; [done|set_solver..|].
  destruct (IH b) as [-> ->]; set_solver.
Qed.

(** ** Claims *)

(** [SetNonBlock] makes a descriptor non-blocking and keeps its other flags:
    when it succeeds it has read the flags [f] and written [f | O_NONBLOCK], and
    nothing else; when reading fails it returns the error without writing; it
    always returns (it waits for at most two answers). *)
Theorem set_nonblock_spec fd w :
  match SetNonBlock fd w with
  | Done ret t w' =>
      exists r1, t !! 0%nat = Some (c_fcntl_getfl fd, r1) /\
      if s32 (r_ret r1) <? 0 then ret = s32 (r_ret r1) /\ length t = 1%nat
      else exists r2, t = [(c_fcntl_getfl fd, r1);
                           (c_fcntl_setfl fd (Z.lor (s32 (r_ret r1)) O_NONBLOCK), r2)] /\
           ret = s32 (r_ret r2) /\
           Z.testbit (Z.lor (s32 (r_ret r1)) O_NONBLOCK) 11 = true /\
           forall i, i <> 11 ->
             Z.testbit (Z.lor (s32 (r_ret r1)) O_NONBLOCK) i = Z.testbit (s32 (r_ret r1)) i
  | Blocked t => (length (script w) < 2)%nat
  end.
Proof.
  destruct (SetNonBlock fd w) as [ret t w'|t] eqn:H; unfold SetNonBlock in H.
  - io_inv. destruct (s32 (r_ret a) <? 0) eqn:Hs; io_inv; exists a; rewrite Hs; [done|].
    split; [done|]. eexists. split; [done|]. split; [done|].
    change O_NONBLOCK with (2 ^ 11). split.
    + by rewrite Z.lor_spec, Z.pow2_bits_eqb, orb_true_r by lia.
    + intros i Hi. rewrite Z.lor_spec, Z.pow2_bits_eqb by lia.
      by rewrite (proj2 (Z.eqb_neq 11 i)), orb_false_r by congruence.
  - io_inv; [|destruct (s32 (r_ret a) <? 0); io_inv];
      repeat match goal with H : script _ = _ |- _ => rewrite H end; simpl; lia.
Qed.

(** The text of an address determines it: two addresses with 32-bit IP and
    16-bit port that [InetAddrToString] prints alike are the same, and so are
    two end points that [EndPoint::ToString] prints alike. *)
Theorem address_text_injective a b :
  0 <= sin_addr a < 2 ^ 32 -> 0 <= sin_addr b < 2 ^ 32 ->
  0 <= sin_port a < 2 ^ 16 -> 0 <= sin_port b < 2 ^ 16 ->
  (InetAddrToString a = InetAddrToString b -> a = b) /\
  (EndPoint_ToString (mkEndPoint (ip_of (sin_addr a)) (sin_port a)) =
   EndPoint_ToString (mkEndPoint (ip_of (sin_addr b)) (sin_port b)) -> a = b).
Proof.
  destruct a as [ia pa], b as [ib pb]. simpl. intros Ha Hb Hpa Hpb.
  pose proof (ntohs_range pa Hpa). pose proof (ntohs_range pb Hpb).
  unfold InetAddrToString, EndPoint_ToString, ntoa, af_inet_ip, ip_of. simpl.
  rewrite !(wrap_id 32) by (by rewrite ?wrap_id).
  split; intros H1; apply app_sep_inj in H1 as [H1 H2]; auto using inet_ntoa_no_colon;
    apply inet_ntoa_inj in H1; try done; apply to_string_inj in H2; try lia; subst;
    f_equal; auto using ntohs_inj.
Qed.

Lemma address_text_injective_witness :
  InetAddrToString (mkSockaddr 16777343 20480) = lit "127.0.0.1:80" /\
  (InetAddrToString (mkSockaddr 16777343 20480) = InetAddrToString (mkSockaddr 16777343 20480) ->
   mkSockaddr 16777343 20480 = mkSockaddr 16777343 20480).
Proof.
  split; [vm_compute; reflexivity|].
  apply (address_text_injective (mkSockaddr 16777343 20480) (mkSockaddr 16777343 20480));
    split; reflexivity || discriminate.
Defined.
