(* ===== verification/FrameIO.v ===== *)
(** * Socket calls of the scheduler: frame.cc, lines 141-401

    Each function is the loop of the source over the system call it wraps: it
    retries on [EINTR], waits for the descriptor on [EAGAIN] and gives up on any
    other error.  A wait ([World.wait]) is the block that [Frame.io_wait] models
    inside the scheduler: the coroutine is suspended and its [ev_res] is what
    libevent reported when it resumed. *)

From S2P Require Import Prelude World Network.

(** libevent's flags. *)
Definition EV_TIMEOUT : Z := 1.
Definition EV_READ : Z := 2.
Definition EV_WRITE : Z := 4.
Definition EV_CLOSED : Z := 128.

(** [if (x & flag)] *)
Definition has (x flag : Z) : bool := negb (Z.land x flag =? 0).

Definition would_block (e : Z) : bool := (e =? EAGAIN) || (e =? EWOULDBLOCK).

(** ** accept *)

Definition accept_body (sockfd : Z) (_ : unit) : IO (unit + (Z * sockaddr)) :=
  let* r := sys (c_accept sockfd) in
  let fd := s32 (r_ret r) in
  if fd <? 0 then
    let* e := get_errno in
    if e =? EINTR then io_ret (inl tt)
    else if would_block e then
      let* _ := wait sockfd EV_READ in io_ret (inl tt)
    else io_ret (inr (-1, r_addr r))
  else io_ret (inr (fd, r_addr r)).

Definition Frame_accept (sockfd : Z) : IO (Z * sockaddr) := loop (accept_body sockfd) tt.

(** ** connect *)

(** The [int] whose first bytes are [b], the rest zero. *)
Definition int_of_bytes (b : bytes) : Z :=
  s32 (foldr (fun c acc => Z.of_N (Ascii.N_of_ascii c) + 256 * acc) 0 (take 4 b)).

Definition connect_body (sockfd : Z) (addr : sockaddr) (_ : unit) : IO (unit + Z) :=
  let* r := sys (c_connect sockfd addr) in
  let ret := s32 (r_ret r) in
  if ret <? 0 then
    let* e := get_errno in
    if e =? EINTR then io_ret (inl tt)
    else if (EINPROGRESS =? e) || (EADDRINUSE =? e) then
      let* ev_res := wait sockfd (Z.lor EV_WRITE EV_READ) in
      if has ev_res EV_TIMEOUT then io_ret (inr (-1))
      else if negb (ev_res =? EV_WRITE) then io_ret (inr (-1))
      else
        (* [int err = 0, n = 0]: the length passed is 0 *)
        let* g := sys (c_getsockopt sockfd SOL_SOCKET SO_ERROR 0) in
        if s32 (r_ret g) <? 0 then io_ret (inr (-1))
        else
          let err := int_of_bytes (r_data g) in
          if negb (err =? 0) then let* _ := set_errno err in io_ret (inr (-1))
          else io_ret (inr 0)
    else io_ret (inr (-1))
  else io_ret (inr 0).

Definition Frame_connect (sockfd : Z) (addr : sockaddr) : IO Z := loop (connect_body sockfd addr) tt.

(** ** send *)

Definition send_body (sockfd : Z) (buf : bytes) (nsend : Z) : IO (Z + Z) :=
  if nsend <? blen buf then
    let* r := sys (c_send sockfd (drop (Z.to_nat nsend) buf) 0) in
    let ret := s32 (r_ret r) in
    let nsend := if 0 <? ret then u64 (nsend + ret) else nsend in
    let* e := get_errno in
    if (ret <? 0) && (e =? EINTR) then io_ret (inl nsend)
    else if (ret <? 0) && would_block e then
      let* ev_res := wait sockfd EV_WRITE in
      if has ev_res EV_TIMEOUT then io_ret (inr (-2))
      else if has ev_res EV_WRITE then io_ret (inl nsend)
      else io_ret (inr (-1))
    else if ret <? 0 then io_ret (inr (-1))
    else if ret =? 0 then io_ret (inr 0)
    else io_ret (inl nsend)
  else io_ret (inr (s32 nsend)).

Definition Frame_send (sockfd : Z) (buf : bytes) (flags : Z) : IO Z := loop (send_body sockfd buf) 0.

(** ** recv *)

(** The result and the bytes stored at the start of the caller's buffer. *)
Definition recv_body (sockfd len flags : Z) (_ : unit) : IO (unit + (Z * bytes)) :=
  let* r := sys (c_recv sockfd len flags) in
  let ret := s32 (r_ret r) in
  if 0 <? ret then io_ret (inr (ret, r_data r))
  else if ret =? 0 then io_ret (inr (0, []))
  else
    let* e := get_errno in
    if e =? EINTR then io_ret (inl tt)
    else if would_block e then
      let* ev_res := wait sockfd (Z.lor EV_READ EV_CLOSED) in
      if has ev_res EV_TIMEOUT then io_ret (inr (-2, []))
      else if has ev_res EV_CLOSED then io_ret (inr (0, []))
      else if has ev_res EV_READ then io_ret (inl tt)
      else io_ret (inr (ret, []))
    else io_ret (inr (ret, [])).

Definition Frame_recv (sockfd len flags : Z) : IO (Z * bytes) := loop (recv_body sockfd len flags) tt.

(** ** sendto and recvfrom *)

Definition Frame_sendto (sockfd : Z) (buf : bytes) (flags : Z) (dest : sockaddr) : IO Z :=
  let* r := sys (c_sendto sockfd buf flags dest) in io_ret (s32 (r_ret r)).

(** The [ret] inside the loop hides the outer one, which stays 0 and is what the
    function returns after the loop.  The result, the stored bytes and the
    source address. *)
Definition recvfrom_body (sockfd len : Z) (_ : unit) : IO (unit + (Z * bytes * sockaddr)) :=
  let* r := sys (c_recvfrom sockfd len 0) in
  let ret := s32 (r_ret r) in
  if 0 <? ret then io_ret (inr (ret, r_data r, r_addr r))
  else if ret =? 0 then io_ret (inr (0, [], r_addr r))
  else
    let* e := get_errno in
    if e =? EINTR then io_ret (inl tt)
    else if would_block e then
      let* ev_res := wait sockfd (Z.lor EV_READ EV_CLOSED) in
      if has ev_res EV_TIMEOUT then io_ret (inr (-2, [], r_addr r))
      else if has ev_res EV_CLOSED then io_ret (inr (0, [], r_addr r))
      else if has ev_res EV_READ then io_ret (inl tt)
      else io_ret (inr (0, [], r_addr r))
    else io_ret (inr (0, [], r_addr r)).

Definition Frame_recvfrom (sockfd len flags : Z) : IO (Z * bytes * sockaddr) :=
  loop (recvfrom_body sockfd len) tt.

(** ** One request, one answer *)

(** The result and the new contents of [recvbuf]; the socket is never closed. *)
Definition UdpSendAndRecv (sendbuf : bytes) (dest : sockaddr) (recvbuf : bytes) : IO (Z * bytes) :=
  let* s := sys (c_socket SOCK_DGRAM) in
  let fd := s32 (r_ret s) in
  let* ret := SetNonBlock fd in
  if ret <? 0 then io_ret (-1, recvbuf)
  else
    let* ret := Frame_sendto fd sendbuf 0 dest in
    if ret <? 0 then io_ret (-1, recvbuf)
    else
      let* a := Frame_recvfrom fd 65536 0 in
      let ret := s32 (fst (fst a)) in
      if ret <? 0 then io_ret (-2, recvbuf)
      else if 0 <? ret then io_ret (0, snd (fst a))
      else io_ret (0, recvbuf).

(** The base class: every buffer is complete. *)
Definition IsCompleteBase_CheckPkg (buffer : bytes) (buffer_len : Z) : Z := 0.

Section tcp.
(** [IsCompleteBase::CheckPkg] of the caller's object. *)
Context (CheckPkg : bytes -> Z -> Z).

(** The loop state: [nsend]. *)
Definition tcp_send_body (fd : Z) (sendbuf : bytes) (nsend : Z) : IO (Z + option Z) :=
  if u64 nsend =? blen sendbuf then
    let* ret := Frame_send fd (drop (Z.to_nat nsend) sendbuf) 0 in
    let nsend := if 0 <? ret then s32 (nsend + ret) else nsend in
    let* e := get_errno in
    if (ret <? 0) && would_block e then io_ret (inl nsend)
    else if ret <? 0 then io_ret (inr (Some (-1)))
    else if ret =? 0 then io_ret (inr (Some (-1)))
    else io_ret (inl nsend)
  else io_ret (inr None).

(** Every part is stored at the start of the buffer: [recvbuf] is not advanced.
    The loop state: the buffer and [recvd]. *)
Definition tcp_recv_body (fd recvlen : Z) (s : bytes * Z) : IO (bytes * Z + (Z * bytes * Z)) :=
  let* a := Frame_recv fd recvlen 0 in
  let ret := fst a in
  if 0 <? ret then
    let recvbuf := snd a ++ drop (length (snd a)) (fst s) in
    let recvd := u64 (snd s + ret) in
    if CheckPkg recvbuf recvd =? 0 then io_ret (inr (0, recvbuf, recvd))
    else io_ret (inl (recvbuf, recvd))
  else if ret =? 0 then io_ret (inr (-2, fst s, recvlen))
  else
    let* e := get_errno in
    if (ret <? 0) && would_block e then io_ret (inl s)
    else io_ret (inr (-2, fst s, recvlen)).

(** The result, the contents of [recvbuf] and [*recvlen]. *)
Definition TcpSendAndRecv (sendbuf recvbuf : bytes) (recvlen : Z) : IO (Z * bytes * Z) :=
  let* s := sys (c_socket SOCK_DGRAM) in
  let fd := s32 (r_ret s) in
  let* ret := SetNonBlock fd in
  if ret <? 0 then io_ret (-1, recvbuf, recvlen)
  else
    let* r := loop (tcp_send_body fd sendbuf) 0 in
    match r with
    | Some code => io_ret (code, recvbuf, recvlen)
    | None => loop (tcp_recv_body fd recvlen) (recvbuf, 0)
    end.

End tcp.

(** ** The loops make progress *)

Ltac productive_tac :=
  split; [intros; sane_tac|];
  intros ? ? ? ? ? H;
  repeat match type of H with (if ?b then _ else _) _ = _ => destruct b eqn:? end;
  io_inv; discriminate.

Lemma accept_productive fd : productive (accept_body fd).
Proof. unfold accept_body. productive_tac. Qed.

Lemma connect_productive fd addr : productive (connect_body fd addr).
Proof. unfold connect_body. productive_tac. Qed.

Lemma send_productive fd buf : productive (send_body fd buf).
Proof. unfold send_body. productive_tac. Qed.

Lemma recv_productive fd len flags : productive (recv_body fd len flags).
Proof. unfold recv_body. productive_tac. Qed.

Lemma recvfrom_productive fd len : productive (recvfrom_body fd len).
Proof. unfold recvfrom_body. productive_tac. Qed.

#[export] Hint Resolve accept_productive connect_productive send_productive recv_productive
  recvfrom_productive : tinyco.

Lemma sane_Frame_accept fd : sane (Frame_accept fd).
Proof. unfold Frame_accept. auto with tinyco. Qed.
Lemma sane_Frame_connect fd addr : sane (Frame_connect fd addr).
Proof. unfold Frame_connect. auto with tinyco. Qed.
Lemma sane_Frame_send fd buf flags : sane (Frame_send fd buf flags).
Proof. unfold Frame_send. auto with tinyco. Qed.
Lemma sane_Frame_recv fd len flags : sane (Frame_recv fd len flags).
Proof. unfold Frame_recv. auto with tinyco. Qed.
Lemma sane_Frame_sendto fd buf flags dest : sane (Frame_sendto fd buf flags dest).
Proof. unfold Frame_sendto. sane_tac. Qed.
Lemma sane_Frame_recvfrom fd len flags : sane (Frame_recvfrom fd len flags).
Proof. unfold Frame_recvfrom. auto with tinyco. Qed.

#[export] Hint Resolve sane_Frame_accept sane_Frame_connect sane_Frame_send sane_Frame_recv
  sane_Frame_sendto sane_Frame_recvfrom : tinyco.

(** ** What the documentation of the calls promises *)

(** [send] and [sendto] accept at most the bytes they are given, [recv] and
    [recvfrom] store exactly the bytes they report, at most [len];
    [getsockopt] stores at most [len] bytes; results are [int]s, -1 on error. *)
Definition os_ok (e : io_event) : Prop :=
  let '(c, r) := e in
  match c with
  | c_send _ b _ | c_sendto _ b _ _ => -1 <= r_ret r <= blen b
  | c_recv _ len _ | c_recvfrom _ len _ =>
      -1 <= r_ret r <= len /\ blen (r_data r) = Z.max 0 (r_ret r)
  | c_getsockopt _ _ _ len => blen (r_data r) <= len
  | c_socket _ | c_accept _ | c_connect _ _ => -1 <= r_ret r < 2 ^ 31
  | _ => True
  end.

(** The bytes that the kernel took on [fd]. *)
Definition taken (fd : Z) (e : io_event) : bytes :=
  match e with
  | (c_send fd' b _, r) => if fd' =? fd then take (Z.to_nat (r_ret r)) b else []
  | _ => []
  end.
Definition sent (fd : Z) (t : io_trace) : bytes := concat (map (taken fd) t).

Lemma sent_app fd t u : sent fd (t ++ u) = sent fd t ++ sent fd u.
Proof. unfold sent. by rewrite map_app, concat_app. Qed.

(** An answer that makes the send loop go on: some bytes were taken, or the call
    was interrupted, or it would have blocked and the descriptor is writable. *)
Definition send_goes_on (fd : Z) (e : io_event) : Prop :=
  match e with
  | (c_send fd' _ _, r) => fd' = fd /\ (0 < r_ret r \/ r_ret r < 0)
  | (c_wait fd' evs, r) => fd' = fd /\ evs = EV_WRITE /\ has (r_ret r) EV_WRITE = true
  | _ => False
  end.

Definition only_on_send (fd : Z) (e : io_event) : Prop :=
  match e with
  | (c_send fd' _ fl, _) => fd' = fd /\ fl = 0
  | (c_wait fd' evs, _) => fd' = fd /\ evs = EV_WRITE
  | _ => False
  end.

Lemma drop_drop_take (b : bytes) (n m : nat) :
  take n b ++ take m (drop n b) = take (n + m) b.
Proof. by rewrite <- take_take_drop. Qed.

Section send_facts.
Context (fd : Z) (buf : bytes).
Hypothesis Hlen : blen buf < 2 ^ 31.

Definition send_I (nsend : Z) (acc : io_trace) : Prop :=
  0 <= nsend <= blen buf /\ sent fd acc = take (Z.to_nat nsend) buf /\
  Forall (only_on_send fd) acc /\ Forall (send_goes_on fd) acc.

Definition send_Q (ret : Z) (t : io_trace) : Prop :=
  Forall (only_on_send fd) t /\
  exists n, 0 <= n <= blen buf /\ sent fd t = take (Z.to_nat n) buf /\
    ((n = blen buf /\ ret = blen buf) \/
     (n < blen buf /\ (ret = 0 \/ ret = -1 \/ ret = -2))).

Definition send_B (t : io_trace) : Prop :=
  Forall (only_on_send fd) t /\ Forall (send_goes_on fd) t /\
  exists n, 0 <= n < blen buf /\ sent fd t = take (Z.to_nat n) buf.

(** One accepted call of [send] after [nsend] bytes. *)
Lemma taken_step nsend r :
  0 <= nsend < blen buf -> os_ok (c_send fd (drop (Z.to_nat nsend) buf) 0, r) ->
  s32 (r_ret r) = r_ret r /\ nsend + r_ret r <= blen buf /\
  take (Z.to_nat nsend) buf ++ sent fd [(c_send fd (drop (Z.to_nat nsend) buf) 0, r)] =
  take (Z.to_nat (nsend + Z.max 0 (r_ret r))) buf.
Proof.
  intros Hn Hok. simpl in Hok. unfold blen in *. rewrite length_drop in Hok.
  split; [apply s32_id; lia|]. split; [lia|].
  unfold sent. simpl. rewrite Z.eqb_refl, app_nil_r, drop_drop_take.
  f_equal. lia.
Qed.

(** Only the first call of an iteration can hand bytes over. *)
Lemma sent_wait r v u :
  sent fd [(c_send fd u 0, r); (c_wait fd EV_WRITE, v)] = sent fd [(c_send fd u 0, r)].
Proof. by unfold sent. Qed.

(** The shape of an iteration that goes on. *)
Lemma send_continue s w s' t w' :
  send_body fd buf s w = Done (inl s') t w' ->
  s < blen buf /\ exists r,
  let ev := (c_send fd (drop (Z.to_nat s) buf) 0, r) in
  (t = [ev] /\ (s32 (r_ret r) < 0 /\ s' = s \/ 0 < s32 (r_ret r) /\ s' = u64 (s + s32 (r_ret r)))) \/
  (s32 (r_ret r) < 0 /\ s' = s /\
   exists v, t = [ev; (c_wait fd EV_WRITE, v)] /\ has (r_ret v) EV_WRITE = true).
Proof.
  unfold send_body. intros H. destruct (Z.ltb_spec s (blen buf)); [|io_inv; done].
  split; [done|]. io_inv. exists a.
  repeat (split_match_in H; io_inv; simplify_eq/=); zbool; try lia; eauto 10.
Qed.

(** The shape of the last iteration. *)
Lemma send_exit s w ret t w' :
  send_body fd buf s w = Done (inr ret) t w' ->
  (blen buf <= s /\ t = [] /\ ret = s32 s) \/
  (s < blen buf /\ exists r,
   let ev := (c_send fd (drop (Z.to_nat s) buf) 0, r) in
   s32 (r_ret r) <= 0 /\ (ret = 0 \/ ret = -1 \/ ret = -2) /\
   (t = [ev] \/ exists v, t = [ev; (c_wait fd EV_WRITE, v)])).
Proof.
  unfold send_body. intros H. destruct (Z.ltb_spec s (blen buf)); [|io_inv; simplify_eq; auto].
  right. split; [done|]. io_inv. exists a.
  repeat (split_match_in H; io_inv; simplify_eq/=); zbool; try lia; split_and!; eauto; lia.
Qed.

(** The shape of an iteration that is still waiting. *)
Lemma send_waits s w t :
  send_body fd buf s w = Blocked t ->
  s < blen buf /\ (t = [] \/ exists r, s32 (r_ret r) < 0 /\
    t = [(c_send fd (drop (Z.to_nat s) buf) 0, r)]).
Proof.
  unfold send_body. intros H. destruct (Z.ltb_spec s (blen buf)); [|io_inv; done].
  split; [done|]. io_inv; [by left|]. right. exists a.
  repeat (split_match_in H; io_inv; simplify_eq/=); zbool; try lia; eauto.
Qed.

Lemma send_loop_spec flags w :
  match Frame_send fd buf flags w with
  | Done ret t _ => Forall os_ok t -> send_Q ret t
  | Blocked t => Forall os_ok t -> send_B t
  end.
Proof using Hlen.
  apply (loop_inv _ (send_productive fd buf) os_ok send_I send_Q send_B) with (acc := []).
  - intros s acc w0 s' t w' (Hs & Hsent & Hon & Hgo) (Hlt & r & Hc)%send_continue Hok.
    assert (Hok1 : os_ok (c_send fd (drop (Z.to_nat s) buf) 0, r)).
    { by destruct Hc as [[-> _]|(_ & _ & v & -> & _)]; inversion Hok. }
    destruct (taken_step s r) as (Hr & Hb & Htk); [lia|done|]. rewrite Hr in Hc.
    destruct Hc as [[-> Hc]|(Hneg & -> & v & -> & Hv)].
    + assert (s' = s + Z.max 0 (r_ret r)).
      { destruct Hc as [[? ->]|[? ->]]; [lia|]. rewrite wrap_id; unfold blen in *; lia. }
      unfold send_I. rewrite sent_app, Hsent, Htk, !Forall_app. subst s'.
      rewrite !Forall_singleton. simpl. split; [lia|]. split; [done|]. split; split; [done..|].
      split; [done|lia].
    + unfold send_I. rewrite sent_app, sent_wait, Hsent, Htk, !Forall_app, Z.max_l, Z.add_0_r by lia.
      rewrite !Forall_cons, !Forall_nil. simpl. split; [lia|]. split; [done|].
      split_and!; auto; lia.
  - intros s acc w0 ret t w' (Hs & Hsent & Hon & Hgo) Hx%send_exit Hok.
    destruct Hx as [(Hge & -> & ->)|(Hlt & r & Hr0 & Hret & Ht)].
    + rewrite app_nil_r. split; [done|]. exists s. rewrite s32_id by (unfold blen in *; lia).
      split; [done|]. split; [done|]. left. lia.
    + assert (Hok1 : os_ok (c_send fd (drop (Z.to_nat s) buf) 0, r)).
      { by destruct Ht as [->|[v ->]]; inversion Hok. }
      destruct (taken_step s r) as (Hr & Hb & Htk); [lia|done|]. rewrite Hr in Hr0.
      rewrite Z.max_l, Z.add_0_r in Htk by lia.
      split; [rewrite Forall_app; split; [done|]; by destruct Ht as [->|[v ->]]; repeat constructor|].
      exists s. split; [done|]. split; [|by right].
      by destruct Ht as [->|[v ->]]; rewrite sent_app, ?sent_wait, Hsent.
  - intros s acc w0 t (Hs & Hsent & Hon & Hgo) (Hlt & Ht)%send_waits Hok.
    destruct Ht as [->|(r & Hneg & ->)].
    + rewrite app_nil_r. split; [done|]. split; [done|]. exists s. split; [lia|done].
    + destruct (taken_step s r) as (Hr & Hb & Htk); [lia|by inversion Hok|].
      rewrite Hr in Hneg. rewrite Z.max_l, Z.add_0_r in Htk by lia.
      unfold send_B. rewrite !Forall_app, sent_app, Hsent.
      split; [split; [done|by repeat constructor]|].
      rewrite Forall_singleton. simpl.
      split; [split; [done|split; [done|lia]]|]. exists s. split; [lia|done].
  - split; [pose proof (blen_nonneg buf); lia|]. split; [done|]. by split.
Qed.

End send_facts.

(** ** recv, accept, connect, recvfrom: shapes of an iteration *)

(** The bytes that the kernel delivered on [fd]. *)
Definition delivered (fd : Z) (e : io_event) : bytes :=
  match e with
  | (c_recv fd' _ _, r) | (c_recvfrom fd' _ _, r) => if fd' =? fd then r_data r else []
  | _ => []
  end.
Definition received (fd : Z) (t : io_trace) : bytes := concat (map (delivered fd) t).

Lemma received_app fd t u : received fd (t ++ u) = received fd t ++ received fd u.
Proof. unfold received. by rewrite map_app, concat_app. Qed.

(** The call failed with an [errno] that [again] accepts. *)
Definition failed (again : Z -> bool) (r : resp) : Prop :=
  s32 (r_ret r) < 0 /\ (r_ret r < 0 -> again (r_errno r) = true).

(** The call failed with an [errno] that [again] does not accept. *)
Definition hard (again : Z -> bool) (r : resp) : Prop :=
  s32 (r_ret r) < 0 /\ (r_ret r < 0 -> again (r_errno r) = false).

(** A failed attempt of call [c], or a wait for [fd]. *)
Definition retry (c : syscall) (fd evs : Z) (again : Z -> bool) (e : io_event) : Prop :=
  e.1 = c /\ failed again e.2 \/ e.1 = c_wait fd evs.

Definition again (e : Z) : bool := (e =? EINTR) || would_block e.

(** Every iteration of a retry loop starts with call [c] and ends, waits for [fd]
    or goes round again; the result satisfies [fin], of the answer and of what
    the wait reported, if there was one. *)
Definition retries {R} (c : syscall) (fd evs : Z) (fin : resp -> option Z -> R -> Prop)
    (body : unit -> IO (unit + R)) : Prop :=
  productive body /\
  (forall w t w', body tt w = Done (inl tt) t w' ->
     exists r, failed again r /\ (t = [(c, r)] \/ exists v, t = [(c, r); (c_wait fd evs, v)])) /\
  (forall w x t w', body tt w = Done (inr x) t w' ->
     exists r, t = [(c, r)] /\ fin r None x \/
     exists v, failed again r /\ t = [(c, r); (c_wait fd evs, v)] /\ fin r (Some (r_ret v)) x) /\
  (forall w t, body tt w = Blocked t -> t = [] \/ exists r, failed again r /\ t = [(c, r)]).

(** A retry loop fails or waits any number of times and then ends. *)
Definition retry_result {R} (c : syscall) (fd evs : Z) (fin : resp -> option Z -> R -> Prop)
    (x : R) (t : io_trace) : Prop :=
  exists t0 r, Forall (retry c fd evs again) t0 /\
    (t = t0 ++ [(c, r)] /\ fin r None x \/
     exists v, failed again r /\ t = t0 ++ [(c, r); (c_wait fd evs, v)] /\ fin r (Some (r_ret v)) x).

Lemma retries_loop {R} c fd evs (fin : resp -> option Z -> R -> Prop) body w :
  retries c fd evs fin body ->
  match loop body tt w with
  | Done x t _ => retry_result c fd evs fin x t
  | Blocked t => Forall (retry c fd evs again) t
  end.
Proof.
  intros (Hp & Hstep & Hexit & Hblock).
  pose proof (loop_inv body Hp (fun _ => True) (fun _ => Forall (retry c fd evs again))
    (retry_result c fd evs fin) (Forall (retry c fd evs again))) as H.
  assert (Htriv : forall t : io_trace, Forall (fun _ => True) t) by (intros; by apply Forall_true).
  assert (Hc : forall r, failed again r -> retry c fd evs again (c, r)) by (by left).
  assert (Hw : forall v, retry c fd evs again (c_wait fd evs, v)) by (by right).
  specialize (H ltac:(intros [] ??[]??? (r & ? & [->|[v ->]])%Hstep ?; rewrite Forall_app; eauto)).
  specialize (H ltac:(unfold retry_result; intros [] ??????
    (r & [[-> ?]|(v & ? & -> & ?)])%Hexit ?; eauto 10)).
  specialize (H ltac:(intros [] ???? [->|(r & ? & ->)]%Hblock ?; rewrite Forall_app; eauto)).
  specialize (H tt [] w ltac:(constructor)). simpl in H.
  destruct (loop body tt w); auto.
Qed.

(** Prove that a concrete body is a retry loop: [errno] after a failed call is the
    one of its answer. *)
Ltac retries_tac :=
  split_and!; intros; io_inv;
  repeat match goal with
  | H : (if ?b then _ else _) _ = _ |- _ => destruct b eqn:?; io_inv; simplify_eq/=
  end;
  rewrite ?Z.ltb_lt, ?Z.ltb_ge in *;
  repeat match goal with
  | H : (s32 ?x =? 0) = true |- _ => apply Z.eqb_eq in H
  | H : (s32 ?x =? 0) = false, H' : s32 ?x <= 0 |- _ =>
      apply Z.eqb_neq in H; assert (s32 x < 0) by lia; clear H H'
  end;
  eauto 10 with tinyco;
  try (eexists; right; eexists; split_and!; [eauto with tinyco|done|..];
       by repeat match goal with H : has _ _ = _ |- _ => rewrite H; clear H end).

(** The [errno] that a failed call left behind was one to try again. *)
Lemma failed_intro r w w' :
  s32 (r_ret r) < 0 -> errno w' = (if r_ret r <? 0 then r_errno r else errno w) ->
  again (errno w') = true -> failed again r.
Proof. intros Hr -> Ha. split; [done|]. intros Hn. zbool; [done|lia]. Qed.

Lemma hard_intro r w w' :
  s32 (r_ret r) < 0 -> errno w' = (if r_ret r <? 0 then r_errno r else errno w) ->
  (errno w' =? EINTR) = false -> would_block (errno w') = false -> hard again r.
Proof.
  intros Hr -> Hi Hb. split; [done|]. intros Hn. unfold again.
  destruct (Z.ltb_spec (r_ret r) 0); [by rewrite Hi, Hb|lia].
Qed.

Lemma again_intr e : (e =? EINTR) = true -> again e = true.
Proof. unfold again. by intros ->. Qed.
Lemma again_block e : would_block e = true -> again e = true.
Proof. unfold again. intros ->. apply orb_true_r. Qed.

#[export] Hint Resolve failed_intro hard_intro again_intr again_block : tinyco.

(** How [Frame::accept] ends. *)
Definition accept_fin (r : resp) (o : option Z) (x : Z * sockaddr) : Prop :=
  o = None /\ x.2 = r_addr r /\
  (0 <= s32 (r_ret r) /\ x.1 = s32 (r_ret r) \/ hard again r /\ x.1 = -1).

Lemma accept_retries fd : retries (c_accept fd) fd EV_READ accept_fin (accept_body fd).
Proof.
  split; [apply accept_productive|]. unfold accept_body, accept_fin. retries_tac.
Qed.

(** How [Frame::recv] and [Frame::recvfrom] end; [err] is what they return for a
    hard error or a wait that reports nothing they asked for. *)
Definition recv_fin (err : resp -> Z) (r : resp) (o : option Z) (x : Z * bytes) : Prop :=
  match o with
  | None => 0 < s32 (r_ret r) /\ x = (s32 (r_ret r), r_data r) \/
            s32 (r_ret r) = 0 /\ x = (0, []) \/ hard again r /\ x = (err r, [])
  | Some v => x = (if has v EV_TIMEOUT then -2 else if has v EV_CLOSED then 0 else err r, [])
  end.

Abbreviation EV_RC := (Z.lor EV_READ EV_CLOSED).

Lemma recv_retries fd len flags :
  retries (c_recv fd len flags) fd EV_RC (recv_fin (fun r => s32 (r_ret r))) (recv_body fd len flags).
Proof.
  split; [apply recv_productive|]. unfold recv_body, recv_fin. retries_tac.
Qed.

Lemma recvfrom_retries fd len :
  retries (c_recvfrom fd len 0) fd EV_RC
    (fun r o x => recv_fin (fun _ => 0) r o x.1 /\ x.2 = r_addr r) (recvfrom_body fd len).
Proof.
  split; [apply recvfrom_productive|]. unfold recvfrom_body, recv_fin. retries_tac.
Qed.

Lemma Frame_recv_calls fd len flags w x t w' : Frame_recv fd len flags w = Done x t w' -> t <> [].
Proof.
  intros E. pose proof (retries_loop _ _ _ _ _ w (recv_retries fd len flags)) as H.
  change (loop (recv_body fd len flags) tt w) with (Frame_recv fd len flags w) in H.
  rewrite E in H. destruct H as (t0 & r & _ & [[-> _]|(v & _ & -> & _)]); by destruct t0.
Qed.

Lemma tcp_recv_productive CheckPkg fd recvlen : productive (tcp_recv_body CheckPkg fd recvlen).
Proof.
  unfold tcp_recv_body. split; [intros; sane_tac|]. intros s w s' t w' H. io_inv.
  match goal with H : Frame_recv _ _ _ _ = _ |- _ => apply Frame_recv_calls in H end.
  by destruct t0.
Qed.
