(* ===== verification/FrameIOProps.v ===== *)
(** * Properties of the socket calls

    For every behaviour of the operating system that its documentation allows
    ([os_ok]): what the callers of [Frame::send], [recv], [accept], [connect],
    [recvfrom], [UdpSendAndRecv] and [TcpSendAndRecv] can rely on, what the
    result tells, and when a call does not return. *)

From S2P Require Import Prelude World Network FrameIO.

(** ** A small operating system for the witnesses *)

Definition answer (ret err : Z) (data : bytes) : resp := mkResp ret err data (mkSockaddr 0 0).
Definition os (l : list resp) : world := mkWorld l 0.

(** ** send *)

(** C18: [Frame::send] hands the buffer over in order, all of it or a proper
    prefix: it returns the length of the buffer exactly when the kernel took the
    whole buffer, and 0, -1 or -2 only when some byte was not taken.  All its
    calls are on [sockfd].  It fails to return only while the descriptor keeps
    answering "interrupted", "would block, then writable" or takes bytes without
    reaching the end. *)
Theorem frame_send_delivers fd buf flags w :
  blen buf < 2 ^ 31 ->
  match Frame_send fd buf flags w with
  | Done ret t w' =>
      Forall os_ok t ->
      Forall (only_on_send fd) t /\
      exists n, 0 <= n <= blen buf /\ sent fd t = take (Z.to_nat n) buf /\
        ((n = blen buf /\ ret = blen buf) \/
         (n < blen buf /\ (ret = 0 \/ ret = -1 \/ ret = -2)))
  | Blocked t =>
      Forall os_ok t ->
      script w = t.*2 /\ Forall (send_goes_on fd) t /\
      exists n, 0 <= n < blen buf /\ sent fd t = take (Z.to_nat n) buf
  end.
Proof.
  intros Hlen. pose proof (send_loop_spec fd buf Hlen flags w) as H.
  destruct (Frame_send fd buf flags w) as [ret t w'|t] eqn:E; [exact H|].
  intros Hok. destruct (H Hok) as (_ & ? & ?).
  split; [eapply sane_blocked; [apply sane_Frame_send|exact E]|done].
Qed.

(** Two bytes, a full socket buffer, the third byte. *)
Lemma frame_send_delivers_witness :
  blen (lit "abc") < 2 ^ 31 /\
  match Frame_send 7 (lit "abc") 0
    (os [answer 2 0 []; answer (-1) EAGAIN []; answer EV_WRITE 0 []; answer 1 0 []]) with
  | Done ret t w' =>
      ret = 3 /\ sent 7 t = lit "abc" /\
      (Forall os_ok t -> Forall (only_on_send 7) t /\
      exists n, 0 <= n <= blen (lit "abc") /\ sent 7 t = take (Z.to_nat n) (lit "abc") /\
        ((n = blen (lit "abc") /\ ret = blen (lit "abc")) \/
         (n < blen (lit "abc") /\ (ret = 0 \/ ret = -1 \/ ret = -2))))
  | Blocked t => False
  end.
Proof.
  split; [reflexivity|].
  pose proof (frame_send_delivers 7 (lit "abc") 0
    (os [answer 2 0 []; answer (-1) EAGAIN []; answer EV_WRITE 0 []; answer 1 0 []]) eq_refl) as H.
  match goal with |- context [Frame_send ?a ?b ?c ?d] => io_run (Frame_send a b c d) end.
  split; [reflexivity|]. split; [reflexivity|]. exact H.
Defined.

(** ** Termination of send *)

(** Among any [k] consecutive events there is one with [P]. *)
Definition every {A} (k : nat) (P : A -> Prop) (t : list A) : Prop :=
  forall t1 t2 t3, t = t1 ++ t2 ++ t3 -> length t2 = k -> Exists P t2.

Lemma sent_progress fd t : Exists (fun e => taken fd e <> []) t -> sent fd t <> [].
Proof.
  induction 1 as [e t He|e t _ IH]; unfold sent in *; simpl; intros [??]%app_eq_nil; auto.
Qed.

Lemma every_progress fd k t n :
  every k (fun e => taken fd e <> []) t -> (k * n <= length t)%nat -> (n <= length (sent fd t))%nat.
Proof.
  revert t. induction n as [|n IH]; intros t Ht Hlen; [lia|].
  rewrite <- (take_drop k t), sent_app, length_app.
  assert (H1 : (0 < length (sent fd (take k t)))%nat).
  { destruct (sent fd (take k t)) eqn:E; [|simpl; lia]. exfalso. revert E. apply sent_progress.
    apply (Ht [] _ (drop k t)); [by rewrite app_nil_l, take_drop|]. rewrite length_take. lia. }
  enough (n <= length (sent fd (drop k t)))%nat by lia. apply IH; [|rewrite length_drop; lia].
  intros t1 t2 t3 E. apply (Ht (take k t ++ t1) t2 t3). by rewrite <- app_assoc, <- E, take_drop.
Qed.

(** C20: [Frame::send] terminates: if among any [k] consecutive calls the kernel takes
    at least one byte, the loop makes less than [k * (length + 1)] calls, and it has
    returned once the environment has given [k * length] answers. *)
Theorem frame_send_terminates fd buf flags w k :
  blen buf < 2 ^ 31 ->
  let o := Frame_send fd buf flags w in
  let t := match o with Done _ t _ | Blocked t => t end in
  Forall os_ok t -> every k (fun e => taken fd e <> []) t -> (0 < k)%nat ->
  Z.of_nat (length t) < Z.of_nat k * (blen buf + 1) /\
  (Z.of_nat k * blen buf <= Z.of_nat (length (script w)) -> exists ret w', o = Done ret t w').
Proof.
  intros Hlen o t Hok Hev Hk. pose proof (send_loop_spec fd buf Hlen flags w) as H.
  assert (Hbound : forall n, 0 <= n -> sent fd t = take (Z.to_nat n) buf ->
    Z.of_nat (length t) < Z.of_nat k * (n + 1)).
  { intros n Hn Hs. pose proof (every_progress fd k t (Z.to_nat n + 1) Hev) as Hp.
    rewrite Hs, length_take in Hp. nia. }
  subst o t. destruct (Frame_send fd buf flags w) as [ret t w'|t] eqn:E.
  - destruct (H Hok) as (_ & n & Hn & Hs & _). split; [|eauto].
    specialize (Hbound n ltac:(lia) Hs). nia.
  - destruct (H Hok) as (_ & _ & n & Hn & Hs). specialize (Hbound n ltac:(lia) Hs). split; [nia|].
    intros Hl. exfalso. apply sane_blocked in E; [|apply sane_Frame_send]. rewrite E, length_fmap in Hl. nia.
Qed.

(** Every second call takes a byte: the fourth answer is the end of three bytes. *)
Lemma frame_send_terminates_witness :
  let w := os [answer 2 0 []; answer (-1) EINTR []; answer 1 0 []; answer 0 0 []; answer 0 0 []; answer 0 0 []] in
  exists ret t w', Frame_send 7 (lit "abc") 0 w = Done ret t w'.
Proof.
  intros w. pose proof (frame_send_terminates 7 (lit "abc") 0 w 2 eq_refl) as H. cbv zeta in H.
  assert (E : exists t w', Frame_send 7 (lit "abc") 0 w = Done 3 t w' /\
    t = [(c_send 7 (lit "abc") 0, answer 2 0 []); (c_send 7 (lit "c") 0, answer (-1) EINTR []);
         (c_send 7 (lit "c") 0, answer 1 0 [])]).
  { eexists _, _. split; [vm_compute; reflexivity|reflexivity]. }
  destruct E as (t & w' & E & ->). rewrite E in H.
  destruct (proj2 (H ltac:(repeat constructor; discriminate)
    ltac:(intros [|a [|b [|c [|? t1]]]] [|? [|? [|? t2]]] t3 Ht Hl; try discriminate Hl; try discriminate Ht;
          simplify_eq/=; first [by left|by right; left|idtac]; destruct t1; discriminate) ltac:(lia))
    ltac:(discriminate)) as (ret & w2 & E2).
  rewrite E. do 3 eexists. exact E2.
Defined.

(** ** recv *)

Section receiving.
Context (fd len : Z) (c : syscall).
Hypothesis Hc : (exists fl, c = c_recv fd len fl) \/ c = c_recvfrom fd len 0.
Hypothesis Hlen : len < 2 ^ 31.

Lemma recv_answer r :
  os_ok (c, r) -> s32 (r_ret r) = r_ret r /\ -1 <= r_ret r <= len /\
  received fd [(c, r)] = r_data r /\ blen (r_data r) = Z.max 0 (r_ret r).
Proof using Hc Hlen.
  intros Ho. unfold received.
  assert (Hr : -1 <= r_ret r <= len /\ blen (r_data r) = Z.max 0 (r_ret r)).
  { by destruct Hc as [[fl ->]| ->]. }
  split; [apply s32_id; lia|]. split; [lia|]. split; [|lia].
  by destruct Hc as [[fl ->]| ->]; simpl; rewrite Z.eqb_refl, app_nil_r.
Qed.

Lemma recv_failed r : os_ok (c, r) -> s32 (r_ret r) <= 0 -> r_data r = [].
Proof using Hc Hlen.
  intros Ho Hr. destruct (recv_answer r Ho) as (Hs & _ & _ & Hd). unfold blen in Hd.
  destruct (r_data r); [done|]. simpl in Hd. lia.
Qed.

(** The failed attempts delivered nothing. *)
Lemma retry_received evs t :
  Forall os_ok t -> Forall (retry c fd evs again) t -> received fd t = [].
Proof using Hc Hlen.
  intros Hok Hr. induction Hr as [|[c' r] t Hx Hr IH]; [done|].
  apply Forall_cons in Hok as [Ho Hok]. change ((c', r) :: t) with ([(c', r)] ++ t).
  rewrite received_app, IH, app_nil_r by done.
  destruct Hx as [[Hx [Hf _]]|Hx]; simpl in Hx; subst c'; [|done].
  destruct (recv_answer r Ho) as (_ & _ & -> & _). apply recv_failed; [done|]. simpl in Hf. lia.
Qed.

(** Everything the kernel delivered during the loop is in the result. *)
Lemma retry_result_received {R} err (p : R -> Z * bytes) evs fin (x : R) t :
  (forall r o x, fin r o x -> recv_fin err r o (p x)) ->
  (forall r, s32 (r_ret r) < 0 -> err r <= 0) ->
  Forall os_ok t -> retry_result c fd evs fin x t ->
  received fd t = (p x).2 /\ blen (p x).2 = Z.max 0 (p x).1 /\ (p x).1 <= Z.max 0 len /\
  (0 < (p x).1 -> exists r, last t = Some (c, r) /\ p x = (r_ret r, r_data r)).
Proof using Hc Hlen.
  intros Hfin Herr Hok (t0 & r & Ht0 & Hend).
  assert (Hok0 : Forall os_ok t0 /\ os_ok (c, r)).
  { destruct Hend as [[-> _]|(v & _ & -> & _)]; rewrite Forall_app, ?Forall_cons in Hok; tauto. }
  destruct Hok0 as [Hok0 Hokr]. destruct (recv_answer r Hokr) as (Hs & Hrng & Hrec & Hd).
  destruct Hend as [[-> Hx]|(v & [Hf _] & -> & Hx)]; apply Hfin in Hx; simpl in Hx.
  - rewrite received_app, (retry_received evs), Hrec by done.
    destruct Hx as [[Hp ->]|[[Hz ->]|[[Hh _] ->]]]; simpl.
    + split; [done|]. split; [lia|]. split; [lia|]. rewrite last_snoc. intros _. exists r. by rewrite Hs.
    + rewrite recv_failed by (done || lia). split_and!; try done; lia.
    + rewrite recv_failed by (done || lia). pose proof (Herr r Hh).
      split_and!; try done; unfold blen; simpl; lia.
  - rewrite received_app, (retry_received evs) by done.
    change [(c, r); (c_wait fd evs, v)] with ([(c, r)] ++ [(c_wait fd evs, v)]).
    rewrite received_app, Hrec, recv_failed by (done || lia). rewrite Hx. simpl.
    pose proof (Herr r Hf). unfold blen. simpl. split; [done|].
    destruct (has (r_ret v) EV_TIMEOUT), (has (r_ret v) EV_CLOSED); split_and!; lia.
Qed.

End receiving.

Lemma recv_facts fd len flags w :
  len < 2 ^ 31 ->
  match Frame_recv fd len flags w with
  | Done (ret, data) t w' =>
      Forall os_ok t ->
      received fd t = data /\ blen data = Z.max 0 ret /\ ret <= Z.max 0 len /\
      (0 < ret -> exists r, last t = Some (c_recv fd len flags, r) /\ data = r_data r) /\
      (ret <= 0 -> ret = 0 \/ ret = -1 \/ ret = -2)
  | Blocked t =>
      Forall os_ok t ->
      script w = t.*2 /\ Forall (retry (c_recv fd len flags) fd EV_RC again) t /\ received fd t = []
  end.
Proof.
  intros Hlen. pose proof (retries_loop _ _ _ _ _ w (recv_retries fd len flags)) as H.
  change (loop (recv_body fd len flags) tt w) with (Frame_recv fd len flags w) in H.
  assert (Hc : (exists fl, c_recv fd len flags = c_recv fd len fl) \/
    c_recv fd len flags = c_recvfrom fd len 0) by eauto.
  destruct (Frame_recv fd len flags w) as [[ret data] t w'|t] eqn:E; intros Hok.
  - destruct (retry_result_received fd len _ Hc Hlen (fun r => s32 (r_ret r)) id _ _ (ret, data) t
      ltac:(done) ltac:(lia) Hok H) as (H1 & H2 & H3 & H4). simpl in *.
    split_and!; try done.
    + intros Hp. destruct (H4 Hp) as (r & ? & [= -> ->]). eauto.
    + destruct H as (t0 & r & _ & [[-> Hx]|(v & [Hf _] & -> & Hx)]); simpl in Hx.
      * assert (Ho : os_ok (c_recv fd len flags, r)) by (rewrite Forall_app, Forall_singleton in Hok; tauto).
        destruct (recv_answer fd len _ Hc Hlen r Ho) as (Hs & Hr & _).
        intros Hle. destruct Hx as [[? [= -> _]]|[[? [= -> _]]|[[? _] [= -> _]]]]; lia.
      * assert (Ho : os_ok (c_recv fd len flags, r)) by (rewrite Forall_app, Forall_cons in Hok; tauto).
        destruct (recv_answer fd len _ Hc Hlen r Ho) as (Hs & Hr & _).
        injection Hx as -> _. repeat case_match; lia.
  - split; [eapply sane_blocked; [apply sane_Frame_recv|exact E]|]. split; [done|].
    by eapply retry_received.
Qed.

(** C19: [Frame::recv] loses no byte: everything the kernel delivered on the
    descriptor during the call is the data it returns; a positive result is the
    number of these bytes, at most [len], and comes from the last call; the only
    other results are 0, -1 and -2.  It fails to return only while every attempt
    ends with "interrupted" or "would block". *)
Theorem frame_recv_delivers fd len flags w :
  len < 2 ^ 31 ->
  match Frame_recv fd len flags w with
  | Done (ret, data) t w' =>
      Forall os_ok t ->
      received fd t = data /\ blen data = Z.max 0 ret /\ ret <= Z.max 0 len /\
      (0 < ret -> exists r, last t = Some (c_recv fd len flags, r) /\ data = r_data r) /\
      (ret <= 0 -> ret = 0 \/ ret = -1 \/ ret = -2)
  | Blocked t =>
      Forall os_ok t ->
      script w = t.*2 /\ Forall (retry (c_recv fd len flags) fd EV_RC again) t /\ received fd t = []
  end.
Proof. exact (recv_facts fd len flags w). Qed.

Lemma frame_recv_delivers_witness :
  16 < 2 ^ 31 /\
  match Frame_recv 7 16 0 (os [answer (-1) EINTR []; answer 3 0 (lit "xyz")]) with
  | Done (ret, data) t w' =>
      ret = 3 /\ data = lit "xyz" /\
      (Forall os_ok t ->
      received 7 t = data /\ blen data = Z.max 0 ret /\ ret <= Z.max 0 16 /\
      (0 < ret -> exists r, last t = Some (c_recv 7 16 0, r) /\ data = r_data r) /\
      (ret <= 0 -> ret = 0 \/ ret = -1 \/ ret = -2))
  | Blocked t => False
  end.
Proof.
  split; [reflexivity|].
  pose proof (frame_recv_delivers 7 16 0 (os [answer (-1) EINTR []; answer 3 0 (lit "xyz")]) eq_refl) as H.
  match goal with |- context [Frame_recv ?a ?b ?c ?d] => io_run (Frame_recv a b c d) end.
  split; [reflexivity|]. split; [reflexivity|]. exact H.
Defined.

(** ** accept *)

(** [Frame::accept] returns the first connection the kernel hands over: a
    result >= 0 is the descriptor of the last [accept] call and every earlier one
    failed, so no connection is dropped; a negative result is -1, for an error
    that is neither "interrupted" nor "would block".  It fails to return only
    while no connection arrives. *)
Theorem frame_accept_first fd w :
  match Frame_accept fd w with
  | Done (ret, addr) t w' =>
      exists t0 r, t = t0 ++ [(c_accept fd, r)] /\ addr = r_addr r /\
        Forall (retry (c_accept fd) fd EV_READ again) t0 /\
        ((0 <= ret /\ ret = s32 (r_ret r)) \/ (ret = -1 /\ hard again r))
  | Blocked t => script w = t.*2 /\ Forall (retry (c_accept fd) fd EV_READ again) t
  end.
Proof.
  pose proof (retries_loop _ _ _ _ _ w (accept_retries fd)) as H.
  change (loop (accept_body fd) tt w) with (Frame_accept fd w) in H.
  destruct (Frame_accept fd w) as [[ret addr] t w'|t] eqn:E.
  - destruct H as (t0 & r & Ht0 & [[-> (_ & Ha & Hx)]|(v & _ & _ & Hx & _)]); [|done].
    simpl in *. exists t0, r. split_and!; try done.
    destruct Hx as [[? ->]|[? ->]]; [left|right]; done.
  - split; [|done]. eapply sane_blocked; [apply sane_Frame_accept|exact E].
Qed.

(** ** connect *)

(** The last events of a [connect] and the result they give. *)
Definition connect_end (fd : Z) (addr : sockaddr) (ret : Z) (t : io_trace) : Prop :=
  exists r,
    (t = [(c_connect fd addr, r)] /\
     ((0 <= s32 (r_ret r) /\ ret = 0) \/ (s32 (r_ret r) < 0 /\ ret = -1))) \/
    (s32 (r_ret r) < 0 /\ exists v,
      let wt := (c_wait fd (Z.lor EV_WRITE EV_READ), v) in
      (t = [(c_connect fd addr, r); wt] /\ r_ret v <> EV_WRITE /\ ret = -1) \/
      (r_ret v = EV_WRITE /\ exists g,
        t = [(c_connect fd addr, r); wt; (c_getsockopt fd SOL_SOCKET SO_ERROR 0, g)] /\
        ret = if (s32 (r_ret g) <? 0) || negb (int_of_bytes (r_data g) =? 0) then -1 else 0)).

Lemma connect_body_end fd addr w ret t w' :
  connect_body fd addr tt w = Done (inr ret) t w' -> connect_end fd addr ret t.
Proof.
  unfold connect_body. intros H. io_inv. exists a.
  destruct (Z.ltb_spec (s32 (r_ret a)) 0) as [Hr|Hr]; [|io_inv; simplify_eq; left; auto].
  io_inv. destruct (errno w0 =? EINTR); [io_inv; done|].
  destruct ((EINPROGRESS =? errno w0) || (EADDRINUSE =? errno w0)); [|io_inv; simplify_eq; left; auto].
  right. split; [done|]. io_inv. eexists.
  destruct (has (r_ret x) EV_TIMEOUT) eqn:Ht; io_inv.
  { simplify_eq. left. split; [done|]. split; [|done]. intros E. by rewrite E in Ht. }
  destruct (Z.eqb_spec (r_ret x) EV_WRITE) as [Hw|Hw]; simpl in H; io_inv; [|simplify_eq; left; auto].
  right. split; [done|]. exists a0.
  destruct (Z.ltb_spec (s32 (r_ret a0)) 0); [io_inv; simplify_eq; auto|].
  destruct (Z.eqb_spec (int_of_bytes (r_data a0)) 0); simpl in *; io_inv; simplify_eq; auto.
Qed.

Definition interrupted (fd : Z) (addr : sockaddr) (e : io_event) : Prop :=
  e.1 = c_connect fd addr /\ failed (fun e => e =? EINTR) e.2.

Lemma connect_body_continue fd addr w t w' :
  connect_body fd addr tt w = Done (inl tt) t w' -> Forall (interrupted fd addr) t.
Proof.
  unfold connect_body. intros H. io_inv.
  destruct (Z.ltb_spec (s32 (r_ret a)) 0) as [Hr|Hr]; [|io_inv; done]. io_inv.
  destruct (errno w0 =? EINTR) eqn:He; io_inv.
  - repeat constructor; [done|]. simpl. intros Hn. match goal with Hx : errno _ = _ |- _ => rewrite Hx in He end.
    destruct (Z.ltb_spec (r_ret a) 0); [done|lia].
  - repeat (split_match_in H; io_inv; try done).
Qed.

Lemma connect_loop_end fd addr w ret t w' :
  Frame_connect fd addr w = Done ret t w' ->
  exists t0 t1, t = t0 ++ t1 /\ Forall (interrupted fd addr) t0 /\ connect_end fd addr ret t1.
Proof.
  intros E. pose proof (loop_inv _ (connect_productive fd addr) (fun _ => True)
    (fun _ acc => Forall (interrupted fd addr) acc)
    (fun ret t => exists t0 t1, t = t0 ++ t1 /\ Forall (interrupted fd addr) t0 /\
       connect_end fd addr ret t1) (fun _ => True)) as H.
  specialize (H ltac:(intros [] ??[]??? ?%connect_body_continue ?; by apply Forall_app)).
  specialize (H ltac:(intros [] ?????? ?%connect_body_end ?; eauto)).
  specialize (H ltac:(done) tt [] w ltac:(constructor)).
  change (loop (connect_body fd addr) tt w) with (Frame_connect fd addr w) in H.
  rewrite E in H. apply H. by apply Forall_true.
Qed.

Lemma no_bytes_no_error fd g :
  os_ok (c_getsockopt fd SOL_SOCKET SO_ERROR 0, g) -> int_of_bytes (r_data g) = 0.
Proof. simpl. unfold blen. destruct (r_data g); [done|]. simpl. lia. Qed.

(** [Frame::connect] returns 0 or -1.  It returns 0 exactly when the kernel
    connects at once, or when the connection was in progress, the wait reports
    "writable" alone and [getsockopt] does not fail: the length it passes to
    [getsockopt] is 0, so the pending error is never read and a connection that
    failed asynchronously with only "writable" reported is taken for an
    established one. *)
Theorem frame_connect_result fd addr w :
  match Frame_connect fd addr w with
  | Done ret t w' =>
      Forall os_ok t ->
      (ret = 0 \/ ret = -1) /\
      (ret = 0 <->
       (exists r, last t = Some (c_connect fd addr, r) /\ 0 <= s32 (r_ret r)) \/
       (exists t0 v g, t = t0 ++ [(c_wait fd (Z.lor EV_WRITE EV_READ), v);
                                  (c_getsockopt fd SOL_SOCKET SO_ERROR 0, g)] /\
          r_ret v = EV_WRITE /\ 0 <= s32 (r_ret g)))
  | Blocked t => script w = t.*2
  end.
Proof.
  destruct (Frame_connect fd addr w) as [ret t w'|t] eqn:E;
    [|eapply sane_blocked; [apply sane_Frame_connect|exact E]].
  intros Hok. apply connect_loop_end in E as (t0 & t1 & -> & Ht0 & r & Hr).
  destruct Hr as [[-> Hr]|(Hneg & v & [(-> & Hv & ->)|(Hv & g & -> & ->)])].
  - split; [lia|]. rewrite last_snoc. split.
    + intros ->. left. exists r. split; [done|]. lia.
    + intros [(r' & [= <-] & ?)|(t2 & v & g & Hl & _)]; [lia|].
      apply (f_equal last) in Hl. rewrite last_snoc, last_app_cons in Hl. done.
  - split; [lia|]. split; [lia|]. rewrite last_app_cons. intros [(r' & Hl & _)|(t2 & v' & g & Hl & _)]; [done|].
    apply (f_equal last) in Hl. by rewrite !last_app_cons in Hl.
  - assert (Hg : os_ok (c_getsockopt fd SOL_SOCKET SO_ERROR 0, g)).
    { rewrite Forall_app, !Forall_cons in Hok. tauto. }
    rewrite (no_bytes_no_error fd g Hg). simpl. rewrite orb_false_r. split; [case_match; lia|].
    destruct (Z.ltb_spec (s32 (r_ret g)) 0); split; try done.
    + intros [(r' & Hl & _)|(t2 & v' & g' & Hl & _ & ?)]; [by rewrite last_app_cons in Hl|].
      apply (f_equal last) in Hl. rewrite !last_app_cons in Hl. simpl in Hl. simplify_eq. lia.
    + intros _. right. exists (t0 ++ [(c_connect fd addr, r)]), v, g. by rewrite <- app_assoc.
Qed.

Lemma frame_connect_result_witness :
  match Frame_connect 7 (mkSockaddr 16777343 80)
    (os [answer (-1) EINPROGRESS []; answer EV_WRITE 0 []; answer 0 0 []]) with
  | Done ret t w' => ret = 0 /\ Forall os_ok t
  | Blocked t => False
  end.
Proof.
  pose proof (frame_connect_result 7 (mkSockaddr 16777343 80)
    (os [answer (-1) EINPROGRESS []; answer EV_WRITE 0 []; answer 0 0 []])) as H.
  match goal with |- context [Frame_connect ?a ?b ?c] => io_run (Frame_connect a b c) end.
  cbv beta iota in H |- *. match type of H with Forall os_ok ?t -> _ => assert (Hok : Forall os_ok t) end.
  { repeat constructor; discriminate. }
  split; [|exact Hok]. apply (H Hok). right.
  eexists [_], _, _. split; [reflexivity|]. split; [reflexivity|]. vm_compute. discriminate.
Defined.

(** ** recvfrom *)

Lemma recvfrom_facts fd len flags w :
  len < 2 ^ 31 ->
  match Frame_recvfrom fd len flags w with
  | Done (ret, data, addr) t w' =>
      Forall os_ok t ->
      received fd t = data /\ blen data = Z.max 0 ret /\ ret <= Z.max 0 len /\
      (0 <= ret \/ ret = -2) /\
      (forall r, last t = Some (c_recvfrom fd len 0, r) -> s32 (r_ret r) < 0 -> ret = 0)
  | Blocked t => Forall (retry (c_recvfrom fd len 0) fd EV_RC again) t
  end.
Proof.
  intros Hlen. pose proof (retries_loop _ _ _ _ _ w (recvfrom_retries fd len)) as H.
  change (loop (recvfrom_body fd len) tt w) with (Frame_recvfrom fd len flags w) in H.
  assert (Hc : (exists fl, c_recvfrom fd len 0 = c_recv fd len fl) \/
    c_recvfrom fd len 0 = c_recvfrom fd len 0) by auto.
  destruct (Frame_recvfrom fd len flags w) as [[[ret data] addr] t w'|t] eqn:E; [|done].
  intros Hok.
  destruct (retry_result_received fd len _ Hc Hlen (fun _ => 0) fst _
    (fun r o x => recv_fin (fun _ => 0) r o x.1 /\ x.2 = r_addr r) (ret, data, addr) t
    ltac:(by intros ??? [? _]) ltac:(lia) Hok H) as (H1 & H2 & H3 & H4). simpl in *.
  split; [done|]. split; [done|]. split; [done|].
  destruct H as (t0 & r & _ & [[-> [Hx _]]|(v & [Hf _] & -> & [Hx _])]); simpl in Hx.
  - rewrite last_snoc. split.
    + destruct Hx as [[? [= -> _]]|[[? [= -> _]]|[? [= -> _]]]]; lia.
    + intros r' [= <-] Hn. destruct Hx as [[? [= -> _]]|[[? [= -> _]]|[? [= -> _]]]]; lia.
  - rewrite last_app_cons. split; [|done].
    injection Hx as -> _. repeat case_match; lia.
Qed.

(** [Frame::recvfrom] loses no byte, but hides errors: the [ret] it returns
    after the loop is not the one of the loop, so a hard error of the system call
    is reported as 0, like an empty datagram, and the only negative result is -2,
    for a timed-out wait. *)
Theorem frame_recvfrom_hides_errors fd len flags w :
  len < 2 ^ 31 ->
  match Frame_recvfrom fd len flags w with
  | Done (ret, data, addr) t w' =>
      Forall os_ok t ->
      received fd t = data /\ blen data = Z.max 0 ret /\
      (0 <= ret \/ ret = -2) /\
      (forall r, last t = Some (c_recvfrom fd len 0, r) -> s32 (r_ret r) < 0 -> ret = 0)
  | Blocked t => Forall (retry (c_recvfrom fd len 0) fd EV_RC again) t
  end.
Proof.
  intros Hlen. pose proof (recvfrom_facts fd len flags w Hlen) as H.
  destruct (Frame_recvfrom fd len flags w) as [[[ret data] addr] t w'|t]; [|done]. tauto.
Qed.

(** A bad descriptor looks like an empty datagram. *)
Lemma frame_recvfrom_hides_errors_witness :
  65536 < 2 ^ 31 /\
  match Frame_recvfrom 7 65536 0 (os [answer (-1) 9 []]) with
  | Done (ret, data, addr) t w' =>
      ret = 0 /\
      (Forall os_ok t ->
      received 7 t = data /\ blen data = Z.max 0 ret /\
      (0 <= ret \/ ret = -2) /\
      (forall r, last t = Some (c_recvfrom 7 65536 0, r) -> s32 (r_ret r) < 0 -> ret = 0))
  | Blocked t => False
  end.
Proof.
  split; [reflexivity|].
  pose proof (frame_recvfrom_hides_errors 7 65536 0 (os [answer (-1) 9 []]) eq_refl) as H.
  match goal with |- context [Frame_recvfrom ?a ?b ?c ?d] => io_run (Frame_recvfrom a b c d) end.
  split; [reflexivity|]. exact H.
Defined.

(** ** One request, one answer *)

(** The calls of a computation satisfy [P]. *)
Definition calls (P : syscall -> Prop) {A} (m : IO A) : Prop :=
  forall w, match m w with Done _ t _ | Blocked t => Forall (fun e => P e.1) t end.

Section calls.
Context (P : syscall -> Prop).

Lemma calls_ret {A} (a : A) : calls P (io_ret a).
Proof. intros w. constructor. Qed.

Lemma calls_bind {A B} (m : IO A) (k : A -> IO B) :
  calls P m -> (forall a, calls P (k a)) -> calls P (io_bind m k).
Proof.
  intros Hm Hk w. specialize (Hm w). unfold io_bind. destruct (m w) as [a t w'|t]; [|done].
  specialize (Hk a w'). destruct (k a w'); by apply Forall_app.
Qed.

Lemma calls_sys c : P c -> calls P (sys c).
Proof. intros Hc w. unfold sys. destruct (script w); by repeat constructor. Qed.

Lemma calls_wait fd evs : P (c_wait fd evs) -> calls P (wait fd evs).
Proof. intros Hc w. unfold wait. destruct (script w); by repeat constructor. Qed.

Lemma calls_get_errno : calls P get_errno.
Proof. intros w. constructor. Qed.

Lemma calls_set_errno e : calls P (set_errno e).
Proof. intros w. constructor. Qed.

Lemma calls_loop {S R} (body : S -> IO (S + R)) s :
  (forall s, calls P (body s)) -> calls P (loop body s).
Proof.
  intros Hb w. unfold loop. generalize (Datatypes.S (length (script w))). intros n.
  revert s w. induction n as [|n IH]; intros s; [constructor|].
  simpl. apply calls_bind; [done|]. intros [s'|r]; [exact (IH s')|apply calls_ret].
Qed.

End calls.

Ltac calls_tac :=
  repeat match goal with
  | |- calls _ (io_bind _ _) => apply calls_bind
  | |- calls _ (io_ret _) => apply calls_ret
  | |- calls _ get_errno => apply calls_get_errno
  | |- calls _ (set_errno _) => apply calls_set_errno
  | |- calls _ (sys _) => apply calls_sys; done
  | |- calls _ (wait _ _) => apply calls_wait; done
  | |- calls _ (let _ := _ in _) => cbv zeta
  | |- calls _ (match ?x with _ => _ end) => destruct x
  | |- forall _, _ => intro
  end.

Lemma calls_SetNonBlock (P : syscall -> Prop) fd :
  P (c_fcntl_getfl fd) -> (forall f, P (c_fcntl_setfl fd f)) -> calls P (SetNonBlock fd).
Proof. intros. unfold SetNonBlock. calls_tac. Qed.

Lemma calls_Frame_recv (P : syscall -> Prop) fd len flags :
  P (c_recv fd len flags) -> (forall evs, P (c_wait fd evs)) -> calls P (Frame_recv fd len flags).
Proof. intros. unfold Frame_recv, recv_body. apply calls_loop. calls_tac. Qed.

Lemma calls_Frame_send (P : syscall -> Prop) fd b flags :
  (forall b, P (c_send fd b 0)) -> (forall evs, P (c_wait fd evs)) -> calls P (Frame_send fd b flags).
Proof. intros. unfold Frame_send, send_body. apply calls_loop. calls_tac. Qed.

Lemma calls_Frame_recvfrom (P : syscall -> Prop) fd len flags :
  P (c_recvfrom fd len 0) -> (forall evs, P (c_wait fd evs)) -> calls P (Frame_recvfrom fd len flags).
Proof. intros. unfold Frame_recvfrom, recvfrom_body. apply calls_loop. calls_tac. Qed.

Definition not_close (c : syscall) : Prop := match c with c_close _ => False | _ => True end.
Definition not_send (c : syscall) : Prop :=
  match c with c_send _ _ _ | c_sendto _ _ _ _ | c_connect _ _ => False | _ => True end.

Lemma calls_done {A} (P : syscall -> Prop) (m : IO A) w a t w' :
  calls P m -> m w = Done a t w' -> Forall (fun e => P e.1) t.
Proof. intros H E. specialize (H w). by rewrite E in H. Qed.

Definition not_recv (c : syscall) : Prop :=
  match c with c_recv _ _ _ | c_recvfrom _ _ _ => False | _ => True end.

Lemma received_none fd (t : io_trace) :
  Forall (fun e => not_recv e.1) t ->
  received fd t = [].
Proof.
  induction 1 as [|[c r] t Hx Ht IH]; [done|]. change (received fd ((c, r) :: t)) with
    (delivered fd (c, r) ++ received fd t). rewrite IH. by destruct c.
Qed.

(** [Frame::UdpSendAndRecv] sends the request as one datagram to [dest] and
    returns the datagram that came back: the result is 0, -1 or -2, the output is
    untouched unless the result is 0, and with result 0 the output is what the
    kernel delivered on the new socket (untouched when that was nothing).  No
    branch closes the socket: every call leaks a descriptor. *)
Theorem udp_send_and_recv_spec sendbuf dest recvbuf w :
  match UdpSendAndRecv sendbuf dest recvbuf w with
  | Done (ret, out) t w' =>
      Forall (fun e => not_close e.1) t /\
      (Forall os_ok t ->
       (ret = 0 /\ exists fd r, (c_sendto fd sendbuf 0 dest, r) ∈ t /\
          out = (if decide (received fd t = []) then recvbuf else received fd t)) \/
       ((ret = -1 \/ ret = -2) /\ out = recvbuf))
  | Blocked t => Forall (fun e => not_close e.1) t
  end.
Proof.
  assert (Hc : calls not_close (UdpSendAndRecv sendbuf dest recvbuf)).
  { unfold UdpSendAndRecv, Frame_sendto.
    calls_tac; by (apply calls_SetNonBlock || apply calls_Frame_recvfrom). }
  specialize (Hc w). destruct (UdpSendAndRecv sendbuf dest recvbuf w) as [[ret out] t w'|t] eqn:E; [|done].
  split; [done|]. intros Hok. unfold UdpSendAndRecv, Frame_sendto in E. io_inv.
  rename a into s. set (fd := s32 (r_ret s)) in *. repeat rewrite Forall_app in Hok.
  assert (Hn : received fd t = []).
  { apply received_none. eapply (calls_done not_recv (SetNonBlock fd)); [by apply calls_SetNonBlock|done]. }
  destruct (a0 <? 0); io_inv; [simplify_eq; auto|].
  destruct (s32 (r_ret a1) <? 0); io_inv; [simplify_eq; auto|].
  destruct a as [[v data] addr]. simpl in E.
  pose proof (recvfrom_facts fd 65536 0 w3 ltac:(done)) as Hr.
  match goal with H : Frame_recvfrom _ _ _ _ = _ |- _ => rewrite H in Hr end.
  repeat rewrite Forall_app in Hok. destruct Hr as (Hrec & Hlen & Hmax & Hv & _); [tauto|].
  rewrite s32_id in E by lia. pose proof (blen_nonneg data).
  destruct (Z.ltb_spec v 0); io_inv; [simplify_eq; auto|]. left.
  assert (Hall : forall u, received fd ([(c_socket SOCK_DGRAM, s)] ++ t ++
    ([(c_sendto fd sendbuf 0 dest, a1)] ++ []) ++ u ++ []) = received fd u).
  { intros u. rewrite !received_app, Hn. simpl. by rewrite app_nil_r. }
  destruct (Z.ltb_spec 0 v); io_inv; simplify_eq; (split; [done|]); exists fd, a1;
    rewrite Hall; (split; [rewrite !elem_of_app, !elem_of_cons; tauto|]);
    match goal with H : blen ?d = _ |- _ => destruct d; unfold blen in H; simpl in *; lia || done end.
Qed.

(** The send loop ends at once without a call. *)
Lemma tcp_send_loop_trivial fd sendbuf w :
  loop (tcp_send_body fd sendbuf) 0 w =
  Done (if decide (sendbuf = []) then Some (-1) else None) [] w.
Proof.
  unfold loop. simpl. unfold io_bind, tcp_send_body. change (u64 0) with 0.
  destruct sendbuf as [|c b]; [done|]. destruct (Z.eqb_spec 0 (blen (c :: b))) as [E|E]; [|done].
  unfold blen in E. simpl in E. lia.
Qed.

(** [Frame::TcpSendAndRecv] never transmits its request: its send loop runs
    while [nsend == sendlen], that is only for an empty request, so no behaviour
    of the kernel makes it call [send] (nor [connect]: its socket is a datagram
    socket that is never connected). *)
Theorem tcp_send_and_recv_never_sends CheckPkg sendbuf recvbuf recvlen w :
  match TcpSendAndRecv CheckPkg sendbuf recvbuf recvlen w with
  | Done _ t _ | Blocked t => Forall (fun e => not_send e.1) t
  end.
Proof.
  enough (H : calls not_send (TcpSendAndRecv CheckPkg sendbuf recvbuf recvlen)) by apply H.
  unfold TcpSendAndRecv. calls_tac.
  - by apply calls_SetNonBlock.
  - intros w'. rewrite tcp_send_loop_trivial. constructor.
  - unfold tcp_recv_body. apply calls_loop. calls_tac. by apply calls_Frame_recv.
Qed.
