(* ===== verification/Mutex.v ===== *)
(** * Inter-process locks: mutex.h and mutex.cc

    The interface [Mutex] is the class [MutexOps]; [DummyMtx] and [AtomicMtx] are
    instances over their state, [FileMtx] is a sequence of system calls.

    [AtomicMtx] is a word of memory that the master maps before it forks its
    workers, so that all processes share it.  Here its methods run alone;
    [LockMachine] interleaves the accesses to the word. *)

From S2P Require Import Prelude World.

(** ** Interface *)

(** Each operation is called by the process [pid] and returns its result and the
    state it leaves. *)
Class MutexOps (M : Type) := {
  InitMtx : M -> Z * M;
  TryLock : Z -> M -> Z * M;
  Unlock : Z -> M -> Z * M;
  ForcedUnlockIfNeed : Z -> M -> Z * M
}.

(** ** DummyMtx *)

Record DummyMtx := mkDummyMtx {}.

Definition DummyMtx_InitMtx (m : DummyMtx) : Z * DummyMtx := (0, m).
Definition DummyMtx_TryLock (pid : Z) (m : DummyMtx) : Z * DummyMtx := (0, m).
Definition DummyMtx_Unlock (pid : Z) (m : DummyMtx) : Z * DummyMtx := (0, m).

(** [Mutex::ForcedUnlockIfNeed], the default. *)
Definition Mutex_ForcedUnlockIfNeed {M} (check_data : Z) (m : M) : Z * M := (0, m).

#[export] Instance DummyMtx_ops : MutexOps DummyMtx := {
  InitMtx := DummyMtx_InitMtx;
  TryLock := DummyMtx_TryLock;
  Unlock := DummyMtx_Unlock;
  ForcedUnlockIfNeed := Mutex_ForcedUnlockIfNeed
}.

(** ** FileMtx *)

Definition F_WRLCK : Z := 1.
Definition F_UNLCK : Z := 2.

(** [for (byte_count = 0; byte_count < 10; byte_count++) write(fd_, "*", 1)] *)
Fixpoint write_bytes (n : nat) (fd : Z) : IO unit :=
  match n with
  | O => io_ret tt
  | S n => let* _ := sys (c_write fd (lit "*")) in write_bytes n fd
  end.

(** The result and [fd_]; [arg] is the path, or null. *)
Definition FileMtx_InitMtx (arg : option bytes) (fd_ : Z) : IO (Z * Z) :=
  match arg with
  | None => io_ret (-1, fd_)
  | Some lf =>
      let* r := sys (c_open lf) in
      let fd_ := s32 (r_ret r) in
      if negb (fd_ =? -1) then
        let* _ := write_bytes 10 fd_ in
        let* _ := sys (c_unlink lf) in
        io_ret (0, fd_)
      else io_ret (-1, fd_)
  end.

Definition FileMtx_TryLock (fd_ : Z) : IO Z :=
  let* r := sys (c_fcntl_setlk fd_ F_WRLCK) in
  if s32 (r_ret r) =? -1 then io_ret (-1) else io_ret 0.

Definition FileMtx_Unlock (fd_ : Z) : IO Z :=
  let* r := sys (c_fcntl_setlk fd_ F_UNLCK) in
  if s32 (r_ret r) =? -1 then io_ret (-1) else io_ret 0.

(** ** AtomicMtx *)

(** [ptr_] is null before [InitMtx]; afterwards it is the shared word. *)
Record AtomicMtx := mkAtomicMtx { ptr_ : option Z }.

(** [cmpxchgq] and [sete]: the new word and the result. *)
Definition AtomicCompareAndSet (a old n : Z) : Z * Z :=
  if a =? old then (n, 1) else (a, 0).

(** The fallback for other machines. *)
Definition AtomicCompareAndSet_other (a old n : Z) : Z * Z := (n, n).

Definition AtomicMtx_InitMtx (m : AtomicMtx) : Z * AtomicMtx := (0, mkAtomicMtx (Some 0)).

(** The destructor unmaps the word. *)
Definition AtomicMtx_delete (m : AtomicMtx) : AtomicMtx := mkAtomicMtx None.

Section atomic.
Context (cas : Z -> Z -> Z -> Z * Z).

Definition AtomicMtx_TryLock_with (pid : Z) (m : AtomicMtx) : Z * AtomicMtx :=
  match ptr_ m with
  | None => (-1, m)
  | Some a =>
      if a =? 0 then
        let '(a', res) := cas a 0 (u64 pid) in
        (if negb (res =? 0) then 0 else -1, mkAtomicMtx (Some a'))
      else (-1, m)
  end.

Definition AtomicMtx_Unlock_with (pid : Z) (m : AtomicMtx) : Z * AtomicMtx :=
  match ptr_ m with
  | None => (-1, m)
  | Some a =>
      let '(a', res) := cas a (u64 pid) 0 in
      (if negb (res =? 0) then 0 else -1, mkAtomicMtx (Some a'))
  end.

End atomic.

Definition AtomicMtx_TryLock := AtomicMtx_TryLock_with AtomicCompareAndSet.
Definition AtomicMtx_Unlock := AtomicMtx_Unlock_with AtomicCompareAndSet.

(** A null [ptr_] is dereferenced: there is no result then. *)
Definition AtomicMtx_ForcedUnlock (check_data : Z) (m : AtomicMtx) : option (Z * AtomicMtx) :=
  match ptr_ m with
  | None => None
  | Some a => Some (0, mkAtomicMtx (Some (if a =? check_data then 0 else a)))
  end.

#[export] Instance AtomicMtx_ops : MutexOps AtomicMtx := {
  InitMtx := AtomicMtx_InitMtx;
  TryLock := AtomicMtx_TryLock;
  Unlock := AtomicMtx_Unlock;
  ForcedUnlockIfNeed d m := default (0, m) (AtomicMtx_ForcedUnlock d m)
}.

(** ** Processes *)

(** Process identifiers that the kernel hands out. *)
Definition pid_ok (p : Z) : Prop := 0 < p < 2 ^ 31.

Lemma pid_u64 p : pid_ok p -> u64 p = p.
Proof. unfold pid_ok. intros. apply wrap_id. lia. Qed.
