(* ===== verification/LockSpec.v ===== *)
(** * What a listener's lock promises: an abstract lock, and the refinement

    The specification is a lock with at most one holder.  Its operations are
    labelled with their answers.  [LockImpl] is what a lock promises to its
    clients: each method, run alone, is a step of the specification.  [AtomicMtx]
    and the specification itself are instances.  That [AtomicMtx] also refines the
    specification when several processes are inside its methods at once, and when
    it does not, is in [LockMachine]. *)

From S2P Require Import Prelude Mutex.

(** ** The specification *)

Inductive lock_label :=
  | L_try (p : Z) (ok : bool)
  | L_release (p : Z) (ok : bool)
  | L_revoke (p : Z).

#[export] Instance lock_label_eq_dec : EqDecision lock_label.
Proof. solve_decision. Defined.

(** The state is the holder.  [TryLock] succeeds exactly when there is none,
    [Unlock] when it is the caller. *)
Definition spec_step (h : option Z) (l : lock_label) : option (option Z) :=
  match l with
  | L_try p ok =>
      if bool_decide (ok = bool_decide (h = None)) then Some (if ok then Some p else h) else None
  | L_release p ok =>
      if bool_decide (ok = bool_decide (h = Some p)) then Some (if ok then None else h) else None
  | L_revoke p => Some (if bool_decide (h = Some p) then None else h)
  end.

Fixpoint spec_run (h : option Z) (ls : list lock_label) : option (option Z) :=
  match ls with
  | [] => Some h
  | l :: ls => h' ← spec_step h l; spec_run h' ls
  end.

Lemma spec_run_app h ls ks : spec_run h (ls ++ ks) = h' ← spec_run h ls; spec_run h' ks.
Proof.
  revert h. induction ls as [|l ls IH]; intros h; [done|]. simpl.
  destruct (spec_step h l); simpl; [apply IH|done].
Qed.

(** ** One method at a time *)

(** The holder that a word stands for. *)
Definition holder_of (w : Z) : option Z := if w =? 0 then None else Some w.

Lemma holder_of_Some w p : holder_of w = Some p <-> w = p /\ p <> 0.
Proof. unfold holder_of. destruct (Z.eqb_spec w 0); split; naive_solver. Qed.

Lemma holder_of_None w : holder_of w = None <-> w = 0.
Proof. unfold holder_of. destruct (Z.eqb_spec w 0); split; naive_solver. Qed.

(** A method's answer is 0 or -1. *)
Definition answer_ok (ret : Z) : bool := ret =? 0.

(** What a step does to the abstract lock. *)
Definition spec_opt (h : option Z) (l : option lock_label) : option (option Z) :=
  match l with Some l => spec_step h l | None => Some h end.

Lemma spec_run_opt h l ls : spec_run h (option_list l ++ ls) = h' ← spec_opt h l; spec_run h' ls.
Proof. by destruct l. Qed.

(** ** The interface to clients *)

(** What a lock promises: each method is a step of the specification; [holder] is
    the abstraction function and [ready] says that [InitMtx] has run. *)
Class LockImpl (M : Type) `{MutexOps M} := {
  ready : M -> Prop;
  holder : M -> option Z;
  InitMtx_free m : ready (snd (InitMtx m)) /\ holder (snd (InitMtx m)) = None;
  TryLock_refines p m : pid_ok p -> ready m ->
    let '(ret, m') := TryLock p m in
    ready m' /\ spec_step (holder m) (L_try p (0 <=? ret)) = Some (holder m');
  Unlock_refines p m : pid_ok p -> ready m ->
    let '(ret, m') := Unlock p m in
    ready m' /\ spec_step (holder m) (L_release p (0 <=? ret)) = Some (holder m');
  ForcedUnlock_refines d m : ready m ->
    let '(ret, m') := ForcedUnlockIfNeed d m in
    ready m' /\ spec_step (holder m) (L_revoke d) = Some (holder m')
}.

#[export] Program Instance AtomicMtx_impl : LockImpl AtomicMtx := {
  ready m := is_Some (ptr_ m);
  holder m := w ← ptr_ m; holder_of w
}.
Next Obligation. intros m. by split; [eexists|]. Qed.
Next Obligation.
  intros p [ptr] Hp [w E]. simpl in *. subst. unfold AtomicMtx_TryLock, AtomicMtx_TryLock_with,
    AtomicCompareAndSet, holder_of. simpl. rewrite (pid_u64 p Hp).
  destruct (Z.eqb_spec w 0) as [->|E]; simpl.
  - split; [by eexists|]. unfold pid_ok in Hp. by rewrite (proj2 (Z.eqb_neq p 0)) by lia.
  - split; [by eexists|]. by rewrite (proj2 (Z.eqb_neq _ _) E).
Qed.
Next Obligation.
  intros p [ptr] Hp [w E]. simpl in *. subst. unfold AtomicMtx_Unlock, AtomicMtx_Unlock_with,
    AtomicCompareAndSet, holder_of. simpl. rewrite (pid_u64 p Hp). unfold pid_ok in Hp.
  destruct (Z.eqb_spec w p) as [->|E]; simpl.
  - split; [by eexists|]. by rewrite (proj2 (Z.eqb_neq p 0)), (bool_decide_true (Some _ = _)) by (done || lia).
  - split; [by eexists|]. destruct (w =? 0); simpl; [done|].
    by rewrite (bool_decide_false (Some _ = _)) by congruence.
Qed.
Next Obligation.
  intros d [ptr] [w E]. simpl in *. subst. unfold AtomicMtx_ForcedUnlock, holder_of. simpl.
  split; [by eexists|]. f_equal. destruct (Z.eqb_spec w d) as [->|E]; simpl.
  - destruct (d =? 0); [done|]. by rewrite bool_decide_true.
  - destruct (w =? 0); [done|]. by rewrite bool_decide_false by congruence.
Qed.

(** The specification as a lock: the state is the holder. *)
Definition spec_TryLock (p : Z) (h : option Z) : Z * option Z :=
  match h with None => (0, Some p) | Some _ => (-1, h) end.
Definition spec_Unlock (p : Z) (h : option Z) : Z * option Z :=
  if decide (h = Some p) then (0, None) else (-1, h).
Definition spec_Forced (d : Z) (h : option Z) : Z * option Z :=
  (0, if decide (h = Some d) then None else h).

#[export] Instance spec_ops : MutexOps (option Z) := {
  InitMtx _ := (0, None);
  TryLock := spec_TryLock;
  Unlock := spec_Unlock;
  ForcedUnlockIfNeed := spec_Forced
}.

#[export] Program Instance spec_impl : LockImpl (option Z) := { ready _ := True; holder h := h }.
Next Obligation. by intros. Qed.
Next Obligation. by intros p [q|] Hp _. Qed.
Next Obligation.
  intros p h Hp _. unfold Unlock, spec_ops, spec_Unlock. case_decide as E; (split; [done|]); cbn.
  - by rewrite bool_decide_true by (by rewrite bool_decide_true).
  - by rewrite bool_decide_true by (by rewrite bool_decide_false).
Qed.
Next Obligation.
  intros d h _. unfold ForcedUnlockIfNeed, spec_ops, spec_Forced. case_decide as E; (split; [done|]); cbn.
  - by rewrite bool_decide_true.
  - by rewrite bool_decide_false.
Qed.
