(* ===== verification/LockMachine.v ===== *)
(** * AtomicMtx in memory: every access of every process

    [Mutex] has the methods of [AtomicMtx] as functions from the word to the word.
    Processes share the word, and a method is several accesses to it: [TryLock] is
    a read ([*ptr_ == 0]) and a [cmpxchgq], which has no [lock] prefix and so is a
    read and a write; [Unlock] is a [cmpxchgq]; [ForcedUnlockIfNeed] is a read and
    a write.  [mstep] is the step relation of any number of processes and a master
    that take these accesses in any order.  A [cmpxchgq] writes also when the
    comparison fails: it writes back what it read.

    [torn] records whether a [cmpxchgq] wrote to a word that was not what it had
    read any more.  On one processor, or with a [lock] prefix, this cannot happen
    ([adjacent_untorn]); on several processors it can ([split_cas_two_owners]).
    The theorems are about all interleavings in which it did not happen. *)

From stdpp Require Import functions.
From S2P Require Import Prelude Mutex LockSpec.

(** ** State *)

(** Where a process is in a method, and what its [cmpxchgq] has read. *)
Inductive lock_pc :=
  | Idle
  | Tested                  (* TryLock, after [*ptr_ == 0] *)
  | In_TryLock (v : Z)      (* TryLock, in the [cmpxchgq] *)
  | In_Unlock (v : Z).      (* Unlock, in the [cmpxchgq] *)

#[export] Instance lock_pc_eq_dec : EqDecision lock_pc.
Proof. solve_decision. Defined.

(** [clearing]: the master is in [ForcedUnlockIfNeed] and has found its argument in
    the word.  [dead]: the workers that were killed. *)
Record machine := mkMachine {
  word : Z;
  pcs : Z -> lock_pc;
  clearing : option Z;
  dead : list Z;
  torn : bool
}.

(** After [InitMtx], before the first fork. *)
Definition machine0 : machine := mkMachine 0 (fun _ => Idle) None [] false.

(** ** Steps *)

Inductive lock_access :=
  | A_test (p : Z)          (* TryLock: [*ptr_ == 0] *)
  | A_cas_read (p : Z)      (* TryLock: the read of [cmpxchgq] *)
  | A_unlock_read (p : Z)   (* Unlock: the read of [cmpxchgq] *)
  | A_cas_write (p : Z)     (* its write *)
  | A_crash (p : Z)
  | A_force_read (d : Z)    (* ForcedUnlockIfNeed: [*ptr_ == check_data] *)
  | A_force_write.          (* ForcedUnlockIfNeed: [*ptr_ = 0] *)

Definition set_pc (p : Z) (x : lock_pc) (m : machine) : machine :=
  mkMachine (word m) (<[p := x]> (pcs m)) (clearing m) (dead m) (torn m).

(** The [cmpxchgq] of [p], which read [v], writes [w]. *)
Definition cas_write (p v w : Z) (m : machine) : machine :=
  mkMachine w (<[p := Idle]> (pcs m)) (clearing m) (dead m) (torn m || negb (word m =? v)).

Definition set_clearing (o : option Z) (w : Z) (m : machine) : machine :=
  mkMachine w (pcs m) o (dead m) (torn m).

Definition bury (p : Z) (m : machine) : machine :=
  mkMachine (word m) (pcs m) (clearing m) (p :: dead m) (torn m).

(** The program counter of a process that lives. *)
Definition at_pc (p : Z) (m : machine) : option lock_pc :=
  if decide (p ∈ dead m) then None else Some (pcs m p).

(** One access, and the answer when the method returns with it. *)
Definition mstep (m : machine) (a : lock_access) : option (machine * option lock_label) :=
  match a with
  | A_test p =>
      match at_pc p m with
      | Some Idle => Some (if word m =? 0 then (set_pc p Tested m, None) else (m, Some (L_try p false)))
      | _ => None
      end
  | A_cas_read p =>
      match at_pc p m with
      | Some Tested => Some (set_pc p (In_TryLock (word m)) m, None)
      | _ => None
      end
  | A_unlock_read p =>
      match at_pc p m with
      | Some Idle => Some (set_pc p (In_Unlock (word m)) m, None)
      | _ => None
      end
  | A_cas_write p =>
      match at_pc p m with
      | Some (In_TryLock v) =>
          let '(w, res) := AtomicCompareAndSet v 0 (u64 p) in
          Some (cas_write p v w m, Some (L_try p (negb (res =? 0))))
      | Some (In_Unlock v) =>
          let '(w, res) := AtomicCompareAndSet v (u64 p) 0 in
          Some (cas_write p v w m, Some (L_release p (negb (res =? 0))))
      | _ => None
      end
  | A_crash p => if decide (p ∈ dead m) then None else Some (bury p m, None)
  | A_force_read d =>
      if decide (d ∈ dead m /\ clearing m = None) then
        Some (if word m =? d then (set_clearing (Some d) (word m) m, None) else (m, Some (L_revoke d)))
      else None
  | A_force_write =>
      match clearing m with
      | Some d => Some (set_clearing None 0 m, Some (L_revoke d))
      | None => None
      end
  end.

(** An interleaving: the state it ends in, the answers in the order of the returns. *)
Fixpoint mrun (m : machine) (l : list lock_access) : option (machine * list lock_label) :=
  match l with
  | [] => Some (m, [])
  | a :: l => '(m1, o) ← mstep m a; '(m2, ls) ← mrun m1 l; Some (m2, option_list o ++ ls)
  end.

(** Accesses of processes with identifiers. *)
Definition access_ok (a : lock_access) : Prop :=
  match a with
  | A_test p | A_cas_read p | A_unlock_read p | A_cas_write p | A_crash p => pid_ok p
  | A_force_read _ | A_force_write => True
  end.

(** Every write of a [cmpxchgq] comes right after its read. *)
Fixpoint adjacent (l : list lock_access) : bool :=
  match l with
  | [] => true
  | A_cas_write _ :: _ => false
  | A_cas_read p :: l' | A_unlock_read p :: l' =>
      match l' with
      | A_cas_write q :: l'' => bool_decide (p = q) && adjacent l''
      | _ => adjacent l'
      end
  | _ :: l' => adjacent l'
  end.

(** ** What a process makes of the answers *)

Definition owner_step (p : Z) (b : bool) (l : lock_label) : bool :=
  match l with
  | L_try q ok => if decide (q = p) then ok || b else b
  | L_release q ok => if decide (q = p) then negb ok && b else b
  | L_revoke q => if decide (q = p) then false else b
  end.

(** [TryLock] of [p] returned 0, and since then neither did [Unlock] nor was [p]
    unlocked for. *)
Definition owns (p : Z) (ls : list lock_label) : bool := foldl (owner_step p) false ls.

Lemma owner_step_holder p b h l h' :
  ((b = true) <-> h = Some p) -> spec_step h l = Some h' -> ((owner_step p b l = true) <-> h' = Some p).
Proof.
  intros Hb. destruct l as [q ok|q ok|q]; simpl; intros Hs;
    [case_bool_decide as Hok; simplify_eq..|]; simplify_eq;
    case_decide; repeat case_bool_decide; destruct b; naive_solver.
Qed.

(** In a run of the abstract lock the process that owns it by its answers is the
    holder. *)
Lemma owns_holder p ls h : spec_run None ls = Some h -> (owns p ls = true <-> h = Some p).
Proof.
  unfold owns. assert (H0 : (false = true) <-> (@None Z = Some p)) by done. revert H0.
  generalize false, (@None Z). induction ls as [|l ls IH]; intros b h0 Hb; simpl; [by intros [= <-]|].
  intros (h1 & H1 & H2)%bind_Some. eapply IH; [|exact H2]. by eapply owner_step_holder.
Qed.

(** ** Facts on steps *)

Lemma at_pc_Some p m x : at_pc p m = Some x <-> (p ∉ dead m) /\ pcs m p = x.
Proof. unfold at_pc. case_decide; naive_solver. Qed.

Lemma mrun_cons m a l m' ls :
  mrun m (a :: l) = Some (m', ls) <->
  exists m1 o ls', mstep m a = Some (m1, o) /\ mrun m1 l = Some (m', ls') /\ ls = option_list o ++ ls'.
Proof.
  simpl. split.
  - intros ([m1 o] & H1 & ([m2 ls'] & H2 & [= -> <-])%bind_Some)%bind_Some. eauto 7.
  - intros (m1 & o & ls' & -> & H2 & ->). simpl. by rewrite H2.
Qed.

Lemma mrun_app m l k m' ls :
  mrun m (l ++ k) = Some (m', ls) <->
  exists m1 l1 l2, mrun m l = Some (m1, l1) /\ mrun m1 k = Some (m', l2) /\ ls = l1 ++ l2.
Proof.
  revert m ls. induction l as [|a l IH]; intros m ls.
  - simpl. split; [intros H; by exists m, [], ls|by intros (m1 & l1 & l2 & [= <- <-] & H & ->)].
  - rewrite <- app_comm_cons, mrun_cons. split.
    + intros (m1 & o & ls' & H1 & (m2 & l1 & l2 & H2 & H3 & ->)%IH & ->).
      exists m2, (option_list o ++ l1), l2. rewrite mrun_cons, app_assoc. eauto 9.
    + intros (m2 & l1 & l2 & (m1 & o & l1' & H1 & H2 & ->)%mrun_cons & H3 & ->).
      exists m1, o, (l1' ++ l2). rewrite IH, app_assoc. eauto 9.
Qed.

(** Take a step apart by the place the process is at. *)
Ltac mstep_cases H :=
  simpl in H; repeat (case_match; try discriminate H); simplify_eq.

(** A torn [cmpxchgq] is not forgotten. *)
Lemma mstep_torn m a m' o : mstep m a = Some (m', o) -> torn m' = false -> torn m = false.
Proof. intros H. destruct a; mstep_cases H; simpl; try done; by intros [? _]%orb_false_iff. Qed.

Lemma mrun_torn m l m' ls : mrun m l = Some (m', ls) -> torn m' = false -> torn m = false.
Proof.
  revert m ls. induction l as [|a l IH]; intros m ls; [by intros [= <- <-]|].
  intros (m1 & o & ls' & H1 & H2 & ->)%mrun_cons Ht. eapply mstep_torn; [exact H1|]. by eapply IH.
Qed.

(** Only a crash makes a process dead. *)
Lemma mstep_dead m a m' o : mstep m a = Some (m', o) -> (forall p, a <> A_crash p) -> dead m' = dead m.
Proof. intros H Ha. destruct a; [..|by destruct (Ha p)| |]; mstep_cases H; done. Qed.

(** ** The simulation *)

(** While the master clears the word it is that of a dead worker. *)
Definition clearing_ok (m : machine) : Prop :=
  forall d, clearing m = Some d -> word m = d /\ d ∈ dead m.

Record machine_ok (m : machine) : Prop := {
  mo_clearing : clearing_ok m;
  mo_dead : Forall pid_ok (dead m)
}.

Lemma machine0_ok : machine_ok machine0.
Proof. by split. Qed.

Lemma pid_pos p : pid_ok p -> p <> 0.
Proof. unfold pid_ok. lia. Qed.

(** What the write of a [cmpxchgq] leaves in a word that is still what it read. *)
Lemma cas_cases v old n : AtomicCompareAndSet v old n = if v =? old then (n, 1) else (v, 0).
Proof. reflexivity. Qed.

(** One access is at most one step of the abstract lock, and keeps the invariant. *)
Lemma mstep_simulates m a m' o :
  machine_ok m -> access_ok a -> mstep m a = Some (m', o) -> torn m' = false ->
  machine_ok m' /\ spec_opt (holder_of (word m)) o = Some (holder_of (word m')).
Proof.
  intros [Hc Hd] Ha Hs Ht. destruct a as [p|p|p|p|p|d|]; simpl in Ha.
  - simpl in Hs. destruct (at_pc p m) as [[]|]; simplify_eq. destruct (Z.eqb_spec (word m) 0); simplify_eq; [by split|].
    split; [done|]. simpl. rewrite bool_decide_true; [done|]. symmetry. apply bool_decide_false. by rewrite holder_of_None.
  - simpl in Hs. destruct (at_pc p m) as [[]|]; simplify_eq. by split.
  - simpl in Hs. destruct (at_pc p m) as [[]|]; simplify_eq. by split.
  - pose proof (pid_pos p Ha) as Hp0. simpl in Hs. rewrite !(pid_u64 p Ha) in Hs.
    destruct (at_pc p m) as [[| |v|v]|] eqn:Hat; try discriminate Hs; apply at_pc_Some in Hat as [Hal _];
      rewrite cas_cases in Hs.
    + assert (Hw : word m = v).
      { destruct (v =? 0); simplify_eq; simpl in Ht; apply orb_false_iff in Ht as [_ Ht];
          apply negb_false_iff in Ht; by apply Z.eqb_eq. }
      destruct (Z.eqb_spec v 0) as [->|Hv]; simplify_eq; simpl.
      * split; [|rewrite Hw; unfold holder_of; simpl; by rewrite (proj2 (Z.eqb_neq p 0) Hp0)].
        split; [|done]. intros d Hcl. destruct (Hc d Hcl) as [<- Hdd]. simpl in *.
        rewrite Forall_forall in Hd. pose proof (pid_pos _ (Hd _ Hdd)). by rewrite Hw in *.
      * split; [split; [by intros d Hcl; apply Hc|done]|]. rewrite bool_decide_true; [done|].
        symmetry. apply bool_decide_false. by rewrite holder_of_None.
    + assert (Hw : word m = v).
      { destruct (v =? p); simplify_eq; simpl in Ht; apply orb_false_iff in Ht as [_ Ht];
          apply negb_false_iff in Ht; by apply Z.eqb_eq. }
      destruct (Z.eqb_spec v p) as [->|Hv]; simplify_eq; simpl.
      * assert (Hh : holder_of (word m) = Some (word m)) by (by apply holder_of_Some).
        split; [|rewrite Hh; by rewrite bool_decide_true by (by rewrite bool_decide_true)].
        split; [|done]. intros d Hcl. by destruct (Hc d Hcl) as [<- Hdd].
      * split; [split; [by intros d Hcl; apply Hc|done]|]. rewrite bool_decide_true; [done|].
        symmetry. apply bool_decide_false. rewrite holder_of_Some. naive_solver.
  - simpl in Hs. case_decide; simplify_eq. split; [|done].
    split; [|by constructor]. intros d Hcl. destruct (Hc d Hcl) as [? ?]. split; [done|by right].
  - simpl in Hs. case_decide as Hdd; simplify_eq. destruct (Z.eqb_spec (word m) d) as [E|E]; simplify_eq/=.
    + split; [|done]. split; [|done]. intros ? [= <-]. by destruct Hdd.
    + split; [by split|]. rewrite bool_decide_false; [done|]. rewrite holder_of_Some. naive_solver.
  - simpl in Hs. destruct (clearing m) as [d|] eqn:Hcl; simplify_eq/=. destruct (Hc d Hcl) as [<- Hdd].
    split; [by split|]. rewrite bool_decide_true; [done|]. rewrite holder_of_Some. split; [done|].
    rewrite Forall_forall in Hd. by apply pid_pos, Hd.
Qed.

Lemma mrun_simulates m l m' ls :
  machine_ok m -> Forall access_ok l -> mrun m l = Some (m', ls) -> torn m' = false ->
  machine_ok m' /\ spec_run (holder_of (word m)) ls = Some (holder_of (word m')).
Proof.
  intros Hm Hl. revert m ls Hm. induction Hl as [|a l Ha Hl IH]; intros m ls Hm; [by intros [= <- <-]|].
  intros (m1 & o & ls' & H1 & H2 & ->)%mrun_cons Ht.
  destruct (mstep_simulates m a m1 o) as [Hm1 Hs]; [done..|by eapply mrun_torn|].
  rewrite spec_run_opt, Hs. by apply IH.
Qed.

(** ** A [cmpxchgq] that nothing interrupts *)

Lemma read_then_write m p q m1 o1 m2 o2 a :
  a = A_cas_read p \/ a = A_unlock_read p -> p = q ->
  mstep m a = Some (m1, o1) -> mstep m1 (A_cas_write q) = Some (m2, o2) -> torn m2 = torn m.
Proof.
  intros Ha <- H1 H2.
  assert (Hw : word m1 = word m /\ torn m1 = torn m /\ (pcs m1 p = In_TryLock (word m) \/ pcs m1 p = In_Unlock (word m))).
  { destruct Ha as [-> | ->]; simpl in H1; destruct (at_pc p m) as [[]|]; simplify_eq; simpl;
      rewrite fn_lookup_insert; auto. }
  destruct Hw as (Ew & Et & Hpc). simpl in H2. unfold at_pc in H2. case_decide; [done|].
  destruct Hpc as [Hpc|Hpc]; rewrite Hpc, cas_cases in H2; case_match; simplify_eq; simpl;
    rewrite Ew, Z.eqb_refl, Et; apply orb_false_r.
Qed.

(** With the two accesses of every [cmpxchgq] next to each other nothing is torn. *)
Lemma adjacent_untorn n l m m' ls :
  (length l <= n)%nat -> adjacent l = true -> mrun m l = Some (m', ls) -> torn m' = torn m.
Proof.
  revert l m ls. induction n as [|n IH]; intros l m ls Hn Hadj Hrun.
  { destruct l; [|simpl in Hn; lia]. by injection Hrun as <- <-. }
  destruct l as [|a l]; [by injection Hrun as <- <-|]. simpl in Hn.
  apply mrun_cons in Hrun as (m1 & o & ls' & H1 & H2 & ->).
  assert (Hrest : torn m1 = torn m -> adjacent l = true -> torn m' = torn m).
  { intros <- Hl. eapply IH; [|exact Hl|exact H2]. lia. }
  assert (Hread : forall p, a = A_cas_read p \/ a = A_unlock_read p -> torn m1 = torn m).
  { intros p [-> | ->]; simpl in H1; destruct (at_pc p m) as [[]|]; by simplify_eq. }
  assert (Hpair : forall p q l2, l = A_cas_write q :: l2 -> a = A_cas_read p \/ a = A_unlock_read p ->
    bool_decide (p = q) && adjacent l2 = true -> torn m' = torn m).
  { intros p q l2 -> Ha [Hpq%bool_decide_eq_true Hl2]%andb_true_iff.
    apply mrun_cons in H2 as (m2 & o2 & ls2 & H2 & H3 & ->).
    rewrite <- (read_then_write m p q m1 o m2 o2 a Ha Hpq H1 H2).
    eapply IH; [|exact Hl2|exact H3]. simpl in Hn. lia. }
  destruct a as [p|p|p|p|p|d|]; simpl in Hadj; try done.
  - apply Hrest; [|done]. simpl in H1. repeat case_match; by simplify_eq.
  - destruct l as [|[] l2]; try (by apply Hrest; [apply (Hread p); auto|]). eapply Hpair; eauto.
  - destruct l as [|[] l2]; try (by apply Hrest; [apply (Hread p); auto|]). eapply Hpair; eauto.
  - apply Hrest; [|done]. simpl in H1. case_decide; by simplify_eq.
  - apply Hrest; [|done]. simpl in H1. repeat case_match; by simplify_eq.
  - apply Hrest; [|done]. simpl in H1. case_match; by simplify_eq.
Qed.

(** ** A method that runs alone *)

Lemma at_pc_set_pc p x y m : at_pc p m = Some y -> at_pc p (set_pc p x m) = Some x.
Proof. rewrite !at_pc_Some. intros [? _]. split; [done|]. simpl. by rewrite fn_lookup_insert. Qed.

(** [TryLock] of a free lock. *)
Lemma TryLock_free p m :
  at_pc p m = Some Idle -> word m = 0 ->
  mrun m [A_test p; A_cas_read p; A_cas_write p] =
    Some (cas_write p 0 (u64 p) (set_pc p (In_TryLock 0) (set_pc p Tested m)), [L_try p true]).
Proof.
  intros Hat Hw. pose proof (at_pc_set_pc p Tested _ _ Hat) as H1. pose proof (at_pc_set_pc p (In_TryLock 0) _ _ H1) as H2.
  cbn [mrun mstep]. rewrite Hat, Hw. cbn [Z.eqb mbind option_bind]. rewrite H1.
  change (word (set_pc p Tested m)) with (word m). rewrite Hw. cbn [mbind option_bind]. by rewrite H2.
Qed.

(** The accesses of [TryLock], [Unlock] and [ForcedUnlockIfNeed] one after the other
    are the functions of [Mutex]. *)
Lemma TryLock_alone p m :
  at_pc p m = Some Idle ->
  exists l m' ret, mrun m l = Some (m', [L_try p (ret =? 0)]) /\
    AtomicMtx_TryLock p (mkAtomicMtx (Some (word m))) = (ret, mkAtomicMtx (Some (word m'))).
Proof.
  intros Hat. unfold AtomicMtx_TryLock, AtomicMtx_TryLock_with. cbn [ptr_].
  destruct (Z.eqb_spec (word m) 0) as [E|E].
  - exists [A_test p; A_cas_read p; A_cas_write p]. rewrite (TryLock_free p m Hat E). rewrite E.
    eexists _, 0. split; reflexivity.
  - exists [A_test p]. cbn [mrun mstep]. rewrite Hat, (proj2 (Z.eqb_neq _ _) E). eexists _, (-1). split; reflexivity.
Qed.

Lemma Unlock_alone p m :
  at_pc p m = Some Idle ->
  exists l m' ret, mrun m l = Some (m', [L_release p (ret =? 0)]) /\
    AtomicMtx_Unlock p (mkAtomicMtx (Some (word m))) = (ret, mkAtomicMtx (Some (word m'))).
Proof.
  intros Hat. exists [A_unlock_read p; A_cas_write p]. pose proof (at_pc_set_pc p (In_Unlock (word m)) _ _ Hat) as H1.
  unfold AtomicMtx_Unlock, AtomicMtx_Unlock_with. cbn [ptr_ mrun mstep]. rewrite Hat. cbn [mbind option_bind].
  rewrite H1, cas_cases. destruct (word m =? u64 p); [eexists _, 0|eexists _, (-1)]; split; reflexivity.
Qed.

Lemma ForcedUnlock_alone d m :
  d ∈ dead m -> clearing m = None ->
  exists l m', mrun m l = Some (m', [L_revoke d]) /\
    AtomicMtx_ForcedUnlock d (mkAtomicMtx (Some (word m))) = Some (0, mkAtomicMtx (Some (word m'))).
Proof.
  intros Hd Hc. unfold AtomicMtx_ForcedUnlock. cbn [ptr_]. destruct (Z.eqb_spec (word m) d) as [E|E].
  - exists [A_force_read d; A_force_write]. cbn [mrun mstep]. rewrite decide_True, (proj2 (Z.eqb_eq _ _) E) by done.
    eexists. split; reflexivity.
  - exists [A_force_read d]. cbn [mrun mstep]. rewrite decide_True, (proj2 (Z.eqb_neq _ _) E) by done.
    eexists. split; reflexivity.
Qed.

(** ** Claims *)

(** C12: The lock implements its specification: in every interleaving of the memory
    accesses of any number of processes and a master - the test of [TryLock], the
    read and the write of each [cmpxchgq], the read and the write of
    [ForcedUnlockIfNeed], workers killed between any two accesses - in which no
    [cmpxchgq] is torn, that is, every one writes to a word that is still what it
    read, the answers of [TryLock], [Unlock] and [ForcedUnlockIfNeed], in the order
    of the returns, are those of an abstract lock with at most one holder.  The
    word at the end is the identifier of that holder, or 0; and a process owns the
    lock by the answers it got exactly when it is the holder, so that no two do. *)
Theorem atomic_lock_refines l m ls :
  Forall access_ok l -> mrun machine0 l = Some (m, ls) -> torn m = false ->
  spec_run None ls = Some (holder_of (word m)) /\
  (forall p, owns p ls = true <-> word m = p /\ p <> 0) /\
  (forall p q, owns p ls = true -> owns q ls = true -> p = q).
Proof.
  intros Hl Hrun Ht. destruct (mrun_simulates _ _ _ _ machine0_ok Hl Hrun Ht) as [_ Hs]. split; [exact Hs|].
  assert (Hown : forall p, owns p ls = true <-> word m = p /\ p <> 0).
  { intros p. rewrite (owns_holder p ls _ Hs). apply holder_of_Some. }
  split; [exact Hown|]. intros p q [<- _]%Hown [<- _]%Hown. done.
Qed.

(** Two processes pass the test; the second one's compare fails; the first one is
    killed as the holder; a third one sees the lock taken between the two accesses of
    the master's unlock; then it gets the lock and gives it back. *)
Definition race : list lock_access := [
  A_test 10; A_test 11; A_cas_read 10; A_cas_write 10; A_cas_read 11; A_cas_write 11; A_crash 10;
  A_force_read 10; A_test 12; A_force_write; A_test 12; A_cas_read 12; A_cas_write 12;
  A_unlock_read 12; A_cas_write 12; A_test 11].

Lemma atomic_lock_refines_witness :
  match mrun machine0 race with
  | Some (m, ls) =>
      ls = [L_try 10 true; L_try 11 false; L_try 12 false; L_revoke 10; L_try 12 true; L_release 12 true] /\
      spec_run None ls = Some (holder_of (word m)) /\ pcs m 11 = Tested
  | None => False
  end.
Proof.
  destruct (mrun machine0 race) as [[m ls]|] eqn:E; [|discriminate E].
  assert (Hl : Forall access_ok race) by (repeat constructor).
  assert (Ht : torn m = false) by (injection E as <- <-; reflexivity).
  pose proof (proj1 (atomic_lock_refines race m ls Hl E Ht)) as H. split; [by injection E as <- <-|].
  split; [exact H|by injection E as <- <-].
Defined.

(** The condition is needed, and the code does not meet it on several processors:
    with the reads of two [cmpxchgq] before their writes both processes get the
    lock. *)
Theorem split_cas_two_owners :
  exists l m ls, Forall access_ok l /\ mrun machine0 l = Some (m, ls) /\ torn m = true /\
    owns 10 ls = true /\ owns 11 ls = true /\ spec_run None ls = None.
Proof.
  exists [A_test 10; A_test 11; A_cas_read 10; A_cas_read 11; A_cas_write 10; A_cas_write 11].
  destruct (mrun machine0 _) as [[m ls]|] eqn:E; [|discriminate E].
  exists m, ls. injection E as <- <-. split; [repeat constructor|]. repeat split.
Qed.

(** A lock is not lost with its holder: after any such interleaving in which the
    holder was killed, wherever the others are, the two accesses of the master's
    [ForcedUnlockIfNeed] free the word, and a process that then calls [TryLock]
    without interference gets the lock. *)
Theorem killed_holder_recovers l m ls p q :
  Forall access_ok l -> mrun machine0 l = Some (m, ls) -> torn m = false -> clearing m = None ->
  owns p ls = true -> p ∈ dead m -> at_pc q m = Some Idle -> pid_ok q ->
  exists m', mrun m [A_force_read p; A_force_write; A_test q; A_cas_read q; A_cas_write q] =
    Some (m', [L_revoke p; L_try q true]) /\ word m' = q /\ torn m' = false.
Proof.
  intros Hl Hrun Ht Hcl Hp Hd Hq Hqok. destruct (mrun_simulates _ _ _ _ machine0_ok Hl Hrun Ht) as [_ Hs].
  apply (owns_holder p ls _ Hs), holder_of_Some in Hp as [E _]. set (m1 := set_clearing None 0 (set_clearing (Some p) p m)).
  assert (H1 : mrun m [A_force_read p; A_force_write] = Some (m1, [L_revoke p])).
  { cbn [mrun mstep]. by rewrite decide_True, E, Z.eqb_refl by done. }
  pose proof (TryLock_free q m1 Hq eq_refl) as H2. rewrite (pid_u64 q Hqok) in H2.
  assert (H3 : mrun m ([A_force_read p; A_force_write] ++ [A_test q; A_cas_read q; A_cas_write q]) =
    Some (cas_write q 0 q (set_pc q (In_TryLock 0) (set_pc q Tested m1)), [L_revoke p] ++ [L_try q true])).
  { apply mrun_app. eauto 6. }
  eexists. split; [exact H3|]. split; [done|]. simpl. by rewrite Ht.
Qed.

Lemma killed_holder_recovers_witness :
  exists m', mrun machine0 (take 7 race ++ [A_force_read 10; A_force_write; A_test 12; A_cas_read 12; A_cas_write 12]) =
    Some (m', [L_try 10 true; L_try 11 false; L_revoke 10; L_try 12 true]) /\ word m' = 12.
Proof.
  destruct (mrun machine0 (take 7 race)) as [[m ls]|] eqn:E; [|discriminate E].
  assert (Hf : ls = [L_try 10 true; L_try 11 false] /\ torn m = false /\ clearing m = None /\ dead m = [10] /\ at_pc 12 m = Some Idle)
    by (by injection E as <- <-).
  destruct Hf as (Els & Ht & Hc & Hd & Hq).
  destruct (killed_holder_recovers (take 7 race) m ls 10 12 ltac:(repeat constructor) E Ht Hc
    ltac:(by rewrite Els) ltac:(rewrite Hd; left) Hq ltac:(by split)) as (m' & H & Hw & _).
  exists m'. split; [|exact Hw]. apply mrun_app. exists m, ls, [L_revoke 10; L_try 12 true].
  split; [exact E|]. split; [exact H|]. by rewrite Els.
Defined.
