(* ===== verification/HttpMsg.v ===== *)
(** * HTTP messages: http_request.{h,cc} and http_response.{h,cc}

    Requests and responses with every accessor, and their serialisation.
    [std::unordered_map] is a finite map together with an iteration order the
    library does not specify: the class [IterOrder] is what the code relies on. *)

From S2P Require Import Prelude CStr.

Abbreviation headers := (gmap bytes bytes).

(** The order in which a [for] loop sees the entries of an [unordered_map]: every
    entry once. *)
Class IterOrder := {
  iter : headers -> list (bytes * bytes);
  iter_perm m : iter m ≡ₚ map_to_list m
}.

#[export] Instance canonical_order : IterOrder := {
  iter := map_to_list;
  iter_perm m := Permutation_refl _
}.

Definition crlf : bytes := [Ascii.ascii_of_nat 13; Ascii.ascii_of_nat 10].

(** ** URL *)

Record URL := mkURL {
  schema : bytes;
  host : bytes;
  port : Z;
  uri : bytes;
  path : bytes;
  query : bytes;
  fragment : bytes;
  userinfo : bytes;
  query_params : headers
}.

Definition URL_default : URL := mkURL [] [] 0 [] [] [] [] [] ∅.

Definition IsHttps (u : URL) : bool := 443 =? port u.
Definition IsSet (u : URL) (param : bytes) : bool := bool_decide (is_Some (query_params u !! param)).

(** ** HttpRequest *)

Definition HTTP_REQUEST_METHOD_UNKNOWN : Z := -1.
Definition HTTP_REQUEST_METHOD_GET : Z := 0.
Definition HTTP_REQUEST_METHOD_POST : Z := 1.

Record HttpRequest := mkHttpRequest {
  method_ : Z;
  struri_ : bytes;
  uri_ : URL;
  content_ : bytes;
  headers_ : headers;
  keepalive_ : bool
}.

Definition HttpRequest_new : HttpRequest :=
  mkHttpRequest (u8 HTTP_REQUEST_METHOD_UNKNOWN) [] URL_default [] ∅ false.

Definition SetMethod (method : Z) (r : HttpRequest) : HttpRequest :=
  mkHttpRequest (u8 method) (struri_ r) (uri_ r) (content_ r) (headers_ r) (keepalive_ r).
Definition SetUri (url : bytes) (r : HttpRequest) : HttpRequest :=
  mkHttpRequest (method_ r) url (uri_ r) (content_ r) (headers_ r) (keepalive_ r).
Definition set_headers (h : headers) (r : HttpRequest) : HttpRequest :=
  mkHttpRequest (method_ r) (struri_ r) (uri_ r) (content_ r) h (keepalive_ r).
Definition set_uri_obj (u : URL) (r : HttpRequest) : HttpRequest :=
  mkHttpRequest (method_ r) (struri_ r) u (content_ r) (headers_ r) (keepalive_ r).
Definition SetHeader (field value : bytes) (r : HttpRequest) : HttpRequest :=
  set_headers (<[field := value]> (headers_ r)) r.
Definition UnsetHeader (field : bytes) (r : HttpRequest) : HttpRequest :=
  set_headers (delete field (headers_ r)) r.
Definition SetKeepAlive (b : bool) (r : HttpRequest) : HttpRequest :=
  mkHttpRequest (method_ r) (struri_ r) (uri_ r) (content_ r) (headers_ r) b.
Definition SetContent (content : bytes) (r : HttpRequest) : HttpRequest :=
  mkHttpRequest (method_ r) (struri_ r) (uri_ r) content
    (<[lit "Content-Length" := to_string (blen content)]> (headers_ r)) (keepalive_ r).

Definition GetMethod (r : HttpRequest) : Z := method_ r.
Definition GetUri (r : HttpRequest) : bytes := struri_ r.
Definition KeepAlive (r : HttpRequest) : bool := keepalive_ r.
Definition GetUriObj (r : HttpRequest) : URL := uri_ r.
Definition GetHeader (header : bytes) (r : HttpRequest) : bytes := default [] (headers_ r !! header).
Definition GetContent (r : HttpRequest) : bytes := content_ r.
Definition IsHeader (header : bytes) (r : HttpRequest) : bool :=
  bool_decide (is_Some (headers_ r !! header)).

(** [uri_] and [keepalive_] keep their values. *)
Definition Request_Clear (r : HttpRequest) : HttpRequest :=
  mkHttpRequest (u8 HTTP_REQUEST_METHOD_UNKNOWN) [] (uri_ r) [] ∅ (keepalive_ r).

(** ** HttpResponse *)

Record HttpResponse := mkHttpResponse {
  status : Z;
  content : bytes;
  rsp_headers : headers
}.

Definition HttpResponse_new : HttpResponse := mkHttpResponse 200 [] ∅.
Definition HttpResponse_new_with (cnt content_type : bytes) (st : Z) : HttpResponse :=
  mkHttpResponse st cnt {[ lit "content_type" := content_type ]}.

Definition Response_SetHeader (field value : bytes) (r : HttpResponse) : HttpResponse :=
  mkHttpResponse (status r) (content r) (<[field := value]> (rsp_headers r)).
Definition Response_UnsetHeader (field : bytes) (r : HttpResponse) : HttpResponse :=
  mkHttpResponse (status r) (content r) (delete field (rsp_headers r)).
Definition SetStatus (st : Z) (r : HttpResponse) : HttpResponse :=
  mkHttpResponse st (content r) (rsp_headers r).
Definition Response_SetContent (cnt : bytes) (r : HttpResponse) : HttpResponse :=
  mkHttpResponse (status r) cnt
    (<[lit "Content-Length" := to_string (blen cnt)]> (rsp_headers r)).
Definition GetStatus (r : HttpResponse) : Z := status r.
Definition Response_GetContent (r : HttpResponse) : bytes := content r.
Definition Response_GetHeader (header : bytes) (r : HttpResponse) : bytes :=
  default [] (rsp_headers r !! header).
Definition GetHeaders (r : HttpResponse) : headers := rsp_headers r.
Definition Response_Clear (r : HttpResponse) : HttpResponse := mkHttpResponse 200 [] ∅.

(** ** Serialisation *)

Section serialize.
Context {IO : IterOrder}.

(** The loop over [headers_]: entries with an empty value are left out. *)
Fixpoint write_headers (l : list (bytes * bytes)) : bytes :=
  match l with
  | [] => []
  | (k, v) :: l =>
      if decide (v = []) then write_headers l
      else k ++ lit ": " ++ v ++ crlf ++ write_headers l
  end.

(** The result and [*output]. *)
Definition Request_SerializeToString (r : HttpRequest) (output : bytes) : bool * bytes :=
  let verb :=
    if method_ r =? HTTP_REQUEST_METHOD_GET then Some (lit "GET ")
    else if method_ r =? HTTP_REQUEST_METHOD_POST then Some (lit "POST ")
    else None in
  match verb with
  | None => (false, output)
  | Some verb =>
      (true, verb ++ struri_ r ++ lit " " ++ lit "HTTP/1.1" ++ crlf ++
             write_headers (iter (headers_ r)) ++ crlf ++ content_ r)
  end.

Definition Request_Serialize (r : HttpRequest) : bytes := snd (Request_SerializeToString r []).

Definition reason (st : Z) : bytes :=
  if st =? 200 then lit "OK"
  else if st =? 400 then lit "Bad Request"
  else if st =? 404 then lit "Not Found"
  else if st =? 500 then lit "Internal Server Error"
  else [].

Definition Response_SerializeToString (r : HttpResponse) (output : bytes) : bool * bytes :=
  (true, lit "HTTP/1.1 " ++ to_string (status r) ++ lit " " ++ reason (status r) ++ crlf ++
         write_headers (iter (rsp_headers r)) ++ crlf ++ content r).

Definition Response_Serialize (r : HttpResponse) : bytes := snd (Response_SerializeToString r []).

End serialize.

(** ** A reference reader of the wire format

    Not part of the program: what the peer of an HTTP/1.1 connection does with a
    message.  The round trips below say that it gets back what was sent. *)

(** The parts of [s] before and after the first occurrence of [d]. *)
Fixpoint cut (d s : bytes) : option (bytes * bytes) :=
  if decide (take (length d) s = d) then Some ([], drop (length d) s)
  else match s with
       | [] => None
       | c :: s => '(a, b) ← cut d s; Some (c :: a, b)
       end.

(** Header lines up to the empty line; [n] bounds their number. *)
Fixpoint read_headers (n : nat) (s : bytes) : option (list (bytes * bytes) * bytes) :=
  match n with
  | O => None
  | S n =>
      '(line, rest) ← cut crlf s;
      if decide (line = []) then Some ([], rest)
      else '(k, v) ← cut (lit ": ") line;
           '(hs, body) ← read_headers n rest;
           Some ((k, v) :: hs, body)
  end.

Definition read_request (s : bytes) : option (bytes * bytes * headers * bytes) :=
  '(verb, s) ← cut (lit " ") s;
  '(target, s) ← cut (lit " ") s;
  '(version, s) ← cut crlf s;
  if decide (version = lit "HTTP/1.1") then
    '(hs, body) ← read_headers (S (length s)) s;
    Some (verb, target, list_to_map hs, body)
  else None.

Definition read_response (s : bytes) : option (bytes * headers * bytes) :=
  '(version, s) ← cut (lit " ") s;
  '(code, s) ← cut (lit " ") s;
  '(_, s) ← cut crlf s;
  if decide (version = lit "HTTP/1.1") then
    '(hs, body) ← read_headers (S (length s)) s;
    Some (code, list_to_map hs, body)
  else None.

(** ** The reader undoes the writer *)

Lemma cut_first c d a b : c ∉ a -> cut (c :: d) (a ++ (c :: d) ++ b) = Some (a, b).
Proof.
  induction a as [|x a IH]; intros Ha.
  - change ([] ++ (c :: d) ++ b) with (c :: (d ++ b)). unfold cut.
    rewrite decide_True by (simpl; by rewrite take_app_length). simpl. by rewrite drop_app_length.
  - simpl. rewrite decide_False by (intros [= -> _]; set_solver).
    simpl in IH. rewrite IH by set_solver. done.
Qed.

Definition CR : ascii := Ascii.ascii_of_nat 13.

Lemma cut_crlf a b : CR ∉ a -> cut crlf (a ++ crlf ++ b) = Some (a, b).
Proof. exact (cut_first CR [Ascii.ascii_of_nat 10] a b). Qed.
Lemma cut_colon a b : ":"%char ∉ a -> cut (lit ": ") (a ++ lit ": " ++ b) = Some (a, b).
Proof. exact (cut_first ":"%char [" "%char] a b). Qed.
Lemma cut_space a b : " "%char ∉ a -> cut (lit " ") (a ++ lit " " ++ b) = Some (a, b).
Proof. exact (cut_first " "%char [] a b). Qed.

(** A header that can be sent: the characters that end a name or a line do not
    occur in it. *)
Definition header_ok (h : bytes * bytes) : Prop :=
  (CR ∉ h.1) /\ (":"%char ∉ h.1) /\ (CR ∉ h.2).

#[export] Instance header_ok_dec h : Decision (header_ok h).
Proof. unfold header_ok. apply _. Defined.

(** A check that evaluates. *)
Lemma headers_check (h : headers) :
  bool_decide (Forall header_ok (map_to_list h)) = true -> map_Forall (fun k v => header_ok (k, v)) h.
Proof.
  intros H%bool_decide_eq_true_1 k v Hkv. rewrite Forall_forall in H.
  by apply H, elem_of_map_to_list.
Qed.

Definition nonempty_value (h : bytes * bytes) : Prop := h.2 <> [].
#[export] Instance nonempty_value_dec h : Decision (nonempty_value h).
Proof. unfold nonempty_value. apply _. Defined.

Lemma write_headers_length l :
  (length (filter nonempty_value l) <= length (write_headers l))%nat.
Proof.
  induction l as [|[k v] l IH]; [done|]. rewrite filter_cons. simpl write_headers.
  destruct (decide (nonempty_value (k, v))) as [E|E], (decide (v = [])) as [E'|E'];
    [by destruct E| |done|by destruct E].
  repeat (rewrite !length_app; simpl). lia.
Qed.

Lemma write_headers_cons k v l :
  write_headers ((k, v) :: l) =
  if decide (v = []) then write_headers l else k ++ lit ": " ++ v ++ crlf ++ write_headers l.
Proof. done. Qed.

Lemma read_headers_write l body n :
  Forall header_ok l -> (length (filter nonempty_value l) < n)%nat ->
  read_headers n (write_headers l ++ crlf ++ body) = Some (filter nonempty_value l, body).
Proof.
  intros Hok. revert n. induction Hok as [|[k v] l (Hk1 & Hk2 & Hv) Hl IH]; intros n Hn.
  - destruct n as [|n]; [simpl in Hn; lia|]. cbn [read_headers].
    change (write_headers [] ++ crlf ++ body) with ([] ++ crlf ++ body).
    by rewrite cut_crlf by (apply not_elem_of_nil).
  - rewrite filter_cons in Hn |- *. simpl in Hk1, Hk2, Hv. rewrite write_headers_cons.
    destruct (decide (nonempty_value (k, v))) as [E|E], (decide (v = [])) as [E'|E'];
      [by destruct E| |by apply IH|by destruct E].
    simpl in Hn. destruct n as [|n]; [lia|]. cbn [read_headers]. rewrite <- !app_assoc.
    rewrite (app_assoc k), (app_assoc (k ++ lit ": ")), <- (app_assoc k).
    rewrite cut_crlf.
    2:{ assert (Hc : CR ∉ lit ": ") by (by apply (bool_decide_unpack (CR ∉ lit ": "))).
        by intros [?|[?|?]%elem_of_app]%elem_of_app. }
    cbn [mbind option_bind]. rewrite decide_False by (by destruct k).
    rewrite cut_colon by done. cbn [mbind option_bind]. by rewrite IH by lia.
Qed.

Lemma list_to_map_iter {IO : IterOrder} m :
  list_to_map (filter nonempty_value (iter m)) = filter nonempty_value m.
Proof.
  assert (Hnd : NoDup ((filter nonempty_value (iter m)).*1)).
  { eapply sublist_NoDup; [|apply fmap_sublist, sublist_filter].
    rewrite iter_perm. apply NoDup_fst_map_to_list. }
  apply map_eq. intros k. apply option_eq. intros v.
  rewrite <- elem_of_list_to_map by done.
  rewrite list_elem_of_filter, iter_perm, elem_of_map_to_list, map_lookup_filter_Some. tauto.
Qed.

(** What may be sent as a request line and headers. *)
Definition sendable (target : bytes) (h : headers) : Prop :=
  (" "%char ∉ target) /\ map_Forall (fun k v => header_ok (k, v)) h.

Lemma iter_header_ok {IO : IterOrder} h :
  map_Forall (fun k v => header_ok (k, v)) h -> Forall header_ok (iter h).
Proof.
  intros Hh. rewrite Forall_forall. intros [k v]. rewrite iter_perm, elem_of_map_to_list. apply Hh.
Qed.

Lemma read_headers_iter {IO : IterOrder} h body :
  map_Forall (fun k v => header_ok (k, v)) h ->
  read_headers (S (length (write_headers (iter h) ++ crlf ++ body)))
    (write_headers (iter h) ++ crlf ++ body) = Some (filter nonempty_value (iter h), body).
Proof.
  intros Hh. apply read_headers_write; [by apply iter_header_ok|].
  pose proof (write_headers_length (iter h)). rewrite !length_app. lia.
Qed.

Lemma Request_read {IO : IterOrder} r output :
  (method_ r = HTTP_REQUEST_METHOD_GET \/ method_ r = HTTP_REQUEST_METHOD_POST) ->
  sendable (struri_ r) (headers_ r) ->
  exists out, Request_SerializeToString r output = (true, out) /\
    read_request out =
      Some (if method_ r =? HTTP_REQUEST_METHOD_GET then lit "GET" else lit "POST",
            struri_ r, filter nonempty_value (headers_ r), content_ r).
Proof.
  intros Hm [Ht Hh]. unfold Request_SerializeToString.
  set (rest := write_headers (iter (headers_ r)) ++ crlf ++ content_ r).
  assert (Hread : forall verb, " "%char ∉ verb ->
    read_request (verb ++ lit " " ++ struri_ r ++ lit " " ++ lit "HTTP/1.1" ++ crlf ++ rest) =
    Some (verb, struri_ r, filter nonempty_value (headers_ r), content_ r)).
  { intros verb Hv. unfold read_request. rewrite cut_space by done. cbn [mbind option_bind].
    rewrite cut_space by done. cbn [mbind option_bind].
    rewrite cut_crlf by (by apply (bool_decide_unpack (CR ∉ lit "HTTP/1.1"))). cbn [mbind option_bind].
    rewrite decide_True by done. unfold rest. rewrite read_headers_iter by done.
    cbn [mbind option_bind]. by rewrite list_to_map_iter. }
  destruct Hm as [-> | ->]; eexists; (split; [reflexivity|]); [exact (Hread (lit "GET") ltac:(by apply (bool_decide_unpack (" "%char ∉ lit "GET"))))|
    exact (Hread (lit "POST") ltac:(by apply (bool_decide_unpack (" "%char ∉ lit "POST"))))].
Qed.

(** ** Claims *)

(** What [HttpRequest::SerializeToString] writes is what a reader of HTTP/1.1
    gets: for a GET or POST request whose target has no blank and whose headers
    have no CR (nor ':' in a name), whatever order the hash table is iterated in,
    the reader gets the verb, the target, exactly the headers with a non-empty
    value, and the body, byte for byte. *)
Theorem request_round_trip {IO : IterOrder} r output :
  (method_ r = HTTP_REQUEST_METHOD_GET \/ method_ r = HTTP_REQUEST_METHOD_POST) ->
  sendable (struri_ r) (headers_ r) ->
  exists out, Request_SerializeToString r output = (true, out) /\
    read_request out =
      Some (if method_ r =? HTTP_REQUEST_METHOD_GET then lit "GET" else lit "POST",
            struri_ r, filter nonempty_value (headers_ r), content_ r).
Proof. exact (Request_read r output). Qed.

Definition demo_request : HttpRequest :=
  SetContent (lit "hello") (SetHeader (lit "Host") (lit "example.org")
    (SetHeader (lit "X-Empty") [] (SetUri (lit "/index") (SetMethod HTTP_REQUEST_METHOD_POST HttpRequest_new)))).

Lemma request_round_trip_witness :
  exists out, Request_SerializeToString demo_request [] = (true, out) /\
    read_request out = Some (lit "POST", lit "/index",
      filter nonempty_value (headers_ demo_request), lit "hello").
Proof.
  apply (request_round_trip demo_request []); [right; reflexivity|].
  split; [by apply (bool_decide_unpack (" "%char ∉ lit "/index"))|].
  apply headers_check. vm_compute. reflexivity.
Defined.

(** The same for [HttpResponse::SerializeToString]: a response with a
    non-negative status is read back with its status code in decimal, exactly its
    headers with a non-empty value and its body. *)
Theorem response_round_trip {IO : IterOrder} r output :
  0 <= status r -> map_Forall (fun k v => header_ok (k, v)) (rsp_headers r) ->
  exists out, Response_SerializeToString r output = (true, out) /\
    read_response out =
      Some (to_string (status r), filter nonempty_value (rsp_headers r), content r).
Proof.
  intros Hs Hh. eexists. split; [reflexivity|]. unfold read_response.
  change (lit "HTTP/1.1 ") with (lit "HTTP/1.1" ++ lit " "). rewrite <- app_assoc.
  rewrite cut_space by (by apply (bool_decide_unpack (" "%char ∉ lit "HTTP/1.1"))).
  cbn [mbind option_bind]. rewrite cut_space by auto with tinyco. cbn [mbind option_bind].
  assert (Hr : CR ∉ reason (status r)).
  { unfold reason. repeat case_match; by apply (bool_decide_unpack (CR ∉ _)). }
  rewrite cut_crlf by done. cbn [mbind option_bind]. rewrite decide_True by done.
  rewrite read_headers_iter by done. cbn [mbind option_bind]. by rewrite list_to_map_iter.
Qed.

Lemma response_round_trip_witness :
  exists out, Response_SerializeToString (Response_SetContent (lit "hi") HttpResponse_new) [] = (true, out) /\
    read_response out = Some (to_string 200,
      filter nonempty_value (rsp_headers (Response_SetContent (lit "hi") HttpResponse_new)), lit "hi").
Proof.
  apply (response_round_trip (Response_SetContent (lit "hi") HttpResponse_new) []); [discriminate|].
  apply headers_check. vm_compute. reflexivity.
Defined.

