(* ===== verification/HttpTool.v ===== *)
(** * The HTTP parser: http_tool.{h,cc}

    [HttpParserImpl] drives the third-party http-parser and curl's unescaping.
    What these compute is a parameter ([HttpLib]): http-parser is a function of
    the kind of message, of the callbacks that stop or redirect it, and of the
    buffer, which yields the callbacks in order, the bytes it consumed, the method
    and the status code.  The callbacks of the framework are functions on the
    object they fill; [None] is an exception or a failed assertion. *)

From S2P Require Import Prelude CStr HttpMsg.

(** ** What the libraries provide *)

Inductive parser_type := HTTP_REQUEST | HTTP_RESPONSE | HTTP_BOTH.

Inductive callback :=
  | on_url (at_ : bytes)
  | on_header_field (at_ : bytes)
  | on_header_value (at_ : bytes)
  | on_body (at_ : bytes)
  | on_message_complete.

#[export] Instance callback_eq_dec : EqDecision callback.
Proof. solve_decision. Defined.

(** The callbacks whose result the parser obeys: [on_headers_complete] returning 2
    (no body follows) and [on_message_complete] returning non-zero (stop). *)
Record settings := mkSettings { skip_body : bool; stop_at_end : bool }.

Record parsed := mkParsed {
  p_callbacks : list callback;
  p_nparsed : Z;
  p_method : Z;
  p_status_code : Z
}.

(** [http_parser_url]: the offset and length of each field that is set. *)
Record http_parser_url := mkUrlFields {
  UF_SCHEMA : option (Z * Z);
  UF_HOST : option (Z * Z);
  UF_PORT : option (Z * Z);
  UF_PATH : option (Z * Z);
  UF_QUERY : option (Z * Z);
  UF_FRAGMENT : option (Z * Z);
  UF_USERINFO : option (Z * Z)
}.

Class HttpLib := {
  http_parser_execute : parser_type -> settings -> bytes -> parsed;
  http_parser_parse_url : bytes -> option http_parser_url;
  curl_unescape : bytes -> bytes
}.

(** Method numbers of http-parser. *)
Definition HTTP_GET : Z := 1.
Definition HTTP_POST : Z := 3.

(** [std::string(&s[off], len)] *)
Definition substr (s : bytes) (f : Z * Z) : bytes :=
  take (Z.to_nat (snd f)) (drop (Z.to_nat (fst f)) s).

Section tool.
Context {HL : HttpLib}.

(** ** URLs *)

(** [has_and_set]: the member is assigned only when the field is set. *)
Definition has_and_set (f : option (Z * Z)) (s old : bytes) : bytes :=
  match f with Some f => substr s f | None => old end.

(** The loop over the [&]-separated parameters. *)
Fixpoint parse_query (query_kv : list bytes) (params : headers) : headers :=
  match query_kv with
  | [] => params
  | ite :: query_kv =>
      match Split ite "="%char with
      | k :: v :: _ => parse_query query_kv (<[curl_unescape k := curl_unescape v]> params)
      | _ => parse_query query_kv params
      end
  end.

Definition parse_port (hpurl : http_parser_url) (s new_schema : bytes) : option Z :=
  match UF_PORT hpurl with
  | Some f => u32 <$> stoul (substr s f)
  | None =>
      Some (match UF_SCHEMA hpurl with
            | Some _ => if decide (new_schema = lit "http") then 80 else 443
            | None => 80
            end)
  end.

(** The part of [s] from the path on, as the code cuts it. *)
Definition parse_uri (hpurl : http_parser_url) (s old : bytes) : option bytes :=
  match UF_PATH hpurl with
  | Some (off, _) =>
      let n := u64 (blen s - off - 1) in
      if n <=? blen s - off then Some (substr s (off, n)) else None
  | None => Some old
  end.

Definition ParseUrl (s : bytes) (url : URL) : option (Z * URL) :=
  match http_parser_parse_url s with
  | None => Some (-1, url)
  | Some hpurl =>
      let schema' := has_and_set (UF_SCHEMA hpurl) s (schema url) in
      let host' := has_and_set (UF_HOST hpurl) s (host url) in
      port' ← parse_port hpurl s schema';
      let path' := has_and_set (UF_PATH hpurl) s (path url) in
      uri' ← parse_uri hpurl s (uri url);
      let uri' := if decide (uri' = []) then lit "/" else uri' in
      let query' := has_and_set (UF_QUERY hpurl) s (query url) in
      let fragment' := has_and_set (UF_FRAGMENT hpurl) s (fragment url) in
      let userinfo' := has_and_set (UF_USERINFO hpurl) s (userinfo url) in
      Some (0, mkURL schema' host' port' uri' path' query' fragment' userinfo'
                 (parse_query (Split query' "&"%char) (query_params url)))
  end.

(** ** Callbacks *)

(** [HttpParserParam]: the object being filled and the header strings. *)
Record HttpParserParam (T : Type) := mkParam { http_struct : T; hpp_headers : list bytes }.
Arguments mkParam {T} _ _.
Arguments http_struct {T} _.
Arguments hpp_headers {T} _.

Definition header_field_cb {T} (p : HttpParserParam T) (at_ : bytes) : HttpParserParam T :=
  mkParam (http_struct p) (hpp_headers p ++ [at_]).
Definition header_value_cb {T} (p : HttpParserParam T) (at_ : bytes) : HttpParserParam T :=
  mkParam (http_struct p) (hpp_headers p ++ [at_]).

Definition request_url_cb (p : HttpParserParam HttpRequest) (at_ : bytes) :
    option (HttpParserParam HttpRequest) :=
  let r := SetUri at_ (http_struct p) in
  '(_, u) ← ParseUrl (GetUri r) (GetUriObj r);
  Some (mkParam (set_uri_obj u r) (hpp_headers p)).

(** [request_body_cb], for the class of message whose [SetContent] is given. *)
Definition request_body_cb {T} (set : bytes -> T -> T) (p : HttpParserParam T) (at_ : bytes) :
    HttpParserParam T := mkParam (set at_ (http_struct p)) (hpp_headers p).

(** The flag that [parser->data] points to becomes 1. *)
Definition http_complete (c : callback) (complete : Z) : Z :=
  match c with on_message_complete => 1 | _ => complete end.

Definition request_callback (body : bool) (c : callback) (p : HttpParserParam HttpRequest) :
    option (HttpParserParam HttpRequest) :=
  match c with
  | on_url b => request_url_cb p b
  | on_header_field b => Some (header_field_cb p b)
  | on_header_value b => Some (header_value_cb p b)
  | on_body b => Some (if body then request_body_cb SetContent p b else p)
  | on_message_complete => Some p
  end.

Definition response_callback (c : callback) (p : HttpParserParam HttpResponse) :
    HttpParserParam HttpResponse :=
  match c with
  | on_header_field b => header_field_cb p b
  | on_header_value b => header_value_cb p b
  | on_body b => request_body_cb Response_SetContent p b
  | on_url _ | on_message_complete => p
  end.

Fixpoint run_request_callbacks (body : bool) (l : list callback) (p : HttpParserParam HttpRequest) :
    option (HttpParserParam HttpRequest) :=
  match l with
  | [] => Some p
  | c :: l => p ← request_callback body c p; run_request_callbacks body l p
  end.

(** ** Parsing *)

(** [for (i = 0; i < size; i += 2) SetHeader(headers[i], headers[i + 1])] *)
Fixpoint set_header_pairs {T} (set : bytes -> bytes -> T -> T) (l : list bytes) (r : T) : T :=
  match l with
  | k :: v :: l => set_header_pairs set l (set k v r)
  | _ => r
  end.

(** [::tolower] on every character. *)
Definition tolower (c : ascii) : ascii :=
  if (65 <=? char_code c) && (char_code c <=? 90)
  then Ascii.ascii_of_N (Z.to_N (char_code c + 32)) else c.

Definition parsed_method (m : Z) : Z :=
  if m =? HTTP_GET then HTTP_REQUEST_METHOD_GET
  else if m =? HTTP_POST then HTTP_REQUEST_METHOD_POST
  else HTTP_REQUEST_METHOD_UNKNOWN.

(** [keepalive_] is only ever set, never cleared. *)
Definition parse_keepalive (r : HttpRequest) : HttpRequest :=
  if IsHeader (lit "Connection") r then
    let keepalive := tolower <$> GetHeader (lit "Connection") r in
    if decide (keepalive = lit "keep-alive") then SetKeepAlive true r else r
  else SetKeepAlive true r.

(** The result and the request as it is left ([None]: a null pointer). *)
Definition ParseHttpRequest (httpbuf : bytes) (http_request : option HttpRequest) :
    option (Z * option HttpRequest) :=
  match http_request with
  | None => Some (0, None)
  | Some r =>
      let run := http_parser_execute HTTP_REQUEST (mkSettings false false) httpbuf in
      hpp ← run_request_callbacks true (p_callbacks run) (mkParam r []);
      let r := http_struct hpp in
      if negb (p_nparsed run =? blen httpbuf) then Some (-1, Some r)
      else
        let size := u32 (Z.of_nat (length (hpp_headers hpp))) in
        if negb (Z.land size 1 =? 0) then Some (-2, Some r)
        else
          let r := set_header_pairs SetHeader (hpp_headers hpp) r in
          let r := SetMethod (parsed_method (p_method run)) r in
          Some (0, Some (parse_keepalive r))
  end.

(** The result, the request and [*nparsed]. *)
Definition ParseHttpRequestHeadOnly (httpbuf : bytes) (http_request : option HttpRequest)
    (nparsed : option Z) : option (Z * option HttpRequest * option Z) :=
  match http_request with
  | None => Some (0, None, nparsed)
  | Some r =>
      let run := http_parser_execute HTTP_REQUEST (mkSettings true false) httpbuf in
      hpp ← run_request_callbacks false (p_callbacks run) (mkParam r []);
      let r := http_struct hpp in
      if p_nparsed run =? 0 then Some (-1, Some r, nparsed)
      else
        let size := u32 (Z.of_nat (length (hpp_headers hpp))) in
        if negb (Z.land size 1 =? 0) then Some (-2, Some r, nparsed)
        else
          Some (0, Some (set_header_pairs SetHeader (hpp_headers hpp) r),
                (fun _ => u32 (p_nparsed run)) <$> nparsed)
  end.

Definition ParseHttpResponse (httpbuf : bytes) (http_response : option HttpResponse) :
    option (Z * option HttpResponse) :=
  match http_response with
  | None => Some (0, None)
  | Some r =>
      let run := http_parser_execute HTTP_RESPONSE (mkSettings false false) httpbuf in
      let hpp := foldl (fun p c => response_callback c p) (mkParam r []) (p_callbacks run) in
      let r := http_struct hpp in
      if negb (p_nparsed run =? blen httpbuf) then Some (-1, Some r)
      else if negb (Nat.even (length (hpp_headers hpp))) then None
      else
        let r := set_header_pairs Response_SetHeader (hpp_headers hpp) r in
        Some (0, Some (SetStatus (p_status_code run) r))
  end.

(** ** Checking for a whole message *)

Definition HPC_OK : Z := 0.
Definition HPC_NOT_HTTP : Z := -1.
Definition HPC_NOT_COMPLETE_HTTP : Z := -2.
(** The enumerator after [HPC_NOT_COMPLETE_HTTP = -2] without a value of its own. *)
Definition HPC_UNKNOWN : Z := HPC_NOT_COMPLETE_HTTP + 1.

(** The result and [*szparsed]. *)
Definition CheckHttp (httpbuf : bytes) (szparsed : Z) : Z * Z :=
  let size := blen httpbuf in
  let run := http_parser_execute HTTP_BOTH (mkSettings false true) httpbuf in
  let complete := foldl (fun a c => http_complete c a) 0 (p_callbacks run) in
  let nparsed := s32 (p_nparsed run) in
  if (u32 nparsed <=? size) && (1 =? complete) then (HPC_OK, u64 nparsed)
  else if nparsed =? 0 then (HPC_NOT_HTTP, szparsed)
  else if (u32 nparsed <=? size) && (0 =? complete) then (HPC_NOT_COMPLETE_HTTP, szparsed)
  else (HPC_UNKNOWN, szparsed).

End tool.

Arguments mkParam {T} _ _.
Arguments http_struct {T} _.
Arguments hpp_headers {T} _.
