(* ===== verification/HttpToolProps.v ===== *)
(** * Properties of the HTTP parser

    What a parsed request holds when http-parser calls the callbacks in the order
    it documents, what survives from an earlier request in the same object, and
    what becomes of a URL. *)

From S2P Require Import Prelude CStr HttpMsg HttpTool.

Section props.
Context {HL : HttpLib}.

(** ** Running the callbacks *)

Lemma run_request_callbacks_app body l k p :
  run_request_callbacks body (l ++ k) p =
  p' ← run_request_callbacks body l p; run_request_callbacks body k p'.
Proof.
  revert p. induction l as [|c l IH]; intros p; [done|]. simpl.
  destruct (request_callback body c p); [apply IH|done].
Qed.

(** The callbacks for the header lines [h]. *)
Definition header_callbacks (h : list (bytes * bytes)) : list callback :=
  concat (map (fun kv => [on_header_field kv.1; on_header_value kv.2]) h).
Definition header_strings (h : list (bytes * bytes)) : list bytes :=
  concat (map (fun kv => [kv.1; kv.2]) h).

Lemma run_header_callbacks body h p :
  run_request_callbacks body (header_callbacks h) p =
  Some (mkParam (http_struct p) (hpp_headers p ++ header_strings h)).
Proof.
  revert p. induction h as [|[k v] h IH]; intros p.
  - destruct p. simpl. by rewrite app_nil_r.
  - simpl. rewrite IH. simpl. by rewrite <- !app_assoc.
Qed.

Lemma run_body_callbacks bodies p :
  run_request_callbacks true (map on_body bodies) p =
  Some (mkParam (foldl (fun r b => SetContent b r) (http_struct p) bodies) (hpp_headers p)).
Proof.
  revert p. induction bodies as [|b l IH]; intros p; [by destruct p|]. simpl. by rewrite IH.
Qed.

Lemma set_contents_last bodies r :
  let r' := foldl (fun r b => SetContent b r) r bodies in
  content_ r' = default (content_ r) (last bodies) /\
  struri_ r' = struri_ r /\ keepalive_ r' = keepalive_ r /\ uri_ r' = uri_ r /\
  headers_ r' = match last bodies with
                | None => headers_ r
                | Some b => <[lit "Content-Length" := to_string (blen b)]> (headers_ r)
                end.
Proof.
  revert r. induction bodies as [|b l IH]; intros r; [done|].
  cbv zeta in *. simpl foldl. destruct (IH (SetContent b r)) as (-> & -> & -> & -> & ->).
  destruct l as [|b' l]; [done|]. change (last (b :: b' :: l)) with (last (b' :: l)).
  destruct (last (b' :: l)) eqn:E; [|by apply last_None in E]. simpl.
  split_and!; try done. by rewrite insert_insert_eq.
Qed.

(** Later lines override earlier ones. *)
Definition add_headers (h : list (bytes * bytes)) (m : headers) : headers :=
  foldl (fun m kv => <[kv.1 := kv.2]> m) m h.

Lemma set_header_pairs_spec h r :
  set_header_pairs SetHeader (header_strings h) r = set_headers (add_headers h (headers_ r)) r.
Proof.
  revert r. induction h as [|[k v] h IH]; intros r; [by destruct r|]. simpl. by rewrite IH.
Qed.

Lemma header_strings_even h : Z.land (u32 (Z.of_nat (length (header_strings h)))) 1 = 0.
Proof.
  change 1 with (Z.ones 1). rewrite Z.land_ones by lia. unfold wrap.
  assert (H : length (header_strings h) = (2 * length h)%nat).
  { induction h as [|[k v] h IH]; [done|].
    change (header_strings ((k, v) :: h)) with (k :: v :: header_strings h). simpl. lia. }
  rewrite H, Nat2Z.inj_mul. change (2 ^ 1) with 2. Z.to_euclidean_division_equations. lia.
Qed.

Definition connection_says (r : HttpRequest) : bool :=
  match headers_ r !! lit "Connection" with
  | None => true
  | Some v => bool_decide (tolower <$> v = lit "keep-alive")
  end.

Lemma parse_keepalive_spec r :
  parse_keepalive r = SetKeepAlive (keepalive_ r || connection_says r) r.
Proof.
  unfold parse_keepalive, IsHeader, GetHeader, connection_says.
  destruct (headers_ r !! lit "Connection") as [v|]; simpl.
  - case_decide.
    + by rewrite bool_decide_true, orb_true_r.
    + rewrite bool_decide_false, orb_false_r by done. by destruct r.
  - by rewrite orb_true_r.
Qed.

(** ** What parsing keeps *)

Definition dom_kept (m m' : headers) : Prop := forall k, is_Some (m !! k) -> is_Some (m' !! k).

Definition kept (r r' : HttpRequest) : Prop :=
  (keepalive_ r = true -> keepalive_ r' = true) /\
  dom_kept (headers_ r) (headers_ r') /\
  dom_kept (query_params (uri_ r)) (query_params (uri_ r')).

Lemma dom_kept_refl m : dom_kept m m.
Proof. intros k Hk. exact Hk. Qed.

Lemma kept_refl r : kept r r.
Proof. unfold kept, dom_kept. auto. Qed.

Lemma kept_trans r1 r2 r3 : kept r1 r2 -> kept r2 r3 -> kept r1 r3.
Proof. unfold kept, dom_kept. intros (?&?&?) (?&?&?). split_and!; auto. Qed.

Lemma dom_kept_insert k v m : dom_kept m (<[k := v]> m).
Proof. intros k' H. apply lookup_insert_is_Some. destruct (decide (k = k')); auto. Qed.

Lemma kept_SetContent b r : kept r (SetContent b r).
Proof. split_and!; [done|apply dom_kept_insert|apply dom_kept_refl]. Qed.

Lemma kept_SetHeader k v r : kept r (SetHeader k v r).
Proof. split_and!; [done|apply dom_kept_insert|apply dom_kept_refl]. Qed.

Lemma parse_query_kept l m : dom_kept m (parse_query l m).
Proof.
  revert m. induction l as [|x l IH]; intros m; [apply dom_kept_refl|]. simpl.
  destruct (Split x "="%char) as [|k [|v rest]]; try apply IH.
  intros k' H. apply IH. by apply dom_kept_insert.
Qed.

Lemma ParseUrl_kept s u res u' :
  ParseUrl s u = Some (res, u') -> dom_kept (query_params u) (query_params u').
Proof.
  unfold ParseUrl. intros H. destruct (http_parser_parse_url s) as [f|]; [|simplify_eq; apply dom_kept_refl].
  destruct (parse_port f s _); [|done]. cbn [mbind option_bind] in H.
  destruct (parse_uri f s (uri u)); [|done]. cbn [mbind option_bind] in H.
  injection H as _ <-. simpl. apply parse_query_kept.
Qed.

Lemma run_callbacks_kept body l p p' :
  run_request_callbacks body l p = Some p' -> kept (http_struct p) (http_struct p').
Proof.
  revert p. induction l as [|c l IH]; intros p H; [injection H as <-; apply kept_refl|]. simpl in H.
  destruct (request_callback body c p) as [p1|] eqn:E; [|done]. cbn [mbind option_bind] in H.
  eapply kept_trans; [|by eapply IH]. destruct c; simpl in E; simplify_eq/=; try apply kept_refl.
  - unfold request_url_cb in E. destruct (ParseUrl _ _) as [[res u]|] eqn:Hu; [|done].
    cbn [mbind option_bind] in E. simplify_eq/=. apply ParseUrl_kept in Hu.
    split_and!; [done|apply dom_kept_refl|exact Hu].
  - destruct body; [apply kept_SetContent|apply kept_refl].
Qed.

Lemma set_header_pairs_kept l r : kept r (set_header_pairs SetHeader l r).
Proof.
  enough (H : forall n l r, (length l < n)%nat -> kept r (set_header_pairs SetHeader l r)) by eauto.
  intros n. induction n as [|n IH]; intros k r0 Hn; [lia|].
  destruct k as [|a [|b k]]; try apply kept_refl. simpl in *.
  eapply kept_trans; [apply (kept_SetHeader a b)|apply IH; lia].
Qed.

(** ** Claims *)

(** [ParseHttpRequest] builds the request that the parser saw.  When http-parser
    consumes the whole buffer and reports the target [u] (a URL that parses), the
    header lines [h] and the body parts [bodies], in this order, the call returns 0
    and the request has this target, its earlier headers overridden by [h] (later
    lines win), the method GET, POST or "unknown", and as content the last body
    part: of a chunked body all other parts are lost.  It is keep-alive when it was
    before, or without a "Connection" header, or when that header says
    "keep-alive" in any case of letters. *)
Theorem parse_http_request_result buf r u h bodies res uobj :
  let run := http_parser_execute HTTP_REQUEST (mkSettings false false) buf in
  p_callbacks run = on_url u :: header_callbacks h ++ map on_body bodies ->
  p_nparsed run = blen buf ->
  ParseUrl u (uri_ r) = Some (res, uobj) ->
  exists r', ParseHttpRequest buf (Some r) = Some (0, Some r') /\
    struri_ r' = u /\ uri_ r' = uobj /\
    content_ r' = default (content_ r) (last bodies) /\
    headers_ r' = add_headers h
      (match last bodies with
       | None => headers_ r
       | Some b => <[lit "Content-Length" := to_string (blen b)]> (headers_ r)
       end) /\
    method_ r' = u8 (parsed_method (p_method run)) /\
    keepalive_ r' = keepalive_ r || connection_says r'.
Proof.
  intros run Hcb Hn Hu. unfold ParseHttpRequest. fold run. rewrite Hcb. simpl.
  unfold request_url_cb. simpl. rewrite Hu. cbn [mbind option_bind].
  rewrite run_request_callbacks_app, run_header_callbacks. cbn [mbind option_bind].
  rewrite run_body_callbacks. simpl. rewrite Hn, Z.eqb_refl. simpl.
  rewrite header_strings_even. simpl. eexists. split; [reflexivity|].
  rewrite set_header_pairs_spec, parse_keepalive_spec.
  destruct (set_contents_last bodies (set_uri_obj uobj (SetUri u r))) as (H1 & H2 & H3 & H4 & H5).
  simpl in H1, H2, H3, H4, H5. unfold connection_says. simpl. rewrite H1, H2, H3, H4, H5. done.
Qed.

(** What a connection keeps between two requests: parsing into the same object
    never clears keep-alive and never removes a header or a query parameter, so
    after one keep-alive request "Connection: close" no longer ends the
    connection. *)
Theorem parse_http_request_keeps buf r r' :
  ParseHttpRequest buf (Some r) = Some (0, Some r') ->
  (KeepAlive r = true -> KeepAlive r' = true) /\
  (forall k, IsHeader k r = true -> IsHeader k r' = true) /\
  (forall k, IsSet (uri_ r) k = true -> IsSet (uri_ r') k = true).
Proof.
  intros H. enough (Hk : kept r r').
  { destruct Hk as (H1 & H2 & H3). unfold KeepAlive, IsHeader, IsSet.
    split_and!; [done|intros k; rewrite !bool_decide_eq_true; auto..]. }
  unfold ParseHttpRequest in H.
  destruct (run_request_callbacks _ _ _) as [p|] eqn:E; [|done]. cbn [mbind option_bind] in H.
  apply run_callbacks_kept in E. simpl in E.
  destruct (negb (_ =? blen buf)); [done|]. destruct (negb (_ =? 0)); [done|].
  injection H as <-. rewrite parse_keepalive_spec.
  eapply kept_trans; [exact E|]. eapply kept_trans; [apply (set_header_pairs_kept (hpp_headers p))|].
  split_and!; [simpl; by intros ->|apply dom_kept_refl..].
Qed.

(** [ParseUrl] cuts the last character of the target: for a URL whose path
    starts at offset [off], [uri] is everything from there on without the final
    character of the URL, or "/" when nothing is left. *)
Theorem parse_url_uri_drops_last s url u f off len :
  blen s < 2 ^ 64 -> http_parser_parse_url s = Some f ->
  UF_PATH f = Some (off, len) -> 0 <= off < blen s ->
  ParseUrl s url = Some (0, u) ->
  exists cut c, drop (Z.to_nat off) s = cut ++ [c] /\
    uri u = (if decide (cut = []) then lit "/" else cut).
Proof.
  intros Hlen Hf Hp Hoff H. unfold ParseUrl in H. rewrite Hf in H.
  destruct (parse_port f s _); [|done]. cbn [mbind option_bind] in H.
  unfold parse_uri in H. rewrite Hp, wrap_id in H by lia.
  rewrite (proj2 (Z.leb_le _ _)) in H by lia. cbn [mbind option_bind] in H. injection H as <-.
  simpl. unfold substr. simpl. unfold blen in *.
  destruct (exists_last (l := drop (Z.to_nat off) s)) as (l & c & E).
  { intros E. apply (f_equal length) in E. rewrite length_drop in E. simpl in E. lia. }
  exists l, c. split; [done|].
  assert (Hl : length (drop (Z.to_nat off) s) = S (length l)) by (rewrite E, length_app; simpl; lia).
  rewrite length_drop in Hl.
  replace (Z.to_nat (Z.of_nat (length s) - off - 1)) with (length l) by lia.
  rewrite E, take_app_length. done.
Qed.

End props.

(** ** Witnesses *)

(** An http-parser for one request, one response and one URL. *)
Definition demo_buf : bytes :=
  lit "GET /a HTTP/1.1" ++ crlf ++ lit "Connection: close" ++ crlf ++ crlf.

Definition demo_run : parsed :=
  mkParsed [on_url (lit "/a"); on_header_field (lit "Connection"); on_header_value (lit "close")]
    (blen demo_buf) HTTP_GET 0.

#[local] Instance demo_lib : HttpLib := {
  http_parser_execute _ _ b := if decide (b = demo_buf) then demo_run else mkParsed [] 0 0 0;
  http_parser_parse_url s :=
    match s with
    | [] => None
    | _ => Some (mkUrlFields None None None (Some (0, blen s)) None None None)
    end;
  curl_unescape b := b
}.

Lemma parse_http_request_result_witness :
  exists r', ParseHttpRequest demo_buf (Some HttpRequest_new) = Some (0, Some r') /\
    struri_ r' = lit "/a" /\ keepalive_ r' = false.
Proof.
  destruct (parse_http_request_result demo_buf HttpRequest_new (lit "/a")
    [(lit "Connection", lit "close")] [] 0
    (mkURL [] [] 80 (lit "/") (lit "/a") [] [] [] ∅)) as (r' & H & H1 & H2 & H3 & H4 & H5 & H6).
  - vm_compute. reflexivity.
  - vm_compute. reflexivity.
  - vm_compute. reflexivity.
  - exists r'. split; [exact H|]. split; [exact H1|]. rewrite H6.
    unfold connection_says. rewrite H4. vm_compute. reflexivity.
Defined.

Lemma parse_http_request_keeps_witness :
  exists r', ParseHttpRequest demo_buf (Some (SetKeepAlive true HttpRequest_new)) = Some (0, Some r') /\
    Response_GetHeader (lit "Connection") (mkHttpResponse 0 [] (headers_ r')) = lit "close" /\
    KeepAlive r' = true.
Proof.
  destruct (ParseHttpRequest demo_buf (Some (SetKeepAlive true HttpRequest_new)))
    as [[res [r'|]]|] eqn:E; [|vm_compute in E; discriminate E..].
  assert (Hres : res = 0) by (vm_compute in E; injection E as <- _; reflexivity). subst res.
  exists r'. split; [reflexivity|]. split.
  - vm_compute in E. injection E as <-. vm_compute. reflexivity.
  - apply (parse_http_request_keeps demo_buf (SetKeepAlive true HttpRequest_new) r' E). reflexivity.
Defined.

Lemma parse_url_uri_drops_last_witness :
  exists u, ParseUrl (lit "/ab") URL_default = Some (0, u) /\
  exists cut c, drop (Z.to_nat 0) (lit "/ab") = cut ++ [c] /\
    uri u = (if decide (cut = []) then lit "/" else cut).
Proof.
  eexists. split; [vm_compute; reflexivity|].
  eapply (parse_url_uri_drops_last (lit "/ab") URL_default); [reflexivity|vm_compute; reflexivity|
    vm_compute; reflexivity|split; [discriminate|reflexivity]|vm_compute; reflexivity].
Defined.
