(* ===== verification/HttpWire.v ===== *)
(** * Messages on the wire: the writer and the parser together

    What [SerializeToString] of one program writes and [HttpParserImpl] of another
    one reads, requests and responses, with http-parser in between.  The class
    [HttpParserSpec] states the documented behaviour of http-parser on the messages
    the writer produces, its limit on the size of a header included; the reference
    reader of [HttpMsg] is an instance, so that the class can be met. *)

From S2P Require Import Prelude CStr HttpMsg HttpTool HttpToolProps.

(** ** Plain messages *)

Definition between (lo hi : Z) (c : ascii) : bool := (lo <=? char_code c) && (char_code c <=? hi).
Definition name_char (c : ascii) : bool :=
  between 48 57 c || between 65 90 c || between 97 122 c || (char_code c =? 45).
Definition text_char (c : ascii) : bool := between 32 126 c.
Definition url_char (c : ascii) : bool := between 33 126 c.

Definition all (f : ascii -> bool) (s : bytes) : bool := forallb f s.

(** A value without blanks around it: http-parser would strip them. *)
Definition plain_value (v : bytes) : bool :=
  all text_char v &&
  match head v, last v with Some a, Some b => url_char a && url_char b | _, _ => false end.

(** Header names that change how a message is read are left out, and
    "Content-Length" is spelt as the writer spells it. *)
Definition plain_name (k : bytes) : bool :=
  all name_char k && negb (bool_decide (k = [])) &&
  negb (bool_decide (tolower <$> k = lit "transfer-encoding")) &&
  negb (bool_decide (tolower <$> k = lit "upgrade")) &&
  (bool_decide (k = lit "Content-Length") || negb (bool_decide (tolower <$> k = lit "content-length"))).

Definition plain_header (h : bytes * bytes) : bool := plain_name h.1 && plain_value h.2.

Definition plain_target (u : bytes) : bool :=
  all url_char u && match u with c :: _ => bool_decide (c = "/"%char) | [] => false end.

(** The length of the body is announced, or there is no body. *)
Definition announced (m : headers) (body : bytes) : Prop :=
  match m !! lit "Content-Length" with
  | Some v => v = to_string (blen body)
  | None => body = []
  end.

Definition body_callbacks (body : bytes) : list callback :=
  match body with [] => [] | _ => [on_body body] end.

Definition request_text (verb target : bytes) (hs : list (bytes * bytes)) (body : bytes) : bytes :=
  verb ++ lit " " ++ target ++ lit " " ++ lit "HTTP/1.1" ++ crlf ++ write_headers hs ++ crlf ++ body.

(** The bodies of responses 204 and 304 are not read, nor those below 200. *)
Definition plain_status (st : Z) : bool :=
  (200 <=? st) && (st <=? 999) && negb (st =? 204) && negb (st =? 304).

Definition response_text (st : Z) (hs : list (bytes * bytes)) (body : bytes) : bytes :=
  lit "HTTP/1.1 " ++ to_string st ++ lit " " ++ reason st ++ crlf ++ write_headers hs ++ crlf ++ body.

Definition method_number (verb : bytes) : Z := if decide (verb = lit "GET") then HTTP_GET else HTTP_POST.

(** What the writer of a plain request or response puts on the wire. *)
Inductive message : bytes -> Prop :=
  | request_message verb target hs body :
      verb = lit "GET" \/ verb = lit "POST" -> plain_target target = true ->
      forallb plain_header hs = true -> NoDup hs.*1 -> announced (list_to_map hs) body ->
      message (request_text verb target hs body)
  | response_message st hs body :
      plain_status st = true -> forallb plain_header hs = true -> NoDup hs.*1 ->
      (list_to_map hs : headers) !! lit "Content-Length" = Some (to_string (blen body)) ->
      message (response_text st hs body).

(** ** http-parser *)

(** http-parser stops with [HPE_HEADER_OVERFLOW] in a longer header; the default of
    its header file, which the build does not change. *)
Definition HTTP_MAX_HEADER_SIZE : Z := 80 * 1024.

(** The bytes up to the empty line and with it. *)
Definition header_size (m : bytes) : Z :=
  match cut (crlf ++ crlf) m with Some (h, _) => blen h + 4 | None => blen m end.

(** The run of [CheckHttp], and whether it comes to the end of the message. *)
Definition check_run {HL : HttpLib} (b : bytes) : parsed :=
  http_parser_execute HTTP_BOTH (mkSettings false true) b.
Definition accepted {HL : HttpLib} (m : bytes) : bool :=
  bool_decide (on_message_complete ∈ p_callbacks (check_run m)).

(** One call with a whole plain message that the parser accepts makes one callback
    for the target, one for each name and value, one for the body if there is one,
    and consumes it all; a response with "Content-Length" the same without a target.
    Plain messages are accepted when their header is within the limit.  A target
    that starts with a slash has a path at its start and neither schema nor port. *)
Class HttpParserSpec (HL : HttpLib) := {
  execute_plain verb target hs body :
    verb = lit "GET" \/ verb = lit "POST" -> plain_target target = true ->
    forallb plain_header hs = true -> NoDup hs.*1 -> announced (list_to_map hs) body ->
    accepted (request_text verb target hs body) = true ->
    http_parser_execute HTTP_REQUEST (mkSettings false false) (request_text verb target hs body) =
    mkParsed (on_url target :: header_callbacks hs ++ body_callbacks body ++ [on_message_complete])
      (blen (request_text verb target hs body)) (method_number verb) 0;
  execute_plain_response st hs body :
    plain_status st = true -> forallb plain_header hs = true -> NoDup hs.*1 ->
    (list_to_map hs : headers) !! lit "Content-Length" = Some (to_string (blen body)) ->
    accepted (response_text st hs body) = true ->
    http_parser_execute HTTP_RESPONSE (mkSettings false false) (response_text st hs body) =
    mkParsed (header_callbacks hs ++ body_callbacks body ++ [on_message_complete])
      (blen (response_text st hs body)) 0 st;
  accepts_plain m : message m -> header_size m <= HTTP_MAX_HEADER_SIZE -> accepted m = true;
  parse_url_plain target :
    plain_target target = true ->
    exists f len, http_parser_parse_url target = Some f /\ UF_PATH f = Some (0, len) /\
      UF_SCHEMA f = None /\ UF_PORT f = None
}.

(** ** The writer writes plain messages *)

Lemma write_headers_filter l : write_headers (filter nonempty_value l) = write_headers l.
Proof.
  induction l as [|[k v] l IH]; [done|]. rewrite filter_cons.
  destruct (decide (nonempty_value (k, v))) as [E|E]; simpl; case_decide as E'; try done; congruence.
Qed.

Lemma plain_value_nonempty v : plain_value v = true -> v <> [].
Proof. by intros H ->. Qed.

(** What can be sent so that it arrives unchanged. *)
Record plain_request (r : HttpRequest) : Prop := {
  pr_method : method_ r = HTTP_REQUEST_METHOD_GET \/ method_ r = HTTP_REQUEST_METHOD_POST;
  pr_target : plain_target (struri_ r) = true;
  pr_headers : map_Forall (fun k v => v = [] \/ plain_header (k, v) = true) (headers_ r);
  pr_length : announced (headers_ r) (content_ r);
  pr_size : blen (struri_ r) < 2 ^ 64
}.

Section wire.
Context {IO : IterOrder}.

Definition verb_of (r : HttpRequest) : bytes :=
  if method_ r =? HTTP_REQUEST_METHOD_GET then lit "GET" else lit "POST".
Definition sent_headers (m : headers) : list (bytes * bytes) := filter nonempty_value (iter m).

Lemma serialize_text r :
  plain_request r ->
  Request_Serialize r = request_text (verb_of r) (struri_ r) (sent_headers (headers_ r)) (content_ r).
Proof.
  intros Hr. unfold Request_Serialize, Request_SerializeToString, request_text, verb_of, sent_headers.
  rewrite write_headers_filter. by destruct (pr_method r Hr) as [-> | ->].
Qed.

Lemma sent_headers_map m : list_to_map (sent_headers m) = filter nonempty_value m.
Proof. apply list_to_map_iter. Qed.

Lemma sent_headers_nodup m : NoDup (sent_headers m).*1.
Proof.
  eapply sublist_NoDup; [|apply fmap_sublist, sublist_filter]. rewrite iter_perm. apply NoDup_fst_map_to_list.
Qed.

Lemma sent_headers_plain m :
  map_Forall (fun k v => v = [] \/ plain_header (k, v) = true) m -> forallb plain_header (sent_headers m) = true.
Proof.
  intros Hm. apply forallb_forall. intros [k v] Hin%list_elem_of_In.
  unfold sent_headers in Hin. rewrite list_elem_of_filter, iter_perm, elem_of_map_to_list in Hin.
  destruct Hin as [Hne Hkv]. by destruct (Hm k v Hkv).
Qed.

Lemma sent_headers_length m n :
  m !! lit "Content-Length" = Some (to_string n) -> 0 <= n ->
  (list_to_map (sent_headers m) : headers) !! lit "Content-Length" = Some (to_string n).
Proof.
  intros Hm Hn. rewrite sent_headers_map. apply (map_lookup_filter_Some_2 _ _ _ _ Hm).
  by apply to_string_nonempty.
Qed.

Lemma sent_headers_announced m body : announced m body -> announced (list_to_map (sent_headers m)) body.
Proof.
  unfold announced. destruct (m !! lit "Content-Length") as [v|] eqn:E; intros H.
  - subst v. rewrite (sent_headers_length m (blen body)); auto using blen_nonneg.
  - rewrite sent_headers_map. by rewrite (map_lookup_filter_None_2 _ _ _ (or_introl E)).
Qed.

(** What can be sent as a response so that it arrives unchanged. *)
Record plain_response (r : HttpResponse) : Prop := {
  ps_status : plain_status (status r) = true;
  ps_headers : map_Forall (fun k v => v = [] \/ plain_header (k, v) = true) (rsp_headers r);
  ps_length : rsp_headers r !! lit "Content-Length" = Some (to_string (blen (content r)))
}.

Lemma serialize_response_text r :
  Response_Serialize r = response_text (status r) (sent_headers (rsp_headers r)) (content r).
Proof.
  unfold Response_Serialize, Response_SerializeToString, response_text, sent_headers.
  by rewrite write_headers_filter.
Qed.
Lemma plain_request_message rq : plain_request rq -> message (Request_Serialize rq).
Proof.
  intros Hr. rewrite (serialize_text rq Hr). constructor.
  - unfold verb_of. case_match; auto.
  - apply Hr.
  - apply sent_headers_plain, pr_headers, Hr.
  - apply sent_headers_nodup.
  - apply sent_headers_announced, pr_length, Hr.
Qed.

Lemma plain_response_message rs : plain_response rs -> message (Response_Serialize rs).
Proof.
  intros Hr. rewrite serialize_response_text. constructor.
  - apply Hr.
  - apply sent_headers_plain, Hr.
  - apply sent_headers_nodup.
  - apply sent_headers_length, blen_nonneg. apply Hr.
Qed.

End wire.

(** The length of a body is a plain value. *)
Lemma length_header_plain n : 0 <= n -> plain_header (lit "Content-Length", to_string n) = true.
Proof.
  intros Hn. pose proof (to_string_digits n Hn) as Hd. pose proof (to_string_nonempty n Hn) as Hne.
  assert (Hu : forall c, isdigit c = true -> url_char c = true /\ text_char c = true).
  { intros c. unfold isdigit, url_char, text_char, between. rewrite !andb_true_iff, !Z.leb_le. lia. }
  unfold plain_header. cbn [fst snd]. apply andb_true_iff. split; [done|]. unfold plain_value. apply andb_true_iff.
  rewrite Forall_forall in Hd. split.
  - apply forallb_forall. intros c Hc%list_elem_of_In. by apply Hu, Hd.
  - destruct (head (to_string n)) as [a|] eqn:Ea; [|by destruct (to_string n)].
    destruct (last (to_string n)) as [b|] eqn:Eb; [|by apply last_None in Eb].
    apply andb_true_iff. split; apply Hu, Hd; [by apply head_Some_elem_of|by apply last_Some_elem_of].
Qed.

(** ** The parser reads plain messages *)

Section parse.
Context {HL : HttpLib} {HS : HttpParserSpec HL}.

Lemma ParseUrl_plain target u :
  plain_target target = true -> blen target < 2 ^ 64 -> exists res u', ParseUrl target u = Some (res, u').
Proof.
  intros Ht Hlen. destruct (parse_url_plain target Ht) as (f & len & Hf & Hp & Hs & Hport).
  unfold ParseUrl, parse_port, parse_uri. rewrite Hf, Hp, Hs, Hport. cbn [mbind option_bind].
  assert (Hn : 0 < blen target).
  { unfold plain_target in Ht. destruct target; [by rewrite andb_false_r in Ht|]. unfold blen. simpl. lia. }
  rewrite wrap_id, (proj2 (Z.leb_le _ _)) by lia. cbn [mbind option_bind]. eauto.
Qed.

Lemma body_callbacks_bodies body : body_callbacks body = map on_body (if decide (body = []) then [] else [body]).
Proof. by destruct body. Qed.

(** All callbacks of a plain message. *)
Lemma run_plain target hs body u res u' r :
  ParseUrl target (uri_ r) = Some (res, u') -> u = u' ->
  run_request_callbacks true (on_url target :: header_callbacks hs ++ body_callbacks body ++ [on_message_complete])
    (mkParam r []) =
  Some (mkParam (if decide (body = []) then set_uri_obj u (SetUri target r)
                 else SetContent body (set_uri_obj u (SetUri target r))) (header_strings hs)).
Proof.
  intros Hu ->. simpl. unfold request_url_cb. simpl. rewrite Hu. cbn [mbind option_bind].
  rewrite !run_request_callbacks_app, run_header_callbacks. cbn [mbind option_bind].
  rewrite run_request_callbacks_app, body_callbacks_bodies, run_body_callbacks.
  cbn [mbind option_bind http_struct hpp_headers]. by case_decide.
Qed.

Lemma ParseHttpRequest_plain verb target hs body r :
  verb = lit "GET" \/ verb = lit "POST" -> plain_target target = true -> blen target < 2 ^ 64 ->
  forallb plain_header hs = true -> NoDup hs.*1 -> announced (list_to_map hs) body ->
  accepted (request_text verb target hs body) = true ->
  exists r', ParseHttpRequest (request_text verb target hs body) (Some r) = Some (0, Some r') /\
    method_ r' = u8 (parsed_method (method_number verb)) /\ struri_ r' = target /\
    content_ r' = (if decide (body = []) then content_ r else body) /\
    headers_ r' = add_headers hs (if decide (body = []) then headers_ r
      else <[lit "Content-Length" := to_string (blen body)]> (headers_ r)) /\
    exists res, ParseUrl target (uri_ r) = Some (res, uri_ r').
Proof.
  intros Hv Ht Hlen Hh Hnd Ha Hacc. destruct (ParseUrl_plain target (uri_ r) Ht Hlen) as (res & u & Hu).
  unfold ParseHttpRequest. rewrite execute_plain by done. cbn [p_callbacks p_nparsed p_method].
  rewrite (run_plain target hs body u res u r Hu eq_refl). cbn [mbind option_bind http_struct hpp_headers].
  rewrite Z.eqb_refl, header_strings_even. cbn [negb Z.eqb].
  rewrite set_header_pairs_spec, parse_keepalive_spec. eexists. split; [reflexivity|].
  simpl. rewrite Hu. by case_decide; eauto 10.
Qed.

Lemma add_headers_union hs m : NoDup hs.*1 -> add_headers hs m = list_to_map hs ∪ m.
Proof.
  revert m. induction hs as [|[k v] hs IH]; intros m Hnd; simpl.
  - unfold add_headers. simpl. by rewrite map_empty_union.
  - apply NoDup_cons in Hnd as [Hk Hnd]. change (add_headers ((k, v) :: hs) m) with (add_headers hs (<[k := v]> m)).
    rewrite IH by done. rewrite <- insert_union_r by (by apply not_elem_of_list_to_map_1).
    by rewrite insert_union_l.
Qed.

(** The body callback announces the length once more. *)
Lemma add_headers_length hs body :
  NoDup hs.*1 -> (list_to_map hs : headers) !! lit "Content-Length" = Some (to_string (blen body)) ->
  add_headers hs (<[lit "Content-Length" := to_string (blen body)]> ∅) = list_to_map hs.
Proof.
  intros Hnd Hl. rewrite add_headers_union by done. apply map_eq. intros k.
  destruct ((list_to_map hs : headers) !! k) as [v|] eqn:Ek; [by rewrite (lookup_union_Some_l _ _ _ _ Ek)|].
  rewrite lookup_union_r by done.
  destruct (decide (k = lit "Content-Length")) as [->|Hne]; [congruence|by rewrite lookup_insert_ne, lookup_empty].
Qed.

(** ** Responses *)

Lemma run_response_headers hs p :
  foldl (fun p c => response_callback c p) p (header_callbacks hs) =
  mkParam (http_struct p) (hpp_headers p ++ header_strings hs).
Proof.
  revert p. induction hs as [|[k v] hs IH]; intros p.
  - destruct p. simpl. by rewrite app_nil_r.
  - simpl. rewrite IH. simpl. by rewrite <- !app_assoc.
Qed.

Lemma set_response_headers hs r :
  set_header_pairs Response_SetHeader (header_strings hs) r =
  mkHttpResponse (status r) (content r) (add_headers hs (rsp_headers r)).
Proof.
  revert r. induction hs as [|[k v] hs IH]; intros r; [by destruct r|]. simpl. by rewrite IH.
Qed.

Lemma header_strings_length_even hs : Nat.even (length (header_strings hs)) = true.
Proof. induction hs as [|[k v] hs IH]; [done|exact IH]. Qed.

Lemma ParseHttpResponse_plain st hs body :
  plain_status st = true -> forallb plain_header hs = true -> NoDup hs.*1 ->
  (list_to_map hs : headers) !! lit "Content-Length" = Some (to_string (blen body)) ->
  accepted (response_text st hs body) = true ->
  ParseHttpResponse (response_text st hs body) (Some HttpResponse_new) =
  Some (0, Some (mkHttpResponse st body (list_to_map hs))).
Proof.
  intros Hst Hh Hnd Hl Hacc. unfold ParseHttpResponse. rewrite execute_plain_response by done.
  cbn [p_callbacks p_nparsed p_status_code]. rewrite !foldl_app, run_response_headers.
  rewrite Z.eqb_refl. cbn [negb].
  assert (Hb : exists r, foldl (fun p c => response_callback c p)
      (mkParam HttpResponse_new (header_strings hs)) (body_callbacks body) = mkParam r (header_strings hs) /\
    content r = body /\ add_headers hs (rsp_headers r) = list_to_map hs).
  { destruct body as [|c body]; eexists; (split; [reflexivity|]); (split; [done|]); simpl.
    - rewrite add_headers_union by done. apply map_union_empty.
    - by apply (add_headers_length hs (c :: body)). }
  destruct Hb as (r & Hb & Hc & Hr). cbn [http_struct hpp_headers HttpResponse_new app] in *. rewrite Hb. simpl.
  rewrite header_strings_length_even. simpl. rewrite set_response_headers. unfold SetStatus. simpl.
  by rewrite Hc, Hr.
Qed.

End parse.

Lemma request_parsed `{IterOrder} {HL : HttpLib} {HS : HttpParserSpec HL} r :
  plain_request r -> accepted (Request_Serialize r) = true ->
  exists r', ParseHttpRequest (Request_Serialize r) (Some HttpRequest_new) = Some (0, Some r') /\
    GetMethod r' = GetMethod r /\ GetUri r' = GetUri r /\ GetContent r' = GetContent r /\
    headers_ r' = filter nonempty_value (headers_ r) /\
    exists res, ParseUrl (GetUri r) URL_default = Some (res, GetUriObj r').
Proof.
  intros Hr. rewrite (serialize_text r Hr). intros Hacc.
  destruct (ParseHttpRequest_plain (verb_of r) (struri_ r) (sent_headers (headers_ r)) (content_ r) HttpRequest_new)
    as (r' & Hp & Hm & Hu & Hc & Hh & res & Hurl).
  - unfold verb_of. case_match; auto.
  - apply (pr_target r Hr).
  - apply (pr_size r Hr).
  - apply sent_headers_plain, pr_headers, Hr.
  - apply sent_headers_nodup.
  - apply sent_headers_announced, pr_length, Hr.
  - exact Hacc.
  - exists r'. split; [exact Hp|]. unfold GetMethod, GetUri, GetContent. rewrite Hm, Hu, Hc, Hh. split.
    { unfold verb_of. by destruct (pr_method r Hr) as [-> | ->]. }
    split; [done|]. split; [by case_decide as E; [rewrite E|]|].
    split; [|by exists res].
    rewrite <- sent_headers_map. pose proof (sent_headers_announced _ _ (pr_length r Hr)) as Ha.
    change (headers_ HttpRequest_new) with (∅ : headers). case_decide as E.
    + rewrite add_headers_union by apply sent_headers_nodup. apply map_union_empty.
    + apply add_headers_length; [apply sent_headers_nodup|]. unfold announced in Ha.
      destruct (list_to_map (sent_headers (headers_ r)) !! lit "Content-Length"); congruence.
Qed.

(** C26: A request arrives as it was sent: for every GET or POST request with plain
    headers and a target that starts with a slash, whose body, if any, is announced
    (as [SetContent] does), whose request line and headers are together within the
    limit of http-parser (80 KB), and for every order in which the sender's hash
    table is iterated, [ParseHttpRequest] of what [SerializeToString] wrote fills a new
    request object with the same method, target and content and exactly the
    headers that had a value. *)
Theorem request_arrives_as_sent `{IterOrder} {HL : HttpLib} {HS : HttpParserSpec HL} r :
  plain_request r -> header_size (Request_Serialize r) <= HTTP_MAX_HEADER_SIZE ->
  exists r', ParseHttpRequest (Request_Serialize r) (Some HttpRequest_new) = Some (0, Some r') /\
    GetMethod r' = GetMethod r /\ GetUri r' = GetUri r /\ GetContent r' = GetContent r /\
    headers_ r' = filter nonempty_value (headers_ r).
Proof.
  intros Hr Hs%(accepts_plain _ (plain_request_message r Hr)). destruct (request_parsed r Hr Hs) as (r' & H1 & H2 & H3 & H4 & H5 & _). eauto 10.
Qed.

Lemma response_parsed `{IterOrder} {HL : HttpLib} {HS : HttpParserSpec HL} r :
  plain_response r -> accepted (Response_Serialize r) = true ->
  ParseHttpResponse (Response_Serialize r) (Some HttpResponse_new) =
  Some (0, Some (mkHttpResponse (status r) (content r) (filter nonempty_value (rsp_headers r)))).
Proof.
  intros Hr. rewrite serialize_response_text, <- sent_headers_map. intros Hacc. apply ParseHttpResponse_plain.
  - apply Hr.
  - apply sent_headers_plain, Hr.
  - apply sent_headers_nodup.
  - apply sent_headers_length, blen_nonneg. apply Hr.
  - exact Hacc.
Qed.

(** The same for a response whose length is announced, whose status lets it have a
    body and whose header is within the limit: [ParseHttpResponse] fills a new response object with the same
    status and content and exactly the headers that had a value. *)
Theorem response_arrives_as_sent `{IterOrder} {HL : HttpLib} {HS : HttpParserSpec HL} r :
  plain_response r -> header_size (Response_Serialize r) <= HTTP_MAX_HEADER_SIZE ->
  ParseHttpResponse (Response_Serialize r) (Some HttpResponse_new) =
  Some (0, Some (mkHttpResponse (status r) (content r) (filter nonempty_value (rsp_headers r)))).
Proof. intros Hr Hs. apply (response_parsed r Hr), accepts_plain; [by apply plain_response_message|done]. Qed.

(** ** The reference reader as http-parser *)

Lemma all_not_elem f s c : all f s = true -> f c = false -> c ∉ s.
Proof.
  unfold all. intros Hs Hc Hin. rewrite forallb_forall in Hs. apply list_elem_of_In in Hin.
  apply Hs in Hin. congruence.
Qed.

Lemma all_impl f g s : (forall c, f c = true -> g c = true) -> all f s = true -> all g s = true.
Proof. unfold all. rewrite !forallb_forall. auto. Qed.

Definition read_parts (s : bytes) : option (bytes * bytes * list (bytes * bytes) * bytes) :=
  '(verb, s) ← cut (lit " ") s;
  '(target, s) ← cut (lit " ") s;
  '(version, s) ← cut crlf s;
  '(hs, body) ← read_headers (S (length s)) s;
  Some (verb, target, hs, body).

(** The status text of the writer is not looked at. *)
Definition read_response_parts (s : bytes) : option (Z * list (bytes * bytes) * bytes) :=
  '(_, s) ← cut (lit " ") s;
  '(code, s) ← cut (lit " ") s;
  '(_, s) ← cut crlf s;
  '(hs, body) ← read_headers (S (length s)) s;
  Some (atoi code, hs, body).

Lemma plain_header_ok h : plain_header h = true -> header_ok h /\ nonempty_value h.
Proof.
  destruct h as [k v]. unfold plain_header, plain_name. simpl. intros [Hk Hv]%andb_true_iff.
  pose proof (plain_value_nonempty v Hv) as Hne. rewrite !andb_true_iff in Hk.
  destruct Hk as ((((Hk & _) & _) & _) & _). apply andb_true_iff in Hv as [Hv _].
  split; [|exact Hne]. split_and!; simpl; by eapply all_not_elem.
Qed.

Lemma read_plain_headers hs body :
  forallb plain_header hs = true ->
  read_headers (S (length (write_headers hs ++ crlf ++ body))) (write_headers hs ++ crlf ++ body) = Some (hs, body).
Proof.
  intros Hh.
  assert (Hok : Forall (fun h => header_ok h /\ nonempty_value h) hs).
  { apply Forall_forall. intros h Hin. rewrite forallb_forall in Hh. by apply plain_header_ok, Hh, list_elem_of_In. }
  apply Forall_and in Hok as [Hok Hne].
  assert (Hf : filter nonempty_value hs = hs).
  { clear -Hne. induction Hne as [|h hs Hh _ IH]; [done|]. rewrite filter_cons, decide_True, IH by done. done. }
  rewrite read_headers_write; [by rewrite Hf|done|].
  pose proof (write_headers_length hs). rewrite !length_app. lia.
Qed.

Lemma read_parts_text verb target hs body :
  verb = lit "GET" \/ verb = lit "POST" -> plain_target target = true -> forallb plain_header hs = true ->
  read_parts (request_text verb target hs body) = Some (verb, target, hs, body).
Proof.
  intros Hv [Ht _]%andb_true_iff Hh. unfold read_parts, request_text.
  assert (Hsp : " "%char ∉ verb).
  { by destruct Hv as [-> | ->]; [apply (bool_decide_unpack (" "%char ∉ lit "GET"))
      |apply (bool_decide_unpack (" "%char ∉ lit "POST"))]. }
  rewrite cut_space by done. cbn [mbind option_bind].
  rewrite cut_space by (by eapply all_not_elem). cbn [mbind option_bind].
  rewrite cut_crlf by (by apply (bool_decide_unpack (CR ∉ lit "HTTP/1.1"))). cbn [mbind option_bind].
  by rewrite read_plain_headers.
Qed.

Lemma read_response_parts_text st hs body :
  plain_status st = true -> forallb plain_header hs = true ->
  read_response_parts (response_text st hs body) = Some (st, hs, body).
Proof.
  unfold plain_status. rewrite !andb_true_iff, !Z.leb_le. intros (((H1 & H2) & _) & _) Hh.
  unfold read_response_parts, response_text.
  change (lit "HTTP/1.1 ") with (lit "HTTP/1.1" ++ lit " "). rewrite <- app_assoc.
  rewrite cut_space by (by apply (bool_decide_unpack (" "%char ∉ lit "HTTP/1.1"))). cbn [mbind option_bind].
  rewrite cut_space by (apply to_string_no; [lia|done]). cbn [mbind option_bind].
  assert (Hr : CR ∉ reason st) by (unfold reason; repeat case_match; by apply (bool_decide_unpack (CR ∉ _))).
  rewrite cut_crlf by done. cbn [mbind option_bind]. rewrite read_plain_headers by done. cbn [mbind option_bind].
  by rewrite atoi_to_string by lia.
Qed.

Definition ref_lib : HttpLib := {|
  http_parser_execute t _ b :=
    match t with
    | HTTP_BOTH => mkParsed [on_message_complete] (blen b) 0 0
    | HTTP_RESPONSE =>
        match read_response_parts b with
        | Some (st, hs, body) =>
            mkParsed (header_callbacks hs ++ body_callbacks body ++ [on_message_complete]) (blen b) 0 st
        | None => mkParsed [] 0 0 0
        end
    | HTTP_REQUEST =>
        match read_parts b with
        | Some (verb, target, hs, body) =>
            mkParsed (on_url target :: header_callbacks hs ++ body_callbacks body ++ [on_message_complete])
              (blen b) (method_number verb) 0
        | None => mkParsed [] 0 0 0
        end
    end;
  http_parser_parse_url s := Some (mkUrlFields None None None (Some (0, blen s)) None None None);
  curl_unescape s := s
|}.

Lemma accepts_any m : accepted (HL := ref_lib) m = true.
Proof. apply bool_decide_eq_true_2. by left. Qed.

#[export] Instance ref_lib_spec : HttpParserSpec ref_lib.
Proof.
  split.
  - intros verb target hs body Hv Ht Hh _ _ _. simpl. by rewrite read_parts_text.
  - intros st hs body Hst Hh _ _ _. simpl. by rewrite read_response_parts_text.
  - intros m _ _. apply accepts_any.
  - intros target _. eexists _, _. split; [reflexivity|]. done.
Qed.

Lemma request_arrives_as_sent_witness :
  exists r', @ParseHttpRequest ref_lib (Request_Serialize demo_request) (Some HttpRequest_new) = Some (0, Some r') /\
    GetMethod r' = 1 /\ GetUri r' = lit "/index" /\ GetContent r' = lit "hello" /\
    headers_ r' = filter nonempty_value (headers_ demo_request).
Proof.
  apply (@request_arrives_as_sent canonical_order ref_lib ref_lib_spec demo_request); [split|].
  - right. reflexivity.
  - reflexivity.
  - intros k v Hkv. assert (Hall : Forall (fun h => h.2 = [] \/ plain_header h = true) (map_to_list (headers_ demo_request))).
    { apply (bool_decide_unpack (Forall (fun h => h.2 = [] \/ plain_header h = true) (map_to_list (headers_ demo_request)))).
      vm_compute. exact I. }
    rewrite Forall_forall in Hall. apply (Hall (k, v)), elem_of_map_to_list. exact Hkv.
  - vm_compute. reflexivity.
  - vm_compute. reflexivity.
  - vm_compute. discriminate.
Defined.

Lemma response_arrives_as_sent_witness :
  let r := Response_SetContent (lit "hi") HttpResponse_new in
  @ParseHttpResponse ref_lib (Response_Serialize r) (Some HttpResponse_new) =
  Some (0, Some (mkHttpResponse 200 (lit "hi") (filter nonempty_value (rsp_headers r)))).
Proof.
  intros r. apply (@response_arrives_as_sent canonical_order ref_lib ref_lib_spec r); [split|].
  - reflexivity.
  - intros k v Hkv.
    change (<[lit "Content-Length" := to_string (blen (lit "hi"))]> (∅ : headers) !! k = Some v) in Hkv.
    apply lookup_insert_Some in Hkv as [[<- <-]|[_ Hkv]]; [right; reflexivity|].
    rewrite lookup_empty in Hkv. discriminate Hkv.
  - reflexivity.
  - vm_compute. discriminate.
Defined.
