(* ===== verification/TcpConn.v ===== *)
(** * Client connections: tcp_conn.{h,cc} and http_client.{h,cc}

    A [TcpConn] is an address, a descriptor and an error log; its operations are
    computations that return the result and the connection they leave. *)

From S2P Require Import Prelude CStr World Network FrameIO HttpMsg HttpTool.

Definition CHECK_ERROR : Z := -1.
Definition CHECK_INCOMPLETE : Z := -2.
Definition kInvalidFd : Z := -1.
Definition kMaxRecvSize : Z := 5120.

(** ** TcpConn *)

Record TcpConn := mkTcpConn {
  ip_ : Z;
  port_ : Z;
  fd_ : Z;
  connect_timeout_ : Z;
  read_timeout_ : Z;
  write_timeout_ : Z;
  strlog_ : bytes
}.

(** The members that the constructor does not initialise hold [garbage]. *)
Definition TcpConn_new (garbage : TcpConn) : TcpConn :=
  mkTcpConn (ip_ garbage) (port_ garbage) kInvalidFd (connect_timeout_ garbage)
    (read_timeout_ garbage) (write_timeout_ garbage) [].

Definition set_fd (fd : Z) (c : TcpConn) : TcpConn :=
  mkTcpConn (ip_ c) (port_ c) fd (connect_timeout_ c) (read_timeout_ c) (write_timeout_ c) (strlog_ c).
Definition set_strlog (s : bytes) (c : TcpConn) : TcpConn :=
  mkTcpConn (ip_ c) (port_ c) (fd_ c) (connect_timeout_ c) (read_timeout_ c) (write_timeout_ c) s.
Definition log_append (s : bytes) (c : TcpConn) : TcpConn := set_strlog (strlog_ c ++ s) c.

Section conn.
(** [strerror], a function of the C library. *)
Context (strerror : Z -> bytes).

(** [strlog_.append(msg).append(strerror(errno))] *)
Definition log_errno (msg : bytes) (c : TcpConn) : IO TcpConn :=
  let* e := get_errno in io_ret (log_append (msg ++ strerror e) c).

Definition Close (c : TcpConn) : IO TcpConn :=
  if negb (kInvalidFd =? fd_ c) then
    let* _ := sys (c_close (fd_ c)) in io_ret (set_strlog [] (set_fd kInvalidFd c))
  else io_ret (set_strlog [] (set_fd kInvalidFd c)).

Definition TcpConn_delete (c : TcpConn) : IO TcpConn := Close c.

Definition GetErrorMsg (c : TcpConn) : bytes * TcpConn := (strlog_ c, set_strlog [] c).

Definition SetBlocking (blocking : bool) (c : TcpConn) : IO (Z * TcpConn) :=
  let* r := sys (c_fcntl_getfl (fd_ c)) in
  let flags := s32 (r_ret r) in
  if flags =? -1 then io_ret (-1, log_append (lit "|fcntl GET error") c)
  else
    let flags := if blocking then Z.land flags (Z.lnot O_NONBLOCK) else Z.lor flags O_NONBLOCK in
    let* r := sys (c_fcntl_setfl (fd_ c) flags) in
    if s32 (r_ret r) =? -1 then io_ret (-1, log_append (lit "|fcntl SET error") c)
    else io_ret (0, c).

Definition Init (ip port connect_timeout read_timeout write_timeout : Z) (c : TcpConn) :
    IO (Z * TcpConn) :=
  if (0 =? ip) || (0 =? port) then io_ret (-1, c)
  else
    let* s := sys (c_socket SOCK_STREAM) in
    let fd := s32 (r_ret s) in
    let c := mkTcpConn ip port fd connect_timeout read_timeout write_timeout (strlog_ c) in
    if -1 =? fd then
      let* c := log_errno (lit "|socket error: ") c in io_ret (-1, c)
    else
      let* b := SetBlocking false c in
      let '(res, c) := b in
      if res <? 0 then
        let* c := Close c in io_ret (-1, log_append (lit "|SetBlocking error") c)
      else
        let* ret := Frame_connect (fd_ c) (mkSockaddr ip (htons port)) in
        if ret <? 0 then
          let* c := Close c in
          let* c := log_errno (lit "|tinyco::connect error: ") c in io_ret (-1, c)
        else io_ret (0, c).

Definition TryReConnect (c : TcpConn) : IO (Z * TcpConn) := Init (ip_ c) (port_ c) 200 200 200 c.

(** The reconnection at the start of the two senders. *)
Definition reconnect_if_needed (c : TcpConn) : IO (Z * TcpConn) :=
  if kInvalidFd =? fd_ c then
    let c := log_append (lit "|try to reconnect server") c in
    let* r := TryReConnect c in
    let '(ret, c) := r in
    if ret <? 0 then io_ret (-1, log_append (lit "|reconnect server error") c)
    else io_ret (0, c)
  else io_ret (0, c).

(** [while (left > 0)]: the loop state is [left], the result an error message and
    its code. *)
Definition send_left_body (fd : Z) (buf : bytes) (left : Z) : IO (Z + (Z * bytes)) :=
  if 0 <? left then
    let* ret := Frame_send fd (take (Z.to_nat left) (drop (Z.to_nat (blen buf - left)) buf)) 0 in
    let* e := get_errno in
    if ret <? 0 then io_ret (inr (-1, lit "|tinyco::send error: " ++ strerror e))
    else if ret =? 0 then
      io_ret (inr (-1, lit "|tinyco::send error: server close the connection: " ++ strerror e))
    else if left <? ret then io_ret (inr (-1, lit "|tinyco::send werid error: " ++ strerror e))
    else io_ret (inl (s32 (left - ret)))
  else io_ret (inr (0, [])).

Definition send_all (buf : bytes) (c : TcpConn) : IO (Z * TcpConn) :=
  let* r := loop (send_left_body (fd_ c) buf) (s32 (blen buf)) in
  io_ret (fst r, log_append (snd r) c).

Definition Send (buf : option bytes) (c : TcpConn) : IO (Z * TcpConn) :=
  let* r := reconnect_if_needed c in
  let '(ret, c) := r in
  if ret <? 0 then io_ret (-1, c)
  else match buf with
  | None => io_ret (-1, c)
  | Some buf => if blen buf =? 0 then io_ret (-1, c) else send_all buf c
  end.

(** How the receive loop ends: an error message, or the value of [func] and the
    bytes received. *)
Definition recv_check_body (fd : Z) (func : bytes -> Z) (s : bytes * Z) :
    IO (bytes * Z + (bytes + Z * bytes)) :=
  let '(real_buf, recvd) := s in
  let* a := Frame_recv fd kMaxRecvSize 0 in
  let '(ret, data) := a in
  let* e := get_errno in
  if ret <? 0 then io_ret (inr (inl (lit "|tinyco::recv error: " ++ strerror e)))
  else if ret =? 0 then
    io_ret (inr (inl (lit "|tinyco::recv error: server close the connection: " ++ strerror e ++
                      lit "|recvd=" ++ to_string recvd)))
  else
    let recvd := s32 (recvd + ret) in
    let real_buf := real_buf ++ data in
    let eof := func real_buf in
    if 0 <? eof then io_ret (inr (inr (eof, real_buf)))
    else if (eof <? 0) && negb (eof =? CHECK_INCOMPLETE) then io_ret (inr (inr (eof, real_buf)))
    else io_ret (inl (real_buf, recvd)).

(** The result, [*output] and the connection.  [func] is given the bytes received
    so far; when it returns more than their number the code reads past them. *)
Definition SendAndReceive (buf output : option bytes) (func : bytes -> Z) (c : TcpConn) :
    IO (Z * option bytes * TcpConn) :=
  match output, buf with
  | Some out, Some b =>
      if blen b =? 0 then io_ret (-1, output, c)
      else
        let* r := reconnect_if_needed c in
        let '(ret, c) := r in
        if ret <? 0 then io_ret (-1, output, c)
        else
          let* r := send_all b c in
          let '(ret, c) := r in
          if ret <? 0 then io_ret (-1, output, c)
          else
            let* r := loop (recv_check_body (fd_ c) func) ([], 0) in
            match r with
            | inl msg => io_ret (-1, output, log_append msg c)
            | inr (eof, real_buf) =>
                if eof <? 0 then
                  io_ret (-1, output,
                    log_append (lit "|recv error data: ret_code=" ++ to_string eof ++
                                lit "|func eof error.") c)
                else io_ret (0, Some (take (Z.to_nat eof) real_buf), c)
            end
  | _, _ => io_ret (-1, output, c)
  end.

End conn.

(** ** HttpClient *)

Definition kMsConnectTimeout : Z := 1000.
Definition kMsReadTimeout : Z := 5000.
Definition kMsWriteTimeout : Z := 500.

Record HttpClient := mkHttpClient {
  hc_conn : TcpConn;
  strerr_ : bytes;
  ms_connect_timeout_ : Z;
  ms_read_timeout_ : Z;
  ms_write_timeout_ : Z
}.

Definition HttpClient_new (garbage : TcpConn) : HttpClient :=
  mkHttpClient (TcpConn_new garbage) [] kMsConnectTimeout kMsReadTimeout kMsWriteTimeout.

Definition HttpClient_GetErrorMsg (h : HttpClient) : bytes * HttpClient :=
  (strerr_ h, mkHttpClient (hc_conn h) [] (ms_connect_timeout_ h) (ms_read_timeout_ h) (ms_write_timeout_ h)).

Definition SetConnectMsTimeout (t : Z) (h : HttpClient) : HttpClient :=
  mkHttpClient (hc_conn h) (strerr_ h) (if t <? 0 then kMsConnectTimeout else t)
    (ms_read_timeout_ h) (ms_write_timeout_ h).
Definition SetReadMsTimeout (t : Z) (h : HttpClient) : HttpClient :=
  mkHttpClient (hc_conn h) (strerr_ h) (ms_connect_timeout_ h)
    (if t <? 0 then kMsReadTimeout else t) (ms_write_timeout_ h).
Definition SetWriteMsTimeout (t : Z) (h : HttpClient) : HttpClient :=
  mkHttpClient (hc_conn h) (strerr_ h) (ms_connect_timeout_ h) (ms_read_timeout_ h)
    (if t <? 0 then kMsWriteTimeout else t).

Definition set_conn (c : TcpConn) (h : HttpClient) : HttpClient :=
  mkHttpClient c (strerr_ h) (ms_connect_timeout_ h) (ms_read_timeout_ h) (ms_write_timeout_ h).

Section client.
Context {HL : HttpLib} (strerror : Z -> bytes).

(** The destructor; that of the base class runs after it. *)
Definition HttpClient_delete (h : HttpClient) : IO HttpClient :=
  let* c := Close (hc_conn h) in
  let* c := TcpConn_delete c in
  io_ret (set_conn c h).

Definition HttpClient_Init (ip port : Z) (h : HttpClient) : IO (Z * HttpClient) :=
  if (0 =? ip) || (0 =? port) then io_ret (-1, h)
  else
    let* r := Init strerror ip port (ms_connect_timeout_ h) (ms_read_timeout_ h)
                (ms_write_timeout_ h) (hc_conn h) in
    let '(ret, c) := r in
    io_ret (if ret <? 0 then -2 else 0, set_conn c h).

Definition HttpCheckComplete (data : bytes) : Z :=
  let ret := fst (CheckHttp data 0) in
  if ret =? HPC_OK then s32 (blen data)
  else if ret =? HPC_NOT_HTTP then 0
  else if ret =? HPC_NOT_COMPLETE_HTTP then CHECK_INCOMPLETE
  else CHECK_ERROR.

(** [SendAndReceive(const char *, size_t, std::string * )] *)
Definition HttpClient_SendAndReceive (sendbuf recvbuf : option bytes) (h : HttpClient) :
    IO (Z * option bytes * HttpClient) :=
  match recvbuf with
  | None => io_ret (-1, recvbuf, h)
  | Some _ =>
      let* r := SendAndReceive strerror sendbuf recvbuf HttpCheckComplete (hc_conn h) in
      let '(ret, out, c) := r in io_ret (ret, out, set_conn c h)
  end.

(** [SendAndReceive(const char *, size_t, char *, size_t * )]: the result, what is
    stored at the start of [recvbuf], and [*recvlen]. *)
Definition HttpClient_SendAndReceive_buf (sendbuf recvbuf : option bytes) (recvlen : option Z)
    (h : HttpClient) : IO (Z * option bytes * option Z * HttpClient) :=
  match sendbuf, recvbuf, recvlen with
  | Some sb, Some rb, Some rl =>
      if blen sb =? 0 then io_ret (-1, recvbuf, recvlen, h)
      else
        let* r := SendAndReceive strerror sendbuf (Some []) HttpCheckComplete (hc_conn h) in
        let '(ret, out, c) := r in
        let str := default [] out in
        let h := set_conn c h in
        if ret <? 0 then io_ret (-2, recvbuf, recvlen, h)
        else if rl <? blen str then io_ret (-3, recvbuf, recvlen, h)
        else io_ret (ret, Some (str ++ drop (length str) rb), Some (blen str), h)
  | _, _, _ => io_ret (-1, recvbuf, recvlen, h)
  end.

End client.
