(* ===== verification/TcpConnProps.v ===== *)
(** * Properties of the client connections *)

From S2P Require Import Prelude CStr World Network FrameIO FrameIOProps HttpMsg HttpTool TcpConn.

Section props.
Context (strerror : Z -> bytes).

(** ** Sending *)

Lemma Frame_send_empty fd flags w : Frame_send fd [] flags w = Done 0 [] w.
Proof. reflexivity. Qed.

Lemma Frame_send_calls fd buf flags w ret t w' :
  Frame_send fd buf flags w = Done ret t w' -> ret <> 0 -> t <> [].
Proof.
  unfold Frame_send. rewrite loop_unfold by apply send_productive. intros H Hr. io_inv.
  destruct a as [s|r].
  - pose proof (proj2 (send_productive fd buf)) as Hp.
    match goal with H : send_body _ _ _ _ = _ |- _ => apply Hp in H end.
    by destruct t0.
  - io_inv. match goal with H : send_body _ _ _ _ = _ |- _ => apply send_exit in H end.
    destruct H0 as [(Hle & -> & ->)|(_ & r & _ & _ & [->|[v ->]])]; [|done..].
    pose proof (blen_nonneg buf). assert (blen buf = 0) by lia. by destruct Hr.
Qed.

Lemma send_left_productive fd buf : productive (send_left_body strerror fd buf).
Proof.
  unfold send_left_body. split; [intros; sane_tac|]. intros s w s' t w' H.
  destruct (0 <? s); io_inv; [|done].
  repeat (split_match_in H; io_inv; try done).
  match goal with H : Frame_send _ _ _ _ = _ |- _ => apply Frame_send_calls in H end; [by destruct t0|].
  rewrite Z.eqb_neq in *. done.
Qed.

(** The part of the buffer that is still to be sent. *)
Definition rest (buf : bytes) (left : Z) : bytes :=
  take (Z.to_nat left) (drop (Z.to_nat (blen buf - left)) buf).

Lemma blen_rest buf left : 0 <= left <= blen buf -> blen (rest buf left) = left.
Proof. unfold rest, blen. intros. rewrite length_take, length_drop. lia. Qed.

Lemma take_rest buf left n :
  0 <= left <= blen buf -> 0 <= n <= left ->
  take (Z.to_nat (blen buf - left)) buf ++ take (Z.to_nat n) (rest buf left) =
  take (Z.to_nat (blen buf - left + n)) buf.
Proof.
  unfold rest, blen. intros. rewrite take_take, drop_drop_take. f_equal. lia.
Qed.

Section send_all.
Context (fd : Z) (buf : bytes).
Hypothesis Hlen : blen buf < 2 ^ 31.

(** An iteration hands over a part of the rest, the whole of it when it goes on. *)
Lemma send_left_step left w x t w' :
  0 <= left <= blen buf -> send_left_body strerror fd buf left w = Done x t w' -> Forall os_ok t ->
  Forall (only_on_send fd) t /\ exists n, 0 <= n <= left /\ sent fd t = take (Z.to_nat n) (rest buf left) /\
  match x with
  | inl left' => left' = left - n
  | inr (code, msg) => (left = 0 /\ code = 0 /\ msg = []) \/ (0 < left /\ code = -1)
  end.
Proof using Hlen.
  unfold send_left_body. intros Hl H Hok. destruct (Z.ltb_spec 0 left) as [Hp|Hp].
  2:{ io_inv. split; [done|]. exists 0. split; [lia|]. split; [done|]. left. split; [lia|done]. }
  io_inv. fold (rest buf left) in *. rewrite Forall_app in Hok. destruct Hok as [Hok _].
  match goal with H : Frame_send _ _ _ ?w = _ |- _ =>
    pose proof (send_loop_spec fd (rest buf left) ltac:(rewrite blen_rest; lia) 0 w) as Hs; rewrite H in Hs end.
  destruct (Hs Hok) as (Hon & n & Hn & Hsent & Hret). rewrite blen_rest in Hn, Hret by done.
  destruct (Z.ltb_spec a 0); [|destruct (Z.eqb_spec a 0); [|destruct (Z.ltb_spec left a)]];
    io_inv; rewrite ?app_nil_r; (split; [done|]); exists n; (split; [lia|]); (split; [done|]);
    try (right; lia); try lia. rewrite s32_id; lia.
Qed.

Lemma send_left_waits left w t :
  0 <= left <= blen buf -> send_left_body strerror fd buf left w = Blocked t -> Forall os_ok t ->
  Forall (only_on_send fd) t /\ exists n, 0 <= n <= left /\ sent fd t = take (Z.to_nat n) (rest buf left).
Proof using Hlen.
  unfold send_left_body. intros Hl H Hok. destruct (Z.ltb_spec 0 left) as [Hp|Hp]; [|io_inv].
  io_inv.
  - fold (rest buf left) in *.
    pose proof (send_loop_spec fd (rest buf left) ltac:(rewrite blen_rest; lia) 0 w) as Hs.
    rewrite H in Hs. destruct (Hs Hok) as (Hon & _ & n & Hn & Hsent). rewrite blen_rest in Hn by done.
    split; [done|]. exists n. split; [lia|done].
  - repeat (split_match_in H; io_inv).
Qed.

Lemma send_left_loop w :
  match loop (send_left_body strerror fd buf) (s32 (blen buf)) w with
  | Done (code, msg) t _ => Forall os_ok t -> Forall (only_on_send fd) t /\
      ((code = 0 /\ msg = [] /\ sent fd t = buf) \/
       (code = -1 /\ exists n, sent fd t = take n buf))
  | Blocked t => Forall os_ok t -> Forall (only_on_send fd) t /\ exists n, sent fd t = take n buf
  end.
Proof using Hlen.
  pose proof (blen_nonneg buf) as Hb. rewrite s32_id by lia.
  set (I := fun (left : Z) (acc : io_trace) => 0 <= left <= blen buf /\ Forall (only_on_send fd) acc /\
    sent fd acc = take (Z.to_nat (blen buf - left)) buf).
  set (Q := fun (x : Z * bytes) (t : io_trace) => Forall (only_on_send fd) t /\
      ((x.1 = 0 /\ x.2 = [] /\ sent fd t = buf) \/ (x.1 = -1 /\ exists n, sent fd t = take n buf))).
  pose proof (loop_inv _ (send_left_productive fd buf) os_ok I Q
    (fun t => Forall (only_on_send fd) t /\ exists n, sent fd t = take n buf)) as H.
  specialize (H ltac:(unfold I; intros s acc w0 s' t w' (Hs & Hon & Hsent) Hb' Hok;
    destruct (send_left_step s w0 _ t w' Hs Hb' Hok) as (Hon' & n & Hn & Hsent' & ->);
    rewrite Forall_app, sent_app, Hsent, Hsent', take_rest by lia;
    split_and!; [lia..|done|done|f_equal; lia])).
  specialize (H ltac:(unfold I, Q; intros s acc w0 [code msg] t w' (Hs & Hon & Hsent) Hb' Hok;
    destruct (send_left_step s w0 _ t w' Hs Hb' Hok) as (Hon' & n & Hn & Hsent' & Hx);
    rewrite Forall_app, sent_app, Hsent, Hsent', take_rest by lia;
    split; [done|]; destruct Hx as [(-> & -> & ->)|[? ->]]; [left|right; eauto];
    split_and!; try done; unfold blen in *; rewrite take_ge by lia; done)).
  specialize (H ltac:(unfold I; intros s acc w0 t (Hs & Hon & Hsent) Hb' Hok;
    destruct (send_left_waits s w0 t Hs Hb' Hok) as (Hon' & n & Hn & Hsent');
    rewrite Forall_app, sent_app, Hsent, Hsent', take_rest by lia; eauto)).
  specialize (H (blen buf) [] w).
  assert (HI : I (blen buf) []) by (unfold I; rewrite Z.sub_diag; split_and!; [lia|lia|done|done]).
  specialize (H HI). destruct (loop _ _ w) as [[code msg] t w'|t]; exact H.
Qed.

End send_all.

(** ** Receiving *)

Lemma recv_check_productive fd func : productive (recv_check_body strerror fd func).
Proof.
  unfold recv_check_body. split.
  - intros [rb n]. sane_tac.
  - intros [rb n] w s' t w' H. io_inv. destruct a as [ret data].
    match goal with H : Frame_recv _ _ _ _ = _ |- _ => apply Frame_recv_calls in H end. by destruct t0.
Qed.

(** Calls that neither send nor touch another descriptor. *)
Definition only_recv (c : syscall) : Prop :=
  match c with c_recv _ _ _ | c_wait _ _ => True | _ => False end.

Lemma only_recv_sent fd t : Forall (fun e => only_recv e.1) t -> sent fd t = [].
Proof.
  induction 1 as [|[c r] t Hx Ht IH]; [done|].
  change (sent fd ((c, r) :: t)) with (taken fd (c, r) ++ sent fd t). rewrite IH. by destruct c.
Qed.

Lemma only_on_send_received fd fd' t : Forall (only_on_send fd) t -> received fd' t = [].
Proof.
  intros H. apply received_none. eapply Forall_impl; [exact H|]. intros [c r]. by destruct c.
Qed.

Section recv_loop.
Context (fd : Z) (func : bytes -> Z).

(** The check function asked for more after each part. *)
Definition asked_for_more (chunks : list bytes) : Prop :=
  forall k, (0 < k <= length chunks)%nat ->
  func (concat (take k chunks)) = 0 \/ func (concat (take k chunks)) = CHECK_INCOMPLETE.

Definition recv_I (s : bytes * Z) (acc : io_trace) : Prop :=
  Forall (fun e => only_recv e.1) acc /\ received fd acc = s.1 /\
  exists chunks, s.1 = concat chunks /\ Forall (fun c => c <> []) chunks /\ asked_for_more chunks.

Definition recv_Q (x : bytes + Z * bytes) (t : io_trace) : Prop :=
  Forall (fun e => only_recv e.1) t /\
  match x with
  | inl _ => True
  | inr (eof, data) =>
      received fd t = data /\ eof = func data /\ eof <> 0 /\ eof <> CHECK_INCOMPLETE /\
      exists chunks last, data = concat chunks ++ last /\ Forall (fun c => c <> []) (chunks ++ [last]) /\
        asked_for_more chunks
  end.

Lemma asked_snoc chunks c :
  asked_for_more chunks ->
  func (concat chunks ++ c) = 0 \/ func (concat chunks ++ c) = CHECK_INCOMPLETE ->
  asked_for_more (chunks ++ [c]).
Proof.
  intros H Hc k Hk. rewrite length_app in Hk. simpl in Hk.
  destruct (decide (k <= length chunks)%nat).
  - rewrite take_app_le by lia. apply H. lia.
  - rewrite take_ge by (rewrite length_app; simpl; lia). rewrite concat_app. simpl.
    by rewrite app_nil_r.
Qed.

Lemma recv_check_step s w x t w' :
  recv_check_body strerror fd func s w = Done x t w' -> Forall os_ok t ->
  Forall (fun e => only_recv e.1) t /\
  match x with
  | inl s' => exists data, data <> [] /\ received fd t = data /\ s'.1 = s.1 ++ data /\
      (func (s.1 ++ data) = 0 \/ func (s.1 ++ data) = CHECK_INCOMPLETE)
  | inr (inl _) => True
  | inr (inr (eof, rb)) => exists data, data <> [] /\ received fd t = data /\ rb = s.1 ++ data /\
      eof = func rb /\ eof <> 0 /\ eof <> CHECK_INCOMPLETE
  end.
Proof.
  unfold recv_check_body. destruct s as [rb n]. intros H Hok. io_inv. destruct a as [ret data]. io_inv.
  rewrite Forall_app in Hok. destruct Hok as [Hok _].
  match goal with H : Frame_recv _ _ _ _ = _ |- _ => rename H into E end.
  pose proof (recv_facts fd kMaxRecvSize 0 w ltac:(done)) as Hr. rewrite E in Hr.
  destruct (Hr Hok) as (Hrec & Hbl & _).
  assert (Hcalls : Forall (fun e => only_recv e.1) t0).
  { eapply (calls_done only_recv); [|exact E]. by apply calls_Frame_recv. }
  assert (Hd : 0 < ret -> data <> []) by (intros ? ->; unfold blen in Hbl; simpl in Hbl; lia).
  subst data.
  destruct (Z.ltb_spec ret 0); [io_inv; by rewrite app_nil_r|].
  destruct (Z.eqb_spec ret 0); [io_inv; by rewrite app_nil_r|].
  destruct (Z.ltb_spec 0 (func (rb ++ received fd t0))) as [Hf|Hf].
  { io_inv. rewrite app_nil_r. split; [done|]. exists (received fd t0). split; [apply Hd; lia|].
    split_and!; try done; [lia|]. unfold CHECK_INCOMPLETE. lia. }
  destruct (Z.ltb_spec (func (rb ++ received fd t0)) 0), (Z.eqb_spec (func (rb ++ received fd t0)) CHECK_INCOMPLETE);
    simpl in *; io_inv; rewrite app_nil_r; (split; [done|]); exists (received fd t0); (split; [apply Hd; lia|]);
    split_and!; try done; try lia; first [by right|left; lia].
Qed.

Lemma recv_check_waits s w t :
  recv_check_body strerror fd func s w = Blocked t -> Forall (fun e => only_recv e.1) t.
Proof.
  unfold recv_check_body. destruct s as [rb n]. intros H. io_inv.
  - assert (Hc : calls only_recv (Frame_recv fd kMaxRecvSize 0)) by (by apply calls_Frame_recv).
    specialize (Hc w). by rewrite H in Hc.
  - destruct a as [ret data]. io_inv. repeat (split_match_in H; io_inv).
Qed.

Lemma recv_check_loop w :
  match loop (recv_check_body strerror fd func) ([], 0) w with
  | Done x t _ => Forall os_ok t -> recv_Q x t
  | Blocked t => Forall os_ok t -> Forall (fun e => only_recv e.1) t
  end.
Proof.
  pose proof (loop_inv _ (recv_check_productive fd func) os_ok recv_I recv_Q
    (Forall (fun e => only_recv e.1))) as H.
  apply (H) with (acc := []); clear H.
  - intros s acc w0 s' t w' (Hon & Hrec & ch & Hs & Hne & Hask) Hb Hok.
    destruct (recv_check_step _ _ _ _ _ Hb Hok) as (Hon' & data & Hd & Hrec' & Hs' & Hf).
    unfold recv_I. rewrite Forall_app, received_app, Hrec, Hrec'. split; [done|]. split; [done|].
    exists (ch ++ [data]). rewrite concat_app, Forall_app, Forall_singleton. simpl. rewrite app_nil_r, <- Hs.
    split; [done|]. split; [done|]. apply asked_snoc; [done|]. by rewrite <- Hs.
  - intros s acc w0 x t w' (Hon & Hrec & ch & Hs & Hne & Hask) Hb Hok.
    destruct (recv_check_step _ _ _ _ _ Hb Hok) as (Hon' & Hx).
    unfold recv_Q. rewrite Forall_app. split; [done|]. destruct x as [msg|[eof rb]]; [done|].
    destruct Hx as (data & Hd & Hrec' & -> & He & H0 & H1).
    rewrite received_app, Hrec, Hrec'. split_and!; try done.
    exists ch, data. rewrite Forall_app, Forall_singleton, Hs. done.
  - intros s acc w0 t (Hon & _) Hb Hok. rewrite Forall_app. split; [done|].
    by eapply recv_check_waits.
  - split; [done|]. split; [done|]. exists []. split_and!; [done|done|].
    intros k Hk. simpl in Hk. lia.
Qed.

End recv_loop.

(** ** The exchange *)

Lemma exchange_facts func b out c w :
  fd_ c <> kInvalidFd -> b <> [] -> blen b < 2 ^ 31 ->
  match SendAndReceive strerror (Some b) (Some out) func c w with
  | Done (ret, out', c') t w' =>
      Forall os_ok t ->
      fd_ c' = fd_ c /\
      ((ret = 0 /\ sent (fd_ c) t = b /\ exists chunks last,
          received (fd_ c) t = concat chunks ++ last /\
          0 < func (concat chunks ++ last) /\ asked_for_more func chunks /\
          out' = Some (take (Z.to_nat (func (concat chunks ++ last))) (concat chunks ++ last))) \/
       (ret = -1 /\ out' = Some out /\ exists n, sent (fd_ c) t = take n b))
  | Blocked t => True
  end.
Proof.
  intros Hfd Hb Hlen. destruct (SendAndReceive _ _ _ _ _ w) as [[[ret out'] c'] t w'|t] eqn:E; [|done].
  intros Hok. unfold SendAndReceive in E.
  destruct (Z.eqb_spec (blen b) 0) as [E0|_]; [destruct b; [done|unfold blen in E0; simpl in E0; lia]|].
  unfold reconnect_if_needed in E. destruct (Z.eqb_spec kInvalidFd (fd_ c)) as [|_]; [congruence|].
  unfold send_all in E. io_inv. cbv beta iota in E. io_inv.
  change (0 <? 0) with false in E. cbv beta iota in E. io_inv.
  pose proof (send_left_loop (fd_ c) b Hlen w) as Hs.
  match goal with H : loop (send_left_body _ _ _) _ _ = _ |- _ => rewrite H in Hs; clear H end.
  match goal with H : let (_, _) := ?a in Forall os_ok _ -> _ |- _ => destruct a as [code msg] end.
  rewrite app_nil_l, app_nil_r in *. cbv beta iota delta [fst snd] in E.
  set (c1 := log_append msg c) in *. change (fd_ c1) with (fd_ c) in E.
  apply Forall_app in Hok as [Hok1 Hok2]. destruct (Hs Hok1) as [Hon Hsent]. clear Hs.
  destruct Hsent as [(-> & Hmsg & Hsent)|(-> & n & Hsent)];
    [change (0 <? 0) with false in E|change (-1 <? 0) with true in E]; cbv beta iota in E.
  2:{ io_inv. simplify_eq. split; [done|]. right. rewrite app_nil_r. eauto. }
  apply io_bind_inv in E as (x & t2 & w2 & t3 & Hl & E & ->).
  pose proof (recv_check_loop (fd_ c) func w1) as Hr. rewrite Hl in Hr.
  apply Forall_app in Hok2 as [Hok2 _]. destruct (Hr Hok2) as [Hon2 Hx].
  assert (Hall : sent (fd_ c) (t1 ++ t2) = b /\ received (fd_ c) (t1 ++ t2) = received (fd_ c) t2).
  { rewrite sent_app, received_app, Hsent, (only_recv_sent _ _ Hon2), (only_on_send_received _ _ _ Hon).
    by rewrite app_nil_r. }
  destruct Hall as [Hall1 Hall2].
  assert (Hfail : exists n, sent (fd_ c) (t1 ++ t2) = take n b).
  { exists (length b). by rewrite Hall1, take_ge. }
  destruct x as [m|[eof data]]; [|destruct (Z.ltb_spec eof 0)]; io_inv; simplify_eq;
    rewrite app_nil_r; (split; [done|]); [right; eauto|right; eauto|left].
  destruct Hx as (Hrec & He & Hne0 & _ & chunks & last & Hdata & _ & Hask).
  split; [done|]. split; [done|]. exists chunks, last.
  rewrite Hall2, Hrec, <- Hdata, <- He. split_and!; try done. lia.
Qed.

(** What is sent is a beginning of the request, also while the call waits. *)
Lemma exchange_waits func b out c w t :
  fd_ c <> kInvalidFd -> blen b < 2 ^ 31 ->
  SendAndReceive strerror (Some b) (Some out) func c w = Blocked t -> Forall os_ok t ->
  exists n, sent (fd_ c) t = take n b.
Proof.
  intros Hfd Hlen E Hok. unfold SendAndReceive in E. destruct (blen b =? 0); [io_inv|].
  unfold reconnect_if_needed in E. destruct (Z.eqb_spec kInvalidFd (fd_ c)) as [|_]; [congruence|].
  pose proof (send_left_loop (fd_ c) b Hlen w) as Hs.
  unfold send_all in E. io_inv. change (0 <? 0) with false in E. cbv beta iota in *.
  rewrite app_nil_l in *. io_inv; cbv beta iota in *.
  { match goal with H : loop _ _ _ = _ |- _ => rewrite H in Hs end. by apply Hs. }
  match goal with H : loop (send_left_body _ _ _) _ _ = Done ?x _ _ |- _ => rewrite H in Hs; destruct x as [code msg] end.
  rewrite !app_nil_r in *. apply Forall_app in Hok as [Hok1 Hok2].
  destruct (Hs Hok1) as (_ & Hsent). cbn [fst snd] in E.
  destruct (code <? 0); [io_inv|]. io_inv.
  - pose proof (recv_check_loop (fd_ c) func w1) as Hr.
    change (fd_ (log_append msg c)) with (fd_ c) in E. rewrite E in Hr.
    pose proof (Hr Hok2) as Hon. rewrite sent_app, (only_recv_sent _ _ Hon), app_nil_r.
    destruct Hsent as [(_ & _ & ->)|[_ Hn]]; [|done]. exists (length b). by rewrite take_ge.
  - repeat (split_match_in E; io_inv).
Qed.

(** ** Claims *)

(** C27: [TcpConn::SendAndReceive] on an open connection is one exchange: the result
    is 0 or -1; with 0 the kernel has taken the whole request in order, the bytes
    received are [concat chunks ++ last] of which the check function accepted
    [eof > 0], it had asked for more after every earlier chunk, and the output is
    the first [eof] bytes; with -1 the output is untouched.  The descriptor stays
    the same and nothing else is sent on it. *)
Theorem send_and_receive_exchange func b out c w :
  fd_ c <> kInvalidFd -> b <> [] -> blen b < 2 ^ 31 ->
  match SendAndReceive strerror (Some b) (Some out) func c w with
  | Done (ret, out', c') t w' =>
      Forall os_ok t ->
      fd_ c' = fd_ c /\
      ((ret = 0 /\ sent (fd_ c) t = b /\ exists chunks last,
          received (fd_ c) t = concat chunks ++ last /\
          0 < func (concat chunks ++ last) /\ asked_for_more func chunks /\
          out' = Some (take (Z.to_nat (func (concat chunks ++ last))) (concat chunks ++ last))) \/
       (ret = -1 /\ out' = Some out /\ exists n, sent (fd_ c) t = take n b))
  | Blocked t => True
  end.
Proof. exact (exchange_facts func b out c w). Qed.

End props.

(** Request "ping", an answer in two parts that is complete after 4 bytes. *)
Definition demo_conn : TcpConn := mkTcpConn 16777343 20480 7 200 200 200 [].
Definition demo_check (b : bytes) : Z := if blen b <? 4 then CHECK_INCOMPLETE else 4.

Lemma send_and_receive_exchange_witness :
  match SendAndReceive (fun _ => []) (Some (lit "ping")) (Some []) demo_check demo_conn
    (os [answer 4 0 []; answer 2 0 (lit "po"); answer 3 0 (lit "ng!")]) with
  | Done (ret, out', c') t w' =>
      ret = 0 /\ out' = Some (lit "pong") /\
      (Forall os_ok t ->
      fd_ c' = fd_ demo_conn /\
      ((ret = 0 /\ sent (fd_ demo_conn) t = lit "ping" /\ exists chunks last,
          received (fd_ demo_conn) t = concat chunks ++ last /\
          0 < demo_check (concat chunks ++ last) /\ asked_for_more demo_check chunks /\
          out' = Some (take (Z.to_nat (demo_check (concat chunks ++ last))) (concat chunks ++ last))) \/
       (ret = -1 /\ out' = Some [] /\ exists n, sent (fd_ demo_conn) t = take n (lit "ping"))))
  | Blocked t => False
  end.
Proof.
  pose proof (send_and_receive_exchange (fun _ => []) demo_check (lit "ping") [] demo_conn
    (os [answer 4 0 []; answer 2 0 (lit "po"); answer 3 0 (lit "ng!")])
    ltac:(discriminate) ltac:(discriminate) eq_refl) as H.
  match goal with |- context [SendAndReceive ?s ?a ?b ?f ?c ?w] => io_run (SendAndReceive s a b f c w) end.
  split; [reflexivity|]. split; [reflexivity|]. exact H.
Defined.

Lemma complete_flag l :
  foldl (fun a c => http_complete c a) 0 l = if decide (on_message_complete ∈ l) then 1 else 0.
Proof.
  assert (H1 : forall k, foldl (fun a c => http_complete c a) 1 k = 1) by (by induction k as [|[] k IH]).
  induction l as [|c l IH]; [done|]. cbn [foldl].
  destruct (decide (c = on_message_complete)) as [->|Hc].
  - change (http_complete on_message_complete 0) with 1. rewrite H1, decide_True by (by left). done.
  - replace (http_complete c 0) with 0 by (by destruct c). rewrite IH.
    destruct (decide (on_message_complete ∈ l)) as [H|H].
    + by rewrite decide_True by (by right).
    + rewrite decide_False; [done|]. intros [?|?]%elem_of_cons; congruence.
Qed.

(** The check of the HTTP client never reports an error: [HPC_UNKNOWN] has the
    value of [HPC_NOT_HTTP], and for that value [HttpCheckComplete] returns 0, which
    [TcpConn::SendAndReceive] takes for "more": what is certainly not HTTP is read
    on until the server closes the connection.  The result is the size of the data
    exactly when http-parser completed a message within it. *)
Theorem http_check_never_error {HL : HttpLib} data :
  blen data < 2 ^ 31 ->
  0 <= p_nparsed (http_parser_execute HTTP_BOTH (mkSettings false true) data) <= blen data ->
  let complete := on_message_complete ∈
    p_callbacks (http_parser_execute HTTP_BOTH (mkSettings false true) data) in
  let unparsed := p_nparsed (http_parser_execute HTTP_BOTH (mkSettings false true) data) = 0 in
  HttpCheckComplete data <> CHECK_ERROR /\
  (complete -> HttpCheckComplete data = blen data) /\
  (~ complete -> unparsed -> HttpCheckComplete data = 0) /\
  (~ complete -> ~ unparsed -> HttpCheckComplete data = CHECK_INCOMPLETE).
Proof.
  intros Hlen Hn. set (run := http_parser_execute HTTP_BOTH (mkSettings false true) data) in *.
  unfold HttpCheckComplete, CheckHttp. fold run. rewrite complete_flag. cbv zeta.
  rewrite (s32_id (p_nparsed run)), (wrap_id 32), (proj2 (Z.leb_le _ _)), andb_true_l by lia.
  destruct (decide (on_message_complete ∈ p_callbacks run)) as [H|H]; simpl.
  - rewrite s32_id by (pose proof (blen_nonneg data); lia).
    pose proof (blen_nonneg data). unfold CHECK_ERROR. split_and!; try done. lia.
  - destruct (Z.eqb_spec (p_nparsed run) 0); simpl; split_and!; done.
Qed.

(** A parser that knows one message. *)
#[local] Instance ok_lib : HttpLib := {
  http_parser_execute _ _ b :=
    if decide (b = lit "OK") then mkParsed [on_message_complete] 2 0 200 else mkParsed [] 0 0 0;
  http_parser_parse_url _ := None;
  curl_unescape b := b
}.

Lemma http_check_never_error_witness :
  HttpCheckComplete (lit "OK") = 2 /\ HttpCheckComplete (lit "SSH-2.0") = 0 /\
  HttpCheckComplete (lit "SSH-2.0") <> CHECK_ERROR.
Proof.
  split; [vm_compute; reflexivity|]. split; [vm_compute; reflexivity|].
  apply (http_check_never_error (lit "SSH-2.0")); [reflexivity|split; discriminate].
Defined.

(** The error message of an [HttpClient] is always empty: [GetErrorMsg] hides that of
    [TcpConn] and returns [strerr_], which no operation ever writes; the messages
    are in [strlog_]. *)
Theorem http_client_error_msg_empty {HL : HttpLib} strerror garbage :
  fst (HttpClient_GetErrorMsg (HttpClient_new garbage)) = [] /\
  (forall ip port h w ret h' t w',
     HttpClient_Init strerror ip port h w = Done (ret, h') t w' -> strerr_ h' = strerr_ h) /\
  (forall sb rb h w ret out h' t w',
     HttpClient_SendAndReceive strerror sb rb h w = Done (ret, out, h') t w' -> strerr_ h' = strerr_ h) /\
  (forall sb rb rl h w ret out len h' t w',
     HttpClient_SendAndReceive_buf strerror sb rb rl h w = Done (ret, out, len, h') t w' -> strerr_ h' = strerr_ h).
Proof.
  split; [done|]. split; [|split].
  - intros ip port h w ret h' t w' H. unfold HttpClient_Init in H. destruct (_ || _); io_inv; [by simplify_eq|].
    destruct a as [r c]. io_inv. by simplify_eq.
  - intros sb rb h w ret out h' t w' H. unfold HttpClient_SendAndReceive in H.
    destruct rb; io_inv; [|by simplify_eq]. destruct a as [[r o] c]. io_inv. by simplify_eq.
  - intros sb rb rl h w ret out len h' t w' H. unfold HttpClient_SendAndReceive_buf in H.
    destruct sb as [b|], rb as [r0|], rl as [l|]; try (io_inv; by simplify_eq).
    destruct (blen b =? 0); io_inv; [by simplify_eq|]. destruct a as [[r o] c].
    destruct (r <? 0); io_inv; [by simplify_eq|]. destruct (l <? _); io_inv; by simplify_eq.
Qed.
