(* ===== verification/HttpServer.v ===== *)
(** * The HTTP server work: http_server.{h,cc}

    [HttpSrvWork::Run] reads requests from a connection into a growing buffer and
    serves them.  The buffer is a byte string with its size; a [recv] that stores
    past the end of it is the outcome [OutOfBounds], an exception is [Threw].
    [Serve] is virtual and so a parameter. *)

From S2P Require Import Prelude CStr World Network FrameIO HttpMsg HttpTool.

Section server.
Context {HL : HttpLib} {IOrd : IterOrder}.

(** [HttpCheckPkg::CheckPkg] *)
Definition HttpCheckPkg_CheckPkg (buffer : bytes) : Z :=
  let '(ret, real_len) := CheckHttp buffer 0 in
  if HPC_OK =? ret then s32 real_len
  else if HPC_NOT_COMPLETE_HTTP =? ret then 0
  else if HPC_NOT_HTTP =? ret then -1
  else -1.

Record HttpSrvWork := mkWork {
  sockfd_ : Z;
  hreq_ : HttpRequest;
  hrsp_ : HttpResponse
}.

Definition set_hreq (r : HttpRequest) (h : HttpSrvWork) : HttpSrvWork := mkWork (sockfd_ h) r (hrsp_ h).
Definition set_hrsp (r : HttpResponse) (h : HttpSrvWork) : HttpSrvWork := mkWork (sockfd_ h) (hreq_ h) r.

Definition Reply (h : HttpSrvWork) : IO (Z * HttpSrvWork) :=
  let h := if IsHeader (lit "Connection") (hreq_ h)
           then set_hrsp (Response_SetHeader (lit "Connection")
                  (GetHeader (lit "Connection") (hreq_ h)) (hrsp_ h)) h
           else h in
  let* ret := Frame_send (sockfd_ h) (Response_Serialize (hrsp_ h)) 0 in
  io_ret (ret, h).

Inductive run_result :=
  | Returned (code : Z) (h : HttpSrvWork)
  | OutOfBounds
  | Threw.

(** [std::string::resize] to a larger size. *)
Definition resize (n : Z) (s : bytes) : bytes :=
  s ++ replicate (Z.to_nat n - length s) Ascii.zero.

(** The kernel stores [data] at offset [off] of the buffer. *)
Definition store (req : bytes) (off : Z) (data : bytes) : option bytes :=
  if off + blen data <=? blen req then
    Some (take (Z.to_nat off) req ++ data ++ drop (Z.to_nat off + length data) req)
  else None.

(** Values of [-__LINE__]. *)
Definition E_PARSE : Z := -69.
Definition E_NOT_HTTP : Z := -74.
Definition E_CLOSED : Z := -77.
Definition E_SYS : Z := -79.

Section run.
Context (Serve : HttpSrvWork -> IO (Z * HttpSrvWork)).

(** The loop state: the work object, [req] and [recvd]. *)
Record conn_state := mkConn { work : HttpSrvWork; req : bytes; recvd : Z }.

(** The request in the first [nparsed] bytes is parsed, served and removed. *)
Definition process_pkg (s : conn_state) (nparsed : Z) : IO (conn_state + run_result) :=
  match ParseHttpRequest (take (Z.to_nat nparsed) (req s)) (Some (hreq_ (work s))) with
  | Some (ret, Some r) =>
      let h := set_hreq r (work s) in
      if 0 =? ret then
        let* v := Serve h in
        let h := snd v in
        let continue req recvd :=
          if KeepAlive (hreq_ h) then io_ret (inl (mkConn h req recvd))
          else io_ret (inr (Returned 0 h)) in
        if nparsed <? recvd s then
          if nparsed <=? blen (req s) then continue (drop (Z.to_nat nparsed) (req s)) (recvd s)
          else io_ret (inr Threw)
        else if recvd s =? nparsed then continue (req s) 0
        else continue (req s) (recvd s)
      else io_ret (inr (Returned E_PARSE h))
  | _ => io_ret (inr Threw)
  end.

Definition run_body (s : conn_state) : IO (conn_state + run_result) :=
  let req' := if recvd s =? blen (req s) then resize (blen (req s) * 2) (req s) else req s in
  let* a := Frame_recv (sockfd_ (work s)) (u64 (blen req' - recvd s)) 0 in
  let '(ret, data) := a in
  if 0 <? ret then
    match store req' (recvd s) data with
    | None => io_ret (inr OutOfBounds)
    | Some req' =>
        let s := mkConn (work s) req' (u64 (recvd s + ret)) in
        let nparsed := HttpCheckPkg_CheckPkg (take (Z.to_nat (recvd s)) req') in
        if 0 <? nparsed then process_pkg s nparsed
        else if 0 =? nparsed then io_ret (inl s)
        else io_ret (inr (Returned E_NOT_HTTP (work s)))
    end
  else if 0 =? ret then io_ret (inr (Returned E_CLOSED (work s)))
  else io_ret (inr (Returned E_SYS (work s))).

Definition Run (h : HttpSrvWork) : IO run_result :=
  loop run_body (mkConn h (resize 512 []) 0).

End run.

End server.
