(* ===== verification/HttpServerProps.v ===== *)
(** * Properties of the HTTP server work *)

From S2P Require Import Prelude CStr World Network FrameIO FrameIOProps HttpMsg HttpTool HttpServer.

(** The response that [Reply] writes. *)
Definition replied (h : HttpSrvWork) : HttpResponse :=
  if IsHeader (lit "Connection") (hreq_ h)
  then Response_SetHeader (lit "Connection") (GetHeader (lit "Connection") (hreq_ h)) (hrsp_ h)
  else hrsp_ h.

Lemma Reply_unfold {IOrd : IterOrder} h :
  Reply h = let* ret := Frame_send (sockfd_ h) (Response_Serialize (replied h)) 0 in
            io_ret (ret, set_hrsp (replied h) h).
Proof. unfold Reply, replied. destruct (IsHeader _ _); [done|]. by destruct h. Qed.

Section props.
Context {HL : HttpLib} {IOrd : IterOrder} (Serve : HttpSrvWork -> IO (Z * HttpSrvWork)).
Hypothesis Serve_sane : forall h, sane (Serve h).

(** ** The loop *)

Lemma process_sane s n : sane (process_pkg Serve s n).
Proof using Serve_sane.
  unfold process_pkg. destruct (ParseHttpRequest _ _) as [[ret [r|]]|]; [|sane_tac..].
  destruct (0 =? ret); [|sane_tac]. apply sane_bind; [apply Serve_sane|]. intros v. sane_tac.
Qed.

Lemma run_productive : productive (run_body Serve).
Proof using Serve_sane.
  unfold run_body. split.
  - intros s. apply sane_bind; [auto with tinyco|]. intros [ret data].
    repeat match goal with |- sane (if ?b then _ else _) => destruct b end; try apply sane_ret.
    destruct (store _ _ _); [|apply sane_ret].
    repeat match goal with |- sane (if ?b then _ else _) => destruct b end; try apply sane_ret.
    apply process_sane.
  - intros s w s' t w' H. apply io_bind_inv in H as (a & t0 & w0 & t1 & H & _ & ->).
    apply Frame_recv_calls in H. by destruct t0.
Qed.

(** ** What the check can say *)

Lemma CheckPkg_le b : blen b < 2 ^ 31 -> HttpCheckPkg_CheckPkg b <= blen b.
Proof.
  intros Hb. pose proof (blen_nonneg b). unfold HttpCheckPkg_CheckPkg, CheckHttp.
  set (n := s32 _). pose proof (s32_range (p_nparsed (http_parser_execute HTTP_BOTH (mkSettings false true) b))) as Hn.
  fold n in Hn. destruct (Z.leb_spec (u32 n) (blen b)) as [Hle|Hle]; simpl.
  - assert (0 <= n).
    { destruct (Z.le_gt_cases 0 n); [done|]. unfold wrap in Hle.
      rewrite <- (Z.mod_unique n (2 ^ 32) (-1) (n + 2 ^ 32)) in Hle by lia. lia. }
    rewrite wrap_id in Hle by lia.
    repeat case_match; simplify_eq/=; try lia; rewrite (wrap_id 64), s32_id by lia; lia.
  - repeat case_match; simplify_eq/=; lia.
Qed.

(** Data that makes the loop leave its buffer: a complete message with more bytes
    behind it, or an incomplete message of a gigabyte. *)
Definition leftover (b : bytes) : Prop := 0 < HttpCheckPkg_CheckPkg b < blen b.
Definition huge (b : bytes) : Prop := HttpCheckPkg_CheckPkg b = 0 /\ 2 ^ 30 <= blen b.
(** A package that the loop takes off its buffer whole. *)
Definition package (p : bytes) : Prop := 0 < HttpCheckPkg_CheckPkg p /\ HttpCheckPkg_CheckPkg p = blen p.
(** Such data comes after any number of whole packages. *)
Definition trouble (d : bytes) : Prop :=
  exists ps b rest, d = concat ps ++ b ++ rest /\ Forall package ps /\ (leftover b \/ huge b).

Lemma trouble_app d e : trouble d -> trouble (d ++ e).
Proof.
  intros (ps & b & rest & -> & Hps & Hb). exists ps, b, (rest ++ e). split; [|done]. by rewrite <- !app_assoc.
Qed.

Definition buffer_ok (s : conn_state) : Prop :=
  0 <= recvd s <= blen (req s) /\ recvd s < 2 ^ 30 /\ 0 < blen (req s) < 2 ^ 31.

(** The buffer that an iteration receives into. *)
Definition grown (s : conn_state) : bytes :=
  if recvd s =? blen (req s) then resize (blen (req s) * 2) (req s) else req s.

Lemma blen_resize n s : blen s <= n -> blen (resize n s) = n.
Proof. unfold resize, blen. intros. rewrite length_app, length_replicate. lia. Qed.

Lemma grown_spec s :
  buffer_ok s -> recvd s < blen (grown s) /\ blen (grown s) < 2 ^ 31 /\
  take (Z.to_nat (recvd s)) (grown s) = take (Z.to_nat (recvd s)) (req s) /\
  blen (grown s) = if recvd s =? blen (req s) then blen (req s) * 2 else blen (req s).
Proof.
  intros (H1 & H2 & H3). unfold grown. destruct (Z.eqb_spec (recvd s) (blen (req s))) as [E|E].
  - rewrite blen_resize by lia. split_and!; try lia. unfold resize. rewrite take_app_le; [done|].
    unfold blen in *. lia.
  - split_and!; try lia; done.
Qed.

Lemma store_spec req off data :
  0 <= off -> off + blen data <= blen req ->
  exists req', store req off data = Some req' /\ blen req' = blen req /\
    take (Z.to_nat (off + blen data)) req' = take (Z.to_nat off) req ++ data.
Proof.
  intros H0 H1. unfold store. rewrite (proj2 (Z.leb_le _ _)) by lia. eexists. split; [done|].
  unfold blen in *. split.
  - rewrite !length_app, length_take, length_drop. lia.
  - rewrite app_assoc, take_app_length'; [done|]. rewrite length_app, length_take. lia.
Qed.

(** ** The buffer and what was received *)

Section received.
Context (fd : Z).
Hypothesis Serve_quiet : forall h, calls not_recv (Serve h).
Hypothesis Serve_fd : forall h w v h' t w', Serve h w = Done (v, h') t w' -> sockfd_ h' = sockfd_ h.

(** The buffer has what was received after the last whole package. *)
Definition buffered (s : conn_state) (acc : io_trace) : Prop :=
  buffer_ok s /\ sockfd_ (work s) = fd /\
  exists ps, Forall package ps /\ received fd acc = concat ps ++ take (Z.to_nat (recvd s)) (req s).

(** What [process_pkg] does to the buffer [b] of a complete request. *)
Lemma process_step s b d w x t w' ps :
  sockfd_ (work s) = fd -> 0 <= recvd s <= blen (req s) -> recvd s < 2 ^ 31 -> 0 < blen (req s) < 2 ^ 31 ->
  b = take (Z.to_nat (recvd s)) (req s) -> d = concat ps ++ b -> Forall package ps -> 0 < HttpCheckPkg_CheckPkg b ->
  process_pkg Serve s (HttpCheckPkg_CheckPkg b) w = Done x t w' ->
  x <> inr OutOfBounds /\ forall acc, received fd acc = d ->
  match x with inl s' => buffered s' (acc ++ t) \/ trouble (received fd (acc ++ t)) | inr _ => True end.
Proof using Serve_quiet Serve_fd.
  intros Hfd H1 H2 H3 Hb Hd Hps Hc H.
  assert (Hbl : blen b = recvd s) by (subst b; unfold blen in *; rewrite length_take; lia).
  clear Hb. pose proof (CheckPkg_le b ltac:(lia)). unfold process_pkg in H.
  destruct (ParseHttpRequest _ _) as [[v [r|]]|]; [|io_inv; by split..].
  destruct (0 =? v); [|io_inv; by split].
  apply io_bind_inv in H as ([v' h'] & t1 & w1 & t2 & Hs & H & ->).
  pose proof (calls_done _ _ _ _ _ _ (Serve_quiet _) Hs) as Hq. pose proof (Serve_fd _ _ _ _ _ _ Hs) as Hfd'.
  assert (Hrec : forall acc, received fd (acc ++ t1 ++ []) = received fd acc)
    by (intros acc; by rewrite app_nil_r, received_app, (received_none fd t1 Hq), app_nil_r).
  cbn [snd] in *. change (sockfd_ (set_hreq r (work s))) with (sockfd_ (work s)) in Hfd'.
  destruct (Z.ltb_spec (HttpCheckPkg_CheckPkg b) (recvd s)) as [Hl|Hl].
  { assert (Htr : trouble d) by (exists ps, b, []; rewrite app_nil_r; split; [done|]; split; [done|]; left; unfold leftover; lia).
    destruct (_ <=? blen (req s)); [|io_inv; by split]. destruct (KeepAlive _); io_inv; (split; [done|]); [|done].
    intros acc Hacc. right. by rewrite Hrec, Hacc. }
  destruct (Z.eqb_spec (recvd s) (HttpCheckPkg_CheckPkg b)); [|lia].
  destruct (KeepAlive _); io_inv; (split; [done|]); [|done]. intros acc Hacc. left.
  split; [unfold buffer_ok; simpl; lia|]. split; [simpl; congruence|]. exists (ps ++ [b]). split.
  - apply Forall_app. split; [done|]. apply Forall_singleton. unfold package. lia.
  - rewrite Hrec, Hacc, concat_app. simpl. by rewrite !app_nil_r.
Qed.

(** An iteration keeps the buffer in order, or the data was trouble. *)
Lemma run_step s acc w x t w' :
  buffered s acc -> run_body Serve s w = Done x t w' -> Forall os_ok t ->
  match x with
  | inl s' => buffered s' (acc ++ t) \/ trouble (received fd (acc ++ t))
  | inr OutOfBounds => False
  | inr _ => True
  end.
Proof using Serve_quiet Serve_fd.
  intros (Hs & Hfd & ps & Hps & Hacc) H Hok. pose proof (grown_spec s Hs) as (Hg1 & Hg2 & Hg3 & Hg4).
  destruct Hs as (Hs1 & Hs2 & Hs3). unfold run_body in H. fold (grown s) in H.
  apply io_bind_inv in H as ([ret data] & t0 & w0 & t1 & Hr & H & ->).
  apply Forall_app in Hok as [Hok _]. rewrite wrap_id in Hr by lia.
  pose proof (recv_facts (sockfd_ (work s)) (blen (grown s) - recvd s) 0 w ltac:(lia)) as Hf.
  rewrite Hr in Hf. destruct (Hf Hok) as (Hrec & Hd & Hmax & _). rewrite Hfd in Hrec.
  destruct (Z.ltb_spec 0 ret) as [Hp|Hp]; [|destruct (0 =? ret); io_inv; done].
  destruct (store_spec (grown s) (recvd s) data) as (req' & Hst & Hb & Htk); [lia..|].
  rewrite Hst in H. cbv zeta in H. cbn [req recvd work] in H. rewrite wrap_id in H by lia.
  rewrite Hd, Hg3, Z.max_r in Htk by lia.
  set (b := take (Z.to_nat (recvd s + ret)) req') in *.
  assert (Hbl : blen b = recvd s + ret).
  { unfold b, blen in *. rewrite length_take. lia. }
  assert (Hall : received fd (acc ++ t0) = concat ps ++ b) by (by rewrite received_app, Hacc, Hrec, Htk, <- app_assoc).
  destruct (Z.ltb_spec 0 (HttpCheckPkg_CheckPkg b)) as [Hc|Hc].
  - destruct (process_step (mkConn (work s) req' (recvd s + ret)) b _ _ _ _ _ ps Hfd ltac:(simpl; lia) ltac:(simpl; lia)
      ltac:(simpl; lia) eq_refl eq_refl Hps Hc H) as [Hx Hgo]. rewrite app_assoc.
    destruct x as [s'|[]]; try done. by apply Hgo.
  - destruct (Z.eqb_spec 0 (HttpCheckPkg_CheckPkg b)) as [E|E]; io_inv; [|done]. rewrite app_nil_r.
    destruct (Z.le_gt_cases (2 ^ 30) (blen b)) as [Hh|Hh].
    + right. exists ps, b, []. rewrite app_nil_r. split; [done|]. split; [done|]. right. split; lia.
    + left. split; [unfold buffer_ok; simpl; lia|]. split; [done|]. by exists ps.
Qed.

End received.


(** ** Requests in pieces *)

(** The kernel's answers when the data arrives in the given pieces. *)
Definition pieces (cs : list bytes) : list resp := map (fun c => answer (blen c) 0 c) cs.

(** Every piece is at most what [recv] asks for: the free part of a buffer of
    [size] bytes, doubled when it is full. *)
Fixpoint fits (size recvd : Z) (cs : list bytes) : Prop :=
  match cs with
  | [] => True
  | c :: cs =>
      let size := if recvd =? size then size * 2 else size in
      0 < blen c <= size - recvd /\ size < 2 ^ 31 /\ fits size (recvd + blen c) cs
  end.

Lemma Frame_recv_piece fd len flags c rest e :
  0 < blen c < 2 ^ 31 ->
  Frame_recv fd len flags (mkWorld (answer (blen c) 0 c :: rest) e) =
  Done (blen c, c) [(c_recv fd len flags, answer (blen c) 0 c)] (mkWorld rest e).
Proof.
  intros Hc. unfold Frame_recv. rewrite loop_unfold by apply recv_productive.
  unfold recv_body, io_bind, sys. cbn [script errno answer r_ret r_data].
  rewrite s32_id by lia. rewrite (proj2 (Z.ltb_lt 0 (blen c))) by lia. cbn.
  rewrite (proj2 (Z.ltb_ge (blen c) 0)) by lia. done.
Qed.

Section pieces.
Context (h : HttpSrvWork) (d : bytes) (r : HttpRequest).
Hypothesis Hd : HttpCheckPkg_CheckPkg d = blen d.
Hypothesis Hparse : ParseHttpRequest d (Some (hreq_ h)) = Some (0, Some r).

(** The loop in the middle of a request: [pre] has arrived, [cs] is to come.  When
    it has been served, the connection is closed or is as a new one. *)
Lemma run_pieces cs s pre rest e v h' t w' :
  cs <> [] -> work s = h -> buffer_ok s -> take (Z.to_nat (recvd s)) (req s) = pre ->
  recvd s = blen pre -> pre ++ concat cs = d ->
  (forall k, (0 < k < length cs)%nat -> HttpCheckPkg_CheckPkg (pre ++ concat (take k cs)) = 0) ->
  blen d < 2 ^ 30 -> fits (blen (req s)) (recvd s) cs ->
  Serve (set_hreq r h) (mkWorld rest e) = Done (v, h') t w' ->
  exists u req', buffer_ok (mkConn h' req' 0) /\
    Forall (fun e => exists len, e.1 = c_recv (sockfd_ h) len 0 /\ r_ret e.2 <= len) u /\ u.*2 = pieces cs /\
    loop (run_body Serve) s (mkWorld (pieces cs ++ rest) e) =
    after (u ++ t) (if KeepAlive (hreq_ h') then loop (run_body Serve) (mkConn h' req' 0) w'
                    else Done (Returned 0 h') [] w').
Proof using Hd Hparse Serve_sane.
  intros Hne Hwork Hs Hpre Hrecvd Hall Hmore Hlen Hfits Hserve.
  revert s pre Hwork Hs Hpre Hrecvd Hall Hmore Hfits.
  induction cs as [|c cs IH]; intros s pre Hwork Hs Hpre Hrecvd Hall Hmore Hfits; [done|].
  pose proof (grown_spec s Hs) as (Hg1 & Hg2 & Hg3 & Hg4). destruct Hs as (Hs1 & Hs2 & Hs3).
  cbn [fits] in Hfits. rewrite <- Hg4 in Hfits. destruct Hfits as (Hc & _ & Hfits).
  rewrite loop_unfold by apply run_productive. rewrite io_bind_after. unfold run_body at 1.
  fold (grown s). cbn [pieces map app]. rewrite io_bind_after, Frame_recv_piece by lia.
  rewrite (proj2 (Z.ltb_lt 0 (blen c))) by lia.
  destruct (store_spec (grown s) (recvd s) c) as (req' & Hst & Hb & Htk); [lia..|].
  rewrite Hst. cbv zeta. cbn [recvd req work]. rewrite !wrap_id by lia.
  rewrite Htk, Hg3, Hpre.
  assert (Htot : blen pre + blen c + blen (concat cs) = blen d).
  { rewrite <- Hall, !blen_app. simpl. rewrite blen_app. lia. }
  pose proof (blen_nonneg (concat cs)). set (ev := (c_recv (sockfd_ (work s)) _ 0, _)).
  destruct cs as [|c2 cs].
  - simpl in Hall. rewrite app_nil_r in Hall. rewrite Hall, Hd.
    assert (Hdl : blen d = recvd s + blen c) by (rewrite <- Hall, blen_app; lia).
    rewrite (proj2 (Z.ltb_lt 0 (blen d))) by lia. unfold process_pkg. cbn [recvd req work].
    rewrite Hdl, Htk, Hg3, Hpre, Hall, Hwork, Hparse. simpl (0 =? 0). cbn [recvd].
    rewrite io_bind_after. simpl map. simpl app. rewrite Hserve. cbn [snd].
    rewrite Z.ltb_irrefl, Z.eqb_refl. exists [ev], req'.
    split; [unfold buffer_ok; simpl; lia|]. split; [rewrite Forall_singleton, <- Hwork; eexists; split; [done|cbn; lia]|].
    split; [done|]. destruct (KeepAlive _); simpl; rewrite !app_nil_r; [|done].
    by destruct (loop _ _ w').
  - assert (Hm1 : HttpCheckPkg_CheckPkg (pre ++ c) = 0).
    { pose proof (Hmore 1%nat ltac:(simpl; lia)) as Hm. simpl in Hm. by rewrite app_nil_r in Hm. }
    rewrite Hm1. change (0 <? 0) with false. change (0 =? 0) with true. cbv iota. unfold io_ret at 1.
    destruct (IH ltac:(done) (mkConn (work s) req' (recvd s + blen c)) (pre ++ c)) as (u & req2 & Hb2 & Hu & Hans & Hl).
    + done.
    + unfold buffer_ok. simpl. lia.
    + simpl. by rewrite Htk, Hg3, Hpre.
    + simpl. rewrite blen_app. lia.
    + rewrite <- Hall, <- app_assoc. done.
    + intros k Hk. pose proof (Hmore (S k) ltac:(simpl in *; lia)) as Hm. simpl in Hm.
      by rewrite <- app_assoc.
    + simpl. rewrite Hb. exact Hfits.
    + exists (ev :: u), req2. split; [done|]. split; [constructor; [rewrite <- Hwork; eexists; split; [done|cbn; lia]|done]|].
      split; [cbn [fmap list_fmap]; by rewrite Hans|]. unfold pieces in Hl. cbn [after].
      rewrite Hl. simpl.
      by destruct (if KeepAlive (hreq_ h') then _ else _).
Qed.

End pieces.

(** C21: However the network cuts a request into pieces, [HttpSrvWork::Run] serves the
    same request: when the pieces make up data that http-parser completes at its
    end and not before, the loop parses that data once, serves it, and with a
    connection that is not kept alive returns 0 with the object [Serve] left. *)
Theorem http_run_pieces h cs r rest e v h' t w' :
  cs <> [] -> blen (concat cs) < 2 ^ 30 -> fits 512 0 cs ->
  HttpCheckPkg_CheckPkg (concat cs) = blen (concat cs) ->
  (forall k, (0 < k < length cs)%nat -> HttpCheckPkg_CheckPkg (concat (take k cs)) = 0) ->
  ParseHttpRequest (concat cs) (Some (hreq_ h)) = Some (0, Some r) ->
  Serve (set_hreq r h) (mkWorld rest e) = Done (v, h') t w' ->
  KeepAlive (hreq_ h') = false ->
  exists t', Run Serve h (mkWorld (pieces cs ++ rest) e) = Done (Returned 0 h') t' w'.
Proof using Serve_sane.
  intros Hne Hlen Hfits Hd Hmore Hparse Hserve Hka. unfold Run.
  destruct (run_pieces h (concat cs) r Hd Hparse cs (mkConn h (resize 512 []) 0) [] rest e v h' t w')
    as (u & req' & _ & _ & _ & ->); try done. rewrite Hka. eexists. reflexivity.
Qed.

End props.

(** ** Witnesses *)

Lemma sane_Reply {IOrd : IterOrder} h : sane (Reply h).
Proof. unfold Reply. apply sane_bind; [auto with tinyco|]. intros ret. apply sane_ret. Qed.

Definition close_request : bytes := lit "GET / HTTP/1.1" ++ crlf ++ lit "Connection: close" ++ crlf ++ crlf.

(** An http-parser that knows this request. *)
#[local] Instance close_lib : HttpLib := {
  http_parser_execute _ _ b :=
    if decide (b = close_request)
    then mkParsed [on_header_field (lit "Connection"); on_header_value (lit "close"); on_message_complete]
           (blen b) HTTP_GET 0
    else mkParsed [] (blen b) 0 0;
  http_parser_parse_url _ := None;
  curl_unescape b := b
}.

Definition demo_work : HttpSrvWork := mkWork 7 HttpRequest_new HttpResponse_new.

(** The request in two pieces; the answer is taken whole by the kernel. *)
Lemma http_run_pieces_witness :
  exists h' t' w',
  Run Reply demo_work (mkWorld (pieces [take 10 close_request; drop 10 close_request] ++
    [answer 38 0 []]) 0) = Done (Returned 0 h') t' w'.
Proof.
  destruct (ParseHttpRequest close_request (Some (hreq_ demo_work))) as [[res [r|]]|] eqn:Ep;
    [|vm_compute in Ep; discriminate Ep..].
  assert (Hres : res = 0) by (vm_compute in Ep; injection Ep as <- _; reflexivity). subst res.
  destruct (Reply (set_hreq r demo_work) (mkWorld [answer 38 0 []] 0)) as [[v h'] t w'|] eqn:Es;
    [|vm_compute in Ep; injection Ep as <-; vm_compute in Es; discriminate Es].
  exists h'. edestruct (http_run_pieces Reply sane_Reply demo_work
    [take 10 close_request; drop 10 close_request] r [answer 38 0 []] 0 v h' t w') as [t' Ht'].
  - discriminate.
  - vm_compute. reflexivity.
  - vm_compute. repeat split; discriminate.
  - vm_compute. reflexivity.
  - intros k Hk. simpl in Hk. assert (k = 1%nat) by lia. subst k. vm_compute. reflexivity.
  - exact Ep.
  - exact Es.
  - vm_compute in Ep. injection Ep as <-. vm_compute in Es. injection Es as _ <- _ _. reflexivity.
  - exists t', w'. exact Ht'.
Defined.

(** A parser of requests of 200 bytes each. *)
Definition fixed_lib : HttpLib := {|
  http_parser_execute _ _ b :=
    if blen b <? 200 then mkParsed [] (blen b) 0 0
    else mkParsed [on_message_complete] 200 HTTP_GET 0;
  http_parser_parse_url _ := None;
  curl_unescape b := b
|}.

(** Two requests of 200 bytes arrive in one piece and are served with a response that
    the kernel takes whole; then ten bytes more. *)
Definition pipelined : world :=
  os [answer 400 0 (replicate 400 "x"%char); answer 19 0 []; answer 10 0 (replicate 10 "y"%char)].

Lemma calls_Reply {IOrd : IterOrder} h : calls not_recv (Reply h).
Proof. unfold Reply. apply calls_bind; [by apply calls_Frame_send|intros; apply calls_ret]. Qed.

Lemma Reply_fd {IOrd : IterOrder} h w v h' t w' : Reply h w = Done (v, h') t w' -> sockfd_ h' = sockfd_ h.
Proof. unfold Reply. destruct (IsHeader _ _); intros H; apply io_bind_inv in H as (a & t1 & w1 & t2 & _ & H & ->); io_inv; by simplify_eq. Qed.

