(* ===== verification/HttpStream.v ===== *)
(** * Messages in a byte stream

    A connection delivers a message in parts, and the two checks of the framework,
    [HttpCheckPkg::CheckPkg] of the server and [HttpClient::HttpCheckComplete] of
    the client, decide from what has arrived whether it is whole.  The class
    [HttpStreamSpec] states the documented behaviour of http-parser on a part of a
    message, on a message with more behind it, and on one that it refuses for the
    size of its header; the reference reader, made to wait for the announced body and
    to refuse long headers, is an instance. *)

From S2P Require Import Prelude CStr World HttpMsg HttpTool HttpToolProps HttpWire TcpConn TcpConnProps.
From S2P Require Import HttpServer.

(** ** Messages and their parts *)

(** A part that has arrived: neither nothing nor all of it. *)
Definition part_of (p m : bytes) : Prop := p `prefix_of` m /\ p <> [] /\ p <> m.

(** A message that the parser accepts is complete at its last byte, whatever follows,
    and not before, and what is given up to there is consumed; one that it refuses,
    for the size of its header, is never complete. *)
Class HttpStreamSpec (HL : HttpLib) := {
  stream_whole m rest :
    message m -> accepted m = true -> blen (m ++ rest) < 2 ^ 31 ->
    on_message_complete ∈ p_callbacks (check_run (m ++ rest)) /\ p_nparsed (check_run (m ++ rest)) = blen m;
  stream_part m p :
    message m -> accepted m = true -> blen m < 2 ^ 31 -> part_of p m ->
    (on_message_complete ∉ p_callbacks (check_run p)) /\ p_nparsed (check_run p) = blen p;
  stream_refused m p :
    message m -> accepted m = false -> blen m < 2 ^ 31 -> p `prefix_of` m -> p <> [] ->
    (on_message_complete ∉ p_callbacks (check_run p)) /\ 0 <= p_nparsed (check_run p) <= blen p
}.

Lemma part_blen p m : part_of p m -> 0 < blen p < blen m.
Proof.
  intros ([e ->] & Hp & Hm). rewrite blen_app. destruct p as [|c p]; [done|]. destruct e as [|c' e].
  - by rewrite app_nil_r in Hm.
  - unfold blen. simpl. lia.
Qed.

Lemma message_nonempty m : message m -> exists c s, m = c :: s.
Proof.
  destruct 1 as [verb target hs body [-> | ->]|]; [eexists _, _; reflexivity..|].
  unfold response_text. eexists _, _. reflexivity.
Qed.

Lemma message_blen m : message m -> 0 < blen m.
Proof. intros (c & s & ->)%message_nonempty. unfold blen. simpl. lia. Qed.

Section checks.
Context {HL : HttpLib} {HS : HttpStreamSpec HL}.

(** The server's check finds the end of a message ... *)
Lemma check_followed m rest :
  message m -> accepted m = true -> blen (m ++ rest) < 2 ^ 31 -> HttpCheckPkg_CheckPkg (m ++ rest) = blen m.
Proof using HS.
  intros Hm Ha Hlen. destruct (stream_whole m rest Hm Ha Hlen) as [Hc Hn]. pose proof (message_blen m Hm).
  pose proof (blen_nonneg rest). rewrite blen_app in Hlen.
  unfold HttpCheckPkg_CheckPkg, CheckHttp. fold (check_run (m ++ rest)).
  rewrite complete_flag, decide_True, Hn, blen_app by done.
  rewrite s32_id, (wrap_id 32), (proj2 (Z.leb_le (blen m) _)) by lia. cbn. rewrite wrap_id, s32_id by lia. done.
Qed.

(** ... and both checks accept a whole message, ... *)
Lemma check_whole m :
  message m -> accepted m = true -> blen m < 2 ^ 31 ->
  HttpCheckPkg_CheckPkg m = blen m /\ HttpCheckComplete m = blen m.
Proof using HS.
  intros Hm Ha Hlen. pose proof (check_followed m [] Hm Ha) as Hc. destruct (stream_whole m [] Hm Ha) as [Hm1 Hm2];
    rewrite ?app_nil_r in *; [done|]. split; [by apply Hc|].
  pose proof (message_blen m Hm). unfold HttpCheckComplete, CheckHttp. fold (check_run m).
  rewrite complete_flag, decide_True, Hm2 by done.
  rewrite s32_id, (wrap_id 32), Z.leb_refl by lia. done.
Qed.

(** ... ask for more after every part of it ... *)
Lemma check_part m p :
  message m -> accepted m = true -> blen m < 2 ^ 31 -> part_of p m ->
  HttpCheckPkg_CheckPkg p = 0 /\ HttpCheckComplete p = CHECK_INCOMPLETE.
Proof using HS.
  intros Hm Ha Hlen Hp. destruct (stream_part m p Hm Ha Hlen Hp) as [Hc Hn].
  apply part_blen in Hp. unfold HttpCheckPkg_CheckPkg, HttpCheckComplete, CheckHttp. fold (check_run p).
  rewrite complete_flag, decide_False, Hn by done.
  rewrite s32_id, (wrap_id 32), Z.leb_refl by lia. cbn.
  rewrite (proj2 (Z.eqb_neq (blen p) 0)) by lia. done.
Qed.

(** ... and never accept a message that the parser refuses. *)
Lemma check_refused m p :
  message m -> accepted m = false -> blen m < 2 ^ 31 -> p `prefix_of` m -> p <> [] ->
  HttpCheckPkg_CheckPkg p <= 0 /\ HttpCheckComplete p <= 0.
Proof using HS.
  intros Hm Ha Hlen Hp Hne. destruct (stream_refused m p Hm Ha Hlen Hp Hne) as [Hc Hn].
  assert (blen p <= blen m) by (apply prefix_length in Hp; unfold blen; lia).
  unfold HttpCheckPkg_CheckPkg, HttpCheckComplete, CheckHttp. fold (check_run p).
  rewrite complete_flag, decide_False by done.
  rewrite s32_id, (wrap_id 32), (proj2 (Z.leb_le _ _)) by lia. cbn.
  by destruct (p_nparsed (check_run p) =? 0).
Qed.

(** What a check accepts at the start of a message is the message. *)
Lemma check_decides m p :
  message m -> blen m < 2 ^ 31 -> p `prefix_of` m -> p <> [] ->
  p = m /\ accepted m = true \/ HttpCheckPkg_CheckPkg p <= 0 /\ HttpCheckComplete p <= 0.
Proof using HS.
  intros Hm Hlen Hp Hne. destruct (accepted m) eqn:Ha; [|right; by apply (check_refused m)].
  destruct (decide (p = m)); [by left|]. right. by destruct (check_part m p) as [-> ->].
Qed.

End checks.

(** ** The reference reader in a stream *)

Lemma cut_unfold d s :
  cut d s = if decide (take (length d) s = d) then Some ([], drop (length d) s)
            else match s with [] => None | c :: s => '(a, b) ← cut d s; Some (c :: a, b) end.
Proof. by destruct s. Qed.

Lemma cut_long d s a b : cut d s = Some (a, b) -> (length d <= length s)%nat.
Proof.
  revert a b. induction s as [|c s IH]; intros a b; rewrite cut_unfold; case_decide as Hd.
  1,3: intros _; rewrite <- Hd, length_take; lia.
  - done.
  - destruct (cut d s) as [[a' b']|]; [|done]. intros _. pose proof (IH a' b' eq_refl). simpl. lia.
Qed.

(** What was found stays found when more arrives. *)
Lemma cut_app d s a b e : cut d s = Some (a, b) -> cut d (s ++ e) = Some (a, b ++ e).
Proof.
  intros H. pose proof (cut_long _ _ _ _ H) as Hl. revert a b H Hl.
  induction s as [|c s IH]; intros a b; rewrite cut_unfold, (cut_unfold d (_ ++ e)); intros H Hl;
    rewrite take_app_le, drop_app_le by done; case_decide as Hd; try done; [by injection H as <- <-..|].
  destruct (cut d s) as [[a' b']|] eqn:E; [|done]. cbn [mbind option_bind] in H. injection H as <- <-.
  cbn [app]. by rewrite (IH a' b' eq_refl (cut_long _ _ _ _ E)).
Qed.

Lemma read_headers_app n m s hs body e :
  read_headers n s = Some (hs, body) -> (n <= m)%nat -> read_headers m (s ++ e) = Some (hs, body ++ e).
Proof.
  revert m s hs. induction n as [|n IH]; intros m s hs H Hm; [done|]. destruct m as [|m]; [lia|].
  cbn [read_headers] in *. destruct (cut crlf s) as [[line rest]|] eqn:E; [|done].
  rewrite (cut_app _ _ _ _ e E). cbn [mbind option_bind] in *.
  case_decide; [by injection H as <- <-|]. destruct (cut (lit ": ") line) as [[k v]|]; [|done].
  cbn [mbind option_bind] in *. destruct (read_headers n rest) as [[hs' body']|] eqn:E'; [|done].
  cbn [mbind option_bind] in *. injection H as <- <-. by rewrite (IH m rest hs' E') by lia.
Qed.

(** What occurs is found. *)
Lemma cut_exists d a b : exists x y, cut d (a ++ d ++ b) = Some (x, y) /\ (length x <= length a)%nat.
Proof.
  induction a as [|c a (x & y & IH & Hl)].
  - exists [], b. rewrite cut_unfold. cbn [app]. rewrite take_app_length, decide_True, drop_app_length by done.
    split; [done|simpl; lia].
  - rewrite cut_unfold. cbn [app]. case_decide; [do 2 eexists; split; [done|simpl; lia]|].
    rewrite IH. cbn [mbind option_bind]. do 2 eexists. split; [done|simpl; lia].
Qed.

Lemma cut_parts d s a b : cut d s = Some (a, b) -> s = a ++ d ++ b.
Proof.
  revert a b. induction s as [|c s IH]; intros a b; rewrite cut_unfold; case_decide as Hd; try done.
  1,2: intros [= <- <-]; rewrite app_nil_l; symmetry; etrans; [|apply (take_drop (length d))]; by rewrite Hd.
  destruct (cut d s) as [[a' b']|]; [|done]. intros [= <- <-]. cbn [app]. by rewrite (IH a' b' eq_refl).
Qed.

(** One more [cut] of a reader succeeds on the longer string. *)
Ltac cut_more e :=
  match goal with
  | H : context [cut ?d ?s] |- _ =>
      destruct (cut d s) as [[? ?]|] eqn:?; [|done];
      match goal with E : cut d s = Some _ |- _ => rewrite (cut_app _ _ _ _ e E); clear E end;
      cbn [mbind option_bind] in *
  end.
Ltac headers_more e :=
  match goal with
  | H : context [read_headers ?n ?s] |- _ =>
      destruct (read_headers n s) as [[? ?]|] eqn:E; [|done];
      rewrite (read_headers_app _ (S (length (s ++ e))) _ _ _ e E) by (rewrite length_app; lia);
      cbn [mbind option_bind] in *
  end.

Lemma read_parts_app s verb target hs body e :
  read_parts s = Some (verb, target, hs, body) -> read_parts (s ++ e) = Some (verb, target, hs, body ++ e).
Proof. unfold read_parts. intros H. do 3 cut_more e. headers_more e. by injection H as <- <- <- <-. Qed.

Lemma read_response_parts_app s st hs body e :
  read_response_parts s = Some (st, hs, body) -> read_response_parts (s ++ e) = Some (st, hs, body ++ e).
Proof. unfold read_response_parts. intros H. do 3 cut_more e. headers_more e. by injection H as <- <- <-. Qed.

(** *** The size of a header *)

Lemma message_header m : message m -> exists h b, m = h ++ (crlf ++ crlf) ++ b.
Proof.
  assert (Hw : forall pre hs body, exists h b, pre ++ crlf ++ write_headers hs ++ crlf ++ body = h ++ (crlf ++ crlf) ++ b).
  { intros pre hs. revert pre. induction hs as [|[k v] hs IH]; intros pre body.
    - exists pre, body. by rewrite <- !app_assoc.
    - rewrite write_headers_cons. case_decide; [apply IH|].
      destruct (IH (pre ++ crlf ++ k ++ lit ": " ++ v) body) as (h & b & E). exists h, b.
      rewrite <- E, <- !app_assoc. done. }
  destruct 1 as [verb target hs body _ _ _ _ _|st hs body _ _ _ _].
  - destruct (Hw (verb ++ lit " " ++ target ++ lit " " ++ lit "HTTP/1.1") hs body) as (h & b & E).
    exists h, b. rewrite <- E. unfold request_text. by rewrite <- !app_assoc.
  - destruct (Hw (lit "HTTP/1.1 " ++ to_string st ++ lit " " ++ reason st) hs body) as (h & b & E).
    exists h, b. rewrite <- E. unfold response_text. by rewrite <- !app_assoc.
Qed.

Lemma header_size_app m rest : message m -> header_size (m ++ rest) = header_size m.
Proof.
  intros (h & b & ->)%message_header. unfold header_size. destruct (cut_exists (crlf ++ crlf) h b) as (x & y & E & _).
  by rewrite (cut_app _ _ _ _ rest E), E.
Qed.

(** *** The reader *)

Definition announced_length (hs : list (bytes * bytes)) : Z :=
  match (list_to_map hs : headers) !! lit "Content-Length" with Some v => digits_value 0 v | None => 0 end.

(** The headers and the part of the body that are there; a response starts with H. *)
Definition read_message (b : bytes) : option (list (bytes * bytes) * bytes) :=
  if decide (head b = Some "H"%char) then '(_, hs, body) ← read_response_parts b; Some (hs, body)
  else '(_, _, hs, body) ← read_parts b; Some (hs, body).

(** The length of the message at the start of [b], when it is there and its header is
    within the limit. *)
Definition whole (b : bytes) : option Z :=
  match read_message b with
  | Some (hs, body) =>
      if (announced_length hs <=? blen body) && (header_size b <=? HTTP_MAX_HEADER_SIZE)
      then Some (blen b - (blen body - announced_length hs)) else None
  | None => None
  end.

Definition stream_lib : HttpLib := {|
  http_parser_execute t s b :=
    match t with
    | HTTP_BOTH => match whole b with
                   | Some n => mkParsed [on_message_complete] n 0 0
                   | None => mkParsed [] (blen b) 0 0
                   end
    | _ => @http_parser_execute ref_lib t s b
    end;
  http_parser_parse_url := @http_parser_parse_url ref_lib;
  curl_unescape := @curl_unescape ref_lib
|}.

Lemma read_message_app b hs body e :
  b <> [] -> read_message b = Some (hs, body) -> read_message (b ++ e) = Some (hs, body ++ e).
Proof.
  unfold read_message. intros Hb. destruct b as [|c b]; [done|]. cbn [app head]. case_decide; intros Hr.
  - destruct (read_response_parts _) as [[[st hs'] body']|] eqn:E; [|done].
    apply (read_response_parts_app _ _ _ _ e) in E. cbn [app] in E. rewrite E. by injection Hr as <- <-.
  - destruct (read_parts _) as [[[[v t] hs'] body']|] eqn:E; [|done].
    apply (read_parts_app _ _ _ _ _ e) in E. cbn [app] in E. rewrite E. by injection Hr as <- <-.
Qed.

(** A whole message has exactly the body it announces. *)
Lemma read_whole m :
  message m -> exists hs body, read_message m = Some (hs, body) /\ announced_length hs = blen body.
Proof.
  destruct 1 as [verb target hs body Hv Ht Hh Hnd Ha|st hs body Hst Hh Hnd Ha]; exists hs, body; unfold read_message.
  - rewrite decide_False by (by destruct Hv as [-> | ->]).
    rewrite read_parts_text by done. split; [done|]. unfold announced in Ha. unfold announced_length.
    case_match; [|by subst]. subst. apply to_string_value, blen_nonneg.
  - rewrite decide_True by done.
    rewrite read_response_parts_text by done. split; [done|]. unfold announced_length. rewrite Ha.
    apply to_string_value, blen_nonneg.
Qed.

Lemma whole_followed m rest :
  message m -> whole (m ++ rest) = if header_size m <=? HTTP_MAX_HEADER_SIZE then Some (blen m) else None.
Proof.
  intros Hm. destruct (read_whole m Hm) as (hs & body & Hr & Ha).
  destruct (message_nonempty m Hm) as (c & s & E). unfold whole.
  rewrite (read_message_app m hs body rest ltac:(by rewrite E) Hr), Ha, header_size_app, !blen_app by done.
  pose proof (blen_nonneg rest). rewrite (proj2 (Z.leb_le _ _)) by lia. cbn [andb].
  case_match; [|done]. f_equal. lia.
Qed.

Lemma whole_part m p : message m -> part_of p m -> whole p = None.
Proof.
  intros Hm ([e ->] & Hp & Hne). destruct (read_whole _ Hm) as (hs & body & Hr & Ha). unfold whole.
  destruct (read_message p) as [[hs' body']|] eqn:E; [|done].
  rewrite (read_message_app p hs' body' e Hp E) in Hr. injection Hr as <- <-.
  rewrite Ha, blen_app. assert (0 < blen e).
  { destruct e; [by rewrite app_nil_r in Hne|unfold blen; simpl; lia]. }
  by destruct (Z.leb_spec (blen body' + blen e) (blen body')); [lia|].
Qed.

Lemma stream_run b :
  check_run (HL := stream_lib) b =
  match whole b with Some n => mkParsed [on_message_complete] n 0 0 | None => mkParsed [] (blen b) 0 0 end.
Proof. done. Qed.

(** The instance accepts exactly the messages within the limit. *)
Lemma stream_accepted m :
  message m -> accepted (HL := stream_lib) m = (header_size m <=? HTTP_MAX_HEADER_SIZE).
Proof.
  intros Hm. unfold accepted. rewrite stream_run. pose proof (whole_followed m [] Hm) as Hw. rewrite app_nil_r in Hw.
  rewrite Hw. destruct (header_size m <=? HTTP_MAX_HEADER_SIZE).
  - apply bool_decide_eq_true_2. by left.
  - apply bool_decide_eq_false_2, not_elem_of_nil.
Qed.

#[export] Instance stream_lib_parser : HttpParserSpec stream_lib.
Proof.
  split.
  - intros verb target hs body Hv Ht Hh Hn Ha _. by apply (execute_plain (HL := ref_lib)), accepts_any.
  - intros st hs body Hst Hh Hn Ha _. by apply (execute_plain_response (HL := ref_lib)), accepts_any.
  - intros m Hm Hs. rewrite stream_accepted by done. by apply Z.leb_le.
  - exact (parse_url_plain (HL := ref_lib)).
Qed.

#[export] Instance stream_lib_spec : HttpStreamSpec stream_lib.
Proof.
  split.
  - intros m rest Hm Ha Hlen. rewrite stream_accepted in Ha by done.
    rewrite stream_run, whole_followed, Ha by done. split; [by left|done].
  - intros m p Hm Ha Hlen Hp. rewrite stream_run, (whole_part m p) by done. split; [apply not_elem_of_nil|done].
  - intros m p Hm Ha Hlen Hp Hne. rewrite stream_accepted in Ha by done. rewrite stream_run.
    assert (Hw : whole p = None).
    { destruct (decide (p = m)) as [->|]; [|by apply (whole_part m)].
      pose proof (whole_followed m [] Hm) as Hw. by rewrite app_nil_r, Ha in Hw. }
    rewrite Hw. split; [apply not_elem_of_nil|]. split; [apply blen_nonneg|cbn; lia].
Qed.
