(* ===== verification/HttpExchange.v ===== *)
(** * A request and its answer over one connection

    A client and a server of the framework at the two ends of a TCP connection.
    [tcp_run] is the connection: two queues of bytes in flight and the calls of
    the two programs in the order in which they happen.  The server's theorems are
    proved against the interface [Handler], which says what a [Serve] puts on the
    connection; [Reply] is an instance. *)

From S2P Require Import Prelude CStr World FrameIO FrameIOProps HttpMsg HttpTool HttpWire.
From S2P Require Import HttpStream TcpConn TcpConnProps HttpServer HttpServerProps.

(** ** The connection *)

(** A call of a party puts what the kernel takes from it at the end of one queue
    and gets what the kernel delivers from the front of the other. *)
Inductive tcp_run (cfd sfd : Z) : bytes -> bytes -> io_trace -> io_trace -> Prop :=
  | tcp_nil q1 q2 : tcp_run cfd sfd q1 q2 [] []
  | tcp_client e q1 q2 tc ts :
      tcp_run cfd sfd (q1 ++ taken cfd e) q2 tc ts ->
      tcp_run cfd sfd q1 (delivered cfd e ++ q2) (e :: tc) ts
  | tcp_server e q1 q2 tc ts :
      tcp_run cfd sfd q1 (q2 ++ taken sfd e) tc ts ->
      tcp_run cfd sfd (delivered sfd e ++ q1) q2 tc (e :: ts).

Lemma sent_cons fd e t : sent fd (e :: t) = taken fd e ++ sent fd t.
Proof. done. Qed.
Lemma received_cons fd e t : received fd (e :: t) = delivered fd e ++ received fd t.
Proof. done. Qed.

Lemma received_prefix fd t u d : received fd (t ++ u) `prefix_of` d -> received fd t `prefix_of` d.
Proof. rewrite received_app. apply prefix_app_l. Qed.

(** Each end gets a beginning of what the other has sent. *)
Lemma tcp_run_prefix cfd sfd q1 q2 tc ts :
  tcp_run cfd sfd q1 q2 tc ts ->
  received sfd ts `prefix_of` q1 ++ sent cfd tc /\ received cfd tc `prefix_of` q2 ++ sent sfd ts.
Proof.
  induction 1 as [q1 q2|e q1 q2 tc ts _ [IH1 IH2]|e q1 q2 tc ts _ [IH1 IH2]];
    rewrite ?sent_cons, ?received_cons, <- ?app_assoc in *; split; try done;
    try apply prefix_nil; by apply prefix_app.
Qed.

(** A run in which the client sends, the server does all it does, and the client
    goes on. *)
Lemma tcp_client_calls cfd sfd t q1 q2 tc ts :
  tcp_run cfd sfd (q1 ++ sent cfd t) q2 tc ts -> tcp_run cfd sfd q1 (received cfd t ++ q2) (t ++ tc) ts.
Proof.
  revert q1. induction t as [|e t IH]; intros q1 H.
  - change (sent cfd []) with (@nil ascii) in H. by rewrite app_nil_r in H.
  - rewrite received_cons, <- app_assoc. simpl. constructor. apply IH. by rewrite <- app_assoc.
Qed.

Lemma tcp_server_calls cfd sfd t q1 q2 tc ts :
  tcp_run cfd sfd q1 (q2 ++ sent sfd t) tc ts -> tcp_run cfd sfd (received sfd t ++ q1) q2 tc (t ++ ts).
Proof.
  revert q2. induction t as [|e t IH]; intros q2 H.
  - change (sent sfd []) with (@nil ascii) in H. by rewrite app_nil_r in H.
  - rewrite received_cons, <- app_assoc. simpl. constructor. apply IH. by rewrite <- app_assoc.
Qed.

Lemma tcp_half_duplex cfd sfd t1 t2 ts :
  received cfd t1 = [] -> received sfd ts `prefix_of` sent cfd t1 ->
  received cfd t2 `prefix_of` sent sfd ts -> tcp_run cfd sfd [] [] (t1 ++ t2) ts.
Proof.
  intros H1 [q1 Hq1] [q2 Hq2].
  pose proof (tcp_client_calls cfd sfd t1 [] [] t2 ts) as Hc1.
  pose proof (tcp_server_calls cfd sfd ts q1 [] t2 []) as Hs.
  pose proof (tcp_client_calls cfd sfd t2 q1 q2 [] []) as Hc2.
  rewrite H1, app_nil_l, app_nil_l, Hq1 in Hc1. rewrite app_nil_l, app_nil_r, Hq2 in Hs.
  rewrite app_nil_r in Hc2. apply Hc1, Hs, Hc2. constructor.
Qed.

(** ** Handlers *)

(** Nothing, or a beginning of a response. *)
Definition sends_one {IOrd : IterOrder} (P : HttpResponse -> Prop) (b : bytes) : Prop :=
  b = [] \/ exists rs, P rs /\ b `prefix_of` Response_Serialize rs.

(** [Serve] sends on its connection [fd] at most one response that [responds] allows for
    the state of the work object, in order, and receives nothing. *)
Class Handler {HL : HttpLib} {IOrd : IterOrder} (fd : Z) (Serve : HttpSrvWork -> IO (Z * HttpSrvWork))
    (responds : HttpSrvWork -> HttpResponse -> Prop) := {
  handler_sane h : sane (Serve h);
  handler_io h w :
    sockfd_ h = fd -> (forall rs, responds h rs -> blen (Response_Serialize rs) < 2 ^ 31) ->
    Forall os_ok (trace_of (Serve h w)) ->
    received fd (trace_of (Serve h w)) = [] /\ sends_one (responds h) (sent fd (trace_of (Serve h w)));
  handler_fd h w v h' t w' : Serve h w = Done (v, h') t w' -> sockfd_ h' = sockfd_ h
}.

Lemma Frame_send_prefix fd buf flags w :
  blen buf < 2 ^ 31 -> Forall os_ok (trace_of (Frame_send fd buf flags w)) ->
  (forall fd', received fd' (trace_of (Frame_send fd buf flags w)) = []) /\
  sent fd (trace_of (Frame_send fd buf flags w)) `prefix_of` buf.
Proof.
  intros Hlen. pose proof (send_loop_spec fd buf Hlen flags w) as H.
  destruct (Frame_send fd buf flags w) as [ret t w'|t]; simpl; intros Hok.
  - destruct (H Hok) as (Hon & n & _ & -> & _). split; [|apply prefix_take].
    intros fd'. by eapply only_on_send_received.
  - destruct (H Hok) as (Hon & _ & n & _ & ->). split; [|apply prefix_take].
    intros fd'. by eapply only_on_send_received.
Qed.

Lemma trace_Reply {IOrd : IterOrder} h w :
  trace_of (Reply h w) = trace_of (Frame_send (sockfd_ h) (Response_Serialize (replied h)) 0 w).
Proof.
  rewrite Reply_unfold, io_bind_after. destruct (Frame_send _ _ _ w); simpl; by rewrite ?app_nil_r.
Qed.

#[export] Instance reply_handler {HL : HttpLib} {IOrd : IterOrder} fd : Handler fd Reply (fun h rs => rs = replied h).
Proof.
  split.
  - apply sane_Reply.
  - intros h w <- Hlen. rewrite trace_Reply. intros Hok.
    destruct (Frame_send_prefix _ _ _ _ (Hlen _ eq_refl) Hok) as [Hr Hs]. split; [done|]. right. eauto.
  - intros h w v h' t w' H. rewrite Reply_unfold in H. io_inv. by simplify_eq.
Qed.

(** ** The server's end *)

Section server.
Context {HL : HttpLib} {HS : HttpStreamSpec HL} {IOrd : IterOrder}.
Context (Serve : HttpSrvWork -> IO (Z * HttpSrvWork)) (responds : HttpSrvWork -> HttpResponse -> Prop).
Context (h : HttpSrvWork) (d : bytes) (r : HttpRequest).
Context {HH : Handler (sockfd_ h) Serve responds}.
Hypothesis Hd : message d.
Hypothesis Hlen : blen d < 2 ^ 30.
Hypothesis Hparse : accepted d = true -> ParseHttpRequest d (Some (hreq_ h)) = Some (0, Some r).
Abbreviation fd := (sockfd_ h).
Hypothesis Hrsp : accepted d = true -> forall rs, responds (set_hreq r h) rs -> blen (Response_Serialize rs) < 2 ^ 31.

(** The answer is sent after the whole request has arrived, if the parser accepts it. *)
Definition answered (t : io_trace) : Prop :=
  sends_one (responds (set_hreq r h)) (sent fd t) /\ (sent fd t <> [] -> received fd t = d /\ accepted d = true).

(** The request is arriving, or is refused, or it has been served. *)
Definition serving (s : conn_state) (acc : io_trace) : Prop :=
  sockfd_ (work s) = fd /\ buffer_ok s /\
  ((work s = h /\ sent fd acc = [] /\ received fd acc = take (Z.to_nat (recvd s)) (req s) /\
    recvd s = blen (received fd acc) /\ (received fd acc <> d \/ accepted d = false)) \/
   (accepted d = true /\ received fd acc = d /\ recvd s = 0 /\ sends_one (responds (set_hreq r h)) (sent fd acc))).

Lemma serving_answered s acc t :
  serving s acc -> sent fd t = [] -> received fd t = [] -> answered (acc ++ t).
Proof.
  intros (_ & _ & H) Hs Hr. unfold answered. rewrite sent_app, received_app, Hs, Hr, !app_nil_r.
  destruct H as [(_ & -> & _)|(? & -> & _ & ?)]; [split; [by left|done]|done].
Qed.

(** What a call of [Frame::recv] does to the two byte streams. *)
Lemma recv_io len w :
  len < 2 ^ 31 ->
  match Frame_recv fd len 0 w with
  | Done (ret, data) t _ => Forall os_ok t -> received fd t = data /\ sent fd t = [] /\
      blen data = Z.max 0 ret /\ ret <= Z.max 0 len
  | Blocked t => Forall os_ok t -> received fd t = [] /\ sent fd t = []
  end.
Proof.
  intros Hl. pose proof (recv_facts fd len 0 w Hl) as H.
  pose proof (calls_Frame_recv only_recv fd len 0 I (fun _ => I) w) as Hc.
  destruct (Frame_recv fd len 0 w) as [[ret data] t w'|t]; intros Hok;
    apply (only_recv_sent fd) in Hc; destruct (H Hok); tauto.
Qed.

(** How an iteration that started with the trace [acc] ends. *)
Definition served (acc : io_trace) (o : outcome (conn_state + run_result)) : Prop :=
  match o with
  | Done (inl s) t _ => serving s (acc ++ t)
  | Done (inr _) t _ | Blocked t => answered (acc ++ t)
  end.

Lemma served_after acc t o : served (acc ++ t) o -> served acc (after t o).
Proof. destruct o as [[s|x] u w|u]; simpl; by rewrite app_assoc. Qed.

(** The whole request is there: it is served, and the connection is as new or done. *)
Lemma process_serving s acc w :
  accepted d = true -> sockfd_ (work s) = fd -> work s = h -> sent fd acc = [] -> received fd acc = d ->
  take (Z.to_nat (blen d)) (req s) = d -> recvd s = blen d -> 0 < blen (req s) < 2 ^ 31 ->
  Forall os_ok (trace_of (process_pkg Serve s (blen d) w)) -> served acc (process_pkg Serve s (blen d) w).
Proof using Hparse HH Hrsp Hlen.
  intros Hacc Hfd Hw Hsent Hrec Htk Hn Hreq. unfold process_pkg. rewrite Htk, Hw, Hparse by done. cbn [Z.eqb].
  rewrite io_bind_after. pose proof (handler_io (set_hreq r h) w eq_refl (Hrsp Hacc)) as Hio.
  change (sockfd_ (set_hreq r h)) with fd in Hio.
  destruct (Serve (set_hreq r h) w) as [[v h'] t w'|t] eqn:E; cbn [snd trace_of] in *.
  - pose proof (handler_fd _ _ _ _ _ _ E) as Hfd'. cbn [sockfd_ set_hreq] in Hfd'.
    rewrite Hn, Z.ltb_irrefl, Z.eqb_refl. intros Hok.
    assert (Hok' : Forall os_ok t) by (rewrite trace_after, Forall_app in Hok; tauto).
    destruct (Hio Hok') as [Hr Hs]. apply served_after. destruct (KeepAlive _); simpl; rewrite app_nil_r.
    + split; [done|]. split; [unfold buffer_ok; cbn; lia|]. right.
      rewrite sent_app, received_app, Hsent, Hrec, Hr, app_nil_r. done.
    + unfold answered. rewrite sent_app, received_app, Hsent, Hrec, Hr, app_nil_r. done.
  - intros Hok. destruct (Hio Hok) as [Hr Hs]. simpl.
    unfold answered. rewrite sent_app, received_app, Hsent, Hrec, Hr, app_nil_r. done.
Qed.

(** New bytes arrive in the middle of the request. *)
Lemma receive_serving s acc data req' w :
  sockfd_ (work s) = fd -> work s = h -> sent fd acc = [] -> 0 < blen data ->
  received fd acc = take (Z.to_nat (recvd s)) (req s) ++ data ->
  recvd s + blen data = blen (received fd acc) -> received fd acc `prefix_of` d ->
  0 < blen req' < 2 ^ 31 -> recvd s + blen data <= blen req' ->
  take (Z.to_nat (recvd s + blen data)) req' = received fd acc ->
  let s' := mkConn (work s) req' (recvd s + blen data) in
  let nparsed := HttpCheckPkg_CheckPkg (take (Z.to_nat (recvd s + blen data)) req') in
  let o := (if 0 <? nparsed then process_pkg Serve s' nparsed
            else if 0 =? nparsed then io_ret (inl s')
            else io_ret (inr (Returned E_NOT_HTTP (work s)))) w in
  Forall os_ok (trace_of o) -> served acc o.
Proof using Hd HS Hparse HH Hrsp Hlen.
  intros Hfd Hw Hs Hpos Hr Hn Hpre Hb1 Hb2 Htk. cbv zeta. rewrite Htk.
  set (p := received fd acc) in *.
  assert (Hp : p <> []) by (rewrite Hr; intros [_ ->]%app_nil; unfold blen in *; simpl in *; lia).
  assert (Hwait : HttpCheckPkg_CheckPkg p <= 0 -> p <> d \/ accepted d = false ->
    served acc ((if 0 <? HttpCheckPkg_CheckPkg p then process_pkg Serve (mkConn (work s) req' (recvd s + blen data)) (HttpCheckPkg_CheckPkg p)
      else if 0 =? HttpCheckPkg_CheckPkg p then io_ret (inl (mkConn (work s) req' (recvd s + blen data)))
      else io_ret (inr (Returned E_NOT_HTTP (work s)))) w)).
  { intros Hc Hneq. rewrite (proj2 (Z.ltb_ge 0 _)) by done.
    assert (Hserving : serving (mkConn (work s) req' (recvd s + blen data)) acc).
    { pose proof (prefix_length _ _ Hpre). pose proof (blen_nonneg data).
      split; [done|]. split; [unfold buffer_ok; cbn [recvd req]; unfold blen in *; lia|].
      left. cbn [work req recvd]. by rewrite Htk. }
    destruct (0 =? _); simpl; [by rewrite app_nil_r|]. by apply serving_answered with (1 := Hserving). }
  destruct (check_decides d p Hd ltac:(lia) Hpre Hp) as [[Heq Hacc]|[Hle _]].
  2:{ intros _. apply Hwait; [done|]. destruct (decide (p = d)) as [->|]; [|by left].
      destruct (accepted d) eqn:Ha; [|by right]. destruct (check_whole d Hd Ha ltac:(lia)).
      pose proof (message_blen d Hd). lia. }
  clear Hwait. destruct (check_whole d Hd Hacc ltac:(lia)) as [Hc _]. rewrite Heq, Hc, (proj2 (Z.ltb_lt 0 (blen d))).
  2:{ by apply message_blen. }
  apply process_serving; cbn [work req recvd]; try done; rewrite <- Heq; try done; by rewrite <- Hn.
Qed.

Lemma serving_step s acc w :
  serving s acc -> Forall os_ok (trace_of (run_body Serve s w)) ->
  received fd (acc ++ trace_of (run_body Serve s w)) `prefix_of` d -> served acc (run_body Serve s w).
Proof using Hd HS Hparse HH Hrsp Hlen.
  intros Hs. pose proof (grown_spec s (proj1 (proj2 Hs))) as (Hg1 & Hg2 & Hg3 & _).
  pose proof (proj1 (proj2 Hs)) as (Hb1 & Hb2 & Hb3). unfold run_body. fold (grown s).
  rewrite (proj1 Hs), wrap_id, io_bind_after by lia.
  pose proof (recv_io (blen (grown s) - recvd s) w ltac:(lia)) as Hio.
  destruct (Frame_recv fd _ 0 w) as [[ret data] t0 w0|t0].
  2:{ intros Hok _. destruct (Hio Hok). by eapply serving_answered. }
  rewrite trace_after, Forall_app, app_assoc. intros [Hok0 Hok] Hpre.
  destruct (Hio Hok0) as (Hrec & Hsent & Hb & Hmax). apply served_after.
  destruct (Z.ltb_spec 0 ret) as [Hret|Hret].
  2:{ assert (Hx : answered (acc ++ t0)).
      { apply serving_answered with s; [done..|]. rewrite Hrec. destruct data; [done|].
        unfold blen in Hb. simpl in Hb. lia. }
      destruct (0 =? ret); simpl; by rewrite app_nil_r. }
  destruct (store_spec (grown s) (recvd s) data) as (req' & Hst & Hbr & Htk); [lia..|].
  rewrite Hst in Hok, Hpre |- *. rewrite wrap_id in Hok, Hpre |- * by lia. cbv zeta in *.
  apply received_prefix in Hpre. rewrite Hg3 in Htk.
  replace ret with (blen data) in * by lia.
  destruct Hs as (Hfd & _ & [(Hw & Hs & Hr & Hn & _)|(_ & Hr & _)]).
  - assert (Hall : received fd (acc ++ t0) = take (Z.to_nat (recvd s)) (req s) ++ data) by (by rewrite received_app, Hr, Hrec).
    apply (receive_serving s (acc ++ t0) data req' w0); try done; try lia.
    + by rewrite sent_app, Hs, Hsent.
    + rewrite Hall, blen_app, <- Hr, <- Hn. lia.
    + by rewrite Hall.
  - rewrite received_app, Hr, Hrec in Hpre. apply prefix_length in Hpre. rewrite length_app in Hpre.
    unfold blen in *. lia.
Qed.

(** Whatever the connection does, [Run] sends nothing before the request is there,
    and then nothing but the answer to it. *)
Lemma run_answered w :
  let t := trace_of (Run Serve h w) in
  Forall os_ok t -> received fd t `prefix_of` d -> answered t.
Proof using Hd HS Hparse HH Hrsp Hlen.
  pose proof (loop_inv _ (run_productive Serve handler_sane) os_ok
    (fun s acc => received fd acc `prefix_of` d -> serving s acc)
    (fun _ t => received fd t `prefix_of` d -> answered t)
    (fun t => received fd t `prefix_of` d -> answered t)) as H.
  assert (Hstep : forall s acc w, (received fd acc `prefix_of` d -> serving s acc) ->
    Forall os_ok (trace_of (run_body Serve s w)) ->
    received fd (acc ++ trace_of (run_body Serve s w)) `prefix_of` d -> served acc (run_body Serve s w)).
  { intros s acc w0 HI Hok Hpre. apply serving_step; [|done..]. by eapply HI, received_prefix. }
  specialize (H ltac:(intros s acc w0 s' t w' HI Hb Hok Hp; specialize (Hstep s acc w0 HI);
    rewrite Hb in Hstep; by apply Hstep)).
  specialize (H ltac:(intros s acc w0 x t w' HI Hb Hok Hp; specialize (Hstep s acc w0 HI);
    rewrite Hb in Hstep; by apply Hstep)).
  specialize (H ltac:(intros s acc w0 t HI Hb Hok Hp; specialize (Hstep s acc w0 HI);
    rewrite Hb in Hstep; by apply Hstep)).
  specialize (H (mkConn h (resize 512 []) 0) [] w).
  assert (H0 : serving (mkConn h (resize 512 []) 0) []).
  { split; [done|]. split; [unfold buffer_ok; cbn [recvd req]; rewrite blen_resize by done; lia|]. left.
    split_and!; try done. left. destruct (message_nonempty d Hd) as (c & u & ->). done. }
  specialize (H (fun _ => H0)). unfold Run. cbv zeta. destruct (loop _ _ w); exact H.
Qed.

End server.

(** ** The client's end *)

Section client.
Context {HL : HttpLib} {HS : HttpStreamSpec HL} (strerror : Z -> bytes).

Lemma check_complete_nil : HttpCheckComplete [] <= 0.
Proof. unfold HttpCheckComplete. repeat case_match; done. Qed.

(** The client sends a beginning of its request; when it gets a beginning of a
    message and returns 0, it got the whole message and has sent all of its own. *)
Lemma client_gets b out c w m :
  fd_ c <> kInvalidFd -> b <> [] -> blen b < 2 ^ 31 -> message m -> blen m < 2 ^ 31 ->
  let o := SendAndReceive strerror (Some b) (Some out) HttpCheckComplete c w in
  Forall os_ok (trace_of o) ->
  sent (fd_ c) (trace_of o) `prefix_of` b /\
  match o with
  | Done (ret, out', c') t _ =>
      received (fd_ c) t `prefix_of` m ->
      (ret = 0 /\ sent (fd_ c) t = b /\ received (fd_ c) t = m /\ accepted m = true /\ out' = Some m) \/
      (ret = -1 /\ out' = Some out)
  | Blocked _ => True
  end.
Proof using HS.
  intros Hfd Hb Hl Hm Hml. cbv zeta.
  pose proof (exchange_facts strerror HttpCheckComplete b out c w Hfd Hb Hl) as H.
  destruct (SendAndReceive _ _ _ _ _ w) as [[[ret out'] c'] t w'|t] eqn:E; intros Hok.
  2:{ split; [|done]. cbn [trace_of] in *. destruct (exchange_waits _ _ _ _ _ _ _ Hfd Hl E Hok) as [n ->].
      apply prefix_take. }
  destruct (H Hok) as (_ & [(Hret & Hsent & ch & l & Hrec & Hc & _ & Ho)|(Hret & Ho & n & Hn)]).
  2:{ split; [cbn [trace_of]; rewrite Hn; apply prefix_take|by right]. }
  split; [by cbn [trace_of]; rewrite Hsent|]. intros Hpre. left. rewrite <- Hrec in Hc, Ho.
  destruct (check_decides m _ Hm Hml Hpre) as [[Heq Ha]|[_ Hx]]; [|rewrite Heq in *|lia].
  - intros Hn. rewrite Hn in Hc. pose proof check_complete_nil. lia.
  - destruct (check_whole m Hm Ha Hml) as [_ Hcm]. rewrite Hcm in Ho. split_and!; try done.
    rewrite Ho. f_equal. apply take_ge. unfold blen. lia.
Qed.
End client.

(** ** Runs without delays *)

(** The kernel takes a buffer whole. *)
Definition send_event (fd : Z) (b : bytes) : io_event := (c_send fd b 0, answer (blen b) 0 []).

Lemma Frame_send_whole fd b rest e :
  0 < blen b < 2 ^ 31 ->
  Frame_send fd b 0 (mkWorld (answer (blen b) 0 [] :: rest) e) = Done (blen b) [send_event fd b] (mkWorld rest e).
Proof.
  intros Hb. unfold Frame_send. rewrite loop_unfold, io_bind_after by apply send_productive.
  unfold send_body at 1. rewrite (proj2 (Z.ltb_lt 0 (blen b))), io_bind_after by lia.
  unfold sys. cbn [script errno answer r_ret]. rewrite s32_id by lia.
  rewrite (proj2 (Z.ltb_lt 0 (blen b))), (proj2 (Z.ltb_ge (blen b) 0)) by lia.
  rewrite io_bind_after. cbn [get_errno andb errno]. rewrite Z.add_0_l, wrap_id by lia.
  rewrite (proj2 (Z.eqb_neq (blen b) 0)) by lia. unfold io_ret at 1. cbn [after app].
  rewrite loop_unfold, io_bind_after by apply send_productive.
  unfold send_body at 1. rewrite Z.ltb_irrefl, s32_id by lia. done.
Qed.

Lemma send_event_facts fd b :
  sent fd [send_event fd b] = b /\ received fd [send_event fd b] = [] /\ os_ok (send_event fd b).
Proof.
  split_and!; try done; [|split; cbn; pose proof (blen_nonneg b); lia].
  unfold sent, send_event. simpl. rewrite Z.eqb_refl, app_nil_r. apply take_ge. unfold blen. lia.
Qed.

(** Receptions of the given pieces, each within what was asked for. *)
Definition receives (fd : Z) (cs : list bytes) (u : io_trace) : Prop :=
  Forall (fun e => exists len, e.1 = c_recv fd len 0 /\ r_ret e.2 <= len) u /\ u.*2 = pieces cs.

Lemma receives_facts fd cs u :
  receives fd cs u -> sent fd u = [] /\ received fd u = concat cs /\ Forall os_ok u.
Proof.
  intros [Hu Hans]. revert cs Hans. induction Hu as [|[c r] u (len & Hc & Hle) Hu IH]; intros cs Hans.
  - destruct cs; [done|discriminate Hans].
  - destruct cs as [|b cs]; [discriminate Hans|]. cbn [fmap list_fmap pieces map] in Hans.
    injection Hans as Hr Hans. destruct (IH cs Hans) as (IH1 & IH2 & IH3). simpl in Hc, Hr, Hle. subst c r.
    rewrite sent_cons, received_cons, IH1, IH2. simpl. rewrite Z.eqb_refl. split_and!; try done.
    constructor; [|done]. simpl in Hle |- *. pose proof (blen_nonneg b). lia.
Qed.

Lemma concat_take_part cs k :
  Forall (fun c => 0 < blen c) cs -> (0 < k < length cs)%nat -> part_of (concat (take k cs)) (concat cs).
Proof.
  intros Hcs Hk. rewrite <- (take_drop k cs) at 2. rewrite concat_app.
  assert (Hne : forall l, Forall (fun c => 0 < blen c) l -> (0 < length l)%nat -> 0 < blen (concat l)).
  { intros [|c l]; [simpl; lia|]. intros [Hc _]%Forall_cons _. simpl. rewrite blen_app.
    pose proof (blen_nonneg (concat l)). lia. }
  pose proof (Hne (take k cs) ltac:(by apply Forall_take) ltac:(rewrite length_take; lia)).
  pose proof (Hne (drop k cs) ltac:(by apply Forall_drop) ltac:(rewrite length_drop; lia)).
  split_and!; [by apply prefix_app_r| |]; intros E; apply (f_equal blen) in E; rewrite ?blen_app in E;
    unfold blen in *; simpl in *; lia.
Qed.

Lemma fits_pos size n cs : fits size n cs -> Forall (fun c => 0 < blen c) cs.
Proof.
  revert size n. induction cs as [|c cs IH]; intros size n H; [done|]. cbn [fits] in H.
  destruct H as (Hc & _ & H). constructor; [lia|by eapply IH].
Qed.

(** ** Both ends *)

(** What a server sees of a request. *)
Definition arrived {HL : HttpLib} (rq r : HttpRequest) : Prop :=
  GetMethod r = GetMethod rq /\ GetUri r = GetUri rq /\ GetContent r = GetContent rq /\
  headers_ r = filter nonempty_value (headers_ rq) /\
  exists res, ParseUrl (GetUri rq) URL_default = Some (res, GetUriObj r).

Section exchange.
Context {HL : HttpLib} {HP : HttpParserSpec HL} {HS : HttpStreamSpec HL} {IOrd : IterOrder}.
Context (strerror : Z -> bytes).
Context (Serve : HttpSrvWork -> IO (Z * HttpSrvWork)) (responds : HttpSrvWork -> HttpResponse -> Prop).

(** The response is one that can be sent whatever request arrived. *)
Definition answerable (h : HttpSrvWork) (rq : HttpRequest) : Prop :=
  forall r, arrived rq r ->
  forall rs, responds (set_hreq r h) rs -> plain_response rs /\ blen (Response_Serialize rs) < 2 ^ 31.

Definition client_call (rq : HttpRequest) (out : bytes) (hc : HttpClient) :=
  HttpClient_SendAndReceive strerror (Some (Request_Serialize rq)) (Some out) hc.

(** The traces of the two ends of the connection, each a beginning of what the
    other sent. *)
Lemma exchange_safe h rq c out wc ws {HH : Handler (sockfd_ h) Serve responds} :
  let client := SendAndReceive strerror (Some (Request_Serialize rq)) (Some out) HttpCheckComplete c wc in
  let server := trace_of (Run Serve h ws) in
  plain_request rq -> blen (Request_Serialize rq) < 2 ^ 30 -> hreq_ h = HttpRequest_new ->
  answerable h rq -> fd_ c <> kInvalidFd ->
  received (sockfd_ h) server `prefix_of` sent (fd_ c) (trace_of client) ->
  received (fd_ c) (trace_of client) `prefix_of` sent (sockfd_ h) server ->
  Forall os_ok (trace_of client) -> Forall os_ok server ->
  (sent (sockfd_ h) server <> [] -> received (sockfd_ h) server = Request_Serialize rq) /\
  match client with
  | Done (ret, out', _) _ _ =>
      ret = 0 ->
      received (sockfd_ h) server = Request_Serialize rq /\
      exists r rs, arrived rq r /\
        ParseHttpRequest (Request_Serialize rq) (Some HttpRequest_new) = Some (0, Some r) /\
        responds (set_hreq r h) rs /\ out' = Some (Response_Serialize rs) /\
        ParseHttpResponse (Response_Serialize rs) (Some HttpResponse_new) =
        Some (0, Some (mkHttpResponse (status rs) (content rs) (filter nonempty_value (rsp_headers rs))))
  | Blocked _ => True
  end.
Proof.
  intros client server Hrq Hl Hh Hans Hfd Hpre1 Hpre2 Hokc Hoks.
  assert (Hparsed : exists r, accepted (Request_Serialize rq) = true -> arrived rq r /\
    ParseHttpRequest (Request_Serialize rq) (Some HttpRequest_new) = Some (0, Some r)).
  { destruct (accepted (Request_Serialize rq)) eqn:Ha; [|by exists HttpRequest_new].
    destruct (request_parsed rq Hrq Ha) as (r & Hp & Hr). by exists r. }
  destruct Hparsed as (r & Hr).
  pose proof (plain_request_message rq Hrq) as Hm. pose proof (message_blen _ Hm) as Hne.
  assert (Hb : Request_Serialize rq <> []) by (intros E; rewrite E in Hne; done).
  assert (Hparse : accepted (Request_Serialize rq) = true ->
    ParseHttpRequest (Request_Serialize rq) (Some (hreq_ h)) = Some (0, Some r)).
  { intros Ha. rewrite Hh. by apply Hr. }
  pose proof (run_answered Serve responds h _ r Hm Hl Hparse ltac:(intros Ha rs Hx; by apply (Hans r (proj1 (Hr Ha)) rs Hx)) ws Hoks) as Hsrv.
  fold server in Hsrv. unfold client in *.
  assert (Hcl : forall m, message m -> blen m < 2 ^ 31 -> _) by
    exact (fun m Hm Hl' => client_gets strerror _ out c wc m Hfd Hb ltac:(lia) Hm Hl').
  cbv zeta in Hcl.
  destruct (SendAndReceive _ _ _ _ _ wc) as [[[ret out'] c'] t w'|t]; simpl in *.
  2:{ destruct (Hcl _ Hm ltac:(lia) Hokc) as [Hsent _]. split; [|done]. intros Hs. apply Hsrv; [by etrans|done]. }
  destruct (Hcl _ Hm ltac:(lia) Hokc) as [Hsent _]. destruct Hsrv as [Ha1 Ha2]; [by etrans|]. split; [by apply Ha2|].
  intros ->. destruct Ha1 as [Hnil|(rs & Hresp & Hpre)].
  - (* nothing was answered: the client cannot have succeeded *)
    destruct (Hcl _ Hm ltac:(lia) Hokc) as [_ Hret]. rewrite Hnil in Hpre2.
    apply prefix_nil_inv in Hpre2. rewrite Hpre2 in Hret.
    destruct Hret as [(_ & _ & Hx & _)|[? _]]; [apply prefix_nil|by rewrite <- Hx in Hb|done].
  - destruct (decide (sent (sockfd_ h) server = [])) as [Hnil|Hsome].
    { rewrite Hnil in Hpre2. apply prefix_nil_inv in Hpre2.
      destruct (Hcl _ Hm ltac:(lia) Hokc) as [_ Hret]. rewrite Hpre2 in Hret.
      destruct Hret as [(_ & _ & Hx & _)|[? _]]; [apply prefix_nil|by rewrite <- Hx in Hb|done]. }
    destruct (Ha2 Hsome) as [Hreq Hacc]. destruct (Hr Hacc) as [Harr Hp].
    destruct (Hans r Harr rs Hresp) as [Hplain Hrl]. pose proof (plain_response_message _ Hplain) as Hm2.
    destruct (Hcl _ Hm2 Hrl Hokc) as [_ Hret].
    destruct Hret as [(_ & Hs & Hrec & Hacc2 & ->)|[? _]]; [by etrans| |done].
    split; [done|]. exists r, rs. split_and!; try done. by apply response_parsed.
Qed.

(** C10: One request and its answer, end to end: a new [HttpSrvWork] with a handler
    that answers on its connection and an [HttpClient] at the other end of it, which
    sends a plain request.  Whatever the kernels do on both sides and however the
    connection cuts and interleaves the bytes, the server puts nothing on the
    connection before the whole request has arrived; and when
    [HttpClient::SendAndReceive] returns 0, the server has parsed the request that
    was sent (same method, target, content, headers with a value), and the output
    is exactly a response the handler may give to it, so that
    [ParseHttpResponse] gives its status, content and headers. *)
Theorem http_exchange h rq hc out wc ws {HH : Handler (sockfd_ h) Serve responds} :
  let client := client_call rq out hc wc in
  let server := Run Serve h ws in
  plain_request rq -> blen (Request_Serialize rq) < 2 ^ 30 -> hreq_ h = HttpRequest_new ->
  answerable h rq -> fd_ (hc_conn hc) <> kInvalidFd ->
  tcp_run (fd_ (hc_conn hc)) (sockfd_ h) [] [] (trace_of client) (trace_of server) ->
  Forall os_ok (trace_of client) -> Forall os_ok (trace_of server) ->
  (sent (sockfd_ h) (trace_of server) <> [] ->
     received (sockfd_ h) (trace_of server) = Request_Serialize rq) /\
  match client with
  | Done (ret, out', _) _ _ =>
      ret = 0 ->
      received (sockfd_ h) (trace_of server) = Request_Serialize rq /\
      exists r rs, arrived rq r /\
        ParseHttpRequest (Request_Serialize rq) (Some HttpRequest_new) = Some (0, Some r) /\
        responds (set_hreq r h) rs /\ out' = Some (Response_Serialize rs) /\
        ParseHttpResponse (Response_Serialize rs) (Some HttpResponse_new) =
        Some (0, Some (mkHttpResponse (status rs) (content rs) (filter nonempty_value (rsp_headers rs))))
  | Blocked _ => True
  end.
Proof.
  intros client server Hrq Hl Hh Hans Hfd Htcp Hokc Hoks.
  destruct (tcp_run_prefix _ _ _ _ _ _ Htcp) as [Hpre1 Hpre2]. rewrite !app_nil_l in *.
  pose proof (exchange_safe h rq (hc_conn hc) out wc ws Hrq Hl Hh Hans Hfd) as H.
  unfold client, client_call, HttpClient_SendAndReceive in *. rewrite io_bind_after in *.
  destruct (SendAndReceive _ _ _ _ _ wc) as [[[ret out'] c'] t w'|t]; simpl in *; rewrite ?app_nil_r in *;
    by apply H.
Qed.
End exchange.

(** ** Handlers that compute a response and send it *)

(** [Serve] changes the work object, calls [Reply] and returns 0. *)
Definition reply_with {IOrd : IterOrder} (f : HttpSrvWork -> HttpSrvWork) (h : HttpSrvWork) :
    IO (Z * HttpSrvWork) :=
  let* v := Reply (f h) in io_ret (0, snd v).

Lemma reply_with_handler {HL : HttpLib} {IOrd : IterOrder} fd f :
  (forall h, sockfd_ (f h) = sockfd_ h) -> Handler fd (reply_with f) (fun h rs => rs = replied (f h)).
Proof.
  intros Hf. split; unfold reply_with.
  - intros h. apply sane_bind; [apply sane_Reply|intros; apply sane_ret].
  - intros h w Hfd Hlen. rewrite <- (Hf h) in Hfd. pose proof (handler_io (Serve := Reply) (f h) w Hfd Hlen) as H.
    rewrite io_bind_after. destruct (Reply (f h) w); [|exact H]. cbn [trace_of after io_ret] in *.
    by rewrite app_nil_r.
  - intros h w v h' t w' H. io_inv. simplify_eq. destruct a as [ret h2].
    match goal with E : Reply _ _ = _ |- _ => apply (handler_fd (fd := 0) (Serve := Reply)) in E end. simpl. by rewrite Hf in H0.
Qed.

(** *** What such a handler answers can be sent *)

Section sizes.
Context {IOrd : IterOrder}.

Lemma write_headers_perm l1 l2 : l1 ≡ₚ l2 -> blen (write_headers l1) = blen (write_headers l2).
Proof.
  induction 1 as [|[k v] l1 l2 _ IH|[k1 v1] [k2 v2] l|l1 l2 l3 _ IH1 _ IH2]; [done| | |congruence];
    rewrite !write_headers_cons; repeat case_decide; rewrite ?blen_app; lia.
Qed.

Lemma write_headers_elem (k v : bytes) l : (k, v) ∈ l -> blen v <= blen (write_headers l).
Proof.
  induction l as [|[k' v'] l IH]; [by intros ?%not_elem_of_nil|].
  rewrite elem_of_cons, write_headers_cons. intros [[= <- <-]|Hin].
  - case_decide; [subst; change (blen []) with 0; apply blen_nonneg|]. rewrite !blen_app.
    pose proof (blen_nonneg k). pose proof (blen_nonneg (lit ": ")). pose proof (blen_nonneg crlf).
    pose proof (blen_nonneg (write_headers l)). lia.
  - specialize (IH Hin). case_decide; [done|]. rewrite !blen_app.
    pose proof (blen_nonneg k'). pose proof (blen_nonneg v'). pose proof (blen_nonneg (lit ": ")).
    pose proof (blen_nonneg crlf). lia.
Qed.

Lemma write_headers_insert (k v : bytes) (m : headers) :
  blen (write_headers (iter (<[k := v]> m))) <= blen k + blen v + 4 + blen (write_headers (iter m)).
Proof.
  assert (H1 : iter (<[k := v]> m) ≡ₚ (k, v) :: map_to_list (delete k m)).
  { rewrite iter_perm, <- insert_delete_eq. apply map_to_list_insert, lookup_delete_eq. }
  assert (H2 : blen (write_headers (map_to_list (delete k m))) <= blen (write_headers (iter m))).
  { destruct (m !! k) as [v0|] eqn:E.
    - assert (H2 : iter m ≡ₚ (k, v0) :: map_to_list (delete k m)).
      { rewrite iter_perm, <- (insert_delete_id m k v0 E) at 1. apply map_to_list_insert, lookup_delete_eq. }
      rewrite (write_headers_perm _ _ H2), write_headers_cons. case_decide; [done|]. rewrite !blen_app.
      pose proof (blen_nonneg k). pose proof (blen_nonneg v0). pose proof (blen_nonneg (lit ": ")).
      pose proof (blen_nonneg crlf). lia.
    - rewrite delete_id by done. by rewrite (write_headers_perm _ _ (iter_perm m)). }
  rewrite (write_headers_perm _ _ H1), write_headers_cons. case_decide.
  - pose proof (blen_nonneg k). pose proof (blen_nonneg v). lia.
  - rewrite !blen_app. change (blen (lit ": ")) with 2. change (blen crlf) with 2. lia.
Qed.

(** The value of a header that arrived is plain and no longer than the request. *)
Lemma arrived_header {HL : HttpLib} rq r (k v : bytes) :
  plain_request rq -> arrived rq r -> headers_ r !! k = Some v ->
  plain_header (k, v) = true /\ blen v <= blen (Request_Serialize rq).
Proof.
  intros Hrq (_ & _ & _ & Hh & _) Hv. rewrite Hh in Hv. apply map_lookup_filter_Some in Hv as [Hv Hne].
  split; [by destruct (pr_headers rq Hrq k v Hv)|].
  rewrite (serialize_text rq Hrq). unfold request_text. rewrite !blen_app.
  assert (Hin : (k, v) ∈ sent_headers (headers_ rq)).
  { unfold sent_headers. rewrite list_elem_of_filter, iter_perm, elem_of_map_to_list. done. }
  apply write_headers_elem in Hin. unfold blen in *. lia.
Qed.

(** A constant response, or it with the "Connection" header of the request. *)
Lemma answerable_replied {HL : HttpLib} f h rq rs0 :
  plain_request rq -> blen (Request_Serialize rq) < 2 ^ 30 -> plain_response rs0 ->
  blen (Response_Serialize rs0) < 2 ^ 30 - 2 ^ 10 ->
  (forall r, hreq_ (f (set_hreq r h)) = r /\ hrsp_ (f (set_hreq r h)) = rs0) ->
  answerable (fun h rs => rs = replied (f h)) h rq.
Proof.
  intros Hrq Hl Hrs Hlr Hf r Hr rs ->. unfold replied. destruct (Hf r) as [-> ->].
  unfold IsHeader, GetHeader. destruct (headers_ r !! lit "Connection") as [v|] eqn:E.
  2:{ rewrite bool_decide_false by (by intros [? ?]). split; [done|lia]. }
  rewrite bool_decide_true by done. change (default [] (Some v)) with v. destruct (arrived_header rq r _ _ Hrq Hr E) as [Hp Hv].
  destruct Hrs as [H1 H2 H3]. split.
  - split; simpl; [done| |].
    + apply map_Forall_insert_2; [by right|done].
    + rewrite lookup_insert_ne; [done|]. by apply (bool_decide_unpack (lit "Connection" <> lit "Content-Length")).
  - unfold Response_Serialize, Response_SerializeToString in *. cbn [snd status content rsp_headers Response_SetHeader] in *.
    rewrite !blen_app in *. pose proof (write_headers_insert (lit "Connection") v (rsp_headers rs0)).
    change (blen (lit "Connection")) with 10 in *. lia.
Qed.
End sizes.

Section completes.
Context {HL : HttpLib} {HP : HttpParserSpec HL} {HS : HttpStreamSpec HL} {IOrd : IterOrder}.
Context (strerror : Z -> bytes).

(** The pieces that one [recv] of the client takes. *)
Definition client_pieces (ds : list bytes) : Prop := Forall (fun c => 0 < blen c <= kMaxRecvSize) ds.

Lemma client_recv_pieces fd m ds pre rest e :
  message m -> accepted m = true -> blen m < 2 ^ 31 -> ds <> [] -> client_pieces ds -> pre ++ concat ds = m ->
  exists u, receives fd ds u /\
    loop (recv_check_body strerror fd HttpCheckComplete) (pre, blen pre) (mkWorld (pieces ds ++ rest) e) =
    Done (inr (blen m, m)) u (mkWorld rest e).
Proof using HS.
  intros Hm Ha Hl. revert pre. induction ds as [|c ds IH]; intros pre Hne Hds Hall; [done|].
  apply Forall_cons in Hds as [Hc Hds]. unfold kMaxRecvSize in Hc.
  rewrite loop_unfold, io_bind_after by apply recv_check_productive. unfold recv_check_body at 1.
  cbn [pieces map app]. rewrite io_bind_after, Frame_recv_piece by lia. rewrite io_bind_after. cbn [get_errno].
  rewrite (proj2 (Z.ltb_ge (blen c) 0)), (proj2 (Z.eqb_neq (blen c) 0)) by lia.
  assert (Htot : blen pre + blen c + blen (concat ds) = blen m).
  { rewrite <- Hall, !blen_app. simpl. rewrite blen_app. lia. }
  pose proof (blen_nonneg (concat ds)). pose proof (blen_nonneg pre). cbv zeta. rewrite s32_id by lia.
  set (ev := (c_recv fd kMaxRecvSize 0, answer (blen c) 0 c)).
  destruct ds as [|c2 ds].
  - simpl in Hall. rewrite app_nil_r in Hall. rewrite Hall. destruct (check_whole m Hm Ha Hl) as [_ ->].
    rewrite (proj2 (Z.ltb_lt 0 (blen m))) by lia. exists [ev]. split; [|done].
    split; [|done]. apply Forall_singleton. eexists. split; [done|]. cbn. unfold kMaxRecvSize. lia.
  - assert (Hp : part_of (pre ++ c) m).
    { inversion Hds. rewrite <- Hall. simpl. rewrite (app_assoc pre). split; [by apply prefix_app_r|].
      split; intros E; apply (f_equal blen) in E; rewrite !blen_app in E; unfold blen in *; simpl in *; lia. }
    destruct (check_part m _ Hm Ha Hl Hp) as [_ ->].
    change (0 <? CHECK_INCOMPLETE) with false.
    change ((CHECK_INCOMPLETE <? 0) && negb (CHECK_INCOMPLETE =? CHECK_INCOMPLETE)) with false.
    destruct (IH (pre ++ c)) as (u & [Hu1 Hu2] & Hu); [done|done|by rewrite <- app_assoc|].
    rewrite blen_app in Hu. unfold pieces in Hu. exists (ev :: u). split.
    { split; [constructor; [eexists; split; [done|]; cbn; unfold kMaxRecvSize; lia|done]|].
      cbn [fmap list_fmap]. by rewrite Hu2. }
    cbn [after io_ret]. rewrite Hu. done.
Qed.

Lemma client_completes b out c m ds rest e :
  fd_ c <> kInvalidFd -> 0 < blen b < 2 ^ 31 -> message m -> accepted m = true -> blen m < 2 ^ 31 ->
  client_pieces ds -> concat ds = m ->
  exists u, receives (fd_ c) ds u /\
    SendAndReceive strerror (Some b) (Some out) HttpCheckComplete c
      (mkWorld (answer (blen b) 0 [] :: pieces ds ++ rest) e) =
    Done (0, Some m, log_append [] c) ([send_event (fd_ c) b] ++ u) (mkWorld rest e).
Proof using HS.
  intros Hfd Hb Hm Ha Hl Hds Hall.
  destruct (client_recv_pieces (fd_ c) m ds [] rest e) as (u & Hu & Hloop); try done.
  { intros ->. pose proof (message_blen m Hm). by rewrite <- Hall in *. }
  exists u. split; [done|]. unfold SendAndReceive. rewrite (proj2 (Z.eqb_neq (blen b) 0)) by lia.
  unfold reconnect_if_needed. rewrite (proj2 (Z.eqb_neq kInvalidFd (fd_ c))) by done.
  rewrite io_bind_after. cbn [io_ret]. change (0 <? 0) with false. cbv iota beta.
  unfold send_all. rewrite !io_bind_after, s32_id by lia.
  assert (Hsend : loop (send_left_body strerror (fd_ c) b) (blen b)
      (mkWorld (answer (blen b) 0 [] :: pieces ds ++ rest) e) =
    Done (0, []) [send_event (fd_ c) b] (mkWorld (pieces ds ++ rest) e)).
  { rewrite loop_unfold, io_bind_after by apply send_left_productive. unfold send_left_body at 1.
    rewrite (proj2 (Z.ltb_lt 0 (blen b))), Z.sub_diag by lia. change (drop (Z.to_nat 0) b) with b.
    rewrite take_ge by (unfold blen; lia). rewrite io_bind_after, Frame_send_whole by lia.
    rewrite io_bind_after. cbn [get_errno].
    rewrite (proj2 (Z.ltb_ge (blen b) 0)), (proj2 (Z.eqb_neq (blen b) 0)), Z.ltb_irrefl, Z.sub_diag by lia.
    done. }
  rewrite Hsend. cbn [after io_ret fst snd fd_ log_append set_strlog]. change (0 <? 0) with false. cbv iota beta.
  rewrite io_bind_after. cbn [fd_ log_append set_strlog]. change (blen []) with 0 in Hloop. rewrite Hloop.
  cbn [after]. rewrite (proj2 (Z.ltb_ge (blen m) 0)) by apply blen_nonneg.
  rewrite take_ge by (unfold blen; lia). cbn. by rewrite app_nil_r.
Qed.

Lemma Run_end Serve `{!Handler fd Serve responds} h req e :
  trace_of (loop (run_body Serve) (mkConn h req 0) (mkWorld [] e)) = [].
Proof.
  rewrite loop_unfold, io_bind_after by apply run_productive, handler_sane.
  unfold run_body at 1. by rewrite io_bind_after.
Qed.

Lemma server_completes f h d r cs e :
  (forall h, sockfd_ (f h) = sockfd_ h) -> message d -> accepted d = true -> blen d < 2 ^ 30 ->
  ParseHttpRequest d (Some (hreq_ h)) = Some (0, Some r) ->
  let rsp := Response_Serialize (replied (f (set_hreq r h))) in
  0 < blen rsp < 2 ^ 31 -> fits 512 0 cs -> concat cs = d ->
  exists u, receives (sockfd_ h) cs u /\
    trace_of (Run (reply_with f) h (mkWorld (pieces cs ++ [answer (blen rsp) 0 []]) e)) =
    u ++ [send_event (sockfd_ h) rsp].
Proof using HS.
  intros Hf Hd Ha Hlen Hparse rsp Hrsp Hfits Hall. pose proof (reply_with_handler (sockfd_ h) f Hf) as Hh.
  assert (Hserve : exists h', reply_with f (set_hreq r h) (mkWorld [answer (blen rsp) 0 []] e) =
    Done (0, h') [send_event (sockfd_ h) rsp] (mkWorld [] e)).
  { unfold reply_with. rewrite Reply_unfold, !io_bind_after, Hf. change (sockfd_ (set_hreq r h)) with (sockfd_ h).
    rewrite Frame_send_whole by done. eexists. reflexivity. }
  destruct Hserve as [h' Hserve]. unfold Run.
  edestruct (run_pieces (reply_with f) handler_sane h d r) with (cs := cs) (pre := @nil ascii)
    (s := mkConn h (resize 512 []) 0) as (u & req' & _ & Hu & Hans & ->); try done.
  - apply check_whole; [done|done|lia].
  - intros ->. pose proof (message_blen d Hd). by rewrite <- Hall in *.
  - intros k Hk. simpl. apply (check_part d); [done|done|lia|]. rewrite <- Hall.
    apply concat_take_part; [by eapply fits_pos|done].
  - exists u. split; [done|]. rewrite trace_after. destruct (KeepAlive _).
    + by rewrite (Run_end _ (responds := fun h rs => rs = replied (f h))), app_nil_r.
    + simpl. by rewrite app_nil_r.
Qed.

(** C13: The exchange can be completed, and is, however the network cuts it: for every
    handler that computes a response and calls [Reply], every cutting of the request
    into pieces that fit the server's buffer and every cutting of the response into
    pieces of at most 5120 bytes, with kernels that take what they are given, the
    client returns 0 with the response to the request that arrived; the run is one
    of [tcp_run] and the server has sent that response and nothing else.  The header
    of the request and that of the response are within http-parser's limit of 80 KB:
    http-parser gives no promise to complete a longer one. *)
Theorem http_exchange_completes f h rq hc out cs e1 e2 :
  (forall h, sockfd_ (f h) = sockfd_ h) ->
  plain_request rq -> blen (Request_Serialize rq) < 2 ^ 30 ->
  header_size (Request_Serialize rq) <= HTTP_MAX_HEADER_SIZE -> hreq_ h = HttpRequest_new ->
  answerable (fun h rs => rs = replied (f h)) h rq -> fd_ (hc_conn hc) <> kInvalidFd ->
  fits 512 0 cs -> concat cs = Request_Serialize rq ->
  exists r, arrived rq r /\ let rsp := Response_Serialize (replied (f (set_hreq r h))) in
  forall ds, header_size rsp <= HTTP_MAX_HEADER_SIZE -> client_pieces ds -> concat ds = rsp ->
  let client := client_call strerror rq out hc
    (mkWorld (answer (blen (Request_Serialize rq)) 0 [] :: pieces ds) e1) in
  let server := Run (reply_with f) h (mkWorld (pieces cs ++ [answer (blen rsp) 0 []]) e2) in
  tcp_run (fd_ (hc_conn hc)) (sockfd_ h) [] [] (trace_of client) (trace_of server) /\
  Forall os_ok (trace_of client) /\ Forall os_ok (trace_of server) /\
  sent (sockfd_ h) (trace_of server) = rsp /\
  exists hc' t w', client = Done (0, Some rsp, hc') t w'.
Proof.
  intros Hf Hrq Hl Hsz Hh Hans Hfd Hfits Hall. pose proof (plain_request_message rq Hrq) as Hm.
  pose proof (accepts_plain _ Hm Hsz) as Ha. destruct (request_parsed rq Hrq Ha) as (r & Hp & Hr).
  exists r. split; [done|]. intros rsp ds Hsz2 Hds Hcat client server. destruct (Hans r Hr _ eq_refl) as [Hrs Hrl].
  pose proof (message_blen _ Hm). pose proof (plain_response_message _ Hrs) as Hm2. pose proof (message_blen _ Hm2). fold rsp in Hm2, H0, Hrl.
  pose proof (accepts_plain _ Hm2 Hsz2) as Ha2.
  destruct (server_completes f h _ r cs e2 Hf Hm Ha Hl ltac:(by rewrite Hh) ltac:(by split) Hfits Hall)
    as (us & Hus & Hserver).
  destruct (client_completes (Request_Serialize rq) out (hc_conn hc) rsp ds [] e1 Hfd ltac:(split; [done|lia]) Hm2 Ha2 Hrl Hds Hcat)
    as (uc & Huc & Hclient). rewrite app_nil_r in Hclient.
  apply receives_facts in Hus as (Hs1 & Hs2 & Hs3), Huc as (Hc1 & Hc2 & Hc3).
  destruct (send_event_facts (fd_ (hc_conn hc)) (Request_Serialize rq)) as (Hq1 & Hq2 & Hq3).
  destruct (send_event_facts (sockfd_ h) rsp) as (Hp1 & Hp2 & Hp3).
  unfold client, client_call, HttpClient_SendAndReceive. rewrite io_bind_after, Hclient.
  cbn [after io_ret trace_of]. rewrite !app_nil_r. fold rsp in Hserver. unfold server. rewrite Hserver.
  assert (Hsent : sent (sockfd_ h) (us ++ [send_event (sockfd_ h) rsp]) = rsp) by (by rewrite sent_app, Hs1).
  split_and!.
  - apply tcp_half_duplex; [done| |by rewrite Hc2, Hcat, Hsent].
    rewrite received_app, Hs2, Hp2, Hall, app_nil_r. by rewrite Hq1.
  - by constructor.
  - rewrite Forall_app. split; [done|by constructor].
  - done.
  - eauto.
Qed.
End completes.

(** ** Witnesses *)

#[local] Existing Instance stream_lib.

Definition demo_get : HttpRequest :=
  SetHeader (lit "Host") (lit "example.org") (SetUri (lit "/") (SetMethod HTTP_REQUEST_METHOD_GET HttpRequest_new)).
Definition demo_client : HttpClient := mkHttpClient demo_conn [] 200 200 200.
Definition say_hi (h : HttpSrvWork) : HttpSrvWork := set_hrsp (Response_SetContent (lit "hi") HttpResponse_new) h.

Lemma map_Forall_check (P : bytes * bytes -> Prop) `{!forall x, Decision (P x)} (m : headers) :
  bool_decide (Forall P (map_to_list m)) = true -> map_Forall (fun k v => P (k, v)) m.
Proof.
  intros Hall%bool_decide_eq_true_1 k v Hkv. rewrite Forall_forall in Hall. by apply Hall, elem_of_map_to_list.
Qed.

Lemma demo_get_plain : plain_request demo_get.
Proof.
  split; [by left|done| |done|done].
  apply (map_Forall_check (fun x => x.2 = [] \/ plain_header x = true)). vm_compute. reflexivity.
Qed.

Lemma say_hi_answerable : answerable (fun h rs => rs = replied (say_hi h)) demo_work demo_get.
Proof.
  apply (answerable_replied say_hi demo_work demo_get (Response_SetContent (lit "hi") HttpResponse_new)).
  - apply demo_get_plain.
  - vm_compute. reflexivity.
  - split; [done| |done].
    apply (map_Forall_check (fun x => x.2 = [] \/ plain_header x = true)). vm_compute. reflexivity.
  - vm_compute. reflexivity.
  - done.
Qed.

(** The request in two pieces, the response in three. *)
Definition cut3 (b : bytes) : list bytes := [take 5 b; take 5 (drop 5 b); drop 10 b].

Lemma http_exchange_completes_witness :
  exists r, arrived demo_get r /\ let rsp := Response_Serialize (replied (say_hi (set_hreq r demo_work))) in
  exists hc' t w', client_call (HL := stream_lib) (fun _ => []) demo_get [] demo_client
    (mkWorld (answer (blen (Request_Serialize demo_get)) 0 [] :: pieces (cut3 rsp)) 0) = Done (0, Some rsp, hc') t w'.
Proof.
  destruct (http_exchange_completes (HL := stream_lib) (fun _ => []) say_hi demo_work demo_get demo_client []
    (cut3 (Request_Serialize demo_get)) 0 0) as (r & Hr & H).
  - reflexivity.
  - exact demo_get_plain.
  - vm_compute. reflexivity.
  - vm_compute. discriminate.
  - reflexivity.
  - exact say_hi_answerable.
  - discriminate.
  - vm_compute. repeat split; discriminate.
  - vm_compute. reflexivity.
  - exists r. split; [exact Hr|]. cbv zeta.
    destruct (H (cut3 (Response_Serialize (replied (say_hi (set_hreq r demo_work)))))) as (_ & _ & _ & _ & Hc).
    + destruct Hr as (_ & _ & _ & Hh & _). unfold replied, IsHeader. cbn [hreq_ set_hreq say_hi set_hrsp]. rewrite Hh.
      vm_compute. discriminate.
    + destruct Hr as (_ & _ & _ & Hh & _). unfold replied, IsHeader. cbn [hreq_ set_hreq say_hi set_hrsp]. rewrite Hh.
      vm_compute. repeat constructor; discriminate.
    + unfold cut3. cbn [concat]. rewrite app_nil_r. 
      change 10%nat with (5 + 5)%nat. rewrite <- drop_drop, take_drop, take_drop. reflexivity.
    + exact Hc.
Defined.

(** [os_ok] of every event of a concrete run. *)
Ltac os_tac o :=
  let t := eval vm_compute in (trace_of o) in
  change (trace_of o) with t;
  repeat (apply Forall_cons; split; [vm_compute; repeat split; discriminate|]); apply Forall_nil; exact I.

Lemma http_exchange_witness :
  let rsp := Response_Serialize (Response_SetContent (lit "hi") HttpResponse_new) in
  let client := client_call (HL := stream_lib) (fun _ => []) demo_get [] demo_client
    (mkWorld (answer (blen (Request_Serialize demo_get)) 0 [] :: pieces (cut3 rsp)) 0) in
  let server := Run (HL := stream_lib) (reply_with say_hi) demo_work
    (mkWorld (pieces (cut3 (Request_Serialize demo_get)) ++ [answer (blen rsp) 0 []]) 0) in
  (sent 7 (trace_of server) <> [] -> received 7 (trace_of server) = Request_Serialize demo_get) /\
  exists r rs hc' t w', arrived demo_get r /\ client = Done (0, Some (Response_Serialize rs), hc') t w'.
Proof.
  cbv zeta.
  set (client := client_call _ _ _ _ _). set (server := Run _ _ _).
  pose proof (http_exchange (HL := stream_lib) (fun _ => []) (reply_with say_hi)
    (fun h rs => rs = replied (say_hi h)) demo_work demo_get demo_client []
    (mkWorld (answer (blen (Request_Serialize demo_get)) 0 [] ::
       pieces (cut3 (Response_Serialize (Response_SetContent (lit "hi") HttpResponse_new)))) 0)
    (mkWorld (pieces (cut3 (Request_Serialize demo_get)) ++
       [answer (blen (Response_Serialize (Response_SetContent (lit "hi") HttpResponse_new))) 0 []]) 0)
    (HH := reply_with_handler _ say_hi (fun _ => eq_refl)) demo_get_plain) as H.
  cbv zeta in H. fold client in H. fold server in H.
  assert (Htcp : tcp_run 7 7 [] [] (trace_of client) (trace_of server)).
  { rewrite <- (take_drop 1 (trace_of client)). apply tcp_half_duplex.
    - vm_compute. reflexivity.
    - apply (bool_decide_unpack _). vm_compute. exact I.
    - apply (bool_decide_unpack _). vm_compute. exact I. }
  assert (Hc : Forall os_ok (trace_of client)) by os_tac client.
  assert (Hs : Forall os_ok (trace_of server)) by os_tac server.
  destruct (H ltac:(vm_compute; reflexivity) eq_refl say_hi_answerable ltac:(discriminate) Htcp Hc Hs) as [H1 H2].
  split; [exact H1|]. clear H H1 Htcp Hc Hs.
  assert (Hret : match client with Done (ret, _, _) _ _ => ret = 0 | Blocked _ => False end)
    by (vm_compute; reflexivity).
  clearbody client. destruct client as [[[ret out'] hc'] t w'|]; [|destruct Hret].
  destruct (H2 Hret) as (_ & r & rs & Hr & _ & _ & -> & _). subst ret. eauto 10.
Defined.
