(* ===== verification/HttpPipeline.v ===== *)
(** * Pipelined requests

    A client may send its next request before it has the answer to the first one.
    [HttpSrvWork::Run] takes the first request off its buffer and keeps the count of
    all bytes received: what arrives next is stored beyond them in a buffer that has
    become shorter. *)

From S2P Require Import Prelude CStr World FrameIO FrameIOProps HttpMsg HttpTool HttpWire.
From S2P Require Import HttpStream HttpServer HttpServerProps HttpExchange.

Section pipeline.
Context {HL : HttpLib} {HS : HttpStreamSpec HL} {IOrd : IterOrder}.
Context (Serve : HttpSrvWork -> IO (Z * HttpSrvWork)) (Serve_sane : forall h, sane (Serve h)).

(** One iteration receives [c] behind what is there. *)
Lemma run_body_piece s c rest e :
  buffer_ok s -> 0 < blen c -> recvd s + blen c <= blen (grown s) ->
  let b := take (Z.to_nat (recvd s)) (req s) ++ c in
  exists req' ev, blen req' = blen (grown s) /\
    run_body Serve s (mkWorld (pieces [c] ++ rest) e) =
    after [ev] ((if 0 <? HttpCheckPkg_CheckPkg b
                 then process_pkg Serve (mkConn (work s) req' (recvd s + blen c)) (HttpCheckPkg_CheckPkg b)
                 else if 0 =? HttpCheckPkg_CheckPkg b
                 then io_ret (inl (mkConn (work s) req' (recvd s + blen c)))
                 else io_ret (inr (Returned E_NOT_HTTP (work s)))) (mkWorld rest e)) /\
    take (Z.to_nat (recvd s + blen c)) req' = b.
Proof.
  intros Hs Hc Hfit b. pose proof (grown_spec s Hs) as (Hg1 & Hg2 & Hg3 & _). destruct Hs as (Hs1 & Hs2 & Hs3).
  destruct (store_spec (grown s) (recvd s) c) as (req' & Hst & Hb & Htk); [lia..|]. rewrite Hg3 in Htk.
  unfold run_body. fold (grown s). cbn [pieces map app]. rewrite io_bind_after, Frame_recv_piece by lia.
  rewrite (proj2 (Z.ltb_lt 0 (blen c))), Hst by lia. cbv zeta. cbn [recvd req work]. rewrite !(wrap_id _ (recvd s + blen c)) by lia.
  rewrite Htk. by eauto.
Qed.

(** C40: A client that sends more behind a request makes the server write outside its
    buffer: take any message that the parser accepts and [ParseHttpRequest] reads,
    with at least one byte behind it in the same [recv], short enough for the first
    buffer of 512 bytes but such that message and arrived bytes together are longer.
    When [Serve] has answered and the connection is kept alive, the next bytes that
    arrive, whatever they are, are stored past the end of [req].  Two requests of 200
    bytes in one segment and one byte more are enough. *)
Theorem http_run_pipelined_overflow h m rest r c script e v h' t script' e' :
  message m -> accepted m = true -> ParseHttpRequest m (Some (hreq_ h)) = Some (0, Some r) ->
  rest <> [] -> blen (m ++ rest) <= 512 < blen m + blen (m ++ rest) -> 0 < blen c < 2 ^ 31 ->
  Serve (set_hreq r h) (mkWorld script e) = Done (v, h') t (mkWorld (pieces [c] ++ script') e') ->
  KeepAlive (hreq_ h') = true ->
  exists t', Run Serve h (mkWorld (pieces [m ++ rest] ++ script) e) = Done OutOfBounds t' (mkWorld script' e').
Proof using HS Serve_sane.
  intros Hm Ha Hparse Hrest Hlen Hc Hserve Hka. pose proof (message_blen m Hm) as Hpos.
  assert (0 < blen rest) by (destruct rest; [done|unfold blen; simpl; lia]).
  set (s0 := mkConn h (resize 512 []) 0).
  assert (Hs0 : buffer_ok s0) by (unfold buffer_ok; cbn [s0 recvd req]; rewrite blen_resize by done; lia).
  pose proof (grown_spec s0 Hs0) as (_ & _ & _ & Hg). cbn [s0 recvd req] in Hg.
  rewrite blen_resize in Hg by done. change (0 =? 512) with false in Hg. cbv iota in Hg. fold s0 in Hg.
  pose proof (blen_app m rest) as Hd.
  destruct (run_body_piece s0 (m ++ rest) script e Hs0) as (req' & ev & Hb & Hbody & Htk);
    [lia|rewrite Hg; cbn [s0 recvd]; lia|]. cbn [s0 recvd req work] in *. rewrite Z.add_0_l in *.
  change (take (Z.to_nat 0) (resize 512 [])) with (@nil ascii) in *. rewrite app_nil_l in *.
  rewrite (check_followed m rest Hm Ha ltac:(lia)), (proj2 (Z.ltb_lt 0 (blen m))) in Hbody by done.
  assert (Hfirst : take (Z.to_nat (blen m)) req' = m).
  { rewrite <- (take_app_length m rest) at 2. rewrite <- Htk, take_take. f_equal. unfold blen in *. lia. }
  unfold Run. fold s0. rewrite loop_unfold, io_bind_after, Hbody by (by apply run_productive).
  unfold process_pkg. cbn [work req recvd]. rewrite Hfirst, Hparse. cbn [Z.eqb].
  rewrite io_bind_after, Hserve. cbn [snd].
  rewrite (proj2 (Z.ltb_lt (blen m) _)), (proj2 (Z.leb_le (blen m) _)), Hka by lia. cbn [after io_ret].
  rewrite loop_unfold, io_bind_after by (by apply run_productive).
  unfold run_body at 1. cbn [recvd req work].
  assert (Hdrop : blen (drop (Z.to_nat (blen m)) req') = 512 - blen m)
    by (unfold blen in *; rewrite length_drop; lia).
  rewrite Hdrop, (proj2 (Z.eqb_neq (blen (m ++ rest)) _)), Hdrop by lia.
  cbn [pieces map app]. rewrite io_bind_after, Frame_recv_piece by lia.
  rewrite (proj2 (Z.ltb_lt 0 (blen c))) by lia. unfold store. rewrite Hdrop, (proj2 (Z.leb_gt _ _)) by lia.
  cbn [after io_ret]. by eauto.
Qed.
End pipeline.

(** ** Witness *)

#[local] Existing Instance stream_lib.

(** A GET with a target of 170 bytes, twice in one segment. *)
Definition long_get : HttpRequest :=
  SetUri ("/"%char :: replicate 169 "a"%char) (SetMethod HTTP_REQUEST_METHOD_GET HttpRequest_new).
Definition long_text : bytes := Request_Serialize long_get.

Lemma http_run_pipelined_overflow_witness :
  exists t, Run (HL := stream_lib) Reply demo_work
    (mkWorld (pieces [long_text ++ long_text] ++ answer 19 0 [] :: pieces [lit "x"]) 0) = Done OutOfBounds t (mkWorld [] 0).
Proof.
  assert (Hplain : plain_request long_get).
  { split; [by left|reflexivity| |reflexivity|reflexivity]. apply map_Forall_empty. }
  assert (Ha : accepted (HL := stream_lib) long_text = true) by (vm_compute; reflexivity).
  destruct (request_parsed (HL := stream_lib) long_get Hplain Ha) as (r0 & Hr0 & _).
  destruct (ParseHttpRequest (HL := stream_lib) long_text (Some (hreq_ demo_work))) as [[res [r|]]|] eqn:Ep;
    [|vm_compute in Ep; discriminate Ep..].
  assert (Hres : res = 0) by (vm_compute in Ep; injection Ep as <- _; reflexivity). subst res.
  destruct (Reply (set_hreq r demo_work) (mkWorld (answer 19 0 [] :: pieces [lit "x"]) 0)) as [[v h'] t w'|] eqn:Es;
    [|vm_compute in Ep; injection Ep as <-; vm_compute in Es; discriminate Es].
  apply (http_run_pipelined_overflow (HL := stream_lib) Reply sane_Reply demo_work long_text long_text r (lit "x")
    (answer 19 0 [] :: pieces [lit "x"]) 0 v h' t [] 0).
  - exact (plain_request_message long_get Hplain).
  - exact Ha.
  - exact Ep.
  - vm_compute. discriminate.
  - vm_compute. split; [discriminate|reflexivity].
  - vm_compute. split; reflexivity.
  - rewrite Es. vm_compute in Ep. injection Ep as <-. vm_compute in Es. injection Es as _ _ _ <-. reflexivity.
  - vm_compute in Ep. injection Ep as <-. vm_compute in Es. injection Es as _ <- _ _. reflexivity.
Defined.
