(* ===== verification/Listener.v ===== *)
(** * Listening sockets: listener.{h,cc} *)

From S2P Require Import Prelude CStr World Network Mutex.

Record Listener := mkListener {
  listenfd_ : Z;
  l_ip : IP;
  l_port : Z;
  mtx_ : option AtomicMtx;
  proto_ : bytes
}.

(** The members that the constructor does not initialise hold [garbage]. *)
Definition Listener_new (garbage : Listener) : Listener :=
  mkListener (-1) (l_ip garbage) (l_port garbage) (mtx_ garbage) [].
Definition TcpListener_new (garbage : Listener) : Listener :=
  mkListener (-1) (l_ip garbage) (l_port garbage) (Some (mkAtomicMtx None)) (lit "tcp").
(** The UDP listener calls itself "tcp" too. *)
Definition UdpListener_new (garbage : Listener) : Listener :=
  mkListener (-1) (l_ip garbage) (l_port garbage) (Some (mkAtomicMtx None)) (lit "tcp").

Definition GetMtx (l : Listener) : option AtomicMtx := mtx_ l.
Definition GetSocketFd (l : Listener) : Z := listenfd_ l.
Definition GetIP (l : Listener) : IP := l_ip l.
Definition GetPort (l : Listener) : Z := l_port l.
Definition GetProto (l : Listener) : bytes := proto_ l.

Definition Destroy (l : Listener) : IO unit :=
  if 0 <=? listenfd_ l then let* _ := sys (c_close (listenfd_ l)) in io_ret tt else io_ret tt.

(** The destructor also deletes the lock. *)
Definition Listener_delete (l : Listener) : IO Listener :=
  let* _ := Destroy l in
  io_ret (mkListener (listenfd_ l) (l_ip l) (l_port l) (AtomicMtx_delete <$> mtx_ l) (proto_ l)).

(** [InitMtx(NULL)] of the lock, if there is one. *)
Definition init_mtx (m : option AtomicMtx) : Z * option AtomicMtx :=
  match m with
  | None => (0, None)
  | Some m => let '(ret, m) := AtomicMtx_InitMtx m in (ret, Some m)
  end.

(** The errors are the negated line numbers. *)
Definition TcpListener_Listen (ip : IP) (port : Z) (l : Listener) : IO (Z * Listener) :=
  let '(ret, m) := init_mtx (mtx_ l) in
  if ret <? 0 then io_ret (-21, mkListener (listenfd_ l) (l_ip l) (l_port l) m (proto_ l))
  else
    let* s := sys (c_socket SOCK_STREAM) in
    let fd := s32 (r_ret s) in
    let l := mkListener fd ip port m (proto_ l) in
    if fd <? 0 then io_ret (-28, l)
    else
      let server := mkSockaddr (af_inet_ip ip) (htons port) in
      let* nb := SetNonBlock fd in
      if nb <? 0 then io_ret (-40, l)
      else
        let* re := SetReuseAddr fd in
        if negb (re =? 0) then io_ret (-45, l)
        else
          let* b := sys (c_bind fd server) in
          if s32 (r_ret b) <? 0 then io_ret (-50, l)
          else
            let* ls := sys (c_listen fd 5) in
            if s32 (r_ret ls) <? 0 then io_ret (-55, l) else io_ret (0, l).

Definition UdpListener_Listen (ip : IP) (port : Z) (l : Listener) : IO (Z * Listener) :=
  let '(ret, m) := init_mtx (mtx_ l) in
  if ret <? 0 then io_ret (-62, mkListener (listenfd_ l) (l_ip l) (l_port l) m (proto_ l))
  else
    let* s := sys (c_socket SOCK_DGRAM) in
    let fd := s32 (r_ret s) in
    let l := mkListener fd ip port m (proto_ l) in
    if fd <? 0 then io_ret (-70, l)
    else
      let server := mkSockaddr (af_inet_ip ip) (htons port) in
      let* nb := SetNonBlock fd in
      if nb <? 0 then io_ret (-80, l)
      else
        let* b := sys (c_bind fd server) in
        if s32 (r_ret b) <? 0 then io_ret (-85, l) else io_ret (0, l).
