(* ===== verification/Server.v ===== *)
(** * Servers: server.h

    The accept loop of a TCP listener, the receive loop of a UDP listener and the
    connection tracker.  What other processes and coroutines do shows in the
    answers: the shared lock, the reads of the tracker's flag, the kernel.

    Each loop is run by one coroutine per listener and worker process.  [LockTrace]
    is what the lock guarantees to the process that runs a loop: while it owns the
    word, [TryLock] fails ([LockMachine.atomic_lock_refines] keeps everybody else
    from changing the word). *)

From S2P Require Import Prelude World Network FrameIO Mutex Listener.

(** ** ConnTracker *)

Record ConnTracker := mkConnTracker { graceful_shutdown_ : bool; conns_ : gmap Z unit }.

Definition ConnTracker_new : ConnTracker := mkConnTracker false ∅.
Definition NewConn (fd : Z) (ct : ConnTracker) : ConnTracker :=
  mkConnTracker (graceful_shutdown_ ct) (<[fd := tt]> (conns_ ct)).
Definition RemoveConn (fd : Z) (ct : ConnTracker) : ConnTracker :=
  mkConnTracker (graceful_shutdown_ ct) (delete fd (conns_ ct)).
Definition GetConnSize (ct : ConnTracker) : Z := u32 (Z.of_nat (size (conns_ ct))).
Definition GracefulShutdown (ct : ConnTracker) : bool := graceful_shutdown_ ct.

(** ** TcpReqWork *)

Record TcpReqWork := mkTcpReqWork { req_fd : Z; req_tracked : bool }.

Definition TcpReqWork_new : TcpReqWork := mkTcpReqWork (-1) false.
Definition SetFd (fd : Z) (w : TcpReqWork) : TcpReqWork := mkTcpReqWork fd (req_tracked w).
Definition SetConnTracker (w : TcpReqWork) : TcpReqWork := mkTcpReqWork (req_fd w) true.

(** The destructor: the tracker it leaves, and the close of the socket. *)
Definition TcpReqWork_delete (w : TcpReqWork) (ct : ConnTracker) : IO ConnTracker :=
  let ct := if req_tracked w then RemoveConn (req_fd w) ct else ct in
  if 0 <=? req_fd w then let* _ := sys (c_close (req_fd w)) in io_ret ct else io_ret ct.

(** ** TcpSrvWork *)

Inductive srv_result :=
  | Ret (code : Z)
  | NullDeref.

(** [BusinessWorkBuilder]: whether it returns a work object for a port; the caller
    uses it without a test. *)
Definition builder : Type := Z -> bool.

Section tcp.
(** The listening socket and its port, the work builder, and whether there is a
    connection tracker. *)
Context (listenfd port : Z) (work_builder_ : option builder) (ct_ : bool).

(** A connection is given to a new coroutine; then the tracker is asked whether to
    stop, through a pointer that may be null. *)
Definition serve_conn (fd accepted : Z) : IO (Z + srv_result) :=
  let* _ := sys (c_create_tcp fd port ct_) in
  if ct_ then
    let* g := sys c_graceful in
    if negb (r_ret g =? 0) then io_ret (inr (Ret 0)) else io_ret (inl accepted)
  else io_ret (inr NullDeref).

(** The loop state: [accepted]. *)
Definition tcp_srv_body (accepted : Z) : IO (Z + srv_result) :=
  let too_many := 15 <? accepted in
  let accepted := s32 (accepted + 1) in
  if too_many then
    let* _ := sys (c_sleep 50) in io_ret (inl 0)
  else
    let* l := sys c_trylock in
    if s32 (r_ret l) <? 0 then
      let* _ := sys (c_sleep 50) in io_ret (inl accepted)
    else
      let* a := Frame_accept listenfd in
      let fd := fst a in
      if fd <? 0 then io_ret (inr (Ret 0))
      else
        let* _ := sys c_unlock in
        let* nb := SetNonBlock fd in
        if nb <? 0 then io_ret (inr (Ret 0))
        else match work_builder_ with
        | None => let* _ := sys (c_close fd) in io_ret (inl accepted)
        | Some build => if build port then serve_conn fd accepted else io_ret (inr NullDeref)
        end.

Definition RunTcpSrv : IO srv_result := loop tcp_srv_body 0.

End tcp.

(** ** UdpSrvWork *)

Record UdpReqInfo := mkUdpReqInfo {
  u_sockfd : Z;
  reqpkg : bytes;
  srcaddr : sockaddr;
  dstaddr : sockaddr
}.

(** [req_] of a work object, after [SetReqInfo]. *)
Definition SetReqInfo (req : UdpReqInfo) (_ : option UdpReqInfo) : option UdpReqInfo := Some req.

(** [UdpReqWork::Reply] *)
Definition UdpReqWork_Reply (r : UdpReqInfo) (rsp : bytes) : IO Z :=
  Frame_sendto (u_sockfd r) rsp 0 (srcaddr r).

Section udp.
Context (l : Listener) (work_builder_ : option builder).

Definition udp_srv_body (_ : unit) : IO (unit + srv_result) :=
  let server := mkSockaddr (af_inet_ip (GetIP l)) (htons (GetPort l)) in
  let* k := sys c_trylock in
  if s32 (r_ret k) <? 0 then
    let* _ := sys (c_sleep 500) in io_ret (inl tt)
  else
    let* a := Frame_recvfrom (GetSocketFd l) 65536 0 in
    let '(ret, data, client) := a in
    let ret := s32 ret in
    if 0 <? ret then
      let* _ := sys c_unlock in
      let req := mkUdpReqInfo (u32 (GetSocketFd l)) data client server in
      match work_builder_ with
      | None => io_ret (inl tt)
      | Some build =>
          if build (GetPort l) then
            let* _ := sys (c_create_udp (u_sockfd req) (reqpkg req) (srcaddr req) (dstaddr req) (GetPort l)) in
            io_ret (inl tt)
          else io_ret (inr NullDeref)
      end
    else if ret <? 0 then io_ret (inr (Ret (-220)))
    else io_ret (inl tt).

Definition RunUdpSrv : IO srv_result := loop udp_srv_body tt.

End udp.

(** ** What the lock guarantees *)

(** Whether the process owns the lock after an event, and whether the event may
    happen. *)
Definition lock_after (held : bool) (e : io_event) : bool :=
  match e with
  | (c_trylock, r) => if s32 (r_ret r) <? 0 then held else true
  | (c_unlock, _) => false
  | _ => held
  end.

Definition lock_event_ok (held : bool) (e : io_event) : Prop :=
  match e with
  | (c_trylock, r) => held = true -> s32 (r_ret r) < 0
  | _ => True
  end.

Definition held_after (held : bool) (t : io_trace) : bool := foldl lock_after held t.

Fixpoint LockTrace (held : bool) (t : io_trace) : Prop :=
  match t with
  | [] => True
  | e :: t => lock_event_ok held e /\ LockTrace (lock_after held e) t
  end.

(** Every event satisfies [P] in the state of the lock before it. *)
Fixpoint along (P : bool -> io_event -> Prop) (held : bool) (t : io_trace) : Prop :=
  match t with
  | [] => True
  | e :: t => P held e /\ along P (lock_after held e) t
  end.

Lemma held_after_app held t u : held_after held (t ++ u) = held_after (held_after held t) u.
Proof. apply foldl_app. Qed.

Lemma LockTrace_app held t u :
  LockTrace held (t ++ u) <-> LockTrace held t /\ LockTrace (held_after held t) u.
Proof.
  revert held. induction t as [|e t IH]; intros held; [simpl; tauto|]. simpl. rewrite IH.
  unfold held_after. simpl. tauto.
Qed.

Lemma along_app P held t u :
  along P held (t ++ u) <-> along P held t /\ along P (held_after held t) u.
Proof.
  revert held. induction t as [|e t IH]; intros held; [simpl; tauto|]. simpl. rewrite IH.
  unfold held_after. simpl. tauto.
Qed.
