(* ===== verification/ServerProps.v ===== *)
(** * Properties of the server loops *)

From S2P Require Import Prelude World Network FrameIO FrameIOProps Mutex Listener Server.

(** ** Frame::accept under the lock *)

Lemma Frame_accept_shape fd w x t w' :
  Frame_accept fd w = Done x t w' ->
  exists t0 r, t = t0 ++ [(c_accept fd, r)] /\ Forall (retry (c_accept fd) fd EV_READ again) t0 /\
    (0 <= fst x \/ (fst x = -1 /\ hard again r)).
Proof.
  intros E. pose proof (retries_loop _ _ _ _ _ w (accept_retries fd)) as H.
  change (loop (accept_body fd) tt w) with (Frame_accept fd w) in H. rewrite E in H.
  destruct H as (t0 & r & Ht0 & [[-> (_ & _ & Hx)]|(v & _ & _ & Hx & _)]); [|done].
  exists t0, r. split; [done|]. split; [done|].
  destruct Hx as [[? ->]|[? ->]]; [left; done|right; done].
Qed.

Lemma Frame_accept_blocked fd w t :
  Frame_accept fd w = Blocked t -> Forall (retry (c_accept fd) fd EV_READ again) t.
Proof.
  intros E. pose proof (retries_loop _ _ _ _ _ w (accept_retries fd)) as H.
  change (loop (accept_body fd) tt w) with (Frame_accept fd w) in H. by rewrite E in H.
Qed.

(** Events that do not touch the lock. *)
Definition lock_neutral (c : syscall) : bool :=
  match c with c_trylock | c_unlock => false | _ => true end.

Lemma held_neutral held t :
  Forall (fun e => lock_neutral e.1 = true) t -> held_after held t = held.
Proof.
  intros H. revert held. induction H as [|[c r] t Hc Ht IH]; intros held; [done|].
  unfold held_after. simpl. unfold held_after in IH. rewrite IH. by destruct c.
Qed.

Lemma retry_neutral c fd evs t :
  lock_neutral c = true -> Forall (retry c fd evs again) t ->
  Forall (fun e => lock_neutral e.1 = true) t.
Proof.
  intros Hc H. eapply Forall_impl; [exact H|]. intros [c' r] [[E _]|E]; simpl in *; by subst.
Qed.

Lemma along_neutral (P : bool -> io_event -> Prop) held t :
  Forall (fun e => lock_neutral e.1 = true) t -> Forall (P held) t -> along P held t.
Proof.
  intros H HP. induction H as [|[c r] t Hc Ht IH]; [done|].
  apply Forall_cons in HP as [HP1 HP2]. split; [done|].
  replace (lock_after held (c, r)) with held by (by destruct c). by apply IH.
Qed.

(** ** The accept loop *)

(** Where the loop may be with or without the lock: it accepts (and waits for a
    connection) only with it; it locks, sleeps and serves only without. *)
Definition accept_discipline (held : bool) (e : io_event) : Prop :=
  match e.1 with
  | c_accept _ | c_wait _ _ | c_unlock => held = true
  | c_trylock | c_sleep _ | c_create_tcp _ _ _ | c_close _ => held = false
  | _ => True
  end.

Section tcp.
Context (listenfd port : Z) (wb : option builder) (ct : bool).
Abbreviation body := (tcp_srv_body listenfd port wb ct).

Lemma tcp_srv_productive : productive body.
Proof.
  unfold tcp_srv_body, serve_conn. split; [intros; sane_tac|]. intros s w s' t w' H.
  destruct (15 <? s); io_inv; discriminate.
Qed.

(** What an iteration calls after it has given the lock back. *)
Definition after_unlock (c : syscall) : Prop :=
  match c with
  | c_fcntl_getfl _ | c_fcntl_setfl _ _ | c_close _ | c_create_tcp _ _ _ | c_graceful => True
  | _ => False
  end.

Lemma after_unlock_facts r u :
  Forall (fun e => after_unlock e.1) u ->
  along accept_discipline true ((c_unlock, r) :: u) /\ held_after true ((c_unlock, r) :: u) = false /\
  forall fd e, last ((c_unlock, r) :: u) <> Some (c_accept fd, e).
Proof.
  intros H. assert (Hn : Forall (fun e => lock_neutral e.1 = true) u).
  { eapply Forall_impl; [exact H|]. intros [c e]. by destruct c. }
  split; [|split].
  - split; [done|]. apply along_neutral; [done|]. eapply Forall_impl; [exact H|].
    intros [c e]. by destruct c.
  - apply (held_neutral false). done.
  - intros fd e Hl. apply last_Some_elem_of in Hl. apply elem_of_cons in Hl as [Hl|Hl]; [done|].
    rewrite Forall_forall in H. by apply H in Hl.
Qed.

(** An iteration starts and, when it goes on, ends without the lock. *)
Lemma tcp_srv_step s w x t w' :
  body s w = Done x t w' ->
  along accept_discipline false t /\
  match x with
  | inl _ => held_after false t = false
  | inr r => t <> [] /\ (held_after false t = true <->
      exists e, last t = Some (c_accept listenfd, e) /\ hard again e)
  end.
Proof.
  unfold tcp_srv_body. intros H. destruct (15 <? s); io_inv; [done|].
  destruct (Z.ltb_spec (s32 (r_ret a)) 0) as [Hl|Hl].
  { io_inv. simpl. rewrite (proj2 (Z.ltb_lt _ _) Hl). done. }
  io_inv. match goal with H : Frame_accept _ _ = _ |- _ => apply Frame_accept_shape in H as (t2 & r & -> & Hr & Hx) end.
  assert (Hlk : lock_after false (c_trylock, a) = true).
  { simpl. by rewrite (proj2 (Z.ltb_ge _ _) Hl). }
  assert (Ha : along accept_discipline true (t2 ++ [(c_accept listenfd, r)]) /\
    held_after true (t2 ++ [(c_accept listenfd, r)]) = true).
  { assert (Hn : Forall (fun e => lock_neutral e.1 = true) (t2 ++ [(c_accept listenfd, r)])).
    { rewrite Forall_app, Forall_singleton. split; [eapply retry_neutral; [|exact Hr]; done|done]. }
    split; [|by apply held_neutral]. apply along_neutral; [done|].
    rewrite Forall_app, Forall_singleton. split; [|reflexivity]. eapply Forall_impl; [exact Hr|].
    intros [c e] [[E _]|E]; simpl in E; subst; reflexivity. }
  destruct Ha as [Ha1 Ha2]. set (ta := t2 ++ [(c_accept listenfd, r)]) in *.
  assert (Hpre : along accept_discipline false ((c_trylock, a) :: ta) /\
    held_after false ((c_trylock, a) :: ta) = true).
  { unfold held_after. simpl. simpl in Hlk. rewrite Hlk. split; [split; done|exact Ha2]. }
  clear Ha1 Ha2 Hlk. destruct Hpre as [Ha1 Ha2].
  destruct (Z.ltb_spec (fst a0) 0) as [Hneg|Hpos].
  { io_inv. destruct Hx as [?|[_ Hh]]; [lia|].
    change ([(c_trylock, a)] ++ ta ++ []) with ((c_trylock, a) :: (ta ++ [])). rewrite app_nil_r.
    split; [done|]. split; [done|]. rewrite Ha2. split; [|done]. intros _. exists r. split; [|done].
    unfold ta. change (last (((c_trylock, a) :: t2) ++ [(c_accept listenfd, r)]) = Some (c_accept listenfd, r)).
    apply last_snoc. }
  apply io_bind_inv in H as (ru & t3 & w3 & u & Hu & H & ->). apply sys_inv in Hu as (-> & _ & _).
  assert (Hfree : Forall (fun e => after_unlock e.1) u).
  { eapply (calls_done after_unlock); [|exact H]. unfold serve_conn.
    calls_tac; by apply calls_SetNonBlock. }
  destruct (after_unlock_facts ru u Hfree) as (Hu1 & Hu2 & Hu3).
  change ([(c_trylock, a)] ++ ta ++ [(c_unlock, ru)] ++ u) with
    (((c_trylock, a) :: ta) ++ ((c_unlock, ru) :: u)).
  rewrite along_app, held_after_app, Ha2. split; [done|]. rewrite Hu2. destruct x as [|y]; [done|].
  split; [done|]. split; [done|]. intros (e & He & _). rewrite last_app_cons in He. by apply Hu3 in He.
Qed.

Lemma tcp_srv_waits s w t : body s w = Blocked t -> along accept_discipline false t.
Proof.
  unfold tcp_srv_body. intros H. destruct (15 <? s); io_inv; [done..|].
  destruct (Z.ltb_spec (s32 (r_ret a)) 0) as [Hl|Hl].
  { io_inv. by simpl. }
  assert (Hlk : lock_after false (c_trylock, a) = true) by (simpl; by rewrite (proj2 (Z.ltb_ge _ _) Hl)).
  apply io_bind_blocked in H as [H|(x & u1 & v1 & u2 & H & Hrest & ->)].
  - apply Frame_accept_blocked in H. split; [done|]. rewrite Hlk. apply along_neutral.
    + eapply retry_neutral; [|exact H]; done.
    + eapply Forall_impl; [exact H|]. intros [c e] [[E _]|E]; simpl in E; subst; reflexivity.
  - apply Frame_accept_shape in H as (t3 & r & -> & Hr & _).
    assert (Hn : Forall (fun e => lock_neutral e.1 = true) (t3 ++ [(c_accept listenfd, r)])).
    { rewrite Forall_app, Forall_singleton. split; [eapply retry_neutral; [|exact Hr]; done|done]. }
    change ([(c_trylock, a)] ++ (t3 ++ [(c_accept listenfd, r)]) ++ u2) with
      ([(c_trylock, a)] ++ ((t3 ++ [(c_accept listenfd, r)]) ++ u2)).
    split; [done|]. rewrite Hlk, app_nil_l. apply along_app. rewrite (held_neutral true _ Hn). split.
    { apply along_neutral; [done|]. rewrite Forall_app, Forall_singleton. split; [|reflexivity].
      eapply Forall_impl; [exact Hr|]. intros [c e] [[E _]|E]; simpl in E; subst; reflexivity. }
    destruct (fst x <? 0); [discriminate Hrest|].
    apply io_bind_blocked in Hrest as [Hu|(ru & t4 & w4 & u & Hu & H & ->)].
    { apply sys_blocked in Hu as [-> _]. done. }
    apply sys_inv in Hu as (-> & _ & _).
    apply after_unlock_facts. match type of H with ?m w4 = _ => assert (Hc : calls after_unlock m) end.
    { unfold serve_conn. calls_tac; by apply calls_SetNonBlock. }
    specialize (Hc w4). by rewrite H in Hc.
Qed.

(** Every run of the loop. *)
Lemma RunTcpSrv_discipline w :
  match RunTcpSrv listenfd port wb ct w with
  | Done r t w' =>
      along accept_discipline false t /\
      (held_after false t = true <->
       exists e, last t = Some (c_accept listenfd, e) /\ hard again e)
  | Blocked t => along accept_discipline false t
  end.
Proof.
  pose proof (loop_inv _ tcp_srv_productive (fun _ => True)
    (fun _ acc => along accept_discipline false acc /\ held_after false acc = false)
    (fun _ t => along accept_discipline false t /\ (held_after false t = true <->
       exists e, last t = Some (c_accept listenfd, e) /\ hard again e))
    (fun t => along accept_discipline false t)) as H.
  specialize (H ltac:(intros s acc w0 s' t w' [H1 H2] Hb _;
    destruct (tcp_srv_step _ _ _ _ _ Hb); rewrite along_app, held_after_app, H2; done)).
  specialize (H ltac:(intros s acc w0 r t w' [H1 H2] Hb _;
    destruct (tcp_srv_step _ _ _ _ _ Hb) as [H3 [Hne H4]];
    rewrite along_app, held_after_app, H2, (last_app acc t);
    split; [done|]; rewrite H4; by destruct (last t) eqn:El; [|apply last_None in El])).
  specialize (H ltac:(intros s acc w0 t [H1 H2] Hb _; rewrite along_app, H2;
    split; [done|by eapply tcp_srv_waits])).
  specialize (H 0 [] w (conj I eq_refl)). change (loop body 0 w) with (RunTcpSrv listenfd port wb ct w) in H.
  destruct (RunTcpSrv listenfd port wb ct w); apply H; by apply Forall_true.
Qed.

(** C22: The accept loop uses the shared lock as it should: in every run it calls
    [accept] and waits for connections only while it owns the lock, locks only when
    it does not, and sleeps and hands connections over only after it gave the lock
    back.  But when [accept] fails with an error (and then only) it returns 0 with
    the lock still owned: no process accepts on this listener any more. *)
Theorem accept_loop_lock w :
  match RunTcpSrv listenfd port wb ct w with
  | Done r t w' =>
      along accept_discipline false t /\
      (held_after false t = true <->
       exists e, last t = Some (c_accept listenfd, e) /\ hard again e)
  | Blocked t => along accept_discipline false t
  end.
Proof. apply RunTcpSrv_discipline. Qed.

End tcp.

(** ** The datagram loop *)

(** A receive that the loop takes for "nothing there": an empty datagram, or an
    error, which [Frame::recvfrom] returns as 0. *)
Definition silent (e : io_event) : bool :=
  match e with
  | (c_recvfrom _ _ _, r) => (s32 (r_ret r) =? 0) || ((s32 (r_ret r) <? 0) && negb (again (r_errno r)))
  | _ => false
  end.

(** What a loop does that only waits for a lock it owns itself. *)
Definition stuck (e : io_event) : Prop :=
  match e with
  | (c_trylock, r) => s32 (r_ret r) < 0
  | (c_sleep ms, _) => ms = 500
  | _ => False
  end.

(** After the first silent receive there is nothing but [stuck] events. *)
Fixpoint quiet_after (t : io_trace) : Prop :=
  match t with
  | [] => True
  | e :: t => if silent e then Forall stuck t else quiet_after t
  end.

Lemma stuck_not_silent e : stuck e -> silent e = false.
Proof. destruct e as [c r]. by destruct c. Qed.

Lemma quiet_after_stuck t u : quiet_after t -> Forall stuck u -> quiet_after (t ++ u).
Proof.
  intros Ht Hu. induction t as [|e t IH]; simpl in *.
  - induction Hu as [|e u He Hu IH]; [done|]. simpl. by rewrite stuck_not_silent.
  - destruct (silent e); [by apply Forall_app|auto].
Qed.

Lemma quiet_after_app t u : existsb silent t = false -> quiet_after u -> quiet_after (t ++ u).
Proof.
  intros Ht Hu. induction t as [|e t IH]; [done|]. simpl in *.
  apply orb_false_iff in Ht as [-> Ht]. auto.
Qed.

Lemma quiet_after_split t t1 e t2 :
  quiet_after t -> t = t1 ++ e :: t2 -> silent e = true -> Forall stuck t2.
Proof.
  intros Ht -> He. induction t1 as [|d t1 IH]; simpl in Ht; [by rewrite He in Ht|].
  destruct (silent d); [|auto]. apply Forall_app in Ht as [_ Ht]. by apply Forall_cons in Ht as [_ Ht].
Qed.

Section udp.
Context (l : Listener) (wb : option builder).
Abbreviation ubody := (udp_srv_body l wb).

Lemma udp_srv_productive : productive ubody.
Proof.
  unfold udp_srv_body. split.
  - intros. sane_tac.
  - intros s w s' t w' H. io_inv. discriminate.
Qed.

(** The events of one [Frame::recvfrom]: only the last receive can be silent, and
    then the result is 0 and nothing follows. *)
Lemma Frame_recvfrom_shape w x t w' :
  Frame_recvfrom (GetSocketFd l) 65536 0 w = Done x t w' -> Forall os_ok t ->
  Forall (fun e => lock_neutral e.1 = true) t /\
  (existsb silent t = false \/
   (x.1.1 = 0 /\ exists t0 e, t = t0 ++ [e] /\ existsb silent t0 = false)).
Proof.
  intros E Hok. pose proof (retries_loop _ _ _ _ _ w (recvfrom_retries (GetSocketFd l) 65536)) as H.
  change (loop (recvfrom_body (GetSocketFd l) 65536) tt w) with (Frame_recvfrom (GetSocketFd l) 65536 0 w) in H.
  rewrite E in H. destruct H as (t0 & r & Ht0 & Hx).
  assert (Hq : forall e, retry (c_recvfrom (GetSocketFd l) 65536 0) (GetSocketFd l) EV_RC again e ->
    os_ok e -> silent e = false).
  { intros [c e] [[Ec [Hf Ha]]|Ec] Ho; simpl in Ec; subst c; [|done].
    simpl in Hf, Ha, Ho. rewrite s32_id in Hf by lia. simpl. rewrite s32_id by lia.
    rewrite Ha by lia. destruct (Z.eqb_spec (r_ret e) 0); [lia|]. by rewrite andb_false_r. }
  assert (Hq0 : Forall os_ok t0 -> existsb silent t0 = false).
  { clear -Ht0 Hq. induction Ht0 as [|e t Hr Ht IH]; [done|]. rewrite Forall_cons. intros [Ho Hok].
    simpl. by rewrite Hq, IH. }
  assert (Hn0 : Forall (fun e : io_event => lock_neutral e.1 = true) t0).
  { eapply retry_neutral; [|exact Ht0]; done. }
  destruct Hx as [[-> [Hx _]]|(v & Hf & -> & _)].
  - rewrite Forall_app in Hok. destruct Hok as [Hok Hokr].
    split; [rewrite Forall_app, Forall_singleton; done|].
    destruct Hx as [[Hp _]|Hz].
    + left. rewrite existsb_app, Hq0 by done. simpl.
      rewrite (proj2 (Z.eqb_neq _ _)), (proj2 (Z.ltb_ge _ _)) by lia. done.
    + right. split; [|eauto]. destruct x as [[ret data] addr]. simpl in *.
      destruct Hz as [[_ [= -> _]]|[_ [= -> _]]]; done.
  - rewrite Forall_app in Hok. destruct Hok as [Hok Hokr]. apply Forall_cons in Hokr as [Hokr _].
    split; [rewrite Forall_app, Forall_cons, Forall_singleton; done|].
    left. rewrite existsb_app, Hq0 by done. simpl existsb.
    pose proof (Hq (c_recvfrom (GetSocketFd l) 65536 0, r) ltac:(by left) Hokr) as Hs.
    simpl in Hs. by rewrite Hs.
Qed.

(** The outcome of an iteration, from any state of the lock. *)
Lemma udp_srv_step held w x t w' :
  ubody tt w = Done x t w' -> Forall os_ok t -> LockTrace held t ->
  (held = true -> Forall stuck t) /\ quiet_after t /\
  (existsb silent t = true -> x = inl tt /\ held_after held t = true).
Proof.
  unfold udp_srv_body. intros H Hok Hlt. io_inv. destruct (Z.ltb_spec (s32 (r_ret a)) 0) as [Hl|Hl].
  { io_inv. split; [intros _; by repeat constructor|]. by split. }
  assert (Hh : held = true -> False).
  { intros ->. apply LockTrace_app in Hlt as [[Hlt _] _]. simpl in Hlt. specialize (Hlt eq_refl). lia. }
  split; [by intros ?%Hh|].
  apply io_bind_inv in H as ([[ret data] client] & ta & wa & tb & Hr & H & ->).
  apply Forall_app in Hok as [_ Hok]. apply Forall_app in Hok as [Hok1 _].
  pose proof (Frame_recvfrom_shape _ _ _ _ Hr Hok1) as [Hn Hx]. simpl in Hx.
  assert (Hlk : held_after held [(c_trylock, a)] = true).
  { unfold held_after. simpl. by rewrite (proj2 (Z.ltb_ge _ _) Hl). }
  assert (Htail : (0 < s32 ret -> existsb silent tb = false /\ quiet_after tb) /\
    (s32 ret = 0 -> x = inl tt /\ tb = [])).
  { split; intros Hret.
    - rewrite (proj2 (Z.ltb_lt _ _)) in H by lia. io_inv. destruct wb as [build|]; [destruct (build (GetPort l))|]; io_inv; done.
    - rewrite Hret in H. simpl in H. io_inv. done. }
  destruct Htail as [Htail1 Htail2]. destruct Hx as [Hq|(-> & t0 & e & -> & Hq)].
  - assert (Ht2 : existsb silent tb = false /\ quiet_after tb).
    { destruct (Z.lt_trichotomy (s32 ret) 0) as [Hneg|[Hz|Hp]]; [|by destruct (Htail2 Hz) as [_ ->]|auto].
      rewrite (proj2 (Z.ltb_ge _ _)), (proj2 (Z.ltb_lt _ _)) in H by lia. io_inv. done. }
    destruct Ht2 as [Ht2 Hq2]. split.
    + apply (quiet_after_app [_]); [done|]. by apply quiet_after_app.
    + rewrite !existsb_app. simpl. by rewrite Hq, Ht2.
  - destruct (Htail2 eq_refl) as [-> ->]. rewrite app_nil_r. split.
    + apply (quiet_after_app [_]); [done|]. apply quiet_after_app; [done|]. simpl.
      by destruct (silent e).
    + intros _. split; [done|]. rewrite held_after_app, Hlk. by apply held_neutral.
Qed.

Lemma udp_srv_waits held w t :
  ubody tt w = Blocked t -> Forall os_ok t -> LockTrace held t ->
  (held = true -> Forall stuck t) /\ quiet_after t.
Proof.
  unfold udp_srv_body. intros H Hok Hlt. apply io_bind_blocked in H as [H|(a & t1 & w1 & t2 & Ha & H & ->)].
  { apply sys_blocked in H as [-> _]. by split. }
  apply sys_inv in Ha as (-> & _ & _).
  destruct (Z.ltb_spec (s32 (r_ret a)) 0) as [Hl|Hl].
  { io_inv. split; [intros _; by repeat constructor|done]. }
  split.
  { intros ->. destruct Hlt as [Hlt _]. simpl in Hlt. specialize (Hlt eq_refl). lia. }
  apply (quiet_after_app [_]); [done|]. apply Forall_app in Hok as [_ Hok].
  apply io_bind_blocked in H as [H|([[ret data] client] & t3 & w3 & t4 & Hr & H & ->)].
  - pose proof (retries_loop _ _ _ _ _ w1 (recvfrom_retries (GetSocketFd l) 65536)) as Hb.
    change (loop (recvfrom_body (GetSocketFd l) 65536) tt w1) with
      (Frame_recvfrom (GetSocketFd l) 65536 0 w1) in Hb. rewrite H in Hb.
    clear -Hb Hok. induction Hb as [|[c e] t Hx Ht IH]; [done|]. apply Forall_cons in Hok as [Ho Hok].
    simpl. enough (Hs : silent (c, e) = false) by (simpl in Hs; rewrite Hs; auto).
    destruct Hx as [[Ec [Hf Ha]]|Ec]; simpl in Ec; subst c; [|done]. simpl in Hf, Ha, Ho.
    rewrite s32_id in Hf by lia. simpl. rewrite s32_id by lia.
    rewrite Ha by lia. destruct (Z.eqb_spec (r_ret e) 0); [lia|]. by rewrite andb_false_r.
  - apply Forall_app in Hok as [Hok _].
    pose proof (Frame_recvfrom_shape _ _ _ _ Hr Hok) as [_ Hx]. simpl in Hx.
    destruct Hx as [Hq|(-> & _)]; [|simpl in H; io_inv].
    apply quiet_after_app; [done|].
    destruct (0 <? s32 ret); [|destruct (s32 ret <? 0); io_inv].
    io_inv; [done|]. destruct wb as [build|]; [destruct (build (GetPort l))|]; io_inv. done.
Qed.

Lemma held_stuck t : Forall stuck t -> held_after true t = true.
Proof.
  induction 1 as [|[c r] t Hc Ht IH]; [done|].
  change (held_after true ((c, r) :: t)) with (held_after (lock_after true (c, r)) t).
  replace (lock_after true (c, r)) with true; [exact IH|]. destruct c; try done. simpl. by case_match.
Qed.

(** The datagram loop locks itself out: after an empty datagram, or an error
    that [Frame::recvfrom] reports as 0, it does not give the lock back, and since
    [TryLock] fails for a lock the process owns, all that follows is failing
    [TryLock]s and sleeps of half a second: no datagram is ever received again. *)
Theorem udp_loop_locks_itself_out w :
  let claim t := Forall os_ok t -> LockTrace false t ->
    forall t1 e t2, t = t1 ++ e :: t2 -> silent e = true -> Forall stuck t2 in
  match RunUdpSrv l wb w with
  | Done _ t _ => claim t
  | Blocked t => claim t
  end.
Proof.
  set (P := fun t => Forall os_ok t -> LockTrace false t -> quiet_after t).
  set (I := fun (_ : unit) acc => Forall os_ok acc -> LockTrace false acc ->
    quiet_after acc /\ (existsb silent acc = true -> held_after false acc = true)).
  assert (Hcombine : forall acc t, I tt acc -> Forall os_ok (acc ++ t) -> LockTrace false (acc ++ t) ->
    (held_after false acc = true -> Forall stuck t) -> quiet_after t -> quiet_after (acc ++ t)).
  { intros acc t HI Hok [Hl1 Hl2]%LockTrace_app Hst Hq. apply Forall_app in Hok as [Hok1 Hok2].
    destruct (HI Hok1 Hl1) as [Hqa Hh]. destruct (existsb silent acc) eqn:E.
    - apply quiet_after_stuck; auto.
    - by apply quiet_after_app. }
  enough (HP : match RunUdpSrv l wb w with Done _ t _ => P t | Blocked t => P t end).
  { cbv zeta. destruct (RunUdpSrv l wb w) as [x t w'|t]; intros Hok Hlt t1 e t2 Ht He;
      by eapply quiet_after_split; [apply HP| |]. }
  pose proof (loop_inv _ udp_srv_productive (fun _ => True) I (fun _ => P) P) as H.
  specialize (H ltac:(intros [] acc w0 [] t w' HI Hb _ Hok Hlt;
    pose proof Hok as [Hok1 Hok2]%Forall_app; pose proof Hlt as [Hl1 Hl2]%LockTrace_app;
    destruct (udp_srv_step _ _ _ _ _ Hb Hok2 Hl2) as (Hs1 & Hs2 & Hs3);
    split; [by apply Hcombine|]; rewrite existsb_app, held_after_app; intros [Hx|Hx]%orb_true_iff;
    [destruct (HI Hok1 Hl1) as [_ Hh]; rewrite Hh in * by done; by apply held_stuck, Hs1|by apply Hs3])).
  specialize (H ltac:(intros [] acc w0 x t w' HI Hb _ Hok Hlt;
    pose proof Hok as [Hok1 Hok2]%Forall_app; pose proof Hlt as [Hl1 Hl2]%LockTrace_app;
    destruct (udp_srv_step _ _ _ _ _ Hb Hok2 Hl2) as (Hs1 & Hs2 & _); by apply Hcombine)).
  specialize (H ltac:(intros [] acc w0 t HI Hb _ Hok Hlt;
    pose proof Hok as [Hok1 Hok2]%Forall_app; pose proof Hlt as [Hl1 Hl2]%LockTrace_app;
    destruct (udp_srv_waits _ _ _ Hb Hok2 Hl2) as (Hs1 & Hs2); by apply Hcombine)).
  specialize (H tt [] w ltac:(by split)).
  change (loop ubody tt w) with (RunUdpSrv l wb w) in H.
  destruct (RunUdpSrv l wb w); apply H; by apply Forall_true.
Qed.

End udp.
