(* ===== verification/UdpExchange.v ===== *)
(** * Datagrams from the socket to the work and back

    What the receive loop of a UDP listener does with the datagrams it gets, and
    what a client of [Frame::UdpSendAndRecv] gets.  The datagrams of a trace are
    listed with their senders, the work objects that were started with the request
    they were given. *)

From S2P Require Import Prelude World Network FrameIO FrameIOProps Mutex Listener Server ServerProps.

(** ** Datagrams and work objects of a trace *)

(** A non-empty datagram and its sender. *)
Definition datagram_of (e : io_event) : option (bytes * sockaddr) :=
  match e with
  | (c_recvfrom _ _ _, r) => if 0 <? r_ret r then Some (r_data r, r_addr r) else None
  | _ => None
  end.
Definition datagrams (t : io_trace) : list (bytes * sockaddr) := omap datagram_of t.

(** The request of a work object whose coroutine was started. *)
Definition work_of (e : io_event) : option UdpReqInfo :=
  match e.1 with
  | c_create_udp fd pkg src dst _ => Some (mkUdpReqInfo fd pkg src dst)
  | _ => None
  end.
Definition works (t : io_trace) : list UdpReqInfo := omap work_of t.

Lemma datagrams_app t u : datagrams (t ++ u) = datagrams t ++ datagrams u.
Proof. apply omap_app. Qed.
Lemma works_app t u : works (t ++ u) = works t ++ works u.
Proof. apply omap_app. Qed.

(** Calls that start no work object. *)
Definition starts_nothing (c : syscall) : Prop :=
  match c with c_create_udp _ _ _ _ _ => False | _ => True end.

Lemma works_none t : Forall (fun e => starts_nothing e.1) t -> works t = [].
Proof.
  induction 1 as [|[c r] t Hc _ IH]; [done|]. change ((c, r) :: t) with ([(c, r)] ++ t).
  rewrite works_app, IH. by destruct c.
Qed.

Lemma datagrams_none t : Forall (fun e => not_recv e.1) t -> datagrams t = [].
Proof.
  induction 1 as [|[c r] t Hc _ IH]; [done|]. change ((c, r) :: t) with ([(c, r)] ++ t).
  rewrite datagrams_app, IH. by destruct c.
Qed.

(** ** One receive *)

Section recvfrom.
Context (fd len : Z).
Hypothesis Hlen : len < 2 ^ 31.

Lemma retry_no_datagram t :
  Forall os_ok t -> Forall (retry (c_recvfrom fd len 0) fd EV_RC again) t -> datagrams t = [].
Proof using Hlen.
  induction 2 as [|[c r] t Hc _ IH]; [done|]. apply Forall_cons in H as [Ho Hok].
  change ((c, r) :: t) with ([(c, r)] ++ t). rewrite datagrams_app, IH by done. rewrite app_nil_r.
  destruct Hc as [[E [Hf _]]|E]; simpl in E; subst c; [|done]. simpl in Ho, Hf. unfold datagrams. simpl.
  rewrite s32_id in Hf by lia. by rewrite (proj2 (Z.ltb_ge 0 (r_ret r))) by lia.
Qed.

(** [Frame::recvfrom] gets at most one datagram, and its result is that. *)
Lemma recvfrom_datagrams flags w :
  match Frame_recvfrom fd len flags w with
  | Done (ret, data, addr) t _ =>
      Forall os_ok t -> datagrams t = (if 0 <? ret then [(data, addr)] else []) /\ works t = []
  | Blocked t => Forall os_ok t -> datagrams t = [] /\ works t = []
  end.
Proof using Hlen.
  pose proof (retries_loop _ _ _ _ _ w (recvfrom_retries fd len)) as H.
  change (loop (recvfrom_body fd len) tt w) with (Frame_recvfrom fd len flags w) in H.
  assert (Hw : calls starts_nothing (Frame_recvfrom fd len flags)) by (by apply calls_Frame_recvfrom).
  specialize (Hw w). destruct (Frame_recvfrom fd len flags w) as [[[ret data] addr] t w'|t]; intros Hok;
    (split; [|by apply works_none]); [|by apply retry_no_datagram].
  destruct H as (t0 & r & Ht0 & [[-> [Hx Ha]]|(v & [Hf _] & -> & [Hx _])]);
    rewrite Forall_app in Hok; destruct Hok as [Hok0 Hokr]; rewrite datagrams_app, retry_no_datagram by done;
    apply Forall_cons in Hokr as [Ho _]; simpl in Ho, Hx; unfold datagrams; simpl.
  - rewrite s32_id in Hx by lia. simpl in Ha. subst addr.
    destruct Hx as [[Hp [= -> ->]]|[[Hz [= -> ->]]|[[Hn _] [= -> ->]]]].
    + by rewrite (proj2 (Z.ltb_lt _ _) Hp).
    + by rewrite Hz.
    + rewrite s32_id in Hn by lia. by rewrite (proj2 (Z.ltb_ge 0 (r_ret r))) by lia.
  - rewrite s32_id in Hf by lia. rewrite (proj2 (Z.ltb_ge 0 (r_ret r))) by lia.
    injection Hx as -> _. by repeat case_match.
Qed.

End recvfrom.

(** ** The receive loop *)

Section loop.
Context (l : Listener) (build : builder).
Hypothesis Hbuild : build (GetPort l) = true.
Abbreviation ubody := (udp_srv_body l (Some build)).

(** What the work object for a datagram is given. *)
Definition request_of (d : bytes * sockaddr) : UdpReqInfo :=
  mkUdpReqInfo (u32 (GetSocketFd l)) d.1 d.2 (mkSockaddr (af_inet_ip (GetIP l)) (htons (GetPort l))).

(** An iteration that goes on starts a work object for the datagram it got; one
    that ends or waits may have got one more. *)
Lemma udp_handover_step w :
  match ubody tt w with
  | Done (inl _) t _ => Forall os_ok t -> works t = map request_of (datagrams t)
  | Done (inr _) t _ | Blocked t =>
      Forall os_ok t -> works t `prefix_of` map request_of (datagrams t) /\ (length (datagrams t) <= 1)%nat
  end.
Proof using Hbuild.
  unfold udp_srv_body. rewrite io_bind_after. destruct (sys c_trylock w) as [k t0 w0|t0] eqn:Hk.
  2:{ apply sys_blocked in Hk as [-> _]. intros _. simpl. split; [done|lia]. }
  apply sys_inv in Hk as (-> & _ & _). destruct (s32 (r_ret k) <? 0).
  { rewrite io_bind_after. destruct (sys (c_sleep 500) w0) as [s t0 w1|t0] eqn:Hs.
    - apply sys_inv in Hs as (-> & _ & _). done.
    - apply sys_blocked in Hs as [-> _]. simpl. intros _. split; [done|lia]. }
  rewrite io_bind_after. pose proof (recvfrom_datagrams (GetSocketFd l) 65536 ltac:(done) 0 w0) as Hr.
  pose proof (recvfrom_facts (GetSocketFd l) 65536 0 w0 ltac:(done)) as Hf.
  destruct (Frame_recvfrom _ _ _ w0) as [[[ret data] addr] t w1|t]; cbn [after trace_of].
  2:{ intros Hok. apply Forall_app in Hok as [_ Hok]. destruct (Hr Hok) as [Hd Hw].
      rewrite works_app, datagrams_app, Hd, Hw. split; [done|simpl; lia]. }
  assert (Hret : Forall os_ok t -> s32 ret = ret).
  { intros Hok. destruct (Hf Hok) as (_ & _ & ? & ? & _). apply s32_id. lia. }
  set (d := (data, addr)) in *. fold (request_of d).
  assert (Hdone : forall u, Forall os_ok ([(c_trylock, k)] ++ t ++ u) ->
    datagrams ([(c_trylock, k)] ++ t ++ u) = (if 0 <? s32 ret then [d] else []) ++ datagrams u /\
    works ([(c_trylock, k)] ++ t ++ u) = works u).
  { intros u Hok. rewrite !Forall_app in Hok. destruct Hok as (_ & Hok & _).
    rewrite !datagrams_app, !works_app, (Hret Hok). destruct (Hr Hok) as [-> ->]. done. }
  destruct (0 <? s32 ret) eqn:Hpos.
  2:{ destruct (s32 ret <? 0); simpl; intros Hok; destruct (Hdone [] Hok) as [Hd Hw]; simpl in Hd, Hw;
        rewrite Hd, Hw; [split; [done|simpl; lia]|done]. }
  rewrite io_bind_after. destruct (sys c_unlock w1) as [u t1 w2|t1] eqn:Hu.
  2:{ apply sys_blocked in Hu as [-> _]. simpl. intros Hok. destruct (Hdone [] Hok) as [Hd Hw]. simpl in Hd, Hw.
      rewrite Hd, Hw. split; [apply prefix_nil|simpl; lia]. }
  apply sys_inv in Hu as (-> & _ & _). cbn [u_sockfd reqpkg srcaddr dstaddr]. rewrite Hbuild, io_bind_after.
  destruct (sys (c_create_udp _ _ _ _ _) w2) as [v t1 w3|t1] eqn:Hc.
  - apply sys_inv in Hc as (-> & _ & _). simpl. intros Hok.
    destruct (Hdone [_; _] Hok) as [Hd Hw]. simpl in Hd, Hw. by rewrite Hd, Hw.
  - apply sys_blocked in Hc as [-> _]. simpl. intros Hok. destruct (Hdone [_] Hok) as [Hd Hw]. simpl in Hd, Hw.
    rewrite Hd, Hw. split; [apply prefix_nil|simpl; lia].
Qed.

(** Every run of the loop. *)
Lemma RunUdpSrv_handover w :
  let t := trace_of (RunUdpSrv l (Some build) w) in
  Forall os_ok t ->
  works t `prefix_of` map request_of (datagrams t) /\ (length (datagrams t) <= length (works t) + 1)%nat.
Proof using Hbuild.
  pose proof (loop_inv _ (udp_srv_productive l (Some build)) os_ok
    (fun _ acc => works acc = map request_of (datagrams acc))
    (fun _ t => works t `prefix_of` map request_of (datagrams t) /\ (length (datagrams t) <= length (works t) + 1)%nat)
    (fun t => works t `prefix_of` map request_of (datagrams t) /\ (length (datagrams t) <= length (works t) + 1)%nat)) as H.
  assert (Hend : forall acc t, works acc = map request_of (datagrams acc) ->
    works t `prefix_of` map request_of (datagrams t) /\ (length (datagrams t) <= 1)%nat ->
    works (acc ++ t) `prefix_of` map request_of (datagrams (acc ++ t)) /\
    (length (datagrams (acc ++ t)) <= length (works (acc ++ t)) + 1)%nat).
  { intros acc t Hacc [Hp Hl]. rewrite works_app, datagrams_app, map_app, Hacc, !length_app, length_map.
    split; [by apply prefix_app|lia]. }
  specialize (H ltac:(intros [] acc w0 [] t w' Ha Hb Hok; pose proof (udp_handover_step w0) as Hs; rewrite Hb in Hs;
    by rewrite works_app, datagrams_app, map_app, Ha, (Hs Hok))).
  specialize (H ltac:(intros [] acc w0 x t w' Ha Hb Hok; pose proof (udp_handover_step w0) as Hs; rewrite Hb in Hs; auto)).
  specialize (H ltac:(intros [] acc w0 t Ha Hb Hok; pose proof (udp_handover_step w0) as Hs; rewrite Hb in Hs; auto)).
  specialize (H tt [] w eq_refl). unfold RunUdpSrv. cbv zeta. destruct (loop _ _ w); exact H.
Qed.

(** C23: The receive loop hands every datagram over: with a work builder that serves the
    port, the work objects that [RunUdpSrv] starts are those for the non-empty
    datagrams it received, in order, each with exactly the bytes and the sender of
    its datagram, and at any time at most one datagram has not been handed over. *)
Theorem udp_handover w :
  let t := trace_of (RunUdpSrv l (Some build) w) in
  Forall os_ok t ->
  works t `prefix_of` map request_of (datagrams t) /\ (length (datagrams t) <= length (works t) + 1)%nat.
Proof using Hbuild. exact (RunUdpSrv_handover w). Qed.

End loop.

(** ** The client *)

(** The datagrams that a trace sends. *)
Definition sent_datagrams (t : io_trace) : list (bytes * sockaddr) :=
  omap (fun e => match e.1 with c_sendto _ b _ dst => Some (b, dst) | _ => None end) t.

Lemma sent_datagrams_app t u : sent_datagrams (t ++ u) = sent_datagrams t ++ sent_datagrams u.
Proof. apply omap_app. Qed.

Definition sends_nothing (c : syscall) : Prop := match c with c_sendto _ _ _ _ => False | _ => True end.

Lemma sent_datagrams_none t : Forall (fun e => sends_nothing e.1) t -> sent_datagrams t = [].
Proof.
  induction 1 as [|[c r] t Hc _ IH]; [done|]. change ((c, r) :: t) with ([(c, r)] ++ t).
  rewrite sent_datagrams_app, IH. by destruct c.
Qed.

(** Calls that send [d] and no other datagram. *)
Definition sends_only (d : bytes * sockaddr) (c : syscall) : Prop :=
  match c with c_sendto _ b _ dst => (b, dst) = d | _ => True end.

Lemma sends_only_datagrams d t :
  Forall (fun e => sends_only d e.1) t -> forall x, x ∈ sent_datagrams t -> x = d.
Proof.
  intros Ht x. unfold sent_datagrams. rewrite list_elem_of_omap. intros ([c r] & Hin & Hx).
  rewrite Forall_forall in Ht. specialize (Ht _ Hin). simpl in *. destruct c; try done. simpl in Ht. congruence.
Qed.

(** [UdpSendAndRecv] sends one datagram; with result 0 its output is a datagram it
    received, or untouched, with an error it is untouched. *)
Lemma udp_client_facts sendbuf dest recvbuf w :
  let o := UdpSendAndRecv sendbuf dest recvbuf w in
  Forall (fun e => sends_only (sendbuf, dest) e.1) (trace_of o) /\
  match o with
  | Done (ret, out) t _ =>
      Forall os_ok t ->
      ret < 0 /\ out = recvbuf \/
      ret = 0 /\ (out = recvbuf \/ exists addr, (out, addr) ∈ datagrams t)
  | Blocked _ => True
  end.
Proof.
  cbv zeta. split.
  { enough (Hc : calls (sends_only (sendbuf, dest)) (UdpSendAndRecv sendbuf dest recvbuf)).
    { specialize (Hc w). by destruct (UdpSendAndRecv _ _ _ w). }
    unfold UdpSendAndRecv, Frame_sendto. calls_tac; by (apply calls_SetNonBlock || apply calls_Frame_recvfrom). }
  destruct (UdpSendAndRecv sendbuf dest recvbuf w) as [[ret out] t w'|t] eqn:E; [|done].
  intros Hok. unfold UdpSendAndRecv, Frame_sendto in E. io_inv.
  destruct (a0 <? 0); io_inv; [simplify_eq; by left|].
  match type of E with context [s32 (r_ret ?x) <? 0] => destruct (s32 (r_ret x) <? 0) end;
    io_inv; [simplify_eq; by left|].
  repeat rewrite Forall_app in Hok.
  match goal with H : Frame_recvfrom ?fd _ _ ?w = Done ?x ?u _ |- _ =>
    pose proof (recvfrom_datagrams fd 65536 ltac:(done) 0 w) as Hr;
    pose proof (recvfrom_facts fd 65536 0 w ltac:(done)) as Hf; rewrite H in Hr, Hf;
    destruct x as [[v data] addr]; assert (Hu : Forall os_ok u) by tauto end.
  destruct (Hr Hu) as [Hd _]. destruct (Hf Hu) as (_ & _ & Hmax & Hv & _). simpl in E. rewrite s32_id in E by lia.
  destruct (v <? 0); io_inv; [simplify_eq; by left|]. right.
  destruct (0 <? v); io_inv; simplify_eq; (split; [done|]); [|by left].
  right. exists addr. rewrite !datagrams_app, Hd, !elem_of_app, elem_of_cons. tauto.
Qed.

(** ** A witness *)

(** A socket bound to port 32000; the lock is free; one datagram of two bytes. *)
Definition demo_listener : Listener := mkListener 6 (mkIP 0) 32000 None (lit "tcp").
Definition demo_datagram : bytes * sockaddr := (lit "hi", mkSockaddr 16777343 40000).
Definition demo_udp_world : world :=
  os [answer 0 0 []; mkResp 2 0 demo_datagram.1 demo_datagram.2; answer 0 0 []; answer 0 0 []; answer 0 0 []].
Definition demo_udp_run : outcome srv_result := RunUdpSrv demo_listener (Some (fun _ => true)) demo_udp_world.

Lemma udp_handover_witness :
  works (trace_of demo_udp_run) `prefix_of` [request_of demo_listener demo_datagram] /\
  works (trace_of demo_udp_run) = [request_of demo_listener demo_datagram].
Proof.
  split; [|vm_compute; reflexivity].
  change [request_of demo_listener demo_datagram] with (map (request_of demo_listener) (datagrams (trace_of demo_udp_run))).
  apply (udp_handover demo_listener (fun _ => true) eq_refl demo_udp_world).
  repeat (apply Forall_cons; split; [vm_compute; repeat split; discriminate|]); apply Forall_nil; exact I.
Defined.
