(* ===== verification/Cluster.v ===== *)
(** * Several processes on one listener

    The workers that accept on a listener, the listener's lock and the master that
    unlocks for the dead, composed.  A global execution is the sequence of the
    calls of all processes; each worker's own calls are those of a run of
    [RunTcpSrv], cut off anywhere (a worker can be killed), and the answers of the
    lock are computed on its one shared state.  The theorems hold for every lock
    that implements the specification of [LockSpec]. *)

From S2P Require Import Prelude World Network FrameIO FrameIOProps Mutex LockSpec Listener Server ServerProps.

(** A call of process [fst e]. *)
Abbreviation gevent := (Z * io_event)%type.

Definition of_proc (p : Z) (g : list gevent) : io_trace := (filter (fun e => e.1 = p) g).*2.

Definition trace_of {A} (o : outcome A) : io_trace :=
  match o with Done _ t _ => t | Blocked t => t end.

(** ** The lock in an execution *)

Section lock.
Context {M : Type} `{LockImpl M}.

(** The call is made on the shared state and answers what it returns. *)
Definition lock_call (m : M) (e : gevent) : option M :=
  match e with
  | (p, (c_trylock, r)) =>
      let '(ret, m') := TryLock p m in if s32 (r_ret r) =? ret then Some m' else None
  | (p, (c_unlock, r)) =>
      let '(ret, m') := Unlock p m in if s32 (r_ret r) =? ret then Some m' else None
  | (_, (c_forced_unlock d, _)) => Some (snd (ForcedUnlockIfNeed d m))
  | _ => Some m
  end.

Fixpoint lock_run (m : M) (g : list gevent) : option M :=
  match g with
  | [] => Some m
  | e :: g => m' ← lock_call m e; lock_run m' g
  end.

End lock.

Definition lock_label_of (e : gevent) : option lock_label :=
  match e with
  | (p, (c_trylock, r)) => Some (L_try p (0 <=? s32 (r_ret r)))
  | (p, (c_unlock, r)) => Some (L_release p (0 <=? s32 (r_ret r)))
  | (_, (c_forced_unlock d, _)) => Some (L_revoke d)
  | _ => None
  end.

(** The calls that only a process with an identifier may make. *)
Definition locks (e : gevent) : bool :=
  match e.2.1 with c_trylock | c_unlock => true | _ => false end.

Section refine.
Context {M : Type} `{LockImpl M}.

Lemma lock_call_spec m e m' :
  ready m -> (locks e = true -> pid_ok e.1) -> lock_call m e = Some m' ->
  ready m' /\ spec_opt (holder m) (lock_label_of e) = Some (holder m').
Proof.
  intros Hm Hp Hc. destruct e as [p [c r]]. destruct c; simpl in *; simplify_eq; try done.
  - pose proof (TryLock_refines p m (Hp eq_refl) Hm) as Hs. destruct (TryLock p m) as [ret m1].
    destruct (Z.eqb_spec (s32 (r_ret r)) ret) as [E|]; simplify_eq. exact Hs.
  - pose proof (Unlock_refines p m (Hp eq_refl) Hm) as Hs. destruct (Unlock p m) as [ret m1].
    destruct (Z.eqb_spec (s32 (r_ret r)) ret) as [E|]; simplify_eq. exact Hs.
  - pose proof (ForcedUnlock_refines pid m Hm) as Hs. by destruct (ForcedUnlockIfNeed pid m).
Qed.

(** An execution on a lock is one of the abstract lock. *)
Lemma lock_run_spec m g m' :
  ready m -> Forall (fun e => locks e = true -> pid_ok e.1) g -> lock_run m g = Some m' ->
  spec_run (holder m) (omap lock_label_of g) = Some (holder m').
Proof.
  revert m. induction g as [|e g IH]; intros m Hm Hp Hr; [by injection Hr as <-|].
  apply Forall_cons in Hp as [He Hp]. simpl in Hr. destruct (lock_call m e) as [m1|] eqn:Hc; [|done].
  destruct (lock_call_spec m e m1 Hm He Hc) as [Hm1 Hs].
  change (omap lock_label_of (e :: g)) with (match lock_label_of e with
    | Some l => l :: omap lock_label_of g | None => omap lock_label_of g end).
  destruct (lock_label_of e); simpl in *; [rewrite Hs|injection Hs as ->]; by apply IH.
Qed.

End refine.

(** ** The holder and what a process knows *)

Definition revoked (p : Z) (g : list gevent) : Prop := exists e, e ∈ g /\ e.2.1 = c_forced_unlock p.

Definition hrun (h : option Z) (g : list gevent) : option (option Z) := spec_run h (omap lock_label_of g).

Lemma hrun_app h g1 g2 : hrun h (g1 ++ g2) = h' ← hrun h g1; hrun h' g2.
Proof. unfold hrun. by rewrite omap_app, spec_run_app. Qed.

Lemma hrun_one h e : hrun h [e] = spec_opt h (lock_label_of e).
Proof. unfold hrun. simpl. destruct (lock_label_of e); simpl; [by destruct spec_step|done]. Qed.

Lemma of_proc_app p g1 g2 : of_proc p (g1 ++ g2) = of_proc p g1 ++ of_proc p g2.
Proof. unfold of_proc. by rewrite filter_app, fmap_app. Qed.

Lemma of_proc_one p e : of_proc p [e] = if decide (e.1 = p) then [e.2] else [].
Proof. unfold of_proc. rewrite filter_cons. by case_decide. Qed.

(** One call: what it does to the holder, for the caller and for the others. *)
Lemma hrun_step h e h' p held :
  hrun h [e] = Some h' -> e.2.1 <> c_forced_unlock p -> (h = Some p <-> held = true) ->
  (h' = Some p <-> held_after held (of_proc p [e]) = true).
Proof.
  rewrite hrun_one, of_proc_one. destruct e as [q [c r]]. simpl. intros Hs Hc Hh.
  case_decide as E.
  - subst q. unfold held_after. simpl. destruct c; simpl in *; simplify_eq; try done.
    + case_bool_decide as Hok; [|done]. simplify_eq.
      destruct (Z.leb_spec 0 (s32 (r_ret r))), (Z.ltb_spec (s32 (r_ret r)) 0); naive_solver lia.
    + case_bool_decide as Hok; [|done]. simplify_eq.
      destruct (Z.leb_spec 0 (s32 (r_ret r))); [naive_solver|]. case_bool_decide; naive_solver.
    + case_bool_decide; naive_solver.
  - change (held_after held []) with held. destruct c; simpl in *; simplify_eq; try done.
    + case_bool_decide as Hok; [|done]. simplify_eq.
      destruct (Z.leb_spec 0 (s32 (r_ret r))); [|naive_solver]. case_bool_decide; naive_solver.
    + case_bool_decide as Hok; [|done]. simplify_eq.
      destruct (Z.leb_spec 0 (s32 (r_ret r))); [|naive_solver]. case_bool_decide; naive_solver.
    + case_bool_decide; naive_solver.
Qed.

(** A process that nobody unlocked for is the holder exactly when it thinks so. *)
Lemma holder_agrees g h p :
  hrun None g = Some h -> ~ revoked p g -> (h = Some p <-> held_after false (of_proc p g) = true).
Proof.
  revert h. induction g as [|e g IH] using rev_ind; intros h Hr Hn; [by injection Hr as <-|].
  rewrite hrun_app in Hr. destruct (hrun None g) as [h1|]; [|done]. simpl in Hr.
  rewrite of_proc_app, held_after_app. eapply hrun_step; [exact Hr| |].
  - intros E. apply Hn. exists e. split; [|done]. apply elem_of_app. right. by left.
  - apply IH; [done|]. intros (d & Hd & E). apply Hn. exists d. split; [|done]. apply elem_of_app. by left.
Qed.

(** A holder loses the lock only by its own [Unlock] or by a forced one. *)
Definition gives_up (p : Z) (e : gevent) : Prop :=
  (e.1 = p /\ e.2.1 = c_unlock) \/ e.2.1 = c_forced_unlock p.

#[export] Instance gives_up_dec p e : Decision (gives_up p e).
Proof.
  unfold gives_up. apply or_dec; [apply and_dec; [apply _|]|]; destruct (e.2.1);
    try (right; discriminate); try (by left).
  destruct (decide (pid = p)); [left|right]; congruence.
Defined.

Lemma spec_keeps p e h :
  spec_opt (Some p) (lock_label_of e) = Some h -> ~ gives_up p e ->
  h = Some p /\ (forall r, e.2 = (c_trylock, r) -> s32 (r_ret r) < 0).
Proof.
  destruct e as [q [c r]]. unfold gives_up. simpl. intros Hs Hg.
  destruct c; simpl in Hs; simplify_eq; (split; [|intros r' [=]]); try done.
  - case_bool_decide as Hok; [|done]. simplify_eq. by destruct (0 <=? s32 (r_ret r)).
  - subst. case_bool_decide as Hok; [|done]. destruct (Z.leb_spec 0 (s32 (r_ret r'))); [done|lia].
  - case_bool_decide as Hok; [|done]. simplify_eq.
    destruct (Z.leb_spec 0 (s32 (r_ret r))); [|done]. case_bool_decide; [|done]. naive_solver.
  - case_bool_decide; [|done]. naive_solver.
Qed.

Lemma holder_keeps p g h :
  hrun (Some p) g = Some h -> Forall (fun e => ~ gives_up p e) g ->
  h = Some p /\ Forall (fun e => forall r, e.2 = (c_trylock, r) -> s32 (r_ret r) < 0) g.
Proof.
  intros Hr Hg. revert Hr. induction Hg as [|e g He Hg IH]; intros Hr; [by injection Hr as <-|].
  change (e :: g) with ([e] ++ g) in Hr. rewrite hrun_app in Hr.
  destruct (hrun (Some p) [e]) as [h1|] eqn:H1; [|done]. simpl in Hr. rewrite hrun_one in H1.
  destruct (spec_keeps p e h1 H1 He) as [-> Ht]. destruct (IH Hr) as [-> ?]. split; [done|]. by constructor.
Qed.

(** ** The cluster *)

Section cluster.
Context (listenfd port : Z) (wb : option builder) (ct : bool).
Abbreviation srv := (RunTcpSrv listenfd port wb ct).

(** The calls of [p] are those of a run of the accept loop, up to some point. *)
Definition accepts_on (p : Z) (g : list gevent) : Prop :=
  exists w t, trace_of (srv w) = of_proc p g ++ t.

(** The workers run the loop, everybody else only unlocks for dead workers: the
    master calls [ForcedUnlockIfNeed] for what [waitpid] returned. *)
Record cluster_run {M} `{LockImpl M} (workers : list Z) (m : M) (g : list gevent) (m' : M) : Prop := {
  cr_pids : Forall pid_ok workers;
  cr_workers : Forall (fun p => accepts_on p g) workers;
  cr_others : Forall (fun e => e.1 ∈ workers \/ exists d, e.2.1 = c_forced_unlock d) g;
  cr_dead : forall g1 e d g2, g = g1 ++ e :: g2 -> e.2.1 = c_forced_unlock d -> of_proc d g2 = [];
  cr_lock : lock_run m g = Some m'
}.

Lemma discipline_along p g : accepts_on p g -> along accept_discipline false (of_proc p g).
Proof.
  intros (w & t & E). pose proof (RunTcpSrv_discipline listenfd port wb ct w) as Hd.
  unfold trace_of in E. destruct (srv w); subst; [destruct Hd as [Hd _]|];
    by apply along_app in Hd as [Hd _].
Qed.

Section facts.
Context {M : Type} `{LockImpl M} (workers : list Z) (m : M) (g : list gevent) (m' : M).
Context (Hrun : cluster_run workers m g m') (Hready : ready m) (Hfree : holder m = None).

(** The lock of an execution, split anywhere. *)
Lemma cluster_lock g1 g2 :
  g = g1 ++ g2 -> exists m1, lock_run m g1 = Some m1 /\ ready m1 /\
    hrun None g1 = Some (holder m1) /\ hrun (holder m1) g2 = Some (holder m').
Proof.
  intros ->. destruct Hrun as [Hpid _ Hoth _ Hl].
  assert (Hp : Forall (fun e => locks e = true -> pid_ok e.1) (g1 ++ g2)).
  { eapply Forall_impl; [exact Hoth|]. intros e [He|[d He]] Hle.
    - rewrite Forall_forall in Hpid. auto.
    - unfold locks in Hle. by rewrite He in Hle. }
  apply Forall_app in Hp as [Hp1 Hp2].
  assert (Hsplit : exists m1, lock_run m g1 = Some m1 /\ ready m1 /\ lock_run m1 g2 = Some m').
  { clear Hoth Hp2 Hfree. revert m Hready Hl. induction g1 as [|e g1' IH]; intros m0 Hm0 Hl; [eauto|].
    apply Forall_cons in Hp1 as [He Hp1]. simpl in *. destruct (lock_call m0 e) as [m1|] eqn:Hc; [|done].
    apply lock_call_spec in Hc as [Hm1 _]; [|done..]. simpl. by apply IH. }
  destruct Hsplit as (m1 & Hl1 & Hm1 & Hl2). exists m1. split_and!; try done.
  - rewrite <- Hfree. by apply lock_run_spec.
  - by apply lock_run_spec.
Qed.

(** A process that still acts was not unlocked for. *)
Lemma not_revoked g1 p g2 : g = g1 ++ g2 -> of_proc p g2 <> [] -> ~ revoked p g1.
Proof.
  intros -> Hne (e & He & E). apply list_elem_of_split in He as (l1 & l2 & ->).
  destruct Hrun as [_ _ _ Hdead _]. apply Hne.
  pose proof (Hdead l1 e p (l2 ++ g2) ltac:(by rewrite <- !app_assoc, <- app_comm_cons) E) as Hz.
  rewrite of_proc_app in Hz. by apply app_eq_nil in Hz as [_ ?].
Qed.

(** What a worker does is allowed by the holder of the lock at that point. *)
Lemma worker_event g1 p e g2 :
  g = g1 ++ (p, e) :: g2 -> p ∈ workers ->
  exists m1, lock_run m g1 = Some m1 /\ accept_discipline (bool_decide (holder m1 = Some p)) e.
Proof.
  intros Hg Hp. destruct (cluster_lock g1 _ Hg) as (m1 & Hl & _ & Hh & _). exists m1. split; [done|].
  assert (Hnr : ~ revoked p g1).
  { eapply not_revoked; [exact Hg|]. change ((p, e) :: g2) with ([(p, e)] ++ g2).
    rewrite of_proc_app, of_proc_one. by rewrite decide_True. }
  pose proof (holder_agrees g1 _ p Hh Hnr) as Ha.
  destruct Hrun as [_ Hw _ _ _]. rewrite Forall_forall in Hw. specialize (Hw p Hp).
  apply discipline_along in Hw. rewrite Hg, of_proc_app in Hw. apply along_app in Hw as [_ Hw].
  change ((p, e) :: g2) with ([(p, e)] ++ g2) in Hw. rewrite of_proc_app, of_proc_one in Hw.
  simpl in Hw. rewrite decide_True in Hw by done. destruct Hw as [Hw _].
  replace (bool_decide (holder m1 = Some p)) with (held_after false (of_proc p g1)); [done|].
  case_bool_decide as Hb; [by apply Ha|]. apply not_true_is_false. by intros ?%Ha.
Qed.

End facts.

(** Only the holder accepts. *)
Lemma accepts_alone {M} `{LockImpl M} workers m g m' :
  cluster_run workers m g m' -> ready m -> holder m = None ->
  (forall g1 p e g2, g = g1 ++ (p, e) :: g2 -> p ∈ workers ->
     exists m1, lock_run m g1 = Some m1 /\ accept_discipline (bool_decide (holder m1 = Some p)) e) /\
  (forall g1 p fd r g2 q fd' r' g3,
     g = g1 ++ (p, (c_accept fd, r)) :: g2 ++ (q, (c_accept fd', r')) :: g3 ->
     p ∈ workers -> q ∈ workers -> p <> q -> Exists (gives_up p) g2).
Proof.
  intros Hrun Hm Hf. split; [intros; by eapply worker_event|].
  intros g1 p fd r g2 q fd' r' g3 Hg Hp Hq Hpq.
  destruct (worker_event _ _ _ _ Hrun Hm Hf _ _ _ _ Hg Hp) as (m1 & Hl1 & H1).
  destruct (cluster_lock _ _ _ _ Hrun Hm Hf g1 _ Hg) as (m1' & Hl1' & _ & Hh1 & _).
  rewrite Hl1 in Hl1'. injection Hl1' as <-.
  set (g12 := g1 ++ (p, (c_accept fd, r)) :: g2).
  assert (Hg' : g = g12 ++ (q, (c_accept fd', r')) :: g3).
  { rewrite Hg. unfold g12. by rewrite <- app_assoc. }
  destruct (worker_event _ _ _ _ Hrun Hm Hf _ _ _ _ Hg' Hq) as (m2 & Hl2 & H2).
  destruct (cluster_lock _ _ _ _ Hrun Hm Hf g12 _ Hg') as (m2' & Hl2' & _ & Hh2 & _).
  rewrite Hl2 in Hl2'. injection Hl2' as <-.
  unfold accept_discipline in H1, H2. simpl in H1, H2. apply bool_decide_eq_true in H1, H2.
  destruct (decide (Exists (gives_up p) g2)) as [|Hn]; [done|]. exfalso. apply not_Exists_Forall in Hn; [|apply _].
  unfold g12 in Hh2. rewrite hrun_app, Hh1 in Hh2. simpl in Hh2. rewrite H1 in Hh2.
  change (hrun (Some p) g2 = Some (holder m2)) in Hh2.
  destruct (holder_keeps _ _ _ Hh2 Hn) as [E _]. congruence.
Qed.

(** Only the holder of the lock accepts: in every execution of any number of
    workers on one listener, with workers killed anywhere and a master that unlocks
    for the dead, each call of a worker's accept loop obeys the discipline for the
    lock's real holder - it calls [accept], or waits for a connection, only while the
    lock is its own, and sleeps or serves only while it is not - and between the
    calls of [accept] of two different workers the first has given up the lock or
    was unlocked for. *)
Theorem cluster_accepts_alone {M} `{LockImpl M} workers m g m' :
  cluster_run workers m g m' -> ready m -> holder m = None ->
  (forall g1 p e g2, g = g1 ++ (p, e) :: g2 -> p ∈ workers ->
     exists m1, lock_run m g1 = Some m1 /\ accept_discipline (bool_decide (holder m1 = Some p)) e) /\
  (forall g1 p fd r g2 q fd' r' g3,
     g = g1 ++ (p, (c_accept fd, r)) :: g2 ++ (q, (c_accept fd', r')) :: g3 ->
     p ∈ workers -> q ∈ workers -> p <> q -> Exists (gives_up p) g2).
Proof. apply accepts_alone. Qed.

(** C39: A listener goes deaf: when [accept] fails in one worker, whose accept loop
    then ends, that worker keeps the lock, and as long as its process lives, so
    that the master does not unlock for it, no worker calls [accept] or waits for
    a connection on this listener again; all that is left are failing [TryLock]s. *)
Theorem listener_goes_deaf {M} `{LockImpl M} workers m g1 g2 m' p w r w' e :
  cluster_run workers m (g1 ++ g2) m' -> ready m -> holder m = None -> p ∈ workers ->
  srv w = Done r (of_proc p g1) w' -> last (of_proc p g1) = Some (c_accept listenfd, e) ->
  hard again e -> of_proc p g2 = [] -> Forall (fun d => d.2.1 <> c_forced_unlock p) (g1 ++ g2) ->
  holder m' = Some p /\
  Forall (fun d => d.1 ∈ workers -> match d.2 with
    | (c_accept _, _) | (c_wait _ _, _) => False
    | (c_trylock, r) => s32 (r_ret r) < 0
    | _ => True
    end) g2.
Proof.
  intros Hrun Hm Hf Hp Hsrv Hlast Hhard Hend Hnf.
  pose proof (RunTcpSrv_discipline listenfd port wb ct w) as Hd. rewrite Hsrv in Hd.
  destruct Hd as [_ [_ Hheld]]. specialize (Hheld (ex_intro _ e (conj Hlast Hhard))).
  apply Forall_app in Hnf as [Hnf1 Hnf2].
  destruct (cluster_lock _ _ _ _ Hrun Hm Hf g1 g2 eq_refl) as (m1 & _ & _ & Hh1 & Hh2).
  assert (H1 : holder m1 = Some p).
  { apply (holder_agrees g1 _ p Hh1); [|done]. intros (d & Hin & Ed).
    rewrite Forall_forall in Hnf1. by apply (Hnf1 d). }
  rewrite H1 in Hh2.
  assert (Hk : Forall (fun d => ~ gives_up p d) g2).
  { rewrite Forall_forall in Hnf2 |- *. intros d Hin [[Ed _]|Ed]; [|by apply (Hnf2 d)].
    apply list_elem_of_split in Hin as (l1 & l2 & ->).
    change (d :: l2) with ([d] ++ l2) in Hend. rewrite !of_proc_app, of_proc_one, decide_True in Hend by done.
    by destruct (of_proc p l1). }
  destruct (holder_keeps p g2 _ Hh2 Hk) as [Hm' Htry]. split; [done|].
  apply Forall_forall. intros [q d] Hin Hq. rewrite Forall_forall in Htry. pose proof (Htry _ Hin) as Ht.
  apply list_elem_of_split in Hin as (l1 & l2 & ->).
  destruct (worker_event _ _ _ _ Hrun Hm Hf (g1 ++ l1) q d l2 ltac:(by rewrite <- app_assoc) Hq) as (m2 & Hl2 & Hok).
  assert (Hg : g1 ++ l1 ++ (q, d) :: l2 = (g1 ++ l1) ++ (q, d) :: l2) by (by rewrite <- app_assoc).
  destruct (cluster_lock _ _ _ _ Hrun Hm Hf _ _ Hg) as (m2' & Hl2' & _ & Hh2' & _).
  rewrite Hl2 in Hl2'. injection Hl2' as <-. rewrite hrun_app, Hh1 in Hh2'. simpl in Hh2'. rewrite H1 in Hh2'.
  apply Forall_app in Hk as [Hk1 _]. destruct (holder_keeps p l1 _ Hh2' Hk1) as [E _]. rewrite E in Hok.
  assert (Hqp : q <> p).
  { intros ->. change ((p, d) :: l2) with ([(p, d)] ++ l2) in Hend.
    rewrite !of_proc_app, of_proc_one, decide_True in Hend by done. by destruct (of_proc p l1). }
  rewrite bool_decide_false in Hok by congruence. destruct d as [c a]. destruct c; try done. by apply Ht.
Qed.

End cluster.

(** ** Witnesses *)

(** Whether nothing of a process follows the unlock for it. *)
Fixpoint dead_ok (g : list gevent) : bool :=
  match g with
  | [] => true
  | e :: g =>
      match e.2.1 with c_forced_unlock d => match of_proc d g with [] => true | _ => false end | _ => true end
      && dead_ok g
  end.

Lemma dead_ok_spec g :
  dead_ok g = true -> forall g1 e d g2, g = g1 ++ e :: g2 -> e.2.1 = c_forced_unlock d -> of_proc d g2 = [].
Proof.
  intros Hg g1. revert g Hg. induction g1 as [|x g1 IH]; intros g Hg e d g2 -> Hd; simpl in Hg;
    apply andb_true_iff in Hg as [Hx Hg]; [|by eapply IH].
  rewrite Hd in Hx. by destruct (of_proc d g2).
Qed.

(** Worker 10 accepts one connection, takes the lock again and is killed; the master,
    process 9, unlocks for it; worker 11 then gets the lock and accepts. *)
Definition demo_ok : resp := answer 0 0 [].
Definition demo_no : resp := answer (-1) 0 [].

(** A builder that serves every port. *)
Definition any_port : option builder := Some (fun _ => true).

Definition demo_execution : list gevent := [
  (10, (c_trylock, demo_ok)); (11, (c_trylock, demo_no)); (10, (c_accept 5, answer 7 0 []));
  (11, (c_sleep 50, demo_ok)); (10, (c_unlock, demo_ok)); (10, (c_fcntl_getfl 7, demo_ok));
  (10, (c_fcntl_setfl 7 2048, demo_ok)); (10, (c_create_tcp 7 80 true, demo_ok)); (10, (c_graceful, demo_ok));
  (10, (c_trylock, demo_ok)); (11, (c_trylock, demo_no)); (9, (c_forced_unlock 10, demo_ok)); (11, (c_sleep 50, demo_ok));
  (11, (c_trylock, demo_ok)); (11, (c_accept 5, answer 8 0 []))].

Definition free_lock : AtomicMtx := mkAtomicMtx (Some 0).

Ltac demo_cluster :=
  split;
  [ repeat constructor
  | repeat (apply Forall_cons; split; [eexists (mkWorld _ 0), []; rewrite app_nil_r;
      match goal with |- _ = of_proc ?p ?g => instantiate (1 := (of_proc p g).*2); vm_compute; reflexivity end|]);
    apply Forall_nil; exact I
  | repeat (apply Forall_cons; split; [first [left; set_solver|right; eexists; reflexivity]|]); apply Forall_nil; exact I
  | apply dead_ok_spec; reflexivity
  | reflexivity ].

Lemma cluster_accepts_alone_witness :
  exists m', cluster_run 5 80 any_port true [10; 11] free_lock demo_execution m' /\ holder m' = Some 11 /\
  Exists (gives_up 10) (drop 3 (take 14 demo_execution)).
Proof.
  assert (Hc : cluster_run 5 80 any_port true [10; 11] free_lock demo_execution (mkAtomicMtx (Some 11))) by demo_cluster.
  eexists. split; [exact Hc|]. split; [reflexivity|].
  refine (proj2 (cluster_accepts_alone 5 80 any_port true [10; 11] free_lock demo_execution _ Hc
    (ex_intro _ 0 eq_refl) eq_refl) (take 2 demo_execution) 10 5 (answer 7 0 [])
    (drop 3 (take 14 demo_execution)) 11 5 (answer 8 0 []) []
    eq_refl _ _ _); [left|right; left|discriminate].
Defined.

(** Worker 10 fails in [accept]; worker 11 never gets the lock. *)
Definition demo_deaf1 : list gevent := [
  (11, (c_trylock, demo_ok)); (11, (c_accept 5, answer 7 0 [])); (11, (c_unlock, demo_ok));
  (10, (c_trylock, demo_ok)); (10, (c_accept 5, answer (-1) 22 []))].
Definition demo_deaf2 : list gevent := [
  (11, (c_fcntl_getfl 7, demo_ok)); (11, (c_fcntl_setfl 7 2048, demo_ok)); (11, (c_create_tcp 7 80 true, demo_ok));
  (11, (c_graceful, demo_ok)); (11, (c_trylock, demo_no)); (11, (c_sleep 50, demo_ok)); (11, (c_trylock, demo_no))].

Lemma listener_goes_deaf_witness :
  exists m', cluster_run 5 80 any_port true [10; 11] free_lock (demo_deaf1 ++ demo_deaf2) m' /\ holder m' = Some 10.
Proof.
  assert (Hc : cluster_run 5 80 any_port true [10; 11] free_lock (demo_deaf1 ++ demo_deaf2) (mkAtomicMtx (Some 10)))
    by demo_cluster.
  eexists. split; [exact Hc|].
  refine (proj1 (listener_goes_deaf 5 80 any_port true [10; 11] free_lock demo_deaf1 demo_deaf2 _ 10
    (mkWorld [demo_ok; answer (-1) 22 []] 0) (Ret 0) (mkWorld [] 22) (answer (-1) 22 []) Hc
    (ex_intro _ 0 eq_refl) eq_refl _ _ _ _ _ _)); try reflexivity; [left|split; reflexivity|].
  repeat (apply Forall_cons; split; [discriminate|]). apply Forall_nil; exact I.
Defined.
