(* ===== verification/ServerImpl.v ===== *)
(** * Master and workers: server.cc

    The configuration, the listeners, the signals, the master that replaces
    workers and the loop of a worker.  The processes share only the listeners'
    locks; here each process is a computation over its own answers.  Coroutines
    of one process switch at [Frame::Sleep]: the answer to a sleep of the master
    is the number of SIGCHLD callbacks that ran meanwhile. *)

From S2P Require Import Prelude CStr World Network FrameIO Mutex Listener Server.

Definition SIGHUP : Z := 1.
Definition SIGCHLD : Z := 17.

(** ** Configuration *)

(** The value jsoncpp made of the file: the "listen" strings of each member. *)
Definition config := bytes -> option (list bytes).
Definition isMember (c : config) (k : bytes) : bool := bool_decide (is_Some (c k)).

(** [None]: the text is not JSON. *)
Definition ParseConfig (parsed : option config) : bool :=
  match parsed with
  | None => false
  | Some c =>
      if negb (isMember c (lit "udp")) && isMember c (lit "tcp") && negb (isMember c (lit "http"))
      then false else true
  end.

Record ListenItem := mkListenItem { li_proto : bytes; li_ip : IP; li_port : Z }.

Definition ListenItem_Parse (proto listen_config : bytes) (li : ListenItem) : IO (bool * ListenItem) :=
  match Split listen_config ":"%char with
  | [dev; prt] =>
      let* r := GetEthAddr dev in
      let '(ok, ip) := r in
      if negb ok then io_ret (false, mkListenItem proto (li_ip li) (li_port li))
      else io_ret (true, mkListenItem proto ip (wrap 16 (atoi prt)))
  | _ => io_ret (false, li)
  end.

(** ** State *)

Record Worker := mkWorker { w_name : bytes; w_pid : Z }.

Inductive WorkMode := WM_UNKNOWN | WM_MASTER | WM_WORKER.

(** [listeners_] is a set of pointers; the list is the order of their addresses. *)
Record ServerImpl := mkServer {
  tracker : ConnTracker;
  listeners_ : list Listener;
  worker_processes_ : list Worker;
  mode_ : WorkMode;
  restart_worker_pid_ : list Z
}.

Definition ServerImpl_new : ServerImpl := mkServer ConnTracker_new [] [] WM_UNKNOWN [].

Definition set_tracker (t : ConnTracker) (s : ServerImpl) : ServerImpl :=
  mkServer t (listeners_ s) (worker_processes_ s) (mode_ s) (restart_worker_pid_ s).
Definition set_listeners (l : list Listener) (s : ServerImpl) : ServerImpl :=
  mkServer (tracker s) l (worker_processes_ s) (mode_ s) (restart_worker_pid_ s).
Definition set_workers (l : list Worker) (s : ServerImpl) : ServerImpl :=
  mkServer (tracker s) (listeners_ s) l (mode_ s) (restart_worker_pid_ s).
Definition set_mode (m : WorkMode) (s : ServerImpl) : ServerImpl :=
  mkServer (tracker s) (listeners_ s) (worker_processes_ s) m (restart_worker_pid_ s).
Definition set_restart (l : list Z) (s : ServerImpl) : ServerImpl :=
  mkServer (tracker s) (listeners_ s) (worker_processes_ s) (mode_ s) l.

(** ** Listeners *)

Section init.
(** What the constructors leave uninitialised. *)
Context (garbage : Listener).

(** The loop over the items of one protocol.  A listener is inserted into a set that is
    ordered by address; the heap is taken to hand out ascending addresses here, so
    that it comes last. *)
Fixpoint init_items (proto : bytes) (items : list bytes) (li : ListenItem) (s : ServerImpl) :
    IO (Z * ServerImpl) :=
  match items with
  | [] => io_ret (0, s)
  | it :: items =>
      let* p := ListenItem_Parse proto it li in
      let '(ok, li) := p in
      if negb ok then io_ret (-282, s)
      else if decide (proto = lit "tcp") then
        let* r := TcpListener_Listen (li_ip li) (li_port li) (TcpListener_new garbage) in
        let '(ret, l) := r in
        if ret <? 0 then io_ret (-277, s)
        else init_items proto items li (set_listeners (listeners_ s ++ [l]) s)
      else if decide (proto = lit "udp") then
        let* r := UdpListener_Listen (li_ip li) (li_port li) (UdpListener_new garbage) in
        let '(ret, l) := r in
        if ret <? 0 then io_ret (-277, s)
        else init_items proto items li (set_listeners (listeners_ s ++ [l]) s)
      else init_items proto items li s
  end.

Definition InitListener (c : config) (proto : bytes) (li : ListenItem) (s : ServerImpl) :
    IO (Z * ServerImpl) :=
  match c proto with
  | Some items => init_items proto items li s
  | None => io_ret (0, s)
  end.

(** Everything of [InitSrv] before [Daemonize]. *)
Definition InitSrv_listeners (c : config) (li : ListenItem) (s : ServerImpl) : IO (Z * ServerImpl) :=
  let* r := InitListener c (lit "tcp") li s in
  let '(ret, s) := r in
  if ret <? 0 then io_ret (-293, s)
  else
    let* r := InitListener c (lit "udp") li s in
    let '(ret, s) := r in
    if ret <? 0 then io_ret (-297, s) else io_ret (0, s).

End init.

Fixpoint FreeAllListener_loop (ls : list Listener) : IO unit :=
  match ls with
  | [] => io_ret tt
  | l :: ls => let* _ := Destroy l in FreeAllListener_loop ls
  end.
Definition FreeAllListener (s : ServerImpl) : IO unit := FreeAllListener_loop (listeners_ s).

(** ** Forking the workers: the end of [Initialize] *)

(** The parent pushes a worker per child; a child leaves the loop with pid 0. *)
Fixpoint fork_workers (n : nat) (title : bytes) (childpid : Z) (s : ServerImpl) :
    IO (option Z * ServerImpl) :=
  match n with
  | O => io_ret (Some childpid, s)
  | S n =>
      let* r := sys c_fork in
      let childpid := s32 (r_ret r) in
      if childpid =? 0 then io_ret (Some 0, s)
      else if childpid <? 0 then io_ret (None, s)
      else fork_workers n title childpid
             (set_workers (worker_processes_ s ++ [mkWorker title childpid]) s)
  end.

(** [get_nprocs()] is [nprocs]. *)
Definition Initialize_workers (nprocs : Z) (s : ServerImpl) : IO (Z * ServerImpl) :=
  let worker_num := if 0 <? nprocs then nprocs else 1 in
  let* r := fork_workers (Z.to_nat worker_num) (lit "tinyco: worker") 0 s in
  match r with
  | (None, s) => io_ret (-115, s)
  | (Some childpid, s) =>
      if childpid =? 0 then io_ret (0, set_mode WM_WORKER s) else io_ret (0, set_mode WM_MASTER s)
  end.

(** ** Signals *)

(** The search for the worker that exited; [0] when there is none. *)
Definition restart_pid_of (pid : Z) (ws : list Worker) : Z :=
  if existsb (fun w => w_pid w =? pid) ws then pid else 0.

Definition GetWorkerStatus_body (s : ServerImpl) : IO (ServerImpl + ServerImpl) :=
  let* r := sys c_waitpid in
  let pid := s32 (r_ret r) in
  if pid =? 0 then io_ret (inr s)
  else if pid =? -1 then
    let* e := get_errno in
    if EINTR =? e then io_ret (inl s) else io_ret (inr s)
  else
    io_ret (inr (set_restart
      (restart_worker_pid_ s ++ [restart_pid_of pid (worker_processes_ s)]) s)).

Definition GetWorkerStatus (s : ServerImpl) : IO ServerImpl := loop GetWorkerStatus_body s.

Definition SignalCallback (signo : Z) (s : ServerImpl) : IO ServerImpl :=
  match mode_ s with
  | WM_MASTER => if signo =? SIGCHLD then GetWorkerStatus s else io_ret s
  | WM_WORKER =>
      if signo =? SIGHUP then io_ret (set_tracker (mkConnTracker true (conns_ (tracker s))) s)
      else io_ret s
  | WM_UNKNOWN => io_ret s
  end.

(** ** Workers *)

(** The threads for the listeners, by the name of their protocol. *)
Fixpoint start_listeners (i : nat) (ls : list Listener) : IO unit :=
  match ls with
  | [] => io_ret tt
  | l :: ls =>
      if decide (GetProto l = lit "tcp") then
        let* _ := sys (c_create_srv true i) in start_listeners (S i) ls
      else if decide (GetProto l = lit "udp") then
        let* _ := sys (c_create_srv false i) in start_listeners (S i) ls
      else start_listeners (S i) ls
  end.

Definition ServerLoop : IO Z := io_ret 0.

Definition worker_body (_ : unit) : IO (unit + unit) :=
  let* _ := sys (c_sleep 1000) in
  let* _ := ServerLoop in
  let* g := sys c_graceful in
  if negb (r_ret g =? 0) then
    let* n := sys c_connsize in
    if u32 (r_ret n) =? 0 then io_ret (inr tt) else io_ret (inl tt)
  else io_ret (inl tt).

Definition WorkerRun (s : ServerImpl) : IO unit :=
  let* _ := start_listeners 0 (listeners_ s) in loop worker_body tt.

(** ** The master *)

(** The last worker with this pid; its index. *)
Fixpoint find_worker (pid : Z) (ws : list Worker) (i : nat) (w : option nat) : option nat :=
  match ws with
  | [] => w
  | x :: ws => find_worker pid ws (S i) (if w_pid x =? pid then Some i else w)
  end.

Fixpoint forced_unlocks (pid : Z) (ls : list Listener) : IO unit :=
  match ls with
  | [] => io_ret tt
  | l :: ls => let* _ := sys (c_forced_unlock (u64 pid)) in forced_unlocks pid ls
  end.

Definition set_pid (i : nat) (pid : Z) (ws : list Worker) : list Worker :=
  alter (fun w => mkWorker (w_name w) pid) i ws.

(** One pass over the workers to restart.  A child sets its title, runs as a worker
    and then leaves the pass; [w->pid] through a null pointer ends the process. *)
Fixpoint restart_workers (pids : list Z) (s : ServerImpl) : IO (ServerImpl + srv_result) :=
  match pids with
  | [] => io_ret (inl s)
  | pid :: pids =>
      let w := find_worker pid (worker_processes_ s) 0 None in
      let* _ := forced_unlocks pid (listeners_ s) in
      let* f := sys c_fork in
      let new_worker_pid := s32 (r_ret f) in
      if 0 =? new_worker_pid then
        let* _ := sys (c_set_title (lit "tinyco: worker")) in
        let* _ := WorkerRun s in io_ret (inl s)
      else if 0 <? new_worker_pid then
        match w with
        | None => io_ret (inr NullDeref)
        | Some i => restart_workers pids (set_workers (set_pid i new_worker_pid (worker_processes_ s)) s)
        end
      else restart_workers pids s
  end.

(** [n] SIGCHLD callbacks. *)
Fixpoint child_signals (n : nat) (s : ServerImpl) : IO ServerImpl :=
  match n with
  | O => io_ret s
  | S n => let* s := SignalCallback SIGCHLD s in child_signals n s
  end.

Definition master_body (s : ServerImpl) : IO (ServerImpl + srv_result) :=
  let* z := sys (c_sleep 1000) in
  let* s := child_signals (Z.to_nat (r_ret z)) s in
  let* r := restart_workers (restart_worker_pid_ s) s in
  match r with
  | inl s => io_ret (inl (set_restart [] s))
  | inr e => io_ret (inr e)
  end.

Definition MasterRun (s : ServerImpl) : IO srv_result := loop master_body s.

(** [ServerImpl::Run]; the master loop ends only by a crash. *)
Definition ServerImpl_Run (s : ServerImpl) : IO srv_result :=
  match mode_ s with
  | WM_MASTER => MasterRun s
  | WM_WORKER => let* _ := WorkerRun s in io_ret (Ret 0)
  | WM_UNKNOWN => io_ret (Ret (-314))
  end.
