(* ===== verification/ServerImplProps.v ===== *)
(** * Properties of the master *)

From S2P Require Import Prelude CStr World Network FrameIO FrameIOProps Mutex Listener Server ServerImpl.

(** ** One pass *)

Lemma GetWorkerStatus_productive : productive GetWorkerStatus_body.
Proof.
  unfold GetWorkerStatus_body. split; [intros; sane_tac|]. intros s w s' t w' H. io_inv. discriminate.
Qed.

(** One SIGCHLD callback for a child that exited. *)
Lemma GetWorkerStatus_child p rest e s :
  0 < p < 2 ^ 31 ->
  GetWorkerStatus s (mkWorld (answer p 0 [] :: rest) e) =
  Done (set_restart (restart_worker_pid_ s ++ [restart_pid_of p (worker_processes_ s)]) s)
    [(c_waitpid, answer p 0 [])] (mkWorld rest e).
Proof.
  intros Hp. unfold GetWorkerStatus. rewrite loop_unfold by apply GetWorkerStatus_productive.
  unfold GetWorkerStatus_body, io_bind, sys. cbn [script errno answer r_ret].
  rewrite (proj2 (Z.ltb_ge p 0)) by lia. rewrite s32_id by lia.
  rewrite (proj2 (Z.eqb_neq p 0)), (proj2 (Z.eqb_neq p (-1))) by lia. done.
Qed.

Definition unlock_events (p : Z) (n : nat) : io_trace :=
  replicate n (c_forced_unlock p, answer 0 0 []).

Lemma forced_unlocks_run p ls rest e :
  0 <= p < 2 ^ 31 ->
  forced_unlocks p ls (mkWorld (replicate (length ls) (answer 0 0 []) ++ rest) e) =
  Done tt (unlock_events p (length ls)) (mkWorld rest e).
Proof.
  intros Hp. induction ls as [|l ls IH]; [done|]. simpl. unfold io_bind, sys. simpl.
  rewrite IH, wrap_id by lia. done.
Qed.

Lemma find_worker_none p ws i w :
  Forall (fun x => w_pid x <> p) ws -> find_worker p ws i w = w.
Proof.
  intros H. revert i w. induction H as [|x ws Hx Hws IH]; intros i w; [done|]. simpl.
  by rewrite (proj2 (Z.eqb_neq _ _)), IH.
Qed.

Lemma find_worker_some p ws i j x w :
  ws !! j = Some x -> w_pid x = p -> NoDup (w_pid <$> ws) -> find_worker p ws i w = Some (i + j)%nat.
Proof.
  revert i j w. induction ws as [|y ws IH]; intros i j w Hj Hp Hnd; [done|].
  apply NoDup_cons in Hnd as [Hy Hnd]. simpl. destruct j as [|j]; simpl in Hj.
  - simplify_eq. rewrite Z.eqb_refl, find_worker_none; [f_equal; lia|].
    rewrite Forall_forall. intros z Hz E. apply Hy. rewrite <- E. by apply list_elem_of_fmap_2.
  - rewrite (IH (S i) j); try done. f_equal. lia.
Qed.

Lemma restart_pid_known p ws j x :
  ws !! j = Some x -> w_pid x = p -> restart_pid_of p ws = p.
Proof.
  intros Hj Hp. unfold restart_pid_of. replace (existsb _ ws) with true; [done|].
  symmetry. apply existsb_exists. exists x. split; [|by apply Z.eqb_eq].
  apply list_elem_of_In. by apply list_elem_of_lookup_2 with j.
Qed.

Lemma restart_pid_unknown p ws : Forall (fun x => w_pid x <> p) ws -> restart_pid_of p ws = 0.
Proof.
  intros H. unfold restart_pid_of. replace (existsb _ ws) with false; [done|].
  symmetry. induction H as [|x ws Hx Hws IH]; [done|]. simpl. by rewrite IH, (proj2 (Z.eqb_neq _ _)).
Qed.

(** A pass over one pid whose replacement is forked. *)
Lemma restart_one p q s rest e :
  0 <= p < 2 ^ 31 -> 0 < q < 2 ^ 31 ->
  restart_workers [p] s
    (mkWorld (replicate (length (listeners_ s)) (answer 0 0 []) ++ answer q 0 [] :: rest) e) =
  Done (match find_worker p (worker_processes_ s) 0 None with
        | Some i => inl (set_workers (set_pid i q (worker_processes_ s)) s)
        | None => inr NullDeref
        end)
    (unlock_events p (length (listeners_ s)) ++ [(c_fork, answer q 0 [])]) (mkWorld rest e).
Proof.
  intros Hp Hq. cbn [restart_workers]. unfold io_bind at 1. rewrite forced_unlocks_run by done.
  unfold io_bind, sys. cbn [script errno answer r_ret].
  rewrite (proj2 (Z.ltb_ge q 0)) by lia. rewrite s32_id by lia.
  rewrite (proj2 (Z.eqb_neq 0 q)), (proj2 (Z.ltb_lt 0 q)) by lia.
  by destruct (find_worker p (worker_processes_ s) 0 None).
Qed.

(** The answers of one pass of the master in which one child exited as [p] and
    its replacement is forked as [q]. *)
Definition pass_answers (n : nat) (p q : Z) : list resp :=
  answer 1 0 [] :: answer p 0 [] :: replicate n (answer 0 0 []) ++ [answer q 0 []].

Lemma master_pass p q s rest e :
  mode_ s = WM_MASTER -> restart_worker_pid_ s = [] -> 0 < p < 2 ^ 31 -> 0 < q < 2 ^ 31 ->
  let r := restart_pid_of p (worker_processes_ s) in
  exists t, master_body s (mkWorld (pass_answers (length (listeners_ s)) p q ++ rest) e) =
  Done (match find_worker r (worker_processes_ s) 0 None with
        | Some i => inl (set_workers (set_pid i q (worker_processes_ s)) s)
        | None => inr NullDeref
        end)
    ([(c_sleep 1000, answer 1 0 []); (c_waitpid, answer p 0 [])] ++
     unlock_events r (length (listeners_ s)) ++ t) (mkWorld rest e) /\ t = [(c_fork, answer q 0 [])].
Proof.
  intros Hm Hr Hp Hq r. eexists. split; [|reflexivity].
  assert (Hr31 : 0 <= r < 2 ^ 31) by (unfold r, restart_pid_of; case_match; lia).
  unfold master_body, pass_answers. unfold io_bind at 1. unfold sys at 1. cbn [script errno answer r_ret app].
  change (Z.to_nat 1) with 1%nat. cbn [child_signals]. unfold SignalCallback. rewrite Hm.
  change (SIGCHLD =? SIGCHLD) with true. cbv iota.
  unfold io_bind at 1. unfold io_bind at 1. change (1 <? 0) with false. cbv iota.
  rewrite <- app_assoc. rewrite GetWorkerStatus_child by done. unfold io_ret at 1.
  fold r. rewrite Hr, app_nil_l. cbn [set_restart restart_worker_pid_].
  unfold io_bind at 1. pose proof (restart_one r q (set_restart [r] s) rest e Hr31 Hq) as H.
  cbn [set_restart listeners_ worker_processes_] in H. cbn [app]. rewrite H.
  destruct s as [tr ls ws m rs]. simpl in *. subst rs.
  destruct (find_worker r ws 0 None); simpl; by rewrite ?app_nil_r.
Qed.

Lemma set_pid_insert i q ws x :
  ws !! i = Some x -> set_pid i q ws = <[i := mkWorker (w_name x) q]> ws.
Proof.
  intros Hi. unfold set_pid. apply list_eq. intros j. destruct (decide (i = j)) as [<-|Hne].
  - rewrite list_lookup_alter_eq, Hi, list_lookup_insert_eq; [done|]. by eapply lookup_lt_Some.
  - by rewrite list_lookup_alter_ne, list_lookup_insert_ne.
Qed.

Lemma sane_start_listeners i ls : sane (start_listeners i ls).
Proof.
  revert i. induction ls as [|l ls IH]; intros i; simpl; [apply sane_ret|].
  repeat case_decide; auto. all: apply sane_bind; [apply sane_sys|auto].
Qed.

Lemma worker_productive : productive worker_body.
Proof. unfold worker_body. split; [intros; sane_tac|]. intros s w s' t w' H. io_inv. discriminate. Qed.

Lemma sane_WorkerRun s : sane (WorkerRun s).
Proof.
  unfold WorkerRun. apply sane_bind; [apply sane_start_listeners|]. intros _.
  apply sane_loop, worker_productive.
Qed.

Lemma sane_forced_unlocks p ls : sane (forced_unlocks p ls).
Proof. induction ls; simpl; [apply sane_ret|]. apply sane_bind; [apply sane_sys|done]. Qed.

Lemma sane_restart_workers pids s : sane (restart_workers pids s).
Proof.
  revert s. induction pids as [|p pids IH]; intros s; cbn [restart_workers]; [apply sane_ret|].
  apply sane_bind; [apply sane_forced_unlocks|]. intros _. apply sane_bind; [apply sane_sys|].
  intros f. repeat case_match; auto using sane_ret.
  apply sane_bind; [apply sane_sys|]. intros _. apply sane_bind; [apply sane_WorkerRun|]. intros _. apply sane_ret.
Qed.

Lemma sane_child_signals n s : sane (child_signals n s).
Proof.
  revert s. induction n as [|n IH]; intros s; simpl; [apply sane_ret|]. apply sane_bind; [|auto].
  unfold SignalCallback. destruct (mode_ s); repeat case_match; try apply sane_ret.
  apply sane_loop, GetWorkerStatus_productive.
Qed.

Lemma master_productive : productive master_body.
Proof.
  unfold master_body. split.
  - intros s. apply sane_bind; [apply sane_sys|]. intros z. apply sane_bind; [apply sane_child_signals|].
    intros s'. apply sane_bind; [apply sane_restart_workers|]. intros [?|?]; apply sane_ret.
  - intros s w s' t w' H. apply io_bind_inv in H as (z & t1 & w1 & t2 & H1 & _ & ->).
    apply sys_inv in H1 as (-> & _ & _). done.
Qed.

(** ** A whole pass *)

(** One SIGCHLD callback: [waitpid] finds a child, or none that has exited. *)
Definition wait_answer (o : option Z) : resp := answer (default 0 o) 0 [].
Definition wait_event (o : option Z) : io_event := (c_waitpid, wait_answer o).

Lemma GetWorkerStatus_none rest e s :
  GetWorkerStatus s (mkWorld (wait_answer None :: rest) e) = Done s [wait_event None] (mkWorld rest e).
Proof. unfold GetWorkerStatus. rewrite loop_unfold by apply GetWorkerStatus_productive. by destruct s. Qed.

Lemma child_signals_run waits s rest e :
  mode_ s = WM_MASTER -> Forall (fun o => forall p, o = Some p -> 0 < p < 2 ^ 31 /\ p ∈ w_pid <$> worker_processes_ s) waits ->
  child_signals (length waits) s (mkWorld (map wait_answer waits ++ rest) e) =
  Done (set_restart (restart_worker_pid_ s ++ omap id waits) s) (map wait_event waits) (mkWorld rest e).
Proof.
  intros Hm Hw. revert s Hm Hw. induction waits as [|o waits IH]; intros s Hm Hw.
  { simpl. rewrite app_nil_r. by destruct s. }
  apply Forall_cons in Hw as [Ho Hw]. cbn [length child_signals map app]. unfold SignalCallback. rewrite Hm.
  change (SIGCHLD =? SIGCHLD) with true. cbv iota. rewrite io_bind_after. destruct o as [p|].
  - destruct (Ho p eq_refl) as [Hp (x & -> & Hx)%list_elem_of_fmap].
    change (wait_answer (Some (w_pid x))) with (answer (w_pid x) 0 []). rewrite GetWorkerStatus_child by done.
    apply list_elem_of_lookup in Hx as [j Hj]. rewrite (restart_pid_known _ _ j x Hj eq_refl).
    rewrite IH by done. cbn [after]. f_equal. cbn [set_restart restart_worker_pid_ omap list_omap id]. by rewrite <- app_assoc.
  - rewrite GetWorkerStatus_none, IH by done. done.
Qed.

(** The pid that a slot has after the pass: [l] are the pids to restart with what
    [fork] returned for each. *)
Definition new_pid (l : list (Z * Z)) (p : Z) : Z :=
  match (list_to_map l : gmap Z Z) !! p with Some f => if 0 <? f then f else p | None => p end.
Definition replace_pids (l : list (Z * Z)) (ws : list Worker) : list Worker :=
  (fun x => mkWorker (w_name x) (new_pid l (w_pid x))) <$> ws.

Definition fork_answer (f : Z) : resp := answer f EAGAIN [].
Definition pass_script (n : nat) (l : list (Z * Z)) : list resp :=
  concat (map (fun x : Z * Z => replicate n (answer 0 0 []) ++ [fork_answer x.2]) l).
Definition pass_trace (n : nat) (l : list (Z * Z)) : io_trace :=
  concat (map (fun x : Z * Z => unlock_events x.1 n ++ [(c_fork, fork_answer x.2)]) l).

(** What is to be restarted are workers, once each; [fork] fails or returns fresh
    pids. *)
Record restartable (l : list (Z * Z)) (ws : list Worker) : Prop := {
  rs_range : Forall (fun x => 0 < x.1 < 2 ^ 31 /\ - 2 ^ 31 <= x.2 < 2 ^ 31 /\ x.2 <> 0) l;
  rs_known : Forall (fun x => x.1 ∈ w_pid <$> ws) l;
  rs_once : NoDup l.*1;
  rs_fresh : NoDup ((w_pid <$> ws) ++ filter (fun f => 0 < f) l.*2)
}.

Lemma replace_pids_skip p f l ws : f <= 0 -> p ∉ l.*1 -> replace_pids ((p, f) :: l) ws = replace_pids l ws.
Proof.
  intros Hf Hp. apply list_fmap_ext. intros j x _. unfold new_pid. cbn [list_to_map foldr fst snd].
  destruct (decide (p = w_pid x)) as [->|Hne]; [|by rewrite lookup_insert_ne].
  rewrite lookup_insert_eq, (proj2 (Z.ltb_ge 0 f)) by lia.
  by rewrite (not_elem_of_list_to_map_1 l (w_pid x) Hp).
Qed.

Lemma replace_pids_done p f l A x B :
  0 < f -> w_pid x = p -> p ∉ w_pid <$> A ++ B -> f ∉ l.*1 ->
  replace_pids ((p, f) :: l) (A ++ x :: B) = replace_pids l (A ++ mkWorker (w_name x) f :: B).
Proof.
  intros Hf Hx Hp Hl. rewrite fmap_app in Hp. unfold replace_pids. rewrite !fmap_app. cbn [fmap list_fmap w_name w_pid].
  assert (Hoth : forall ws : list Worker, p ∉ w_pid <$> ws ->
    (fun x => mkWorker (w_name x) (new_pid ((p, f) :: l) (w_pid x))) <$> ws =
    (fun x => mkWorker (w_name x) (new_pid l (w_pid x))) <$> ws).
  { intros ws Hws. apply list_fmap_ext. intros j y Hy. unfold new_pid. cbn [list_to_map foldr fst snd].
    rewrite lookup_insert_ne; [done|]. intros ->. apply Hws. apply list_elem_of_fmap. exists y. split; [done|].
    by eapply list_elem_of_lookup_2. }
  rewrite !Hoth by set_solver. f_equal. f_equal. unfold new_pid at 1 2. cbn [list_to_map foldr fst snd].
  rewrite Hx, lookup_insert_eq, (proj2 (Z.ltb_lt 0 f) Hf). by rewrite (not_elem_of_list_to_map_1 l f Hl).
Qed.

Lemma set_pid_at A x B q : set_pid (length A) q (A ++ x :: B) = A ++ mkWorker (w_name x) q :: B.
Proof. unfold set_pid. rewrite alter_app_r_alt by lia. by rewrite Nat.sub_diag. Qed.

(** What is left to restart after the first of [l]. *)
Lemma restartable_next p f l A x B :
  restartable ((p, f) :: l) (A ++ x :: B) -> w_pid x = p ->
  restartable l (A ++ (if 0 <? f then mkWorker (w_name x) f else x) :: B) /\
  (p ∉ l.*1) /\ (p ∉ w_pid <$> A ++ B) /\ (0 < f -> f ∉ l.*1).
Proof.
  intros [Hr Hk Ho Hf] Hx. apply Forall_cons in Hr as [Hr0 Hr]. apply Forall_cons in Hk as [_ Hk].
  cbn [fmap list_fmap fst snd] in Ho, Hf. apply NoDup_cons in Ho as [Hp Ho].
  assert (Hnp : p ∉ w_pid <$> A ++ B).
  { apply NoDup_app in Hf as [Hf _]. rewrite fmap_app in Hf |- *. cbn [fmap list_fmap] in Hf. rewrite Hx in Hf.
    apply NoDup_app in Hf as (_ & Hd & [HB _]%NoDup_cons). set_solver. }
  destruct (Z.ltb_spec 0 f) as [Hpos|Hneg].
  - rewrite filter_cons, decide_True in Hf by done.
    assert (Hfl : f ∉ l.*1).
    { intros Hin. apply list_elem_of_fmap in Hin as ([p1 f1] & -> & Hin). rewrite Forall_forall in Hk. specialize (Hk _ Hin).
      apply NoDup_app in Hf as (_ & Hd & _). apply (Hd _ Hk). by left. }
    split; [|done]. split; [done| |done|].
    + rewrite Forall_forall in Hk |- *. intros y Hy. specialize (Hk y Hy). rewrite fmap_app in Hk |- *. cbn [fmap list_fmap w_pid] in Hk |- *.
      assert (y.1 <> p) by (intros <-; apply Hp, list_elem_of_fmap; by exists y). set_solver.
    + rewrite fmap_app in Hf |- *. cbn [fmap list_fmap w_pid] in Hf |- *.
      set (P := w_pid <$> A) in *. set (Q := w_pid <$> B) in *. set (F := filter _ _) in *.
      assert (Hf1 : NoDup (w_pid x :: (P ++ Q) ++ f :: F)) by (eapply NoDup_Permutation_proper; [|exact Hf]; solve_Permutation).
      apply NoDup_cons in Hf1 as [_ Hf1]. eapply NoDup_Permutation_proper; [|exact Hf1]. solve_Permutation.
  - rewrite filter_cons, decide_False in Hf by lia. split; [by split|]. split; [done|]. split; [done|lia].
Qed.

Lemma find_worker_at p A x B :
  w_pid x = p -> p ∉ w_pid <$> A ++ B -> find_worker p (A ++ x :: B) 0 None = Some (length A).
Proof.
  intros Hx Hp. rewrite fmap_app in Hp.
  assert (Hgo : forall i w, find_worker p (A ++ x :: B) i w = Some (i + length A)%nat); [|exact (Hgo 0%nat None)].
  induction A as [|y A IH]; intros i w; simpl.
  - rewrite Hx, Z.eqb_refl, find_worker_none; [f_equal; lia|]. apply Forall_forall. intros z Hz E. apply Hp.
    apply elem_of_app. right. apply list_elem_of_fmap. by exists z.
  - rewrite IH by set_solver. f_equal. lia.
Qed.

Lemma replace_pids_nil ws : replace_pids [] ws = ws.
Proof. unfold replace_pids, new_pid. cbn. induction ws as [|[] ws IH]; [done|]. cbn. by rewrite IH. Qed.

(** The pass over all pids, in the master. *)
Lemma restart_pass l s rest e :
  restartable l (worker_processes_ s) ->
  exists e', restart_workers l.*1 s (mkWorld (pass_script (length (listeners_ s)) l ++ rest) e) =
    Done (inl (set_workers (replace_pids l (worker_processes_ s)) s)) (pass_trace (length (listeners_ s)) l)
      (mkWorld rest e').
Proof.
  revert s e. induction l as [|[p f] l IH]; intros s e Hl.
  { exists e. rewrite replace_pids_nil. by destruct s. }
  pose proof (rs_range _ _ Hl) as [(Hp & Hf & Hf0) _]%Forall_cons. cbn [fst snd] in *.
  pose proof (rs_known _ _ Hl) as [Hk _]%Forall_cons. cbn [fst] in Hk.
  apply list_elem_of_fmap in Hk as (x & Hx & (A & B & Hws)%list_elem_of_split). rewrite Hws in Hl.
  destruct (restartable_next p f l A x B Hl (eq_sym Hx)) as (Hnext & Hpl & Hpn & Hfl).
  cbn [fmap list_fmap fst]. cbn [restart_workers]. unfold pass_script, pass_trace. cbn [map concat fst snd].
  fold (pass_script (length (listeners_ s)) l). fold (pass_trace (length (listeners_ s)) l).
  rewrite io_bind_after, <- !app_assoc, forced_unlocks_run by lia. cbn [app]. rewrite io_bind_after.
  unfold sys at 1. cbn [script errno fork_answer answer r_ret r_errno]. rewrite s32_id by lia.
  rewrite (proj2 (Z.eqb_neq 0 f)) by lia. rewrite Hws, (find_worker_at p A x B (eq_sym Hx) Hpn).
  destruct (Z.ltb_spec 0 f) as [Hpos|Hneg].
  - rewrite set_pid_at. destruct (IH (set_workers (A ++ mkWorker (w_name x) f :: B) s)
      (if f <? 0 then EAGAIN else e) Hnext) as [e' He].
    cbn [set_workers listeners_] in He. rewrite He. exists e'. cbn [after]. f_equal.
    rewrite (replace_pids_done p f l A x B) by (done || auto). by destruct s.
  - assert (Hnext' : restartable l (worker_processes_ s)) by (by rewrite Hws).
    destruct (IH s (if f <? 0 then EAGAIN else e) Hnext') as [e' ->]. exists e'. cbn [after]. f_equal.
    rewrite replace_pids_skip by done. by rewrite Hws.
Qed.

(** C34: Exited workers are replaced.  One pass of the master: it sleeps, and while it
    does its own signal coroutine handles any number of SIGCHLDs, for each of which
    [waitpid] returns one worker that exited, or none.  These and the pids that were
    pending from before are restarted in this order: for each, the lock of every
    listener is first released on its behalf, then a child is forked; in the same
    slot, under the same name, stands the new pid, or still the old one if [fork]
    failed.  All other slots and everything else stay, and no pid is pending after
    the pass, also none whose [fork] failed: such a worker is never restarted.
    (Each of these pids belongs to a worker and comes once, and [fork] returns fresh
    pids.  A SIGCHLD that a worker reads from the shared pipe is not handled here.) *)
Theorem exited_worker_is_replaced s waits l rest e :
  mode_ s = WM_MASTER -> restartable l (worker_processes_ s) ->
  Forall (fun o => forall p, o = Some p -> 0 < p < 2 ^ 31 /\ p ∈ w_pid <$> worker_processes_ s) waits ->
  l.*1 = restart_worker_pid_ s ++ omap id waits ->
  exists e', master_body s (mkWorld (answer (Z.of_nat (length waits)) 0 [] :: map wait_answer waits ++
      pass_script (length (listeners_ s)) l ++ rest) e) =
    Done (inl (set_restart [] (set_workers (replace_pids l (worker_processes_ s)) s)))
      ((c_sleep 1000, answer (Z.of_nat (length waits)) 0 []) :: map wait_event waits ++
       pass_trace (length (listeners_ s)) l) (mkWorld rest e').
Proof.
  intros Hm Hl Hw Hpids. unfold master_body. rewrite io_bind_after. unfold sys at 1. cbn [script errno answer r_ret].
  rewrite Nat2Z.id. rewrite io_bind_after, child_signals_run by done. rewrite <- Hpids, io_bind_after.
  match goal with |- context [restart_workers _ _ (mkWorld _ ?e1)] =>
    destruct (restart_pass l (set_restart l.*1 s) rest e1 Hl) as [e' Hrun] end.
  cbn [set_restart listeners_ restart_worker_pid_ worker_processes_] in Hrun |- *. rewrite Hrun. exists e'.
  cbn [after io_ret app]. rewrite app_nil_r. by destruct s.
Qed.

Definition demo_server : ServerImpl :=
  mkServer ConnTracker_new
    [mkListener 5 (ip_of 0) 80 None (lit "tcp"); mkListener 6 (ip_of 0) 81 None (lit "udp")]
    [mkWorker (lit "a") 100; mkWorker (lit "b") 101] WM_MASTER [].

Lemma demo_restartable : restartable [(100, -1); (101, 205)] (worker_processes_ demo_server).
Proof.
  split.
  - repeat (apply Forall_cons; split; [cbn; lia|]). by apply Forall_nil.
  - apply (bool_decide_unpack (Forall (fun x : Z * Z => x.1 ∈ [100; 101]) [(100, -1); (101, 205)])). exact I.
  - apply (bool_decide_unpack (NoDup [100; 101])). exact I.
  - apply (bool_decide_unpack (NoDup [100; 101; 205])). exact I.
Qed.

(** Both workers exit, worker 100 before this pass; the first fork fails. *)
Lemma exited_worker_is_replaced_witness :
  exists t w', master_body (set_restart [100] demo_server)
      (mkWorld (answer 2 0 [] :: [answer 101 0 []; answer 0 0 []] ++ pass_script 2 [(100, -1); (101, 205)] ++ []) 0) =
    Done (inl (set_workers [mkWorker (lit "a") 100; mkWorker (lit "b") 205] demo_server)) t w'.
Proof.
  assert (Hw : Forall (fun o => forall p, o = Some p -> 0 < p < 2 ^ 31 /\ p ∈ w_pid <$> worker_processes_ demo_server)
    [Some 101; None]).
  { apply Forall_cons. split; [intros p [= <-]; split; [split; reflexivity|right; left]|].
    apply Forall_cons. split; [discriminate|by apply Forall_nil]. }
  destruct (exited_worker_is_replaced (set_restart [100] demo_server) [Some 101; None] [(100, -1); (101, 205)] [] 0
    eq_refl demo_restartable Hw eq_refl) as [e' H].
  do 2 eexists. exact H.
Defined.

(** A child that is not a worker kills the master: [GetWorkerStatus] records pid
    0 for a process it does not know (it compares [restart_pid] with -1, but its
    initial value is 0), and the next pass, having forked a replacement, writes
    the new pid through a null pointer. *)
Theorem unknown_child_kills_master s p q rest e :
  mode_ s = WM_MASTER -> restart_worker_pid_ s = [] ->
  Forall (fun w => w_pid w <> p /\ w_pid w <> 0) (worker_processes_ s) ->
  0 < p < 2 ^ 31 -> 0 < q < 2 ^ 31 ->
  exists t, MasterRun s (mkWorld (pass_answers (length (listeners_ s)) p q ++ rest) e) =
    Done NullDeref t (mkWorld rest e).
Proof.
  intros Hm Hr Hws Hpp Hqq. apply Forall_and in Hws as [Hws1 Hws2].
  destruct (master_pass p q s rest e Hm Hr Hpp Hqq) as (t & H & ->).
  rewrite (restart_pid_unknown p _ Hws1), (find_worker_none 0 _ 0 None Hws2) in H.
  unfold MasterRun. rewrite loop_unfold by apply master_productive.
  unfold io_bind. rewrite H. simpl. eauto.
Qed.

Lemma unknown_child_kills_master_witness :
  exists t, MasterRun demo_server (mkWorld (pass_answers 2 777 205 ++ []) 0) =
    Done NullDeref t (mkWorld [] 0).
Proof.
  apply (unknown_child_kills_master demo_server 777 205 [] 0); try reflexivity; try (split; reflexivity).
  repeat constructor; discriminate.
Defined.
