(* ===== verification/Shutdown.v ===== *)
(** * Graceful shutdown of a worker

    A worker process runs three kinds of coroutines that share one connection
    tracker: the one of [SignalHelper], which raises its flag for SIGHUP, one per
    listener ([RunTcpSrv]), which enters connections, and the loop of [WorkerRun],
    which waits for the flag and for the last connection; the destructors of work
    objects remove connections.  A history of the process interleaves their events;
    what each coroutine did is a projection of it. *)

From S2P Require Import Prelude World Network FrameIO FrameIOProps Mutex Listener Server ServerProps ServerImpl ServerImplProps.

(** ** Monitors *)

(** A monitor reads the events of a trace; [None]: the event is not allowed. *)
Section monitor.
Context {St : Type} (next : St -> io_event -> option St).

Definition drive (st : St) (t : io_trace) : option St := foldl (fun o e => s ← o; next s e) (Some st) t.

Lemma drive_None t : foldl (fun o e => s ← o; next s e) None t = None.
Proof. by induction t. Qed.

Lemma drive_cons st e t : drive st (e :: t) = (s ← next st e; drive s t).
Proof. unfold drive. simpl. destruct (next st e); [done|apply drive_None]. Qed.

Lemma drive_app st t u : drive st (t ++ u) = (s ← drive st t; drive s u).
Proof.
  unfold drive. rewrite foldl_app. destruct (foldl _ (Some st) t); [done|apply drive_None].
Qed.

Lemma drive_stay st t : Forall (fun e => next st e = Some st) t -> drive st t = Some st.
Proof. induction 1 as [|e t He _ IH]; [done|]. by rewrite drive_cons, He. Qed.

(** From [st] the monitor accepts every trace of [m]; [Q] holds of its state when
    [m] is done. *)
Definition drives {A} (st : St) (m : IO A) (Q : A -> St -> Prop) : Prop := forall w,
  match m w with
  | Done a t _ => exists st', drive st t = Some st' /\ Q a st'
  | Blocked t => is_Some (drive st t)
  end.

Lemma drives_accepts {A} st (m : IO A) Q w : drives st m Q -> is_Some (drive st (trace_of (m w))).
Proof. intros H. specialize (H w). destruct (m w); [|done]. destruct H as (st' & E & _). by exists st'. Qed.

Lemma drives_ret {A} st (a : A) (Q : A -> St -> Prop) : Q a st -> drives st (io_ret a) Q.
Proof. intros H w. by exists st. Qed.

Lemma drives_bind {A B} st (m : IO A) (k : A -> IO B) (R : A -> St -> Prop) Q :
  drives st m R -> (forall a s, R a s -> drives s (k a) Q) -> drives st (io_bind m k) Q.
Proof.
  intros Hm Hk w. specialize (Hm w). rewrite io_bind_after. destruct (m w) as [a t w'|t]; [|done].
  destruct Hm as (s & Hs & Ha). specialize (Hk a s Ha w'). destruct (k a w') as [b u w2|u]; simpl;
    by rewrite drive_app, Hs.
Qed.

Lemma drives_sys st c (Q : resp -> St -> Prop) :
  (forall r, exists s, next st (c, r) = Some s /\ Q r s) -> drives st (sys c) Q.
Proof.
  intros H w. unfold sys. destruct (script w) as [|r l]; [by exists st|].
  destruct (H r) as (s & Hs & HQ). exists s. split; [|done]. by rewrite drive_cons, Hs.
Qed.

(** Calls that do not matter to the monitor. *)
Lemma drives_calls {A} st (m : IO A) (P : syscall -> Prop) :
  calls P m -> (forall c r, P c -> next st (c, r) = Some st) -> drives st m (fun _ s => s = st).
Proof.
  intros Hm Hn w. assert (Hst : forall t, Forall (fun e : io_event => P e.1) t -> drive st t = Some st).
  { intros t Ht. apply drive_stay. eapply Forall_impl; [exact Ht|]. intros [c r] Hc. by apply Hn. }
  specialize (Hm w). destruct (m w) as [a t w'|t]; [exists st; split; [by apply Hst|done]|].
  exists st. by apply Hst.
Qed.

Lemma drives_loop {S R} (body : S -> IO (S + R)) (I : S -> St -> Prop) (Q : R -> St -> Prop) s st :
  productive body -> I s st ->
  (forall s st, I s st -> drives st (body s)
     (fun x st' => match x with inl s' => I s' st' | inr r => Q r st' end)) ->
  drives st (loop body s) Q.
Proof.
  intros Hp HI Hbody w.
  pose proof (loop_inv body Hp (fun _ => True) (fun s acc => exists st', drive st acc = Some st' /\ I s st')
    (fun r t => exists st', drive st t = Some st' /\ Q r st') (fun t => is_Some (drive st t))) as H.
  specialize (H ltac:(intros s0 acc w0 s' t w' (st1 & E & H1) Hb _; specialize (Hbody s0 st1 H1 w0);
    rewrite Hb in Hbody; by rewrite drive_app, E)).
  specialize (H ltac:(intros s0 acc w0 r t w' (st1 & E & H1) Hb _; specialize (Hbody s0 st1 H1 w0);
    rewrite Hb in Hbody; by rewrite drive_app, E)).
  specialize (H ltac:(intros s0 acc w0 t (st1 & E & H1) Hb _; specialize (Hbody s0 st1 H1 w0);
    rewrite Hb in Hbody; by rewrite drive_app, E)).
  specialize (H s [] w ltac:(by exists st)). assert (Ht : forall t : io_trace, Forall (fun _ => True) t) by (by induction t; constructor).
  destruct (loop body s w); by apply H.
Qed.

End monitor.

(** How many events of a trace satisfy a test. *)
Fixpoint count (p : io_event -> bool) (t : io_trace) : nat :=
  match t with
  | [] => 0
  | e :: t => (if p e then 1 else 0) + count p t
  end.

Lemma count_app p t u : count p (t ++ u) = (count p t + count p u)%nat.
Proof. induction t as [|e t IH]; [done|]. simpl. rewrite IH. lia. Qed.
Lemma count_le p t : (count p t <= length t)%nat.
Proof. induction t as [|e t IH]; [done|]. simpl. destruct (p e); lia. Qed.

(** ** The listener's coroutine *)

(** It runs; it has just entered a connection; it was told to stop. *)
Inductive listener_pc := l_run | l_entered | l_stop.

Definition listener_next (pc : listener_pc) (e : io_event) : option listener_pc :=
  match pc, e with
  | l_run, (c_create_tcp _ _ _, _) => Some l_entered
  | l_run, (c_graceful, _) => None
  | l_run, _ => Some l_run
  | l_entered, (c_graceful, r) => if r_ret r =? 0 then Some l_run else Some l_stop
  | _, _ => None
  end.

(** Calls that neither enter a connection nor ask the tracker. *)
Definition listener_other (c : syscall) : Prop :=
  match c with c_create_tcp _ _ _ | c_graceful => False | _ => True end.

Lemma listener_other_stay c r : listener_other c -> listener_next l_run (c, r) = Some l_run.
Proof. by destruct c. Qed.

Lemma calls_Frame_accept (P : syscall -> Prop) fd :
  P (c_accept fd) -> (forall ev, P (c_wait fd ev)) -> calls P (Frame_accept fd).
Proof. intros Ha Hw. unfold Frame_accept. apply calls_loop. intros []. unfold accept_body. calls_tac. Qed.

Section listener.
Context (listenfd port : Z) (wb : option builder).

Lemma RunTcpSrv_drives : drives listener_next l_run (RunTcpSrv listenfd port wb true) (fun _ _ => True).
Proof.
  assert (Hother : forall {A} (m : IO A), calls listener_other m -> drives listener_next l_run m (fun _ s => s = l_run)).
  { intros A m Hm. eapply drives_calls; [exact Hm|]. apply listener_other_stay. }
  unfold RunTcpSrv. apply (drives_loop _ _ (fun _ st => st = l_run)); [apply tcp_srv_productive|done|].
  intros s st ->. unfold tcp_srv_body. destruct (15 <? s).
  { apply (drives_bind _ _ _ _ _ _ (Hother _ (sys (c_sleep 50)) ltac:(calls_tac))). intros a s' ->. by apply drives_ret. }
  apply (drives_bind _ _ _ _ _ _ (Hother _ (sys c_trylock) ltac:(calls_tac))). intros k s' ->.
  destruct (s32 (r_ret k) <? 0).
  { apply (drives_bind _ _ _ _ _ _ (Hother _ (sys (c_sleep 50)) ltac:(calls_tac))). intros a s' ->. by apply drives_ret. }
  apply (drives_bind _ _ _ _ _ _ (Hother _ (Frame_accept listenfd) ltac:(by apply calls_Frame_accept))). intros [fd addr] s' ->.
  cbn [fst]. destruct (fd <? 0); [by apply drives_ret|].
  apply (drives_bind _ _ _ _ _ _ (Hother _ (sys c_unlock) ltac:(calls_tac))). intros u s' ->.
  apply (drives_bind _ _ _ _ _ _ (Hother _ (SetNonBlock fd) ltac:(by apply calls_SetNonBlock))). intros nb s' ->.
  destruct (nb <? 0); [by apply drives_ret|]. destruct wb as [build|].
  2:{ apply (drives_bind _ _ _ _ _ _ (Hother _ (sys (c_close fd)) ltac:(calls_tac))). intros a s' ->. by apply drives_ret. }
  destruct (build port); [|by apply drives_ret]. unfold serve_conn.
  apply (drives_bind _ _ _ _ (fun _ s => s = l_entered)).
  { apply drives_sys. intros r. by exists l_entered. }
  intros r s' ->. apply (drives_bind _ _ _ _ (fun g s => s = if r_ret g =? 0 then l_run else l_stop)).
  { apply drives_sys. intros g. simpl. destruct (r_ret g =? 0); eauto. }
  intros g s' ->. destruct (r_ret g =? 0); by apply drives_ret.
Qed.

End listener.

Definition enters (e : io_event) : bool := match e.1 with c_create_tcp _ _ _ => true | _ => false end.
Definition told_to_stop (e : io_event) : Prop := match e with (c_graceful, r) => r_ret r <> 0 | _ => True end.

(** Once the tracker says stop, at most one more connection is entered. *)
Lemma listener_stops pc t :
  is_Some (drive listener_next pc t) -> Forall told_to_stop t -> (count enters t <= 1)%nat.
Proof.
  assert (Hstop : forall u, is_Some (drive listener_next l_stop u) -> u = []).
  { intros [|e u]; [done|]. rewrite drive_cons. destruct e as [c r]. simpl. by intros [? ?]. }
  assert (Hent : forall u, is_Some (drive listener_next l_entered u) -> Forall told_to_stop u -> count enters u = 0%nat).
  { intros [|[c r] u]; [done|]. rewrite drive_cons. intros H [Ht _]%Forall_cons. destruct c; try by destruct H.
    simpl in H, Ht. rewrite (proj2 (Z.eqb_neq _ _) Ht) in H. simpl in H. by rewrite (Hstop u H). }
  intros H Ht. destruct pc; [|by rewrite (Hent t H Ht); lia|by rewrite (Hstop t H); simpl; lia].
  induction t as [|[c r] t IH]; [simpl; lia|]. apply Forall_cons in Ht as [_ Ht]. rewrite drive_cons in H.
  destruct c; simpl in H |- *; try (by apply IH); try (by destruct H).
  by rewrite (Hent t H Ht).
Qed.

(** ** The worker's main coroutine *)

(** About to sleep, to ask for the flag, to ask for the connections; at the end. *)
Inductive worker_pc := p_sleep | p_flag | p_conns | p_end.

#[export] Instance worker_pc_eq_dec : EqDecision worker_pc.
Proof. solve_decision. Defined.

Definition worker_next (pc : worker_pc) (e : io_event) : option worker_pc :=
  match pc, e with
  | p_sleep, (c_create_srv _ _, _) => Some p_sleep
  | p_sleep, (c_sleep _, _) => Some p_flag
  | p_flag, (c_graceful, r) => if r_ret r =? 0 then Some p_sleep else Some p_conns
  | p_conns, (c_connsize, r) => if u32 (r_ret r) =? 0 then Some p_end else Some p_sleep
  | _, _ => None
  end.

Lemma start_listeners_drives i ls : drives worker_next p_sleep (start_listeners i ls) (fun _ s => s = p_sleep).
Proof.
  revert i. induction ls as [|l ls IH]; intros i; cbn [start_listeners]; [by apply drives_ret|].
  assert (Hs : forall b, drives worker_next p_sleep (sys (c_create_srv b i)) (fun _ s => s = p_sleep)).
  { intros b. apply drives_sys. intros r. by exists p_sleep. }
  repeat case_decide; [..|apply IH]; (eapply drives_bind; [apply Hs|]; intros a s ->; apply IH).
Qed.

Lemma WorkerRun_drives s : drives worker_next p_sleep (WorkerRun s) (fun _ pc => pc = p_end).
Proof.
  unfold WorkerRun. eapply drives_bind; [apply start_listeners_drives|]. intros [] pc ->.
  apply (drives_loop _ _ (fun _ st => st = p_sleep)); [apply worker_productive|done|].
  intros [] st ->. unfold worker_body. apply (drives_bind _ _ _ _ (fun _ s => s = p_flag)).
  { apply drives_sys. intros r. by exists p_flag. }
  intros a st ->. apply (drives_bind _ _ _ _ (fun _ s => s = p_flag)); [by apply drives_ret|]. intros z st ->.
  apply (drives_bind _ _ _ _ (fun g s => s = if r_ret g =? 0 then p_sleep else p_conns)).
  { apply drives_sys. intros g. simpl. destruct (r_ret g =? 0); eauto. }
  intros g st ->. destruct (r_ret g =? 0); cbn [negb]; [by apply drives_ret|].
  apply (drives_bind _ _ _ _ (fun n s => s = if u32 (r_ret n) =? 0 then p_end else p_sleep)).
  { apply drives_sys. intros n. simpl. destruct (u32 (r_ret n) =? 0); eauto. }
  intros n st ->. destruct (u32 (r_ret n) =? 0); by apply drives_ret.
Qed.

Definition starts (e : io_event) : bool := match e.1 with c_create_srv _ _ => true | _ => false end.
Definition told_to_end (e : io_event) : Prop :=
  match e with
  | (c_graceful, r) => r_ret r <> 0
  | (c_connsize, r) => u32 (r_ret r) = 0
  | _ => True
  end.

(** A worker that is told to stop and has no connections ends within a round. *)
Lemma worker_ends pc t :
  is_Some (drive worker_next pc t) -> Forall told_to_end t ->
  (count (fun e => negb (starts e)) t <= 3)%nat.
Proof.
  assert (Hend : forall u, is_Some (drive worker_next p_end u) -> u = []).
  { intros [|e u]; [done|]. rewrite drive_cons. destruct e as [c r]. simpl. by intros [? ?]. }
  assert (Hconns : forall u, is_Some (drive worker_next p_conns u) -> Forall told_to_end u -> (length u <= 1)%nat).
  { intros [|[c r] u]; [simpl; lia|]. rewrite drive_cons. intros H [Ht _]%Forall_cons. destruct c; try by destruct H.
    simpl in H, Ht. rewrite (proj2 (Z.eqb_eq _ _) Ht) in H. simpl in H. rewrite (Hend u H). simpl. lia. }
  assert (Hflag : forall u, is_Some (drive worker_next p_flag u) -> Forall told_to_end u -> (length u <= 2)%nat).
  { intros [|[c r] u]; [simpl; lia|]. rewrite drive_cons. intros H [Ht Hu]%Forall_cons. destruct c; try by destruct H.
    simpl in H, Ht. rewrite (proj2 (Z.eqb_neq _ _) Ht) in H. simpl in H. specialize (Hconns u H Hu). simpl. lia. }
  intros H Ht. pose proof (count_le (fun e => negb (starts e)) t) as Hlen. destruct pc.
  - clear Hlen. induction t as [|[c r] t IH]; [simpl; lia|]. apply Forall_cons in Ht as [_ Ht]. rewrite drive_cons in H.
    pose proof (count_le (fun e => negb (starts e)) t).
    destruct c; simpl in H |- *; try (by destruct H); [by apply IH|]. specialize (Hflag t H Ht). lia.
  - specialize (Hflag t H Ht). lia.
  - specialize (Hconns t H Ht). lia.
  - rewrite (Hend t H). simpl. lia.
Qed.

(** How the main coroutine can have come to its end. *)
Lemma worker_end_shape pc t :
  pc <> p_end -> drive worker_next pc t = Some p_end ->
  exists t1 r, t = t1 ++ [(c_connsize, r)] /\ u32 (r_ret r) = 0 /\
    (pc = p_conns \/ exists g, (c_graceful, g) ∈ t1 /\ r_ret g <> 0).
Proof.
  revert pc. induction t as [|[c r] t IH]; intros pc Hpc H; [by injection H|].
  rewrite drive_cons in H. destruct (worker_next pc (c, r)) as [pc'|] eqn:E; [|done]. cbn [mbind option_bind] in H.
  destruct (decide (pc' = p_end)) as [->|Hne].
  - assert (t = []) as ->.
    { destruct t as [|[c' r'] t]; [done|]. by rewrite drive_cons in H. }
    destruct pc, c; simpl in E; try done; [by destruct (r_ret r =? 0)|].
    destruct (Z.eqb_spec (u32 (r_ret r)) 0); [|done]. exists [], r. auto.
  - destruct (IH pc' Hne H) as (t1 & r' & -> & Hr & Hg). exists ((c, r) :: t1), r'. split; [done|]. split; [done|].
    destruct Hg as [->|(g & Hg & Hz)]; [|right; exists g; split; [by right|done]].
    destruct pc, c; simpl in E; try done; [|by destruct (u32 (r_ret r) =? 0)].
    destruct (Z.eqb_spec (r_ret r) 0); [done|]. right. exists r. split; [left|done].
Qed.

(** ** Histories *)

Inductive worker_event :=
  | w_signal (sig : Z)                  (* [SignalCallback] *)
  | w_call (co : nat) (e : io_event)    (* a call of coroutine [co] *)
  | w_delete (r : TcpReqWork).          (* a work object is deleted *)

(** What the signal coroutine of a worker does to the tracker. *)
Definition signal_tracker (sig : Z) (ct : ConnTracker) : ConnTracker :=
  match SignalCallback sig (set_mode WM_WORKER (set_tracker ct ServerImpl_new)) (os []) with
  | Done s _ _ => tracker s
  | Blocked _ => ct
  end.

Definition tracker_step (ct : ConnTracker) (e : worker_event) : ConnTracker :=
  match e with
  | w_signal sig => signal_tracker sig ct
  | w_call _ (c_create_tcp fd _ tracked, _) => if tracked then NewConn fd ct else ct
  | w_call _ _ => ct
  | w_delete r => if req_tracked r then RemoveConn (req_fd r) ct else ct
  end.
Definition tracker_after (ct : ConnTracker) (h : list worker_event) : ConnTracker := foldl tracker_step ct h.

(** The answers about the tracker are those of the tracker. *)
Definition answered_by (ct : ConnTracker) (e : worker_event) : Prop :=
  match e with
  | w_call _ (c_graceful, r) => negb (r_ret r =? 0) = GracefulShutdown ct
  | w_call _ (c_connsize, r) => r_ret r = GetConnSize ct
  | _ => True
  end.
Fixpoint consistent (ct : ConnTracker) (h : list worker_event) : Prop :=
  match h with
  | [] => True
  | e :: h => answered_by ct e /\ consistent (tracker_step ct e) h
  end.

(** What coroutine [co] did. *)
Definition call_of (co : nat) (e : worker_event) : option io_event :=
  match e with w_call co' e => if decide (co' = co) then Some e else None | _ => None end.
Definition calls_of (co : nat) (h : list worker_event) : io_trace := omap (call_of co) h.

Lemma calls_of_app co h k : calls_of co (h ++ k) = calls_of co h ++ calls_of co k.
Proof. apply omap_app. Qed.

Lemma tracker_after_app ct h k : tracker_after ct (h ++ k) = tracker_after (tracker_after ct h) k.
Proof. apply foldl_app. Qed.

Lemma consistent_app ct h k : consistent ct (h ++ k) <-> consistent ct h /\ consistent (tracker_after ct h) k.
Proof.
  revert ct. induction h as [|e h IH]; intros ct; [simpl; tauto|]. simpl. rewrite IH. unfold tracker_after. simpl. tauto.
Qed.

Lemma signal_tracker_eq sig ct :
  signal_tracker sig ct = if sig =? SIGHUP then mkConnTracker true (conns_ ct) else ct.
Proof. unfold signal_tracker, SignalCallback. cbn [mode_ set_mode]. destruct (sig =? SIGHUP); [done|]. by destruct ct. Qed.

(** Only SIGHUP touches the flag, and raises it. *)
Definition is_hup (e : worker_event) : bool := match e with w_signal sig => sig =? SIGHUP | _ => false end.

Lemma flag_step ct e : graceful_shutdown_ (tracker_step ct e) = graceful_shutdown_ ct || is_hup e.
Proof.
  destruct e as [sig|co [c r]|r]; simpl; rewrite ?orb_false_r.
  - rewrite signal_tracker_eq. by destruct (sig =? SIGHUP); rewrite ?orb_true_r, ?orb_false_r.
  - destruct c; try done. by destruct tracked.
  - by destruct (req_tracked r).
Qed.

Lemma flag_stays ct h : graceful_shutdown_ ct = true -> graceful_shutdown_ (tracker_after ct h) = true.
Proof.
  revert ct. induction h as [|e h IH]; intros ct H; [done|]. apply IH. by rewrite flag_step, H.
Qed.

Lemma flag_from_signal ct h :
  graceful_shutdown_ ct = false -> graceful_shutdown_ (tracker_after ct h) = true -> w_signal SIGHUP ∈ h.
Proof.
  revert ct. induction h as [|e h IH]; intros ct H1 H2; [unfold tracker_after in H2; simpl in H2; congruence|].
  destruct (is_hup e) eqn:He.
  - destruct e; try done. apply Z.eqb_eq in He as ->. left.
  - right. apply (IH (tracker_step ct e)); [|done]. by rewrite flag_step, H1, He.
Qed.

(** ** Connections *)

Definition opens (fd : Z) (e : worker_event) : Prop :=
  match e with w_call _ (c_create_tcp fd' _ true, _) => fd' = fd | _ => False end.
Definition opens_any (e : worker_event) : Prop :=
  match e with w_call _ (c_create_tcp _ _ true, _) => True | _ => False end.
Definition closes (fd : Z) (e : worker_event) : Prop :=
  match e with w_delete r => req_tracked r = true /\ req_fd r = fd | _ => False end.

(** A connection is entered until its work object is deleted. *)
Lemma conn_stays fd ct h :
  is_Some (conns_ ct !! fd) -> conns_ (tracker_after ct h) !! fd = None -> exists e, e ∈ h /\ closes fd e.
Proof.
  revert ct. induction h as [|e h IH]; intros ct H1 H2; [unfold tracker_after in H2; simpl in H2; rewrite H2 in H1; by destruct H1|].
  destruct (conns_ (tracker_step ct e) !! fd) eqn:E.
  - destruct (IH (tracker_step ct e)) as (e' & ? & ?); [by eexists|done|]. exists e'. split; [by right|done].
  - exists e. split; [left|]. destruct e as [sig|co [c r]|r]; simpl in E.
    + rewrite signal_tracker_eq in E. destruct (sig =? SIGHUP); simpl in E; rewrite E in H1; by destruct H1.
    + destruct c; try (rewrite E in H1; by destruct H1). destruct tracked; [|rewrite E in H1; by destruct H1].
      simpl in E. destruct (decide (fd0 = fd)) as [->|]; [by rewrite lookup_insert_eq in E|].
      rewrite lookup_insert_ne in E by done. rewrite E in H1. by destruct H1.
    + simpl. destruct (req_tracked r); [|rewrite E in H1; by destruct H1]. simpl in E. split; [done|].
      destruct (decide (req_fd r = fd)) as [->|]; [done|]. rewrite lookup_delete_ne in E by done.
      rewrite E in H1. by destruct H1.
Qed.

Lemma conn_opened fd ct e : opens fd e -> is_Some (conns_ (tracker_step ct e) !! fd).
Proof.
  destruct e as [sig|co [c r]|r]; try done. destruct c; try done. destruct tracked; [|done]. simpl. intros ->.
  rewrite lookup_insert_eq. by eexists.
Qed.

(** Without a new connection none appears. *)
Lemma conns_empty ct h : conns_ ct = ∅ -> Forall (fun e => ~ opens_any e) h -> conns_ (tracker_after ct h) = ∅.
Proof.
  revert ct. induction h as [|e h IH]; intros ct H Hn; [done|]. apply Forall_cons in Hn as [He Hn].
  apply IH; [|done]. destruct e as [sig|co [c r]|r]; simpl.
  - rewrite signal_tracker_eq. by destruct (sig =? SIGHUP).
  - destruct c; try done. destruct tracked; [|done]. by destruct He.
  - destruct (req_tracked r); [|done]. simpl. by rewrite H, delete_empty.
Qed.

Lemma conns_size ct h : (size (conns_ (tracker_after ct h)) <= size (conns_ ct) + length h)%nat.
Proof.
  revert ct. induction h as [|e h IH]; intros ct; [simpl; lia|]. simpl.
  specialize (IH (tracker_step ct e)). enough (size (conns_ (tracker_step ct e)) <= S (size (conns_ ct)))%nat by lia.
  destruct e as [sig|co [c r]|r]; simpl.
  - rewrite signal_tracker_eq. destruct (sig =? SIGHUP); simpl; lia.
  - destruct c; try lia. destruct tracked; [|lia]. simpl. rewrite map_size_insert. destruct (_ !! _); simpl; lia.
  - destruct (req_tracked r); simpl; [|lia]. rewrite map_size_delete. destruct (_ !! _); simpl; lia.
Qed.

(** ** A worker process *)

Lemma calls_of_split co h t e u :
  calls_of co h = t ++ e :: u ->
  exists h1 h2, h = h1 ++ w_call co e :: h2 /\ calls_of co h1 = t /\ calls_of co h2 = u.
Proof.
  revert t. induction h as [|x h IH]; intros t H; [by destruct t|].
  unfold calls_of in *. cbn [omap list_omap] in H. destruct (call_of co x) as [y|] eqn:Ex.
  - destruct t as [|y' t]; simplify_list_eq.
    + exists [], h. split; [|done]. simpl. destruct x as [|co' y|]; try done. simpl in Ex.
      case_decide; [|done]. by simplify_eq.
    + destruct (IH t) as (h1 & h2 & -> & H1 & H2); [done|]. exists (x :: h1), h2.
      split; [done|]. cbn [omap list_omap]. by rewrite Ex, H1.
  - destruct (IH t H) as (h1 & h2 & -> & H1 & H2). exists (x :: h1), h2. split; [done|].
    cbn [omap list_omap]. by rewrite Ex, H1.
Qed.

(** An event of a coroutine is answered by the tracker of its moment. *)
Lemma calls_of_answered (P : ConnTracker -> Prop) (Q : io_event -> Prop) co ct h :
  consistent ct h ->
  (forall k1 e k2, h = k1 ++ e :: k2 -> P (tracker_after ct k1)) ->
  (forall ct e, P ct -> answered_by ct (w_call co e) -> Q e) ->
  Forall Q (calls_of co h).
Proof.
  intros Hc HP HQ. rewrite Forall_forall. intros e He. apply list_elem_of_split in He as (t & u & He).
  apply calls_of_split in He as (h1 & h2 & -> & _ & _). apply consistent_app in Hc as [_ [Hans _]].
  apply (HQ (tracker_after ct h1)); [|done]. by eapply HP.
Qed.

Section process.
Context (s : ServerImpl) (wb : option builder) (wm : world) (wl : nat -> world).

(** Coroutine 0 is that of [WorkerRun], the others are those of the TCP listeners. *)
Record worker_process (h : list worker_event) : Prop := {
  wp_main : calls_of 0 h = trace_of (WorkerRun s wm);
  wp_listener i l : listeners_ s !! i = Some l -> GetProto l = lit "tcp" ->
    calls_of (S i) h = trace_of (RunTcpSrv (GetSocketFd l) (GetPort l) wb true (wl i));
  wp_tracker : consistent ConnTracker_new h
}.

(** After SIGHUP every answer to "graceful?" is yes. *)
Lemma after_hup co ct h :
  graceful_shutdown_ ct = true -> consistent ct h -> Forall told_to_stop (calls_of co h).
Proof.
  intros Hg Hc. apply (calls_of_answered (fun ct => graceful_shutdown_ ct = true) _ co ct h Hc).
  - intros k1 e k2 _. by apply flag_stays.
  - intros ct' [c r] Hct Hans. destruct c; try done. simpl in *. unfold GracefulShutdown in Hans. rewrite Hct in Hans.
    intros E. by rewrite E in Hans.
Qed.

(** And with no connection left the answers are those that end the worker. *)
Lemma after_hup_empty co ct h :
  graceful_shutdown_ ct = true -> conns_ ct = ∅ -> Forall (fun e => ~ opens_any e) h -> consistent ct h ->
  Forall told_to_end (calls_of co h).
Proof.
  intros Hg He Hn Hc.
  apply (calls_of_answered (fun ct => graceful_shutdown_ ct = true /\ conns_ ct = ∅) _ co ct h Hc).
  - intros k1 e k2 ->. apply Forall_app in Hn as [Hn _]. split; [by apply flag_stays|by apply conns_empty].
  - intros ct' [c r] [Hct Hempty] Hans. destruct c; try done; simpl in *.
    + unfold GracefulShutdown in Hans. rewrite Hct in Hans. intros E. by rewrite E in Hans.
    + unfold GetConnSize in Hans. rewrite Hempty, map_size_empty in Hans. by rewrite Hans.
Qed.

Lemma drive_part {St} (next : St -> io_event -> option St) st t u :
  is_Some (drive next st (t ++ u)) -> exists st', is_Some (drive next st' u).
Proof. rewrite drive_app. destruct (drive next st t) as [st'|]; [by exists st'|by intros [? ?]]. Qed.

(** A worker shuts down when it is told to: after [SignalHelper] has dispatched
    SIGHUP, each listener of the process enters at most one more connection, and
    from any moment at which no connection is left and no new one is entered, the
    main coroutine of [WorkerRun] makes at most three more calls (a sleep and its
    two questions) before it ends. *)
Theorem graceful_shutdown h h1 h2 h3 :
  worker_process h -> h = h1 ++ w_signal SIGHUP :: h2 ++ h3 ->
  (forall i l, listeners_ s !! i = Some l -> GetProto l = lit "tcp" ->
     (count enters (calls_of (S i) (h2 ++ h3)) <= 1)%nat) /\
  (conns_ (tracker_after ConnTracker_new (h1 ++ w_signal SIGHUP :: h2)) = ∅ ->
   Forall (fun e => ~ opens_any e) h3 ->
   (count (fun e => negb (starts e)) (calls_of 0 h3) <= 3)%nat).
Proof.
  intros [Hm Hl Hc] ->. pose proof Hc as [_ [_ Hc2]]%consistent_app.
  assert (Hg : graceful_shutdown_ (tracker_step (tracker_after ConnTracker_new h1) (w_signal SIGHUP)) = true).
  { by rewrite flag_step, orb_true_r. }
  split.
  - intros i l Hi Hp. specialize (Hl i l Hi Hp). rewrite calls_of_app in Hl.
    pose proof (drives_accepts _ _ _ _ (wl i) (RunTcpSrv_drives (GetSocketFd l) (GetPort l) wb)) as Hd.
    rewrite <- Hl in Hd. apply drive_part in Hd as [pc Hd]. eapply listener_stops; [exact Hd|].
    exact (after_hup (S i) _ _ Hg Hc2).
  - intros Hempty Hn. rewrite app_comm_cons, app_assoc in Hm, Hc. rewrite calls_of_app in Hm.
    apply consistent_app in Hc as [_ Hc3].
    pose proof (drives_accepts _ _ _ _ wm (WorkerRun_drives s)) as Hd. rewrite <- Hm in Hd.
    apply drive_part in Hd as [pc Hd]. eapply worker_ends; [exact Hd|]. refine (after_hup_empty 0 _ _ _ Hempty Hn Hc3).
    rewrite tracker_after_app. exact (flag_stays _ h2 Hg).
Qed.

(** A worker that ends has nothing left to do: when [WorkerRun] returns, SIGHUP
    had been dispatched before, and every connection that was entered before the
    main coroutine's last question had been given up by the deletion of its work
    object.  (The number of connections is compared in 32 bits.) *)
Theorem worker_exit_clean h t w' :
  worker_process h -> WorkerRun s wm = Done tt t w' -> Z.of_nat (length h) < 2 ^ 32 ->
  exists h1 r h2, h = h1 ++ w_call 0 (c_connsize, r) :: h2 /\ calls_of 0 h2 = [] /\
    w_signal SIGHUP ∈ h1 /\
    forall k1 e k2 fd, h1 = k1 ++ e :: k2 -> opens fd e -> exists e', e' ∈ k2 /\ closes fd e'.
Proof.
  intros [Hm _ Hc] Hrun Hlen. pose proof (WorkerRun_drives s wm) as Hd. rewrite Hrun in Hd, Hm.
  destruct Hd as (pc & Hd & ->). simpl in Hm.
  apply worker_end_shape in Hd as (t1 & r & -> & Hr & [?|(g & Hg & Hgr)]); [done| |done].
  apply calls_of_split in Hm as (h1 & h2 & -> & H1 & H2). exists h1, r, h2. split; [done|]. split; [done|].
  apply consistent_app in Hc as [Hc1 [Hans _]]. simpl in Hans. split.
  - apply list_elem_of_split in Hg as (u1 & u2 & Hg). rewrite Hg in H1.
    apply calls_of_split in H1 as (k1 & k2 & -> & _ & _). apply consistent_app in Hc1 as [_ [Hans1 _]].
    simpl in Hans1. unfold GracefulShutdown in Hans1. rewrite (proj2 (Z.eqb_neq _ _) Hgr) in Hans1.
    apply elem_of_app. left. by apply (flag_from_signal ConnTracker_new).
  - intros k1 e k2 fd -> Hop.
    assert (Hempty : conns_ (tracker_after ConnTracker_new (k1 ++ e :: k2)) = ∅).
    { apply map_size_empty_inv. rewrite Hans in Hr. unfold GetConnSize in Hr.
      pose proof (conns_size ConnTracker_new (k1 ++ e :: k2)) as Hs. simpl in Hs. rewrite map_size_empty in Hs.
      rewrite length_app in Hlen. rewrite (wrap_id 32 (u32 _)) in Hr by (apply Z.mod_pos_bound; lia).
      rewrite wrap_id in Hr by lia. lia. }
    rewrite tracker_after_app in Hempty. apply (conn_stays fd (tracker_step (tracker_after ConnTracker_new k1) e)).
    + by apply conn_opened.
    + change (tracker_after (tracker_after ConnTracker_new k1) (e :: k2)) with
        (tracker_after (tracker_step (tracker_after ConnTracker_new k1) e) k2) in Hempty. by rewrite Hempty, lookup_empty.
Qed.

End process.

(** ** Witnesses *)

Definition demo_worker : ServerImpl :=
  mkServer ConnTracker_new [mkListener 5 (mkIP 0) 80 None (lit "tcp")] [] WM_WORKER [].
Abbreviation zero := (answer 0 0 []).
Abbreviation one := (answer 1 0 []).

(** What a listener calls for the connection [fd]. *)
Definition demo_accept (fd : Z) (graceful : resp) : list worker_event :=
  map (w_call 1) [(c_trylock, zero); (c_accept 5, answer fd 0 []); (c_unlock, zero); (c_fcntl_getfl fd, zero);
    (c_fcntl_setfl fd 2048, zero); (c_create_tcp fd 80 true, zero); (c_graceful, graceful)].

(** One connection, SIGHUP, another one, both end. *)
Definition demo_before : list worker_event :=
  w_call 0 (c_create_srv true 0, zero) :: demo_accept 7 zero ++
  [w_call 0 (c_sleep 1000, zero); w_call 0 (c_graceful, zero)].
Definition demo_closing : list worker_event :=
  demo_accept 8 one ++
  [w_call 0 (c_sleep 1000, zero); w_call 0 (c_graceful, one); w_call 0 (c_connsize, answer 2 0 []);
   w_delete (mkTcpReqWork 7 true); w_delete (mkTcpReqWork 8 true)].
Definition demo_last : list worker_event :=
  map (w_call 0) [(c_sleep 1000, zero); (c_graceful, one); (c_connsize, zero)].
Definition demo_history : list worker_event := demo_before ++ w_signal SIGHUP :: demo_closing ++ demo_last.

Definition demo_wm : world := os [zero; zero; zero; zero; one; answer 2 0 []; zero; one; zero].
Definition demo_wl (i : nat) : world :=
  os [zero; answer 7 0 []; zero; zero; zero; zero; zero; zero; answer 8 0 []; zero; zero; zero; zero; one].

Lemma demo_process : worker_process demo_worker (Some (fun _ => true)) demo_wm demo_wl demo_history.
Proof.
  split.
  - vm_compute. reflexivity.
  - intros [|i] l Hi _; [|done]. injection Hi as <-. vm_compute. reflexivity.
  - vm_compute. repeat split.
Qed.

Lemma graceful_shutdown_witness :
  (count enters (calls_of 1 (demo_closing ++ demo_last)) <= 1)%nat /\
  (count (fun e => negb (starts e)) (calls_of 0 demo_last) <= 3)%nat.
Proof.
  destruct (graceful_shutdown demo_worker (Some (fun _ => true)) demo_wm demo_wl demo_history
    demo_before demo_closing demo_last demo_process eq_refl) as [H1 H2].
  split.
  - exact (H1 0%nat _ eq_refl eq_refl).
  - apply H2; [vm_compute; reflexivity|]. unfold demo_last. repeat (apply Forall_cons; split; [intros []|]).
    apply Forall_nil. exact I.
Defined.

Lemma worker_exit_clean_witness :
  exists h1 r h2, demo_history = h1 ++ w_call 0 (c_connsize, r) :: h2 /\ calls_of 0 h2 = [] /\ w_signal SIGHUP ∈ h1.
Proof.
  assert (Hrun : exists t w', WorkerRun demo_worker demo_wm = Done tt t w') by (do 2 eexists; vm_compute; reflexivity).
  destruct Hrun as (t & w' & Hrun).
  destruct (worker_exit_clean demo_worker (Some (fun _ => true)) demo_wm demo_wl demo_history t w' demo_process Hrun
    ltac:(vm_compute; reflexivity)) as (h1 & r & h2 & E & H2 & Hs & _).
  exists h1, r, h2. split; [exact E|]. split; [exact H2|exact Hs].
Defined.
