(* ===== verification/SetProcTitle.v ===== *)
(** * Process titles: util/setproctitle.c

    The strings of the arguments and of the environment lie one behind the other
    in memory that [ps] shows; [spt_init] copies them away and [setproctitle]
    overwrites the place.  Memory is a finite map from addresses to bytes: reading
    or writing an address that is not mapped is a crash ([None]).  [malloc] hands
    out fresh memory or, when the environment says so, fails. *)

From S2P Require Import Prelude.

(** ** Memory *)

Definition NUL : ascii := Ascii.zero.

(** [next]: the first address that was never handed out; [mallocs]: whether the
    next allocations succeed (they do when the list is empty). *)
Record mem := mkMem { cells : gmap Z ascii; next : Z; mallocs : list bool }.

Definition set_cells (f : gmap Z ascii -> gmap Z ascii) (m : mem) : mem :=
  mkMem (f (cells m)) (next m) (mallocs m).

Definition store1 (a : Z) (c : ascii) (m : mem) : option mem :=
  if decide (is_Some (cells m !! a)) then Some (set_cells <[a := c]> m) else None.

Fixpoint store_bytes (a : Z) (b : bytes) (m : mem) : option mem :=
  match b with
  | [] => Some m
  | c :: b => m ← store1 a c m; store_bytes (a + 1) b m
  end.

Definition memset0 (a n : Z) : mem -> option mem := store_bytes a (replicate (Z.to_nat n) NUL).

(** The string at an address; the fuel is more than any string in memory needs. *)
Fixpoint cstr_fuel (n : nat) (a : Z) (m : mem) : option bytes :=
  match n with
  | O => None
  | S n =>
      c ← cells m !! a;
      if decide (c = NUL) then Some [] else s ← cstr_fuel n (a + 1) m; Some (c :: s)
  end.

Definition cstr (a : Z) (m : mem) : option bytes := cstr_fuel (S (size (cells m))) a m.
Definition strlen (a : Z) (m : mem) : option Z := (fun s => Z.of_nat (length s)) <$> cstr a m.

Fixpoint put (a : Z) (b : bytes) (f : gmap Z ascii) : gmap Z ascii :=
  match b with
  | [] => f
  | c :: b => put (a + 1) b (<[a := c]> f)
  end.

(** [malloc] and a copy of [b] with its terminator: 0 is the null pointer. *)
Definition new_string (b : bytes) (m : mem) : Z * mem :=
  let b := b ++ [NUL] in
  match mallocs m with
  | false :: l => (0, mkMem (cells m) (next m) l)
  | l => (next m, mkMem (put (next m) b (cells m)) (next m + Z.of_nat (length b)) (tail l))
  end.

Definition strdup (a : Z) (m : mem) : option (Z * mem) :=
  s ← cstr a m; Some (new_string s m).

(** ** State *)

Record SPT := mkSPT {
  arg0 : Z;
  base : Z;
  end_ : Z;
  nul : Z;
  reset : bool;
  spt_error : Z
}.

(** Zero-initialised. *)
Definition SPT0 : SPT := mkSPT 0 0 0 0 false 0.
Definition set_error (e : Z) (p : SPT) : SPT := mkSPT (arg0 p) (base p) (end_ p) (nul p) (reset p) e.

(** [environ] is the array of pointers before the terminating null. *)
Record process := mkProcess {
  pmem : mem;
  environ : list Z;
  argv : list Z;
  program_invocation_name : Z;
  program_invocation_short_name : Z;
  spt : SPT
}.

Definition ENOMEM : Z := 12.
Definition EINVAL : Z := 22.

Definition spt_min (a b : Z) : Z := if a <? b then a else b.

(** ** The environment *)

(** [setenv(name, value, 1)]: an entry "name=value" in fresh memory, in the place
    of one for the same name or at the end. *)
Fixpoint replace_env (name : bytes) (p : Z) (env : list Z) (m : mem) : option (list Z) :=
  match env with
  | [] => Some [p]
  | q :: env =>
      s ← cstr q m;
      if decide (take (S (length name)) s = name ++ ["="%char]) then Some (p :: env)
      else env ← replace_env name p env m; Some (q :: env)
  end.

(** The error, the environment and the memory. *)
Definition setenv (name value : bytes) (env : list Z) (m : mem) : option (Z * list Z * mem) :=
  if decide (name = []) then Some (EINVAL, env, m)
  else
    let '(p, m) := new_string (name ++ ["="%char] ++ value) m in
    if p =? 0 then Some (ENOMEM, env, m)
    else env ← replace_env name p env m; Some (0, env, m).

(** [strchr(s, '=')]: the offset. *)
Fixpoint find_eq (s : bytes) : option nat :=
  match s with
  | [] => None
  | c :: s => if decide (c = "="%char) then Some O else S <$> find_eq s
  end.

(** The loop over the old environment: the character at [eq] is a terminator
    while [setenv] reads the name. *)
Fixpoint copyenv_loop (oldenv : list Z) (env : list Z) (m : mem) : option (Z * list Z * mem) :=
  match oldenv with
  | [] => Some (0, env, m)
  | q :: oldenv =>
      s ← cstr q m;
      match find_eq s with
      | None => copyenv_loop oldenv env m
      | Some off =>
          let eq := q + Z.of_nat off in
          m ← store1 eq NUL m;
          name ← cstr q m; value ← cstr (eq + 1) m;
          '(error, env, m) ← setenv name value env m;
          m ← store1 eq "="%char m;
          if negb (error =? 0) then Some (error, env, m) else copyenv_loop oldenv env m
      end
  end.

(** The error and the environment: [clearenv] of the C library leaves an empty one. *)
Definition spt_clearenv (_ : list Z) : Z * list Z := (0, []).

(** [spt_copyenv(environ)] *)
Definition spt_copyenv (p : process) : option (Z * process) :=
  let oldenv := environ p in
  let '(error, env) := spt_clearenv oldenv in
  '(error, env, m) ← (if negb (error =? 0) then Some (error, env, pmem p)
                      else copyenv_loop oldenv env (pmem p));
  let env := if negb (error =? 0) then oldenv else env in
  Some (error, mkProcess m env (argv p) (program_invocation_name p)
                 (program_invocation_short_name p) (spt p)).

(** ** The arguments *)

(** [for (i = 1; i < argc || (i >= argc && argv[i]); i++)]; reading behind the end
    of the array is a crash. *)
Fixpoint copyargs_loop (i argc : Z) (l : list Z) (m : mem) : option (Z * list Z * mem) :=
  match l with
  | [] => None
  | a :: l =>
      if (i <? argc) || negb (a =? 0) then
        if a =? 0 then
          '(error, l, m) ← copyargs_loop (i + 1) argc l m; Some (error, a :: l, m)
        else
          '(tmp, m) ← strdup a m;
          if tmp =? 0 then Some (ENOMEM, a :: l, m)
          else '(error, l, m) ← copyargs_loop (i + 1) argc l m; Some (error, tmp :: l, m)
      else Some (0, a :: l, m)
  end.

Definition spt_copyargs (argc : Z) (p : process) : option (Z * process) :=
  match argv p with
  | [] => None
  | a :: l =>
      '(error, l, m) ← copyargs_loop 1 argc l (pmem p);
      Some (error, mkProcess m (environ p) (a :: l) (program_invocation_name p)
                     (program_invocation_short_name p) (spt p))
  end.

(** ** Initialisation *)

(** The end of the last argument that lies at or behind [end_]. *)
Fixpoint args_end (i argc : Z) (l : list Z) (e : Z) (m : mem) : option Z :=
  match l with
  | [] => None
  | a :: l =>
      if (i <? argc) || negb (a =? 0) then
        if (a =? 0) || (a <? e) then args_end (i + 1) argc l e m
        else n ← strlen a m; args_end (i + 1) argc l (a + n + 1) m
      else Some e
  end.

Fixpoint env_end (l : list Z) (e : Z) (m : mem) : option Z :=
  match l with
  | [] => Some e
  | a :: l => if a <? e then env_end l e m else n ← strlen a m; env_end l (a + n + 1) m
  end.

Definition set_pmem (m : mem) (p : process) : process :=
  mkProcess m (environ p) (argv p) (program_invocation_name p) (program_invocation_short_name p) (spt p).
Definition set_spt (s : SPT) (p : process) : process :=
  mkProcess (pmem p) (environ p) (argv p) (program_invocation_name p) (program_invocation_short_name p) s.
Definition set_prognames (a b : Z) (p : process) : process :=
  mkProcess (pmem p) (environ p) (argv p) a b (spt p).

(** [goto error] *)
Definition spt_fail (error : Z) (p : process) : option process :=
  Some (set_spt (set_error error (spt p)) p).

(** From the copies of the program's names on. *)
Definition spt_copy_all (argc b e n : Z) (p : process) : option process :=
  '(t1, m) ← strdup (program_invocation_name p) (pmem p);
  let p := set_pmem m p in
  if t1 =? 0 then spt_fail ENOMEM p
  else
    let p := set_prognames t1 (program_invocation_short_name p) p in
    '(t2, m) ← strdup (program_invocation_short_name p) (pmem p);
    let p := set_pmem m p in
    if t2 =? 0 then spt_fail ENOMEM p
    else
      let p := set_prognames t1 t2 p in
      '(error, p) ← spt_copyenv p;
      if negb (error =? 0) then spt_fail error p
      else
        '(error, p) ← spt_copyargs argc p;
        if negb (error =? 0) then spt_fail error p
        else Some (set_spt (mkSPT (arg0 (spt p)) b e n (reset (spt p)) (spt_error (spt p))) p).

Definition spt_init (argc : Z) (p : process) : option process :=
  b ← head (argv p);
  if b =? 0 then Some p
  else
    len ← strlen b (pmem p);
    let n := b + len in
    e ← args_end 0 argc (argv p) (n + 1) (pmem p);
    e ← env_end (environ p) e (pmem p);
    '(tmp, m) ← strdup b (pmem p);
    let s := spt p in
    let p := set_spt (mkSPT tmp (base s) (end_ s) (nul s) (reset s) (spt_error s)) (set_pmem m p) in
    if tmp =? 0 then spt_fail ENOMEM p else spt_copy_all argc b e n p.

(** ** Setting the title *)

Definition SPT_MAXTITLE : Z := 255.

(** What [vsnprintf] left in [buf], and its result; [None] for a null format. *)
Definition title_buf (fmt : option bytes) (p : process) : option (bytes * Z) :=
  text ← match fmt with Some t => Some t | None => cstr (arg0 (spt p)) (pmem p) end;
  Some (take (Z.to_nat SPT_MAXTITLE) text, Z.of_nat (length text)).

(** The last step: how [ps] is told where the title ends. *)
Definition mark_end (s : SPT) (n : Z) (m : mem) : option mem :=
  if n <? nul s then store1 (nul s) "."%char m
  else if (n =? nul s) && (n + 1 <? end_ s) then
    m ← store1 (nul s) " "%char m; store1 (n + 1) NUL m
  else Some m.

Definition set_reset (s : SPT) : SPT := mkSPT (arg0 s) (base s) (end_ s) (nul s) true (spt_error s).

(** [errno] is the error of a failed [vsnprintf]. *)
Definition setproctitle (errno : Z) (fmt : option bytes) (p : process) : option process :=
  let s := spt p in
  if base s =? 0 then Some p
  else
    '(buf, len) ← title_buf fmt p;
    if len <=? 0 then spt_fail errno p
    else
      let room := end_ s - base s in
      m ← (if negb (reset s) then memset0 (base s) room (pmem p)
           else memset0 (base s) (spt_min (SPT_MAXTITLE + 1) room) (pmem p));
      let p := set_spt (set_reset s) p in
      let len := spt_min len (spt_min (SPT_MAXTITLE + 1) room - 1) in
      m ← store_bytes (base s) (take (Z.to_nat len) buf) m;
      m ← mark_end s (base s + len) m;
      Some (set_pmem m p).
