(* ===== verification/SetProcTitleProps.v ===== *)
(** * Properties of the process titles *)

From S2P Require Import Prelude SetProcTitle.

(** ** Bytes in memory *)

(** [b] lies at address [a]. *)
Definition at_ (f : gmap Z ascii) (a : Z) (b : bytes) : Prop :=
  forall i c, b !! i = Some c -> f !! (a + Z.of_nat i) = Some c.

Lemma at_nil f a : at_ f a [].
Proof. by intros i c. Qed.

Lemma at_cons f a c b : at_ f a (c :: b) <-> (f !! a = Some c /\ at_ f (a + 1) b).
Proof.
  split.
  - intros H. split; [by rewrite <- (H 0%nat c eq_refl), Z.add_0_r|].
    intros i d Hi. rewrite <- (H (S i) d Hi). f_equal. lia.
  - intros [Hc H] [|i] d Hi; simpl in Hi; [by simplify_eq; rewrite Z.add_0_r|].
    rewrite <- (H i d Hi). f_equal. lia.
Qed.

Lemma at_app f a b d : at_ f a (b ++ d) <-> (at_ f a b /\ at_ f (a + Z.of_nat (length b)) d).
Proof.
  revert a. induction b as [|c b IH]; intros a; simpl.
  - rewrite Z.add_0_r. split; [intros; by split; [apply at_nil|]|by intros [_ ?]].
  - rewrite !at_cons, IH. replace (a + 1 + Z.of_nat (length b)) with (a + Z.of_nat (S (length b))) by lia. tauto.
Qed.

(** Two memories that agree on the place of [b]. *)
Lemma at_agree f g a b :
  at_ f a b -> (forall x, a <= x < a + Z.of_nat (length b) -> g !! x = f !! x) -> at_ g a b.
Proof.
  intros H Hg i c Hi. rewrite Hg; [by apply H|]. apply lookup_lt_Some in Hi. lia.
Qed.

(** A memory with a string in it has at least as many cells. *)
Lemma at_size f a b : at_ f a b -> (length b <= size f)%nat.
Proof.
  intros H. rewrite <- size_dom.
  assert (Hsub : list_to_set (seqZ a (Z.of_nat (length b))) ⊆ dom f).
  { intros x. rewrite elem_of_list_to_set, elem_of_seqZ. intros Hx.
    destruct (lookup_lt_is_Some_2 b (Z.to_nat (x - a))) as [c Hc]; [lia|].
    apply elem_of_dom. exists c. rewrite <- (H _ _ Hc). f_equal. lia. }
  apply subseteq_size in Hsub. rewrite size_list_to_set in Hsub by apply NoDup_seqZ.
  rewrite length_seqZ in Hsub. lia.
Qed.

Lemma cstr_fuel_spec n a m s :
  cstr_fuel n a m = Some s <-> ((length s < n)%nat /\ (NUL ∉ s) /\ at_ (cells m) a (s ++ [NUL])).
Proof.
  revert a s. induction n as [|n IH]; intros a s; [split; [done|intros [? _]; lia]|]. simpl.
  destruct (cells m !! a) as [c|] eqn:Hc; simpl.
  2:{ split; [done|]. intros (_ & _ & H). destruct s; simpl in H; apply at_cons in H as [H _]; congruence. }
  case_decide as Hd.
  - subst c. split.
    + intros [= <-]. split_and!; [simpl; lia|by apply not_elem_of_nil|]. apply at_cons. split; [done|apply at_nil].
    + intros (_ & Hn & H). destruct s as [|d s]; [done|]. simpl in H. apply at_cons in H as [H _].
      simplify_eq. set_solver.
  - destruct (cstr_fuel n (a + 1) m) as [s'|] eqn:E; simpl.
    + apply IH in E as (H1 & H2 & H3). split.
      * intros [= <-]. split_and!; [simpl; lia|set_solver|]. simpl. by apply at_cons.
      * intros (H4 & H5 & H6). destruct s as [|d s]; simpl in H6; apply at_cons in H6 as [H6 H7]; [congruence|].
        assert (E' : cstr_fuel n (a + 1) m = Some s) by (apply IH; split_and!; [simpl in H4; lia|set_solver|done]).
        assert (E'' : cstr_fuel n (a + 1) m = Some s') by (by apply IH). congruence.
    + split; [done|]. intros (H4 & H5 & H6). destruct s as [|d s]; simpl in H6; apply at_cons in H6 as [H6 H7]; [congruence|].
      assert (E' : cstr_fuel n (a + 1) m = Some s) by (apply IH; split_and!; [simpl in H4; lia|set_solver|done]).
      congruence.
Qed.

(** The fuel is always enough: [cstr] finds exactly the strings in memory. *)
Lemma cstr_spec a m s : cstr a m = Some s <-> ((NUL ∉ s) /\ at_ (cells m) a (s ++ [NUL])).
Proof.
  unfold cstr. rewrite cstr_fuel_spec. split; [tauto|]. intros [H1 H2]. split; [|done].
  apply at_size in H2. rewrite length_app in H2. simpl in H2. lia.
Qed.

(** A string survives changes elsewhere. *)
Lemma cstr_agree a m m' s :
  cstr a m = Some s ->
  (forall x, a <= x <= a + Z.of_nat (length s) -> cells m' !! x = cells m !! x) -> cstr a m' = Some s.
Proof.
  rewrite !cstr_spec. intros [H1 H2] H. split; [done|]. eapply at_agree; [exact H2|].
  intros x Hx. apply H. rewrite length_app in Hx. simpl in Hx. lia.
Qed.

(** ** Writing *)

Definition inside (a n x : Z) : Prop := a <= x < a + n.

Lemma store_bytes_spec a b m :
  (forall x, inside a (Z.of_nat (length b)) x -> is_Some (cells m !! x)) ->
  exists m', store_bytes a b m = Some m' /\ next m' = next m /\ mallocs m' = mallocs m /\
    at_ (cells m') a b /\ forall x, ~ inside a (Z.of_nat (length b)) x -> cells m' !! x = cells m !! x.
Proof.
  unfold inside. revert a m. induction b as [|c b IH]; intros a m Hmap; simpl.
  - by exists m.
  - unfold store1. rewrite decide_True by (apply Hmap; simpl; lia). simpl.
    destruct (IH (a + 1) (set_cells <[a:=c]> m)) as (m' & E & En & Em & Hat & Hout).
    { intros x Hx. simpl. destruct (decide (x = a)) as [->|]; [rewrite lookup_insert_eq; by eexists|].
      rewrite lookup_insert_ne by done. apply Hmap. simpl. lia. }
    exists m'. split_and!; try done.
    + apply at_cons. split; [|done]. rewrite Hout by lia. simpl. by rewrite lookup_insert_eq.
    + intros x Hx. rewrite Hout by lia. simpl. rewrite lookup_insert_ne; [done|]. lia.
Qed.

Lemma put_spec a b f :
  at_ (put a b f) a b /\ forall x, ~ inside a (Z.of_nat (length b)) x -> put a b f !! x = f !! x.
Proof.
  unfold inside. revert a f. induction b as [|c b IH]; intros a f; simpl; [split; [apply at_nil|done]|].
  destruct (IH (a + 1) (<[a:=c]> f)) as [Hat Hout]. split.
  - apply at_cons. split; [|done]. rewrite Hout by lia. by rewrite lookup_insert_eq.
  - intros x Hx. rewrite Hout by lia. rewrite lookup_insert_ne; [done|]. lia.
Qed.

(** Everything that is mapped was handed out; addresses are positive. *)
Definition mem_ok (m : mem) : Prop :=
  0 < next m /\ forall a, is_Some (cells m !! a) -> 0 < a < next m.

(** [m'] has the old contents and possibly new memory. *)
Definition extends (m m' : mem) : Prop :=
  mem_ok m' /\ next m <= next m' /\ forall a, a < next m -> cells m' !! a = cells m !! a.

Lemma extends_refl m : mem_ok m -> extends m m.
Proof. intros. split; [done|]. split; [lia|done]. Qed.
Lemma extends_trans m1 m2 m3 : extends m1 m2 -> extends m2 m3 -> extends m1 m3.
Proof.
  intros (H1 & H2 & H3) (H4 & H5 & H6). split; [done|]. split; [lia|].
  intros a Ha. rewrite H6 by lia. by apply H3.
Qed.

Lemma cstr_below a m s : mem_ok m -> cstr a m = Some s -> 0 < a /\ a + Z.of_nat (length s) < next m.
Proof.
  intros [_ Hok] [_ H]%cstr_spec. apply at_app in H as [H1 H2]. apply at_cons in H2 as [H2 _].
  split; [|by apply Hok; eexists]. assert (is_Some (cells m !! a)) as [? ?]%Hok; [|done].
  destruct s as [|c s]; simpl in *; [replace (a + Z.of_nat 0) with a in H2 by lia|apply at_cons in H1 as [H1 _]];
    by eexists.
Qed.

Lemma cstr_extends a m m' s : mem_ok m -> extends m m' -> cstr a m = Some s -> cstr a m' = Some s.
Proof.
  intros Hok (_ & _ & He) Hs. pose proof (cstr_below _ _ _ Hok Hs) as [_ Hb].
  eapply cstr_agree; [exact Hs|]. intros x Hx. apply He. lia.
Qed.

Lemma new_string_spec b m p m' :
  mem_ok m -> NUL ∉ b -> new_string b m = (p, m') ->
  extends m m' /\ (p <> 0 -> next m <= p /\ cstr p m' = Some b).
Proof.
  intros [H0 Hok] Hb E. unfold new_string in E.
  assert (Hgood : forall l, (p, m') =
    (next m, mkMem (put (next m) (b ++ [NUL]) (cells m)) (next m + Z.of_nat (length (b ++ [NUL]))) l) ->
    extends m m' /\ (p <> 0 -> next m <= p /\ cstr p m' = Some b)).
  { intros l [= -> ->]. destruct (put_spec (next m) (b ++ [NUL]) (cells m)) as [Hat Hout].
    unfold inside in Hout. split; [|intros _; split; [done|by apply cstr_spec]].
    split; [|split; [simpl; lia|intros a Ha; apply Hout; lia]]. split; [simpl; lia|]. simpl. intros a [c Hc]. destruct (decide (next m <= a < next m + Z.of_nat (length (b ++ [NUL])))) as [|Hn]; [lia|].
    rewrite Hout in Hc by done. assert (0 < a < next m) by (apply Hok; by eexists). lia. }
  destruct (mallocs m) as [|[] l] eqn:El; [by apply (Hgood [])|by apply (Hgood l)|].
  injection E as <- <-. split; [|done]. split; [by split|]. split; [simpl; lia|done].
Qed.

Lemma strdup_spec a m p m' :
  mem_ok m -> strdup a m = Some (p, m') ->
  extends m m' /\ (p <> 0 -> next m <= p /\ cstr p m' = cstr a m).
Proof.
  intros Hok E. unfold strdup in E. destruct (cstr a m) as [s|] eqn:Es; [|done]. simpl in E.
  injection E as E. apply cstr_spec in Es as [Hn _]. by apply (new_string_spec s m p m').
Qed.

(** ** The title *)

(** The place of the title is mapped, and [nul] lies in it. *)
Definition place_ok (s : SPT) (m : mem) : Prop :=
  base s <= nul s < end_ s /\ forall x, base s <= x < end_ s -> is_Some (cells m !! x).

Definition title_len (s : SPT) (text : bytes) : Z :=
  spt_min (Z.of_nat (length text)) (spt_min (SPT_MAXTITLE + 1) (end_ s - base s) - 1).

(** What is shown: the title cut to the room there is, with a blank when it ends
    where the old first argument ended and there is room for one. *)
Definition shown (s : SPT) (text : bytes) : bytes :=
  take (Z.to_nat (title_len s text)) text ++
  if (base s + title_len s text =? nul s) && (base s + title_len s text + 1 <? end_ s) then [" "%char] else [].

Lemma spt_min_spec a b : spt_min a b = Z.min a b.
Proof. unfold spt_min. destruct (Z.ltb_spec a b); lia. Qed.

Lemma title_len_bounds s m text :
  place_ok s m -> 0 <= title_len s text <= Z.of_nat (length text) /\
  title_len s text < end_ s - base s /\ title_len s text <= 255.
Proof. intros [H _]. unfold title_len, SPT_MAXTITLE. rewrite !spt_min_spec. lia. Qed.

Lemma store1_spec a c m :
  is_Some (cells m !! a) -> store1 a c m = Some (set_cells <[a := c]> m).
Proof. intros H. unfold store1. by rewrite decide_True. Qed.

Lemma mark_end_spec s t m :
  place_ok s m -> base s + Z.of_nat (length t) < end_ s -> NUL ∉ t ->
  at_ (cells m) (base s) (t ++ [NUL]) ->
  let n := base s + Z.of_nat (length t) in
  exists m', mark_end s n m = Some m' /\ next m' = next m /\
    cstr (base s) m' = Some (t ++ if (n =? nul s) && (n + 1 <? end_ s) then [" "%char] else []) /\
    forall x, ~ (base s <= x < end_ s) -> cells m' !! x = cells m !! x.
Proof.
  intros [Hnul Hmap] Hroom Ht Hat n. unfold mark_end.
  destruct (Z.ltb_spec n (nul s)) as [Hlt|Hge].
  { rewrite store1_spec by (apply Hmap; lia). eexists. split; [done|]. split; [done|]. split.
    - rewrite (proj2 (Z.eqb_neq _ _)) by lia. simpl. rewrite app_nil_r. apply cstr_spec. split; [done|].
      eapply at_agree; [exact Hat|]. rewrite length_app. simpl. intros x Hx. apply lookup_insert_ne. lia.
    - intros x Hx. simpl. apply lookup_insert_ne. lia. }
  destruct ((n =? nul s) && (n + 1 <? end_ s)) eqn:E.
  - apply andb_prop in E as [E1%Z.eqb_eq E2%Z.ltb_lt].
    rewrite store1_spec by (apply Hmap; lia). cbn [mbind option_bind].
    rewrite store1_spec by (simpl; rewrite lookup_insert_ne by lia; apply Hmap; lia).
    eexists. split; [done|]. split; [done|]. split.
    + apply cstr_spec. split; [rewrite elem_of_app, list_elem_of_singleton; by intros [?|?]|].
      rewrite <- app_assoc. apply at_app in Hat as [Hat _]. apply at_app. split.
      * eapply at_agree; [exact Hat|]. intros x Hx. simpl. rewrite !lookup_insert_ne by lia. done.
      * fold n. simpl. rewrite <- E1. apply at_cons. split; [|apply at_cons; split; [|apply at_nil]].
        -- rewrite lookup_insert_ne by lia. by rewrite lookup_insert_eq.
        -- by rewrite lookup_insert_eq.
    + intros x Hx. simpl. rewrite !lookup_insert_ne by lia. done.
  - exists m. split; [done|]. split; [done|]. split; [|done]. rewrite app_nil_r. by apply cstr_spec.
Qed.

(** Clearing and writing, for a title of [len] bytes in a place of which at least
    [len + 1] bytes are cleared. *)
Lemma write_title b n t m :
  0 <= n -> Z.of_nat (length t) < n -> (forall x, b <= x < b + n -> is_Some (cells m !! x)) ->
  exists m1 m2, memset0 b n m = Some m1 /\ store_bytes b t m1 = Some m2 /\ next m2 = next m /\
    at_ (cells m2) b (t ++ [NUL]) /\
    (forall x, is_Some (cells m !! x) -> is_Some (cells m2 !! x)) /\
    forall x, ~ (b <= x < b + n) -> cells m2 !! x = cells m !! x.
Proof.
  intros Hn Ht Hmap. unfold memset0.
  destruct (store_bytes_spec b (replicate (Z.to_nat n) NUL) m) as (m1 & E1 & N1 & _ & A1 & O1).
  { unfold inside. rewrite length_replicate. intros x Hx. apply Hmap. lia. }
  unfold inside in O1. rewrite length_replicate in O1.
  assert (Hz : forall x, b <= x < b + n -> cells m1 !! x = Some NUL).
  { intros x Hx. specialize (A1 (Z.to_nat (x - b)) NUL). rewrite lookup_replicate in A1.
    rewrite <- A1 by (split; [done|lia]). f_equal. lia. }
  destruct (store_bytes_spec b t m1) as (m2 & E2 & N2 & _ & A2 & O2).
  { unfold inside. intros x Hx. rewrite Hz by lia. by eexists. }
  unfold inside in O2. exists m1, m2. split_and!; try done.
  - congruence.
  - apply at_app. split; [done|]. apply at_cons. split; [|apply at_nil]. rewrite O2 by lia. apply Hz. lia.
  - intros x Hx. destruct (decide (b <= x < b + Z.of_nat (length t))) as [Hin|Hout].
    + destruct (lookup_lt_is_Some_2 t (Z.to_nat (x - b))) as [c Hc]; [lia|]. exists c.
      rewrite <- (A2 _ _ Hc). f_equal. lia.
    + rewrite O2 by done. destruct (decide (b <= x < b + n)) as [Hin|Ho2]; [rewrite Hz by done; by eexists|].
      rewrite O1 by lia. done.
  - intros x Hx. rewrite O2 by lia. apply O1. lia.
Qed.

(** The whole of [setproctitle] after [spt_init]. *)
Lemma setproctitle_spec e text p :
  base (spt p) <> 0 -> place_ok (spt p) (pmem p) -> text <> [] -> NUL ∉ text ->
  exists p', setproctitle e (Some text) p = Some p' /\
    cstr (base (spt p)) (pmem p') = Some (shown (spt p) text) /\
    spt p' = set_reset (spt p) /\ environ p' = environ p /\ argv p' = argv p /\
    next (pmem p') = next (pmem p) /\
    forall x, ~ (base (spt p) <= x < end_ (spt p)) -> cells (pmem p') !! x = cells (pmem p) !! x.
Proof.
  intros Hb Hok Hne Hn. pose proof (title_len_bounds _ _ text Hok) as (Hl0 & Hl1 & Hl2).
  pose proof Hok as [Hnul Hmap]. unfold setproctitle. rewrite (proj2 (Z.eqb_neq _ _)) by done.
  unfold title_buf. cbn [mbind option_bind].
  destruct (Z.leb_spec (Z.of_nat (length text)) 0) as [Hz|_]; [destruct text; [done|simpl in Hz; lia]|].
  fold (title_len (spt p) text). set (len := title_len (spt p) text) in *.
  assert (Ht : take (Z.to_nat len) (take (Z.to_nat SPT_MAXTITLE) text) = take (Z.to_nat len) text).
  { rewrite take_take. f_equal. unfold SPT_MAXTITLE. lia. }
  rewrite Ht. set (t := take (Z.to_nat len) text).
  assert (Htl : Z.of_nat (length t) = len) by (unfold t; rewrite length_take; lia).
  assert (Hw : forall n, len < n -> n <= end_ (spt p) - base (spt p) ->
    (if negb (reset (spt p)) then memset0 (base (spt p)) (end_ (spt p) - base (spt p)) (pmem p)
     else memset0 (base (spt p)) (spt_min (SPT_MAXTITLE + 1) (end_ (spt p) - base (spt p))) (pmem p)) =
    memset0 (base (spt p)) n (pmem p) ->
    exists p', (m ← (if negb (reset (spt p)) then memset0 (base (spt p)) (end_ (spt p) - base (spt p)) (pmem p)
     else memset0 (base (spt p)) (spt_min (SPT_MAXTITLE + 1) (end_ (spt p) - base (spt p))) (pmem p));
     m ← store_bytes (base (spt p)) t m;
     m ← mark_end (spt p) (base (spt p) + len) m;
     Some (set_pmem m (set_spt (set_reset (spt p)) p))) = Some p' /\
    cstr (base (spt p)) (pmem p') = Some (shown (spt p) text) /\
    spt p' = set_reset (spt p) /\ environ p' = environ p /\ argv p' = argv p /\
    next (pmem p') = next (pmem p) /\
    forall x, ~ (base (spt p) <= x < end_ (spt p)) -> cells (pmem p') !! x = cells (pmem p) !! x).
  { intros n Hn1 Hn2 ->.
    destruct (write_title (base (spt p)) n t (pmem p)) as (m1 & m2 & -> & E2 & Enx & Hat & Hmp & Hout);
      [lia|lia|intros x Hx; apply Hmap; lia|].
    cbn [mbind option_bind]. rewrite E2. cbn [mbind option_bind]. rewrite <- Htl.
    destruct (mark_end_spec (spt p) t m2) as (m3 & -> & Enx3 & Hc & Ho3); [|lia|unfold t|done|].
    - split; [done|]. intros x Hx. by apply Hmp, Hmap.
    - intros Hin. apply Hn. exact (subseteq_take _ _ _ Hin).
    - cbn [mbind option_bind]. eexists. split; [done|]. cbn [pmem set_pmem set_spt spt environ argv].
      split_and!; try done.
      + rewrite Hc. unfold shown. fold len t. by rewrite Htl.
      + congruence.
      + intros x Hx. rewrite Ho3 by done. apply Hout. lia. }
  destruct (reset (spt p)); cbn [negb] in Hw |- *.
  - apply (Hw (spt_min (SPT_MAXTITLE + 1) (end_ (spt p) - base (spt p)))); [|rewrite spt_min_spec; lia|done].
    rewrite spt_min_spec. unfold len, title_len. rewrite !spt_min_spec. unfold SPT_MAXTITLE in *. lia.
  - by apply (Hw (end_ (spt p) - base (spt p))).
Qed.

(** Writing unmaps nothing. *)
Lemma store1_mapped a c m m' x :
  store1 a c m = Some m' -> is_Some (cells m !! x) -> is_Some (cells m' !! x).
Proof.
  unfold store1. case_decide; [|done]. intros [= <-] Hx. simpl.
  destruct (decide (x = a)) as [->|]; [rewrite lookup_insert_eq; by eexists|by rewrite lookup_insert_ne].
Qed.

Lemma store_bytes_mapped a b m m' x :
  store_bytes a b m = Some m' -> is_Some (cells m !! x) -> is_Some (cells m' !! x).
Proof.
  revert a m. induction b as [|c b IH]; intros a m; simpl; [by intros [= <-]|].
  destruct (store1 a c m) as [m1|] eqn:E; [|done]. simpl. intros E' Hx.
  eapply IH; [exact E'|]. by eapply store1_mapped.
Qed.

Lemma mark_end_mapped s n m m' x :
  mark_end s n m = Some m' -> is_Some (cells m !! x) -> is_Some (cells m' !! x).
Proof.
  unfold mark_end. destruct (n <? nul s); [apply store1_mapped|].
  destruct (_ && _); [|by intros [= <-]].
  destruct (store1 (nul s) " "%char m) as [m1|] eqn:E; [|done]. simpl. intros E' Hx.
  eapply store1_mapped; [exact E'|]. by eapply store1_mapped.
Qed.

Lemma setproctitle_mapped e fmt p p' x :
  setproctitle e fmt p = Some p' -> is_Some (cells (pmem p) !! x) -> is_Some (cells (pmem p') !! x).
Proof.
  unfold setproctitle, spt_fail. destruct (base (spt p) =? 0); [by intros [= <-]|].
  destruct (title_buf fmt p) as [[buf len]|]; [|done]. cbn [mbind option_bind].
  destruct (len <=? 0); [by intros [= <-]|].
  destruct (if negb (reset (spt p)) then _ else _) as [m1|] eqn:E1; [|done].
  cbn [mbind option_bind].
  destruct (store_bytes _ _ m1) as [m2|] eqn:E2; [|done]. cbn [mbind option_bind].
  destruct (mark_end _ _ m2) as [m3|] eqn:E3; [|done]. cbn [mbind option_bind]. intros [= <-] Hx. simpl.
  eapply mark_end_mapped; [exact E3|]. eapply store_bytes_mapped; [exact E2|].
  unfold memset0 in E1. destruct (negb _); by eapply store_bytes_mapped.
Qed.

(** ** The environment *)

(** An environment string as name and value. *)
Definition env_of (m : mem) (q : Z) : option (bytes * bytes) :=
  s ← cstr q m; off ← find_eq s; Some (take off s, drop (S off) s).

(** What [getenv] sees: the first entry of a name counts. *)
Definition envmap (env : list Z) (m : mem) : gmap bytes bytes := list_to_map (omap (env_of m) env).

(** Strings that lie behind [lo]. *)
Definition fresh_strings (lo : Z) (l : list Z) (m : mem) : Prop :=
  Forall (fun q => lo <= q /\ is_Some (cstr q m)) l.

Lemma find_eq_spec s off :
  find_eq s = Some off -> s !! off = Some "="%char /\ "="%char ∉ take off s.
Proof.
  revert off. induction s as [|c s IH]; intros off; simpl; [done|]. case_decide as Hc.
  - intros [= <-]. subst. split; [done|]. apply not_elem_of_nil.
  - destruct (find_eq s) as [o|]; [|done]. intros [= <-]. destruct (IH o eq_refl) as [H1 H2].
    split; [done|]. simpl. by intros [?|?]%elem_of_cons.
Qed.

Lemma find_eq_app name rest : "="%char ∉ name -> find_eq (name ++ "="%char :: rest) = Some (length name).
Proof.
  induction name as [|c name IH]; intros Hn; simpl; [done|].
  rewrite decide_False by set_solver. rewrite IH by set_solver. done.
Qed.

(** The test of [setenv] for an entry of the same name. *)
Lemma env_prefix m q s name :
  cstr q m = Some s -> "="%char ∉ name ->
  (take (S (length name)) s = name ++ ["="%char] <-> fst <$> env_of m q = Some name).
Proof.
  intros Hs Hn. unfold env_of. rewrite Hs. simpl. split.
  - intros Ht. assert (Es : s = name ++ "="%char :: drop (S (length name)) s).
    { rewrite <- (take_drop (S (length name)) s) at 1. rewrite Ht, <- app_assoc. done. }
    rewrite Es, find_eq_app by done. simpl. by rewrite take_app_length.
  - destruct (find_eq s) as [off|] eqn:E; [|done]. simpl. intros [= Hname].
    apply find_eq_spec in E as [Hc _].
    assert (Hl : length name = off).
    { rewrite <- Hname, length_take. apply lookup_lt_Some in Hc. lia. }
    rewrite (take_S_r _ _ "="%char) by (by rewrite Hl). by rewrite Hl, Hname.
Qed.

Lemma omap_env_agree l m m' :
  Forall (fun q => cstr q m' = cstr q m) l -> omap (env_of m') l = omap (env_of m) l.
Proof.
  intros H. induction H as [|q l Hq Hl IH]; [done|].
  assert (E : env_of m' q = env_of m q) by (unfold env_of; by rewrite Hq).
  csimpl. by rewrite E, IH.
Qed.

Lemma envmap_agree l m m' :
  Forall (fun q => cstr q m' = cstr q m) l -> envmap l m' = envmap l m.
Proof. intros H. unfold envmap. by rewrite (omap_env_agree _ _ _ H). Qed.

Lemma fresh_same lo l m m' :
  fresh_strings lo l m -> (forall q, lo <= q -> is_Some (cstr q m) -> cstr q m' = cstr q m) ->
  fresh_strings lo l m' /\ envmap l m' = envmap l m.
Proof.
  intros H Hs. split.
  - eapply Forall_impl; [exact H|]. intros q [H1 H2]. by rewrite Hs.
  - apply envmap_agree. eapply Forall_impl; [exact H|]. intros q [H1 H2]. by apply Hs.
Qed.

Lemma fresh_agree lo l m m' :
  fresh_strings lo l m -> (forall x, lo <= x -> cells m' !! x = cells m !! x) ->
  fresh_strings lo l m' /\ envmap l m' = envmap l m.
Proof.
  intros H Hag. apply fresh_same; [done|]. intros q Hq [s Hs]. rewrite Hs.
  eapply cstr_agree; [exact Hs|]. intros x Hx. apply Hag. lia.
Qed.

Lemma fresh_extends lo l m m' :
  mem_ok m -> fresh_strings lo l m -> extends m m' ->
  fresh_strings lo l m' /\ envmap l m' = envmap l m.
Proof.
  intros Hok H He. apply fresh_same; [done|]. intros q Hq [s Hs]. rewrite Hs.
  by eapply cstr_extends.
Qed.

Lemma replace_env_spec lo name value p env m env' :
  "="%char ∉ name -> env_of m p = Some (name, value) -> lo <= p -> is_Some (cstr p m) ->
  fresh_strings lo env m -> replace_env name p env m = Some env' ->
  fresh_strings lo env' m /\ envmap env' m = <[name := value]> (envmap env m).
Proof.
  intros Hn Hp Hlo Hsome Hf. revert env'.
  induction Hf as [|q env [Hq [s Hs]] Henv IH]; intros env'; simpl.
  - intros [= <-]. split; [by repeat constructor|]. unfold envmap. simpl. by rewrite Hp.
  - rewrite Hs. simpl. pose proof (env_prefix m q s name Hs Hn) as Hpre. case_decide as Hd.
    + intros [= <-]. split; [by constructor|]. unfold envmap. csimpl. rewrite Hp.
      apply Hpre in Hd. destruct (env_of m q) as [[n v]|]; [|done]. simpl in Hd. simplify_eq.
      simpl. by rewrite insert_insert_eq.
    + destruct (replace_env name p env m) as [env1|] eqn:E; [|done]. simpl. intros [= <-].
      destruct (IH env1 eq_refl) as [H1 H2]. split; [constructor; [split; [done|by eexists]|done]|].
      unfold envmap in *. csimpl. destruct (env_of m q) as [[n v]|] eqn:Eq; [|done].
      csimpl. rewrite H2, insert_insert_ne; [done|]. intros ->. by apply Hd, Hpre.
Qed.

Lemma setenv_spec lo name value env m err env' m' :
  mem_ok m -> lo <= next m -> NUL ∉ name -> NUL ∉ value -> "="%char ∉ name ->
  fresh_strings lo env m -> setenv name value env m = Some (err, env', m') ->
  extends m m' /\ (err = 0 -> fresh_strings lo env' m' /\ envmap env' m' = <[name := value]> (envmap env m)).
Proof.
  intros Hok Hlo Hn1 Hn2 Hn3 Hf E. unfold setenv in E. case_decide.
  { simplify_eq. split; [by apply extends_refl|done]. }
  destruct (new_string _ m) as [p m1] eqn:Enew.
  assert (Hn : NUL ∉ name ++ ["="%char] ++ value).
  { rewrite !elem_of_app, list_elem_of_singleton. by intros [?|[?|?]]. }
  destruct (new_string_spec _ _ _ _ Hok Hn Enew) as [He Hp].
  destruct (Z.eqb_spec p 0) as [_|Hp0]; [simplify_eq; split; [done|intros E; discriminate E]|].
  destruct (Hp Hp0) as [Hlow Hs]. destruct (replace_env name p env m1) as [env1|] eqn:Er; [|done].
  simpl in E. simplify_eq. split; [done|]. intros _.
  destruct (fresh_extends lo env m m' Hok Hf He) as [Hf' <-].
  apply (replace_env_spec lo name value p env m'); [done| |lia|by eexists|done|exact Er].
  unfold env_of. rewrite Hs. simpl. rewrite find_eq_app by done. simpl.
  rewrite take_app_length. f_equal. f_equal.
  by rewrite drop_app_ge, Nat.sub_succ_l, Nat.sub_diag by lia.
Qed.

(** The dance with the terminator: for a moment the entry [name=value] at [q] is
    the two strings [name] and [value]. *)
Lemma split_entry q s off m :
  mem_ok m -> cstr q m = Some s -> find_eq s = Some off ->
  exists m1, store1 (q + Z.of_nat off) NUL m = Some m1 /\ mem_ok m1 /\ next m1 = next m /\
    cstr q m1 = Some (take off s) /\ cstr (q + Z.of_nat off + 1) m1 = Some (drop (S off) s) /\
    (forall x, x <> q + Z.of_nat off -> cells m1 !! x = cells m !! x) /\
    cells m !! (q + Z.of_nat off) = Some "="%char.
Proof.
  intros [H0 Hok] Hs Hf. apply find_eq_spec in Hf as [Hc _]. apply cstr_spec in Hs as [Hn Hat].
  assert (Es : s = take off s ++ "="%char :: drop (S off) s) by (by rewrite take_drop_middle).
  assert (Hl : length (take off s) = off) by (rewrite length_take; apply lookup_lt_Some in Hc; lia).
  set (a := q + Z.of_nat off) in *.
  assert (Hcell : cells m !! a = Some "="%char) by (apply Hat; by apply lookup_app_l_Some).
  rewrite Es, <- app_assoc in Hat. apply at_app in Hat as [Hat1 Hat2]. rewrite Hl in Hat2. fold a in Hat2.
  simpl in Hat2. apply at_cons in Hat2 as [_ Hat2].
  assert (Hin : forall x, x ∈ take off s \/ x ∈ drop (S off) s -> x ∈ s).
  { intros x [Hx|Hx]; [exact (subseteq_take _ _ _ Hx)|exact (subseteq_drop _ _ _ Hx)]. }
  exists (set_cells <[a := NUL]> m). rewrite store1_spec by (by eexists). split; [done|].
  assert (Ho : forall x, x <> a -> cells (set_cells <[a := NUL]> m) !! x = cells m !! x).
  { intros x Hx. simpl. by rewrite lookup_insert_ne. }
  split.
  { split; [done|]. intros x Hx. apply Hok. destruct (decide (x = a)) as [->|]; [by eexists|by rewrite Ho in Hx]. }
  split; [done|]. split; [|split; [|done]].
  - apply cstr_spec. split; [intros Hx; apply Hn, Hin; by left|]. apply at_app. rewrite Hl. fold a. split.
    + eapply at_agree; [exact Hat1|]. rewrite Hl. intros x Hx. apply Ho. lia.
    + apply at_cons. split; [simpl; by rewrite lookup_insert_eq|apply at_nil].
  - apply cstr_spec. split; [intros Hx; apply Hn, Hin; by right|].
    eapply at_agree; [exact Hat2|]. intros x Hx. apply Ho. lia.
Qed.

Definition below (lo : Z) (m : mem) (q : Z) : Prop :=
  exists s, cstr q m = Some s /\ q + Z.of_nat (length s) < lo.

Lemma below_extends lo l m m' :
  mem_ok m -> extends m m' -> Forall (below lo m) l ->
  Forall (below lo m') l /\ omap (env_of m') l = omap (env_of m) l.
Proof.
  intros Hok He H. split.
  - eapply Forall_impl; [exact H|]. intros q (s & Hs & Hq). exists s. split; [by eapply cstr_extends|done].
  - apply omap_env_agree. eapply Forall_impl; [exact H|]. intros q (s & Hs & _).
    rewrite Hs. by eapply cstr_extends.
Qed.

(** One entry of [copyenv_loop]. *)
Lemma copy_entry lo q s off env m err env' m1 m2 :
  mem_ok m -> lo <= next m -> cstr q m = Some s -> q + Z.of_nat (length s) < lo ->
  find_eq s = Some off -> fresh_strings lo env m ->
  store1 (q + Z.of_nat off) NUL m = Some m1 ->
  setenv (take off s) (drop (S off) s) env m1 = Some (err, env', m2) ->
  exists m3, store1 (q + Z.of_nat off) "="%char m2 = Some m3 /\ extends m m3 /\
    (err = 0 -> fresh_strings lo env' m3 /\
       envmap env' m3 = <[take off s := drop (S off) s]> (envmap env m)).
Proof.
  intros Hok Hlo Hs Hq Hf Hfr E1 E2.
  destruct (split_entry q s off m Hok Hs Hf) as (m1' & E1' & Hok1 & Hnx & Hn & Hv & Ho & Hc).
  rewrite E1 in E1'. injection E1' as <-.
  pose proof (find_eq_spec _ _ Hf) as [Hoff Hne]. apply lookup_lt_Some in Hoff.
  set (a := q + Z.of_nat off) in *.
  destruct (fresh_agree lo env m m1 Hfr) as [Hfr1 Hmap1]; [intros x Hx; apply Ho; lia|].
  apply cstr_spec in Hn as [Hn _]. apply cstr_spec in Hv as [Hv _].
  destruct (setenv_spec lo _ _ env m1 err env' m2 Hok1 ltac:(lia) Hn Hv Hne Hfr1 E2) as [[Hok2 [Hnx2 He]] Herr].
  assert (Ha : is_Some (cells m2 !! a)).
  { rewrite He by lia. unfold store1 in E1. case_decide; [|done]. injection E1 as <-. simpl.
    rewrite lookup_insert_eq. by eexists. }
  exists (set_cells <[a := "="%char]> m2). rewrite store1_spec by done. split; [done|]. split.
  - split; [|split; [simpl; lia|]].
    + destruct Hok2 as [H2 H3]. split; [done|]. intros x Hx. apply H3.
      destruct (decide (x = a)) as [->|]; [done|]. simpl in Hx. by rewrite lookup_insert_ne in Hx.
    + intros x Hx. simpl. destruct (decide (x = a)) as [->|]; [by rewrite lookup_insert_eq|].
      rewrite lookup_insert_ne, He, Ho by (done || lia). done.
  - intros H0. destruct (Herr H0) as [Hf' Hm']. rewrite <- Hmap1, <- Hm'.
    apply fresh_agree; [done|]. intros x Hx. simpl. apply lookup_insert_ne. lia.
Qed.

Lemma copyenv_loop_spec lo oldenv env m err env' m' :
  mem_ok m -> lo <= next m -> Forall (below lo m) oldenv -> fresh_strings lo env m ->
  copyenv_loop oldenv env m = Some (err, env', m') ->
  extends m m' /\ (err = 0 -> fresh_strings lo env' m' /\
    envmap env' m' = list_to_map (rev (omap (env_of m) oldenv)) ∪ envmap env m).
Proof.
  revert env m. induction oldenv as [|q oldenv IH]; intros env m Hok Hlo Hbelow Hfr E.
  { simpl in E. simplify_eq. split; [by apply extends_refl|]. intros _. split; [done|].
    csimpl. by rewrite (left_id_L ∅ (∪)). }
  apply Forall_cons in Hbelow as [(s & Hs & Hq) Hbelow]. cbn [copyenv_loop] in E. rewrite Hs in E.
  cbn [mbind option_bind] in E. destruct (find_eq s) as [off|] eqn:Hf.
  2:{ destruct (IH env m Hok Hlo Hbelow Hfr E) as [He Hx]. split; [done|]. intros H0.
      destruct (Hx H0) as [Hx1 Hx2]. split; [done|]. rewrite Hx2. csimpl.
      assert (Hnone : env_of m q = None) by (unfold env_of; rewrite Hs; simpl; by rewrite Hf).
      by rewrite Hnone. }
  destruct (split_entry q s off m Hok Hs Hf) as (m1 & E1 & _ & _ & Hn & Hv & _).
  rewrite E1 in E. cbn [mbind option_bind] in E. rewrite Hn, Hv in E. cbn [mbind option_bind] in E.
  destruct (setenv _ _ env m1) as [[[err1 env1] m2]|] eqn:E2; [|done]. cbn [mbind option_bind] in E.
  destruct (copy_entry lo q s off env m err1 env1 m1 m2 Hok Hlo Hs Hq Hf Hfr E1 E2) as (m3 & E3 & He & Hx).
  rewrite E3 in E. cbn [mbind option_bind] in E.
  destruct (Z.eqb_spec err1 0) as [H1|H1]; cbn [negb] in E; [|by simplify_eq].
  destruct (Hx H1) as [Hfr3 Hm3]. destruct (below_extends lo oldenv m m3 Hok He Hbelow) as [Hb3 Ho3].
  destruct (IH env1 m3) as [He' Hx']; [by destruct He|destruct He as (_ & ? & _); lia|done|done|done|].
  split; [by eapply extends_trans|]. intros H0. destruct (Hx' H0) as [Hf' Hm']. split; [done|].
  rewrite Hm', Hm3, Ho3. csimpl.
  assert (Hsome : env_of m q = Some (take off s, drop (S off) s)) by (unfold env_of; rewrite Hs; simpl; by rewrite Hf).
  rewrite Hsome. csimpl. rewrite list_to_map_app, <- (assoc_L (∪)). f_equal. simpl.
  by rewrite insert_union_singleton_l, insert_empty.
Qed.

(** ** The arguments *)

(** The copy of an argument: behind [lo], with the same text. *)
Definition arg_kept (lo : Z) (m m' : mem) (a a' : Z) : Prop :=
  (a = 0 /\ a' = 0) \/ (a <> 0 /\ lo <= a' /\ is_Some (cstr a m) /\ cstr a' m' = cstr a m).

Lemma arg_kept_extends lo m0 m m' a a' :
  mem_ok m -> extends m m' -> arg_kept lo m0 m a a' -> arg_kept lo m0 m' a a'.
Proof.
  intros Hok He [?|(H1 & H2 & [s Hs] & H3)]; [by left|]. right. split_and!; try done; try by eexists.
  rewrite Hs in *. by eapply cstr_extends.
Qed.

Lemma copyargs_loop_spec lo m0 i argc l m err l' m' :
  mem_ok m0 -> mem_ok m -> extends m0 m -> lo <= next m ->
  Forall (fun a => a = 0 \/ is_Some (cstr a m0)) l ->
  copyargs_loop i argc l m = Some (err, l', m') ->
  extends m m' /\ (err = 0 ->
    Forall2 (arg_kept lo m0 m') (take (Z.to_nat (argc - i)) l) (take (Z.to_nat (argc - i)) l')).
Proof.
  intros Hok0. revert i m err l' m'. induction l as [|a l IH]; intros i m err l' m' Hok He Hlo Hl E; [done|].
  apply Forall_cons in Hl as [Ha Hl]. cbn [copyargs_loop] in E.
  destruct ((i <? argc) || negb (a =? 0)) eqn:Hc.
  2:{ simplify_eq. split; [by apply extends_refl|]. intros _. apply orb_false_iff in Hc as [Hi%Z.ltb_ge _].
      replace (Z.to_nat (argc - i)) with 0%nat by lia. constructor. }
  assert (Hcons : forall a' l1 m1 m2, extends m1 m2 -> mem_ok m1 -> arg_kept lo m0 m1 a a' ->
    Forall2 (arg_kept lo m0 m2) (take (Z.to_nat (argc - (i + 1))) l) (take (Z.to_nat (argc - (i + 1))) l1) ->
    Forall2 (arg_kept lo m0 m2) (take (Z.to_nat (argc - i)) (a :: l)) (take (Z.to_nat (argc - i)) (a' :: l1))).
  { intros a' l1 m1 m2 He1 Hok1 Hk Hf. destruct (decide (i < argc)) as [Hi|Hi].
    - replace (Z.to_nat (argc - i)) with (S (Z.to_nat (argc - (i + 1)))) by lia. simpl.
      constructor; [by eapply arg_kept_extends|done].
    - replace (Z.to_nat (argc - i)) with 0%nat by lia. constructor. }
  destruct (Z.eqb_spec a 0) as [->|Ha0].
  - destruct (copyargs_loop (i + 1) argc l m) as [[[err1 l1] m1]|] eqn:E1; [|done].
    cbn [mbind option_bind] in E. simplify_eq. destruct (IH _ _ _ _ _ Hok He Hlo Hl E1) as [He1 Hf].
    split; [done|]. intros H0. eapply Hcons; [exact He1|done|by left|by apply Hf].
  - destruct Ha as [|Ha]; [done|]. destruct (strdup a m) as [[tmp m1]|] eqn:Ed; [|done].
    cbn [mbind option_bind] in E. destruct (strdup_spec _ _ _ _ Hok Ed) as [He1 Hd].
    destruct (Z.eqb_spec tmp 0) as [_|Ht]; [simplify_eq; split; [done|intros H; discriminate H]|].
    destruct (Hd Ht) as [Hlow Hs].
    destruct (copyargs_loop (i + 1) argc l m1) as [[[err1 l1] m2]|] eqn:E1; [|done].
    cbn [mbind option_bind] in E. simplify_eq.
    assert (Hok1 : mem_ok m1) by (by destruct He1).
    destruct (IH (i + 1) m1 err l1 m' Hok1) as [He2 Hf];
      [by eapply extends_trans|destruct He1 as (_ & ? & _); lia|done|done|].
    split; [by eapply extends_trans|]. intros H0. eapply Hcons; [exact He2|done| |by apply Hf].
    right. split_and!; [done|lia|done|]. rewrite Hs. destruct Ha as [s Hs0]. rewrite Hs0.
    exact (cstr_extends a m0 m s Hok0 He Hs0).
Qed.

(** ** Initialisation *)

(** A process as the kernel starts it: its strings are readable and nothing has
    been set up. *)
Definition fresh_process (p : process) : Prop :=
  mem_ok (pmem p) /\ spt p = SPT0 /\
  Forall (fun a => a = 0 \/ is_Some (cstr a (pmem p))) (argv p) /\
  Forall (fun q => is_Some (cstr q (pmem p))) (environ p).

Lemma spt_copy_all_spec argc b e n p p' lo m0 :
  mem_ok m0 -> mem_ok (pmem p) -> extends m0 (pmem p) -> lo = next m0 -> base (spt p) = 0 ->
  Forall (fun a => a = 0 \/ is_Some (cstr a m0)) (argv p) ->
  Forall (below lo m0) (environ p) ->
  spt_copy_all argc b e n p = Some p' -> base (spt p') <> 0 ->
  base (spt p') = b /\ end_ (spt p') = e /\ nul (spt p') = n /\ reset (spt p') = reset (spt p) /\
  extends m0 (pmem p') /\
  fresh_strings lo (environ p') (pmem p') /\
  envmap (environ p') (pmem p') = list_to_map (rev (omap (env_of m0) (environ p))) /\
  Forall2 (arg_kept lo m0 (pmem p')) (take (Z.to_nat (argc - 1)) (tail (argv p)))
    (take (Z.to_nat (argc - 1)) (tail (argv p'))).
Proof.
  intros Hok0 Hok He -> Hb0 Ha Henv E Hb. unfold spt_copy_all, spt_fail in E.
  destruct (strdup _ (pmem p)) as [[t1 m1]|] eqn:E1; [|done]. cbn [mbind option_bind] in E.
  destruct (strdup_spec _ _ _ _ Hok E1) as [He1 _]. assert (Hok1 : mem_ok m1) by (by destruct He1).
  destruct (t1 =? 0); [by simplify_eq/=|].
  cbn [program_invocation_short_name set_prognames set_pmem pmem] in E.
  destruct (strdup (program_invocation_short_name p) m1) as [[t2 m2]|] eqn:E2; [|done]. cbn [mbind option_bind] in E.
  destruct (strdup_spec _ _ _ _ Hok1 E2) as [He2 _]. assert (Hok2 : mem_ok m2) by (by destruct He2).
  destruct (t2 =? 0); [by simplify_eq/=|].
  assert (He02 : extends m0 m2) by (eapply extends_trans; [exact He|eapply extends_trans; [exact He1|exact He2]]).
  unfold spt_copyenv, spt_clearenv in E. change (negb (0 =? 0)) with false in E.
  cbn [environ set_pmem set_prognames pmem] in E.
  destruct (copyenv_loop (environ p) [] m2) as [[[err env] m3]|] eqn:E3; [|done]. cbn [mbind option_bind] in E.
  destruct (below_extends _ _ _ _ Hok0 He02 Henv) as [Hb2 Ho2].
  assert (Hlo2 : next m0 <= next m2) by (by destruct He02 as (_ & ? & _)).
  destruct (copyenv_loop_spec (next m0) (environ p) [] m2 err env m3 Hok2 Hlo2 Hb2 ltac:(constructor) E3) as [He3 Hx3].
  assert (Hok3 : mem_ok m3) by (by destruct He3).
  destruct (Z.eqb_spec err 0) as [H0|]; cbn [negb] in E; [|by simplify_eq/=].
  destruct (Hx3 H0) as [Hfr3 Hm3]. unfold spt_copyargs in E. cbn [argv set_pmem set_prognames pmem] in E.
  destruct (argv p) as [|a0 args] eqn:Eargs; [done|].
  destruct (copyargs_loop 1 argc args m3) as [[[err4 l4] m4]|] eqn:E4; [|done]. cbn [mbind option_bind] in E.
  assert (He03 : extends m0 m3) by (by eapply extends_trans).
  apply Forall_cons in Ha as [_ Ha].
  destruct (copyargs_loop_spec (next m0) m0 1 argc args m3 err4 l4 m4 Hok0 Hok3 He03
    ltac:(destruct He03 as (_ & ? & _); lia) Ha E4) as [He4 Hx4].
  destruct (Z.eqb_spec err4 0) as [H4|]; cbn [negb] in E; [|by simplify_eq/=].
  injection E as <-. cbn [spt set_spt base end_ nul reset pmem environ argv tail set_pmem set_prognames].
  destruct (fresh_extends _ _ _ _ Hok3 Hfr3 He4) as [Hfr4 Hm4].
  split_and!; try done.
  - by eapply extends_trans.
  - rewrite Hm4, Hm3, Ho2. unfold envmap. csimpl. by rewrite (right_id_L ∅ (∪)).
  - by apply Hx4.
Qed.

Lemma spt_init_spec argc p p' :
  fresh_process p -> spt_init argc p = Some p' -> base (spt p') <> 0 ->
  head (argv p) = Some (base (spt p')) /\ reset (spt p') = false /\ extends (pmem p) (pmem p') /\
  (exists len, strlen (base (spt p')) (pmem p) = Some len /\ nul (spt p') = base (spt p') + len) /\
  fresh_strings (next (pmem p)) (environ p') (pmem p') /\
  envmap (environ p') (pmem p') = list_to_map (rev (omap (env_of (pmem p)) (environ p))) /\
  Forall2 (arg_kept (next (pmem p)) (pmem p) (pmem p')) (take (Z.to_nat (argc - 1)) (tail (argv p)))
    (take (Z.to_nat (argc - 1)) (tail (argv p'))).
Proof.
  intros (Hok & Hspt & Hargs & Henv) E Hb. unfold spt_init in E.
  destruct (head (argv p)) as [b|] eqn:Eb; [|done]. cbn [mbind option_bind] in E.
  destruct (Z.eqb_spec b 0); [simplify_eq; by rewrite Hspt in Hb|].
  destruct (strlen b (pmem p)) as [len|] eqn:El; [|done]. cbn [mbind option_bind] in E.
  destruct (args_end 0 argc (argv p) (b + len + 1) (pmem p)) as [e1|]; [|done]. cbn [mbind option_bind] in E.
  destruct (env_end (environ p) e1 (pmem p)) as [e2|]; [|done]. cbn [mbind option_bind] in E.
  destruct (strdup b (pmem p)) as [[tmp m]|] eqn:Ed; [|done]. cbn [mbind option_bind] in E.
  destruct (strdup_spec _ _ _ _ Hok Ed) as [He _].
  destruct (tmp =? 0); [unfold spt_fail in E; simplify_eq/=; by rewrite Hspt in Hb|].
  match goal with E : spt_copy_all _ _ _ _ ?q = _ |- _ =>
    destruct (spt_copy_all_spec argc b e2 (b + len) q p' (next (pmem p)) (pmem p)) as (E1 & E2 & E3 & E4 & E5 & E6 & E7 & E8) end;
    cbn [pmem set_spt set_pmem spt base argv environ reset] in *; try done; [by destruct He|by rewrite Hspt| |].
  { eapply Forall_impl; [exact Henv|]. intros q [s Hs]. exists s. split; [done|].
    by apply (cstr_below q (pmem p)). }
  rewrite E1. split_and!; try done; [by rewrite E4, Hspt|eauto].
Qed.

(** C32: The contract of the process title: after a successful [spt_init] any title
    (and any number of further ones) can be set.  What [ps] reads at the place of
    the arguments is then the title, cut to the room there is and followed by a
    blank exactly where the old first argument ended; the memory outside that
    place is untouched; every environment variable still has its value (the last
    one of a repeated name) and every argument its text, because both were moved
    away first. *)
Theorem title_keeps_strings argc p p1 e text :
  fresh_process p -> spt_init argc p = Some p1 -> base (spt p1) <> 0 ->
  place_ok (spt p1) (pmem p) -> text <> [] -> NUL ∉ text ->
  exists p2, setproctitle e (Some text) p1 = Some p2 /\
    cstr (base (spt p1)) (pmem p2) = Some (shown (spt p1) text) /\
    (forall x, ~ (base (spt p1) <= x < end_ (spt p1)) -> cells (pmem p2) !! x = cells (pmem p1) !! x) /\
    envmap (environ p2) (pmem p2) = list_to_map (rev (omap (env_of (pmem p)) (environ p))) /\
    Forall2 (arg_kept (next (pmem p)) (pmem p) (pmem p2)) (take (Z.to_nat (argc - 1)) (tail (argv p)))
      (take (Z.to_nat (argc - 1)) (tail (argv p2))) /\
    (base (spt p2) <> 0 /\ place_ok (spt p2) (pmem p2)).
Proof.
  intros Hf Hinit Hb [Hnul Hmap] Hne Hn.
  destruct (spt_init_spec argc p p1 Hf Hinit Hb) as (_ & _ & (Hok1 & Hnx & He) & _ & Hfr & Hm & Hargs).
  destruct Hf as ([H0 Hok] & _ & _ & _).
  assert (Hpl : place_ok (spt p1) (pmem p1)).
  { split; [done|]. intros x Hx. rewrite He; [by apply Hmap|]. by apply Hok, Hmap. }
  assert (Hend : end_ (spt p1) <= next (pmem p)).
  { assert (0 < end_ (spt p1) - 1 < next (pmem p)) by (apply Hok, Hmap; lia). lia. }
  destruct (setproctitle_spec e text p1 Hb Hpl Hne Hn) as (p2 & E & Hc & Es & Ee & Ea & _ & Hout).
  exists p2. split; [done|]. split; [done|]. split; [done|]. rewrite Ee, Ea.
  destruct (fresh_agree _ _ _ (pmem p2) Hfr) as [_ ->]; [intros x Hx; apply Hout; lia|].
  split; [done|]. split.
  - eapply Forall2_impl; [exact Hargs|]. intros a a' [?|(H1 & H2 & [s Hs] & H3)]; [by left|].
    right. split_and!; try done; try by eexists. rewrite Hs in *. eapply cstr_agree; [exact H3|].
    intros x Hx. apply Hout. lia.
  - rewrite Es. split; [done|]. split; [done|]. intros x Hx.
    eapply setproctitle_mapped; [exact E|]. by apply Hpl.
Qed.

(** ** A witness *)

(** The process "srv -d" with the environment A=1, all strings in one piece. *)
Definition demo_strings : bytes := lit "srv" ++ [NUL] ++ lit "-d" ++ [NUL] ++ lit "A=1" ++ [NUL].
Definition demo_process : process :=
  mkProcess (mkMem (put 100 demo_strings ∅) 200 []) [107] [100; 104; 0] 100 100 SPT0.

Lemma demo_mapped x : is_Some (cells (pmem demo_process) !! x) -> 0 < x < 200.
Proof.
  intros [c Hc]. unfold demo_process in Hc. cbn [pmem cells] in Hc.
  destruct (put_spec 100 demo_strings ∅) as [_ Hout]. unfold inside in Hout.
  change (Z.of_nat (length demo_strings)) with 11 in Hout.
  destruct (decide (100 <= x < 100 + 11)) as [|Hn]; [lia|]. rewrite Hout, lookup_empty in Hc by done. done.
Qed.

Lemma demo_fresh : fresh_process demo_process.
Proof.
  split; [|split; [done|split]].
  - split; [done|]. exact demo_mapped.
  - repeat (apply Forall_cons; split; [first [left; reflexivity|right; vm_compute; by eexists]|]). constructor.
  - apply Forall_cons. split; [vm_compute; by eexists|constructor].
Qed.

(** Two bytes of the new title fit over "srv" and its neighbours. *)
Lemma title_keeps_strings_witness :
  exists p1 p2, spt_init 2 demo_process = Some p1 /\ setproctitle 0 (Some (lit "w1")) p1 = Some p2 /\
    cstr 100 (pmem p2) = Some (lit "w1") /\
    envmap (environ p2) (pmem p2) = {[ lit "A" := lit "1" ]}.
Proof.
  destruct (spt_init 2 demo_process) as [p1|] eqn:E1; [|vm_compute in E1; discriminate E1].
  assert (Hs : base (spt p1) = 100 /\ nul (spt p1) = 103 /\ end_ (spt p1) = 111).
  { vm_compute in E1. injection E1 as <-. repeat split. }
  destruct Hs as (Hb & Hnl & He).
  destruct (title_keeps_strings 2 demo_process p1 0 (lit "w1") demo_fresh E1) as (p2 & E2 & Hc & _ & Henv & _).
  - rewrite Hb. discriminate.
  - unfold place_ok. rewrite Hb, Hnl, He. split; [lia|]. intros x Hx.
    destruct (lookup_lt_is_Some_2 demo_strings (Z.to_nat (x - 100))) as [c Hc];
      [change (length demo_strings) with 11%nat; lia|].
    exists c. change (put 100 demo_strings ∅ !! x = Some c).
    rewrite <- (proj1 (put_spec 100 demo_strings ∅) _ _ Hc). f_equal. lia.
  - discriminate.
  - by apply (bool_decide_unpack (NUL ∉ lit "w1")).
  - exists p1, p2. split; [reflexivity|]. split; [exact E2|]. rewrite Hb in Hc. split.
    + rewrite Hc. unfold shown, title_len. rewrite Hb, Hnl, He. reflexivity.
    + rewrite Henv. vm_compute. reflexivity.
Defined.
