(* ===== verification/Log.v ===== *)
(** * Logging: util/log.{h,cc}

    The local log is a stream that is appended to a file, a master that rotates
    the files by size and workers that reopen theirs.  Files are names for
    inodes, so that a stream that is open keeps writing to its file when that is
    renamed.  The formatting of dates and messages belongs to the C library: the
    formatted texts are arguments. *)

From S2P Require Import Prelude CStr Network.

(** ** Files *)

Record fs := mkFs {
  names : gmap bytes nat;
  inodes : gmap nat bytes;
  console : bytes
}.

Definition set_names (n : gmap bytes nat) (s : fs) : fs := mkFs n (inodes s) (console s).

(** [ofstream::open(path, out | app)]; [ino] is the inode a new file gets. *)
Definition open_app (path : bytes) (s : fs) : nat * fs :=
  match names s !! path with
  | Some i => (i, s)
  | None =>
      let ino := fresh (dom (inodes s)) in
      (ino, mkFs (<[path := ino]> (names s)) (<[ino := []]> (inodes s)) (console s))
  end.

Definition write_to (i : nat) (b : bytes) (s : fs) : fs :=
  mkFs (names s) (alter (fun old => old ++ b) i (inodes s)) (console s).

Definition access (path : bytes) (s : fs) : bool := bool_decide (is_Some (names s !! path)).
Definition fs_remove (path : bytes) (s : fs) : fs := set_names (delete path (names s)) s.
Definition fs_rename (path new : bytes) (s : fs) : fs :=
  match names s !! path with
  | Some i => set_names (<[new := i]> (delete path (names s))) s
  | None => s
  end.

(** The size of a file; -1, as a 32-bit number, when it cannot be opened. *)
Definition filesize (path : bytes) (s : fs) : Z :=
  match names s !! path ≫= fun i => inodes s !! i with
  | Some b => u32 (blen b)
  | None => u32 (-1)
  end.

(** ** The log object *)

Definition LL_DEBUG : Z := 0.
Definition LL_INFO : Z := 1.
Definition LL_WARNING : Z := 2.
Definition LL_ERROR : Z := 3.
Definition kLogItemSize : Z := 2048.
Definition kMaxFilesize : Z := 1024 * 1024.
Definition kMaxFilsNum : Z := 100.

(** [file_] is the file the stream has open and [failbit] its error state, in
    which it drops what is written; [lasts] is the static variable of
    [WriteLog], unset before its first use. *)
Record LocalLog := mkLog {
  loglevel_ : Z;
  content_ : bytes;
  filepath_ : bytes;
  current_file_ : bytes;
  file_ : option nat;
  failbit : bool;
  lasts : option Z
}.

(** The static object of [Instance()]. *)
Definition Instance_log : LocalLog := mkLog 0 [] [] [] None false None.

(** After [close] and [open]: a successful [open] clears the error state. *)
Definition set_file (f : option nat) (l : LocalLog) : LocalLog :=
  mkLog (loglevel_ l) (content_ l) (filepath_ l) (current_file_ l) f false (lasts l).
Definition set_content (c : bytes) (l : LocalLog) : LocalLog :=
  mkLog (loglevel_ l) c (filepath_ l) (current_file_ l) (file_ l) (failbit l) (lasts l).
Definition set_lasts (t : option Z) (l : LocalLog) : LocalLog :=
  mkLog (loglevel_ l) (content_ l) (filepath_ l) (current_file_ l) (file_ l) (failbit l) t.
Definition SetLogLevel (level : Z) (l : LocalLog) : LocalLog :=
  mkLog level (content_ l) (filepath_ l) (current_file_ l) (file_ l) (failbit l) (lasts l).

(** The file can always be opened, unless the stream already has one open. *)
Definition Log_Initialize (arg : option bytes) (l : LocalLog) (s : fs) : Z * LocalLog * fs :=
  match arg with
  | None => (-1, l, s)
  | Some p =>
      match file_ l with
      | None =>
          let '(i, s) := open_app (p ++ lit ".log") s in
          (0, mkLog (loglevel_ l) (content_ l) p (p ++ lit ".log") (Some i) false (lasts l), s)
      | Some i => (0, mkLog (loglevel_ l) (content_ l) p (p ++ lit ".log") (Some i) true (lasts l), s)
      end
  end.

(** ** Writing *)

(** [c_str()] stops at the first zero byte. *)
Fixpoint c_str (b : bytes) : bytes :=
  match b with
  | [] => []
  | c :: b => if decide (c = Ascii.zero) then [] else c :: c_str b
  end.

(** The rotated file number [i]; number 0 is the current one. *)
Definition log_name (filepath : bytes) (i : Z) : bytes :=
  if 0 <? i then filepath ++ lit "_" ++ to_string i ++ lit ".log" else filepath ++ lit ".log".

Definition rotate_one (filepath : bytes) (i : Z) (s : fs) : fs :=
  let fp := log_name filepath i in
  if access fp s then
    if i =? kMaxFilsNum - 1 then fs_remove fp s
    else fs_rename fp (filepath ++ lit "_" ++ to_string (i + 1) ++ lit ".log") s
  else s.

(** [for (int i = kMaxFilsNum - 1; i >= 0; i--)], from [i = n - 1] down. *)
Fixpoint rotate (n : nat) (filepath : bytes) (s : fs) : fs :=
  match n with
  | O => s
  | S n =>
      let s := rotate_one filepath (Z.of_nat n) s in
      rotate n filepath s
  end.

Definition ANSI_COLOR_RED : bytes := Ascii.ascii_of_nat 27 :: lit "[31m".
Definition ANSI_COLOR_RESET : bytes := Ascii.ascii_of_nat 27 :: lit "[0m".
Definition endl : bytes := [Ascii.ascii_of_nat 10].

(** A worker reopens its file; [nows] is assigned to itself instead of [lasts]. *)
Definition worker_reopen (now : Z) (l : LocalLog) (s : fs) : LocalLog * fs :=
  let last := default (u32 now) (lasts l) in
  let nows := u32 now in
  let l := set_lasts (Some last) l in
  if u32 (last + 10) <? nows then
    let '(i, s) := open_app (current_file_ l) s in (set_file (Some i) l, s)
  else (l, s).

Definition master_rotate (l : LocalLog) (s : fs) : LocalLog * fs :=
  if filesize (current_file_ l) s <? kMaxFilesize then (l, s)
  else
    let s := rotate (Z.to_nat kMaxFilsNum) (filepath_ l) s in
    let '(i, s) := open_app (current_file_ l) s in (set_file (Some i) l, s).

(** [now] is [::time(NULL)]. *)
Definition WriteLog (ppid now : Z) (l : LocalLog) (s : fs) : LocalLog * fs :=
  match file_ l with
  | None =>
      (l, mkFs (names s) (inodes s) (console s ++ c_str (content_ l) ++ ANSI_COLOR_RED ++
            lit "(uninitialized LocalLog obj)" ++ ANSI_COLOR_RESET ++ endl))
  | Some i =>
      let s := if failbit l then s else write_to i (c_str (content_ l) ++ endl) s in
      let '(l, s) := if 1 <? ppid then worker_reopen now l s else (l, s) in
      if ppid =? 1 then master_rotate l s else (l, s)
  end.

(** [date] is what [strftime] made of the seconds; the milliseconds are printed
    without leading zeros. *)
Definition AppendLogItemHeader (date : bytes) (tv : timeval) (uin line : Z) (func : bytes)
    (l : LocalLog) : Z * LocalLog :=
  let now := mstime tv in
  let h := c_str (take 31 date) ++ lit "." ++ to_string (now mod 1000) ++ lit "]" ++
           lit "[" ++ func ++ lit "]" ++ lit "[" ++ to_string line ++ lit "]" ++
           lit "[" ++ to_string uin ++ lit "] " in
  (u32 (blen h), set_content h l).

(** [msg] is the formatted message. *)
Definition CommonLog (date : bytes) (tv : timeval) (ppid uin line : Z) (func msg : bytes)
    (l : LocalLog) (s : fs) : LocalLog * fs :=
  let l := snd (AppendLogItemHeader date tv uin line func (set_content [] l)) in
  let l := set_content (content_ l ++ c_str (take (Z.to_nat (kLogItemSize - 1)) msg)) l in
  WriteLog ppid (tv_sec tv) l s.

(** [Debug], [Info], [Warning] and [Error], by their level. *)
Definition log_at (level : Z) (date : bytes) (tv : timeval) (ppid uin line : Z) (func msg : bytes)
    (l : LocalLog) (s : fs) : LocalLog * fs :=
  if level <? loglevel_ l then (l, s) else CommonLog date tv ppid uin line func msg l s.

Definition Debug := log_at LL_DEBUG.
Definition Info := log_at LL_INFO.
Definition Warning := log_at LL_WARNING.
Definition Error := log_at LL_ERROR.

(** ** Rotation *)

Lemma log_name_inj p i j : 0 <= i -> 0 <= j -> log_name p i = log_name p j -> i = j.
Proof.
  intros Hi Hj. unfold log_name.
  assert (Hu : forall k, lit "_" ++ to_string k ++ lit ".log" <> lit ".log") by done.
  destruct (Z.ltb_spec 0 i), (Z.ltb_spec 0 j); intros E; apply (inj (app p)) in E; try done; try lia.
  apply (inj (app (lit "_"))) in E. apply (inj (fun x => x ++ lit ".log")) in E.
  by apply to_string_inj.
Qed.

(** One round of the loop frees the name [i]; the file it referred to is now
    number [i + 1], or gone with the last one. *)
Lemma rotate_step p i s :
  0 <= i < kMaxFilsNum ->
  (i = 99 \/ names s !! log_name p (i + 1) = None) ->
  let s1 := rotate_one p i s in
  inodes s1 = inodes s /\ console s1 = console s /\
  names s1 !! log_name p i = None /\
  (i < 99 -> names s1 !! log_name p (i + 1) = names s !! log_name p i) /\
  (forall x, x <> log_name p i -> (i < 99 -> x <> log_name p (i + 1)) -> names s1 !! x = names s !! x).
Proof.
  unfold kMaxFilsNum. intros Hi Hfree.
  assert (Hnew : p ++ lit "_" ++ to_string (i + 1) ++ lit ".log" = log_name p (i + 1)).
  { unfold log_name. by destruct (Z.ltb_spec 0 (i + 1)); [|lia]. }
  assert (Hne : log_name p i <> log_name p (i + 1)) by (intros E; apply log_name_inj in E; lia).
  unfold rotate_one, access. rewrite Hnew. case_bool_decide as Hex.
  - destruct Hex as [ino Hino]. unfold kMaxFilsNum. destruct (Z.eqb_spec i (100 - 1)) as [Hi99|Hlast].
    + unfold fs_remove, set_names. split_and!; try done; cbn [names].
      * by rewrite lookup_delete_eq.
      * intros; lia.
      * intros x Hx _. by rewrite lookup_delete_ne.
    + unfold fs_rename. rewrite Hino. cbn. split_and!; try done.
      * by rewrite lookup_insert_ne, lookup_delete_eq.
      * intros _. by rewrite lookup_insert_eq.
      * intros x Hx Hx1. rewrite lookup_insert_ne, lookup_delete_ne; try done.
        intros E. apply Hx1; [lia|done].
  - apply eq_None_not_Some in Hex. split_and!; try done.
    intros Hlt. destruct Hfree as [?|Hfree]; [lia|by rewrite Hfree].
Qed.

(** From the names 0..n-1 down: what each name refers to afterwards. *)
Lemma rotate_spec n p s :
  (n <= 100)%nat ->
  (n = 100%nat \/ names s !! log_name p (Z.of_nat n) = None) ->
  let s' := rotate n p s in
  inodes s' = inodes s /\ console s' = console s /\
  (n <> 0%nat -> names s' !! log_name p 0 = None) /\
  (forall k, (0 < k <= n)%nat -> (k < 100)%nat ->
     names s' !! log_name p (Z.of_nat k) = names s !! log_name p (Z.of_nat k - 1)) /\
  (forall x, (forall k, (k <= n)%nat -> (k < 100)%nat -> x <> log_name p (Z.of_nat k)) ->
     names s' !! x = names s !! x).
Proof.
  revert s. induction n as [|n IH]; intros s Hn Hfree.
  - cbn. split_and!; try done. intros k Hk. lia.
  - cbn [rotate]. replace (Z.of_nat (S n)) with (Z.of_nat n + 1) in Hfree by lia.
    destruct (rotate_step p (Z.of_nat n) s) as (Ei & Ec & Hgone & Hmoved & Hrest).
    { unfold kMaxFilsNum. lia. }
    { destruct Hfree; [left; lia|by right]. }
    set (s1 := rotate_one p (Z.of_nat n) s) in *. cbn zeta.
    destruct (IH s1) as (Ei' & Ec' & H0 & Hk' & Hx'); [lia|by right|].
    split_and!; [congruence|congruence| | |].
    + intros _. destruct n as [|n]; [done|by apply H0].
    + intros k Hk Hk100. destruct (decide (k = S n)) as [->|Hkn].
      * rewrite Hx'; [|intros j Hj _ E; apply log_name_inj in E; lia].
        replace (Z.of_nat (S n)) with (Z.of_nat n + 1) by lia. rewrite Hmoved by lia.
        f_equal. f_equal. lia.
      * rewrite Hk' by lia. apply Hrest; [|intros _]; intros E; apply log_name_inj in E; lia.
    + intros x Hx. rewrite Hx' by (intros k Hk; apply Hx; lia).
      apply Hrest; [apply Hx; lia|]. intros Hlt.
      replace (Z.of_nat n + 1) with (Z.of_nat (S n)) by lia. apply Hx; lia.
Qed.

(** ** What a line of the master does to a full file *)

(** C28: when the file of the master's log is full, writing a line appends it to
    that file, moves every file to the next number (the last one is removed) and
    continues in a new, empty file under the current name; no file's contents
    other than the appended line change. *)
Theorem log_rotation_shifts (l : LocalLog) (s : fs) (p : bytes) (ino : nat) (old : bytes) (now : Z)
    (Hp : filepath_ l = p) (Hc : current_file_ l = log_name p 0)
    (Hopen : file_ l = Some ino) (Hgood : failbit l = false)
    (Hname : names s !! log_name p 0 = Some ino) (Hino : inodes s !! ino = Some old)
    (Hfull : kMaxFilesize <= blen (old ++ c_str (content_ l) ++ endl) < 2 ^ 32) :
  let line := c_str (content_ l) ++ endl in
  let '(l', s') := WriteLog 1 now l s in
  exists new,
    inodes s !! new = None /\ file_ l' = Some new /\
    inodes s' = <[new := []]> (<[ino := old ++ line]> (inodes s)) /\
    names s' !! log_name p 0 = Some new /\
    (forall k, 0 < k < kMaxFilsNum -> names s' !! log_name p k = names s !! log_name p (k - 1)) /\
    (forall x, (forall k, 0 <= k < kMaxFilsNum -> x <> log_name p k) -> names s' !! x = names s !! x).
Proof.
  unfold WriteLog. rewrite Hopen, Hgood. cbn [Z.ltb Z.eqb Z.compare Pos.compare Pos.compare_cont Pos.eqb].
  set (s1 := write_to ino _ s).
  assert (Ei : inodes s1 = <[ino := old ++ c_str (content_ l) ++ endl]> (inodes s)).
  { cbn. apply map_eq. intros j. destruct (decide (j = ino)) as [->|].
    - by rewrite lookup_alter_eq, lookup_insert_eq, Hino.
    - by rewrite lookup_alter_ne, lookup_insert_ne. }
  unfold master_rotate.
  assert (Hsz : filesize (current_file_ l) s1 = blen (old ++ c_str (content_ l) ++ endl)).
  { unfold filesize. rewrite Hc. change (names s1) with (names s). rewrite Hname. cbn [mbind option_bind].
    rewrite Ei, lookup_insert_eq. apply Z.mod_small. unfold kMaxFilesize in Hfull. lia. }
  rewrite Hsz. destruct (Z.ltb_spec (blen (old ++ c_str (content_ l) ++ endl)) kMaxFilesize) as [|_]; [lia|].
  rewrite Hp, Hc. destruct (rotate_spec 100 p s1) as (Ei' & _ & H0 & Hk & Hx); [lia|by left|].
  change (Z.to_nat kMaxFilsNum) with 100%nat. set (s2 := rotate 100 p s1) in *.
  unfold open_app. rewrite (H0 ltac:(done)). cbn [names inodes file_ set_file].
  assert (Hfresh : inodes s2 !! fresh (dom (inodes s2)) = None).
  { apply not_elem_of_dom, is_fresh. }
  set (new := fresh _) in *. rewrite Ei', Ei in Hfresh. exists new. split_and!; try done.
  - destruct (decide (new = ino)) as [E|]; [|by rewrite lookup_insert_ne in Hfresh].
    by rewrite E, lookup_insert_eq in Hfresh.
  - by rewrite Ei', Ei.
  - by rewrite lookup_insert_eq.
  - unfold kMaxFilsNum. intros k Hk'. rewrite lookup_insert_ne by (intros E; apply log_name_inj in E; lia).
    specialize (Hk (Z.to_nat k)). rewrite Z2Nat.id in Hk by lia. apply Hk; lia.
  - unfold kMaxFilsNum. intros x Hx'. rewrite lookup_insert_ne by (symmetry; apply Hx'; lia).
    apply Hx. intros k _ Hk'. apply Hx'. lia.
Qed.

Definition full_log : LocalLog := mkLog 0 (lit "last line") (lit "srv") (lit "srv.log") (Some 0%nat) false None.
Definition full_fs : fs :=
  mkFs (<[lit "srv_1.log" := 1%nat]> (<[lit "srv.log" := 0%nat]> ∅))
       (<[1%nat := lit "older"]> (<[0%nat := repeat Ascii.zero (Z.to_nat kMaxFilesize)]> ∅)) [].

Lemma full_fs_size : blen (repeat Ascii.zero (Z.to_nat kMaxFilesize) ++ lit "last line" ++ endl) = kMaxFilesize + 10.
Proof. unfold blen. rewrite length_app, repeat_length. unfold kMaxFilesize. cbn. lia. Qed.

Lemma log_rotation_shifts_witness :
  let '(l', s') := WriteLog 1 7 full_log full_fs in
  exists new,
    inodes full_fs !! new = None /\ file_ l' = Some new /\
    names s' !! lit "srv.log" = Some new /\ names s' !! lit "srv_2.log" = Some 1%nat.
Proof.
  pose proof (log_rotation_shifts full_log full_fs (lit "srv") 0 (repeat Ascii.zero (Z.to_nat kMaxFilesize)) 7
    eq_refl eq_refl eq_refl eq_refl) as H.
  specialize (H ltac:(reflexivity) ltac:(reflexivity)).
  assert (Hs : kMaxFilesize <= blen (repeat Ascii.zero (Z.to_nat kMaxFilesize) ++ c_str (content_ full_log) ++ endl) < 2 ^ 32).
  { change (c_str (content_ full_log)) with (lit "last line"). rewrite full_fs_size. unfold kMaxFilesize. lia. }
  specialize (H Hs). cbv zeta in H. destruct (WriteLog 1 7 full_log full_fs) as [l' s'].
  destruct H as (new & H1 & H2 & _ & H4 & H5 & _). exists new. split_and!; [done|done|done|].
  specialize (H5 2). unfold kMaxFilsNum in H5. apply H5. lia.
Defined.
