(* ===== verification/SimpleServer.v ===== *)
(** * The servers of one process: TcpSrv and UdpSrv of server.h

    Each initialises the scheduler, listens, starts the listener's coroutine and
    waits until that is dead.  By then [Frame::HandleProcess] has deleted the work
    object, whose destructor deletes the listener. *)

From S2P Require Import Prelude Heap Thread Frame Sched SchedProps World Network FrameIO Mutex Listener Server.

(** [TcpSrvWork::Run] and [UdpSrvWork::Run]: without an error they return no value
    at all. *)
Inductive work_end :=
  | W_falls_off
  | W_exit (code : Z)
  | W_crash.

Definition EXIT_FAILURE : Z := 1.

Definition TcpSrvWork_Run (listenfd port : Z) (work_builder : option builder) (ct : bool) : IO work_end :=
  let* r := RunTcpSrv listenfd port work_builder ct in
  io_ret (match r with
          | Ret ret => if ret <? 0 then W_exit EXIT_FAILURE else W_falls_off
          | NullDeref => W_crash
          end).

Definition UdpSrvWork_Run (l : Listener) (work_builder : option builder) : IO work_end :=
  let* r := RunUdpSrv l work_builder in
  io_ret (match r with
          | Ret ret => if ret <? 0 then W_exit EXIT_FAILURE else W_falls_off
          | NullDeref => W_crash
          end).

(** The destructors: [delete listener_]. *)
Definition SrvWork_delete (l : Listener) : IO Listener := Listener_delete l.

(** How a simple server ends: with a code, or by deleting a listener that is
    already deleted, or by a crash of the scheduler. *)
Inductive simple_end :=
  | S_ret (code : Z)
  | S_double_delete
  | S_crash.

(** [while (!t.IsDead()) Frame::Sleep(1000)] *)
Definition wait_dead_body (_ : unit) : IO (unit + unit) :=
  let* d := sys c_is_dead in
  if negb (r_ret d =? 0) then io_ret (inr tt)
  else let* _ := sys (c_sleep 1000) in io_ret (inl tt).

Definition wait_dead : IO unit := loop wait_dead_body tt.

Section simple.
(** The errors are the negated line numbers: of [Frame::Init] and of [Listen]. *)
Context (listen : Listener -> IO (Z * Listener)) (listener_new : Listener) (work : Work).
Context (init_error listen_error : Z).

(** Both functions; [x] is the state of the scheduler before. *)
Definition simple_srv (x : frame) : IO simple_end :=
  match Frame_Init x with
  | None => io_ret S_crash
  | Some (false, _) => io_ret (S_ret init_error)
  | Some (true, x) =>
      let* r := listen listener_new in
      let '(ret, l) := r in
      if ret <? 0 then io_ret (S_ret listen_error)
      else match CreateThread work x with
      | None => io_ret S_crash
      | Some _ =>
          let* _ := wait_dead in
          (* the work object deleted the listener; now [delete l] *)
          let* _ := SrvWork_delete l in
          io_ret S_double_delete
      end
  end.

End simple.

Definition TcpSrv (garbage : Listener) (work : Work) (ip : IP) (port : Z) : frame -> IO simple_end :=
  simple_srv (TcpListener_Listen ip port) (TcpListener_new garbage) work (-233) (-236).

Definition UdpSrv (garbage : Listener) (work : Work) (ip : IP) (port : Z) : frame -> IO simple_end :=
  simple_srv (UdpListener_Listen ip port) (UdpListener_new garbage) work (-250) (-252).

(** A simple server never ends well: started before anything else, each of its
    ends is an error of [Listen] or the second deletion of the listener. *)
Theorem simple_server_ends garbage work ip port w :
  match TcpSrv garbage work ip port frame0 w with
  | Done r _ _ => r = S_ret (-236) \/ r = S_double_delete
  | Blocked _ => True
  end.
Proof.
  unfold TcpSrv, simple_srv. destruct (Frame_Init_ok 1000) as (x & Hi & Hwf & _).
  unfold Frame_Init. rewrite Hi. destruct (io_bind _ _ w) as [r t w'|t] eqn:E; [|done].
  apply io_bind_inv in E as ([ret l] & t1 & w1 & t2 & _ & E & _).
  destruct (ret <? 0); [apply io_ret_inv in E as (<- & _); by left|].
  destruct (CreateThread_wf work x _ Hwf) as (u & x' & Hc & _).
  rewrite Hc in E. io_inv. by right.
Qed.
