(* ===== verification/ServerInit.v ===== *)
(** * Starting a server: server.cc and the two simple servers of server.h

    [Initialize] puts the parts together: the log, the scheduler, the
    configuration, the signal handlers, the listeners, the process title, the
    workers.  [SignalHelper] carries signals from the handlers to the event loop
    through a socket pair.  Lines written to the log are left out. *)

From S2P Require Import Prelude Heap Thread Frame CStr World Network FrameIO Mutex Log Listener Server ServerImpl SetProcTitle.

Definition SIGUSR1 : Z := 10.
Definition SIG_BLOCK : Z := 0.
Definition SIG_SETMASK : Z := 2.

(** ** Signals *)

(** The four bytes of an [int] in memory, the lowest first. *)
Definition int_bytes (v : Z) : bytes :=
  map (fun k => Ascii.ascii_of_N (Z.to_N (u32 v / 2 ^ (8 * k) mod 256))) [0; 1; 2; 3].

(** The handler, which runs in the context it interrupts. *)
Definition AllInOneCallback (sig_write_fd sig : Z) : IO Z :=
  Frame_send sig_write_fd (int_bytes sig) 0.

(** The coroutine of [SignalHelper]: the state is the server, the result that of
    [Run].  What is not received of [signo] stays 0. *)
Definition signal_body (sig_read_fd : Z) (s : ServerImpl) : IO (ServerImpl + (Z * ServerImpl)) :=
  let* a := Frame_recv sig_read_fd 4 0 in
  let '(ret, data) := a in
  if ret <? 0 then io_ret (inr (0, s))
  else
    let* s := SignalCallback (int_of_bytes data) s in
    io_ret (inl s).

Definition SignalHelper_Run (sig_read_fd : Z) (s : ServerImpl) : IO (Z * ServerImpl) :=
  loop (signal_body sig_read_fd) s.

(** ** The process *)

(** What [Initialize] changes: the server and its descriptors for signals, the
    log and the files, the scheduler, and the memory of the process title. *)
Record srv_process := mkSrvProcess {
  srv : ServerImpl;
  sig_read_fd_ : Z;
  sig_write_fd_ : Z;
  log : LocalLog;
  files : fs;
  fr : frame;
  title : process
}.

Definition set_srv (s : ServerImpl) (p : srv_process) : srv_process :=
  mkSrvProcess s (sig_read_fd_ p) (sig_write_fd_ p) (log p) (files p) (fr p) (title p).
Definition set_sig_fds (r w : Z) (p : srv_process) : srv_process :=
  mkSrvProcess (srv p) r w (log p) (files p) (fr p) (title p).
Definition set_log (l : LocalLog) (f : fs) (p : srv_process) : srv_process :=
  mkSrvProcess (srv p) (sig_read_fd_ p) (sig_write_fd_ p) l f (fr p) (title p).
Definition set_fr (x : frame) (p : srv_process) : srv_process :=
  mkSrvProcess (srv p) (sig_read_fd_ p) (sig_write_fd_ p) (log p) (files p) x (title p).
Definition set_title (t : process) (p : srv_process) : srv_process :=
  mkSrvProcess (srv p) (sig_read_fd_ p) (sig_write_fd_ p) (log p) (files p) (fr p) t.

(** The constructor of [Server] for the part that it initialises. *)
Definition Server_new (p : srv_process) : srv_process := set_sig_fds (-1) (-1) p.
Definition GetSigReadFd (p : srv_process) : Z := sig_read_fd_ p.
Definition GetSigWriteFd (p : srv_process) : Z := sig_write_fd_ p.

(** The destructor of the server. *)
Definition ServerImpl_delete : frame -> option (bool * frame) := Frame_Fini.

(** A function returns, the process exits, or it crashes. *)
Inductive init_result :=
  | Init_ret (code : Z) (p : srv_process)
  | Init_exit (code : Z)
  | Init_crash.

(** ** Pieces of [Initialize] *)

(** [true] in the child that goes on; the parent exits, also when [fork] fails. *)
Definition Daemonize : IO bool :=
  let* f := sys c_fork in
  if negb (s32 (r_ret f) =? 0) then io_ret false
  else
    let* _ := sys c_setsid in
    let* o := sys (c_open (lit "/dev/null")) in
    let fd := s32 (r_ret o) in
    if negb (fd =? -1) then
      let* _ := sys (c_dup2 fd 0) in
      let* _ := sys (c_dup2 fd 1) in
      let* _ := sys (c_dup2 fd 2) in
      if 2 <? fd then let* _ := sys (c_close fd) in io_ret true else io_ret true
    else io_ret true.

Section init.
Context (garbage : Listener) (signal_work : Work).

Definition InitSigAction (p : srv_process) : IO init_result :=
  let* _ := sys (c_sigaction SIGUSR1) in
  let* _ := sys (c_sigaction SIGCHLD) in
  let* _ := sys (c_sigaction SIGHUP) in
  let* s := sys c_socketpair in
  if s32 (r_ret s) =? -1 then io_ret (Init_exit (-1))
  else
    let p := set_sig_fds (sin_addr (r_addr s)) (sin_port (r_addr s)) p in
    let* _ := SetNonBlock (sig_read_fd_ p) in
    let* _ := SetNonBlock (sig_write_fd_ p) in
    match CreateThread signal_work (fr p) with
    | None => io_ret Init_crash
    | Some (_, x) => io_ret (Init_ret 0 (set_fr x p))
    end.

(** The listeners, then [Daemonize]. *)
Definition InitSrv (c : config) (li : ListenItem) (p : srv_process) : IO init_result :=
  let* r := InitSrv_listeners garbage c li (srv p) in
  let '(ret, s) := r in
  let p := set_srv s p in
  if ret <? 0 then io_ret (Init_ret ret p)
  else
    let* go := Daemonize in
    if go then io_ret (Init_ret 0 p) else io_ret (Init_exit 0).

(** [setproctitle("%s", title)] *)
Definition SetProcTitle (errno : Z) (t : bytes) (p : srv_process) : option srv_process :=
  q ← setproctitle errno (Some t) (title p); Some (set_title q p).

Definition worker_title : bytes := lit "tinyco: worker".
Definition master_title : bytes := lit "tinyco: master".

(** From [spt_init] on. *)
Definition init_processes (argc nprocs : Z) (p : srv_process) : IO init_result :=
  match spt_init argc (title p) with
  | None => io_ret Init_crash
  | Some q =>
      let p := set_title q p in
      let* r := Initialize_workers nprocs (srv p) in
      let '(ret, s) := r in
      let p := set_srv s p in
      if ret <? 0 then io_ret (Init_ret ret p)
      else
        let* _ := sys (c_sigprocmask SIG_SETMASK []) in
        let* e := get_errno in
        match SetProcTitle e (match mode_ s with WM_WORKER => worker_title | _ => master_title end) p with
        | None => io_ret Init_crash
        | Some p => io_ret (Init_ret 0 p)
        end
  end.

(** [parsed] is what jsoncpp makes of the configuration file, [li] the
    uninitialised local of [InitListener]. *)
Definition Initialize (argc nprocs : Z) (parsed : option config) (li : ListenItem) (p : srv_process) :
    IO init_result :=
  let* _ := sys (c_sigprocmask SIG_BLOCK [SIGCHLD; SIGHUP; SIGUSR1]) in
  let '(ret, l, f) := Log_Initialize (Some (lit "tinyco")) (log p) (files p) in
  let p := set_log l f p in
  if ret <? 0 then io_ret (Init_ret (-83) p)
  else match Frame_Init (fr p) with
  | None => io_ret Init_crash
  | Some (false, x) => io_ret (Init_ret (-88) (set_fr x p))
  | Some (true, x) =>
      let p := set_fr x p in
      if negb (ParseConfig parsed) then io_ret (Init_ret (-93) p)
      else
        let* r := InitSigAction p in
        match r with
        | Init_ret ret p =>
            if ret <? 0 then io_ret (Init_ret (-98) p)
            else
              let* r := InitSrv (default (fun _ => None) parsed) li p in
              match r with
              | Init_ret ret p =>
                  if ret <? 0 then io_ret (Init_ret (-103) p)
                  else init_processes argc nprocs p
              | r => io_ret r
              end
        | r => io_ret r
        end
  end.

End init.
