(* ===== verification/ServerInitProps.v ===== *)
(** * What [Initialize] establishes

    The start of the server composed: the scheduler and the coroutine of
    [SignalHelper], the listeners with their free locks, the workers and the
    process title. *)

From S2P Require Import Prelude Heap Thread Frame Sched SchedProps CStr World Network FrameIO FrameIOProps Mutex LockSpec Log Listener Server ServerImpl SetProcTitle SetProcTitleProps ServerInit.

Section facts.
Context (garbage : Listener) (signal_work : Work).

(** ** Listeners *)

(** A listener that can be used: a descriptor, and a free lock that every process
    forked from now on shares. *)
Definition listening (l : Listener) : Prop :=
  0 <= listenfd_ l /\ exists m, mtx_ l = Some m /\ ready m /\ holder m = None.

Lemma new_listening fd ip p proto :
  (fd <? 0) = false -> listening (mkListener fd ip p (Some (mkAtomicMtx (Some 0))) proto).
Proof.
  intros ?%Z.ltb_ge. split; [done|]. eexists. split; [done|]. split; [by eexists|done].
Qed.

Lemma TcpListener_Listen_ok ip p w ret l t w' :
  TcpListener_Listen ip p (TcpListener_new garbage) w = Done (ret, l) t w' -> 0 <= ret -> listening l.
Proof.
  unfold TcpListener_Listen. simpl. intros H Hr. io_inv.
  repeat (split_match_in H; io_inv; simplify_eq/=; try lia). by apply new_listening.
Qed.

Lemma UdpListener_Listen_ok ip p w ret l t w' :
  UdpListener_Listen ip p (UdpListener_new garbage) w = Done (ret, l) t w' -> 0 <= ret -> listening l.
Proof.
  unfold UdpListener_Listen. simpl. intros H Hr. io_inv.
  repeat (split_match_in H; io_inv; simplify_eq/=; try lia). by apply new_listening.
Qed.

(** The server with more listeners. *)
Definition more_listeners (n : nat) (s s' : ServerImpl) : Prop :=
  exists ls, s' = set_listeners (listeners_ s ++ ls) s /\ length ls = n /\ Forall listening ls.

Lemma more_listeners_0 s : more_listeners 0 s s.
Proof. exists []. rewrite app_nil_r. by destruct s. Qed.

Lemma more_listeners_trans n m s1 s2 s3 :
  more_listeners n s1 s2 -> more_listeners m s2 s3 -> more_listeners (n + m) s1 s3.
Proof.
  intros (l1 & -> & <- & H1) (l2 & -> & <- & H2). exists (l1 ++ l2).
  rewrite length_app, Forall_app. simpl. by rewrite app_assoc.
Qed.

Lemma more_listeners_1 l s : listening l -> more_listeners 1 s (set_listeners (listeners_ s ++ [l]) s).
Proof. exists [l]. split; [done|]. split; [done|]. by constructor. Qed.

Lemma init_items_ok proto items li s w ret s' t w' :
  (proto = lit "tcp" \/ proto = lit "udp") ->
  init_items garbage proto items li s w = Done (ret, s') t w' -> 0 <= ret ->
  more_listeners (length items) s s'.
Proof.
  intros Hp. revert li s w t. induction items as [|it items IH]; intros li s w t H Hr; simpl in H.
  { io_inv. simplify_eq. apply more_listeners_0. }
  apply io_bind_inv in H as ([ok li'] & t1 & w1 & t2 & _ & H & ->).
  destruct ok; simpl in H; [|io_inv; simplify_eq; lia].
  assert (Hstep : forall l tx wx, listening l ->
    init_items garbage proto items li' (set_listeners (listeners_ s ++ [l]) s) wx = Done (ret, s') tx w' ->
    more_listeners (length (it :: items)) s s').
  { intros l tx wx Hl Hi. apply (more_listeners_trans 1 (length items)) with (set_listeners (listeners_ s ++ [l]) s);
      [by apply more_listeners_1|by eapply IH]. }
  case_decide as Ht; [|case_decide as Hu; [|by destruct Hp]];
    apply io_bind_inv in H as ([r l] & t3 & w3 & t4 & Hl & H & ->);
    (destruct (Z.ltb_spec r 0); [io_inv; simplify_eq; lia|]); (eapply Hstep; [|exact H]).
  - by eapply TcpListener_Listen_ok.
  - by eapply UdpListener_Listen_ok.
Qed.

(** The number of configured items. *)
Definition configured (c : config) (proto : bytes) : nat := length (default [] (c proto)).

Lemma InitListener_ok c proto li s w ret s' t w' :
  (proto = lit "tcp" \/ proto = lit "udp") ->
  InitListener garbage c proto li s w = Done (ret, s') t w' -> 0 <= ret ->
  more_listeners (configured c proto) s s'.
Proof.
  intros Hp. unfold InitListener, configured. destruct (c proto); simpl; [by apply init_items_ok|].
  intros H _. io_inv. simplify_eq. apply more_listeners_0.
Qed.

Lemma InitSrv_listeners_ok c li s w ret s' t w' :
  InitSrv_listeners garbage c li s w = Done (ret, s') t w' -> 0 <= ret ->
  more_listeners (configured c (lit "tcp") + configured c (lit "udp")) s s'.
Proof.
  unfold InitSrv_listeners. intros H Hr.
  apply io_bind_inv in H as ([r1 s1] & t1 & w1 & t2 & H1 & H & ->).
  destruct (Z.ltb_spec r1 0); [io_inv; simplify_eq; lia|].
  apply io_bind_inv in H as ([r2 s2] & t3 & w3 & t4 & H2 & H & ->).
  destruct (Z.ltb_spec r2 0); io_inv; simplify_eq; try lia.
  eapply more_listeners_trans; eapply InitListener_ok; eauto.
Qed.

(** ** Workers *)

(** The master has all its workers, a worker the ones forked before it. *)
Definition forked (n : nat) (s s' : ServerImpl) : Prop :=
  exists ws, s' = set_mode (mode_ s') (set_workers (worker_processes_ s ++ ws) s) /\
    Forall (fun x => w_name x = worker_title /\ 0 < w_pid x) ws /\
    match mode_ s' with
    | WM_MASTER => length ws = n
    | WM_WORKER => (length ws < n)%nat
    | WM_UNKNOWN => False
    end.

Lemma fork_workers_ok n c s w c' s' t w' :
  fork_workers n worker_title c s w = Done (Some c', s') t w' -> 0 <= c ->
  exists ws, s' = set_workers (worker_processes_ s ++ ws) s /\
    Forall (fun x => w_name x = worker_title /\ 0 < w_pid x) ws /\
    (((length ws < n)%nat /\ c' = 0) \/ (length ws = n /\ (c' = c \/ 0 < c') /\ (n <> 0%nat -> 0 < c'))).
Proof.
  revert c s w t. induction n as [|n IH]; intros c s w t H Hc; simpl in H.
  { io_inv. simplify_eq. exists []. rewrite app_nil_r. split; [by destruct s'|]. split; [done|]. right.
    split; [done|]. split; [by left|done]. }
  io_inv. destruct (Z.eqb_spec (s32 (r_ret a)) 0) as [E|E].
  { io_inv. simplify_eq. exists []. rewrite app_nil_r. split; [by destruct s'|]. split; [done|]. left.
    simpl. split; [lia|done]. }
  destruct (Z.ltb_spec (s32 (r_ret a)) 0); [io_inv; done|].
  apply IH in H as (ws & -> & Hws & Hn); [|lia].
  exists (mkWorker worker_title (s32 (r_ret a)) :: ws). simpl. rewrite <- app_assoc. split; [done|]. split.
  - constructor; [|done]. simpl. split; [done|lia].
  - destruct Hn as [[? ->]|(<- & Hc' & Hn)]; [left; split; [lia|done]|right]. split; [done|]. lia.
Qed.

Definition worker_num (nprocs : Z) : nat := Z.to_nat (if 0 <? nprocs then nprocs else 1).

Lemma Initialize_workers_ok nprocs s w ret s' t w' :
  Initialize_workers nprocs s w = Done (ret, s') t w' -> 0 <= ret -> forked (worker_num nprocs) s s'.
Proof.
  unfold Initialize_workers, worker_num. intros H Hr.
  apply io_bind_inv in H as ([[c|] s1] & t1 & w1 & t2 & H1 & H & ->); [|io_inv; simplify_eq; lia].
  apply fork_workers_ok in H1 as (ws & -> & Hws & Hn); [|done].
  exists ws. destruct (Z.eqb_spec c 0) as [->|E]; io_inv; simplify_eq; simpl; (split; [done|]); (split; [done|]).
  - destruct Hn as [[? _]|(_ & _ & Hn)]; [done|]. exfalso.
    specialize (Hn ltac:(destruct (Z.ltb_spec 0 nprocs); lia)). lia.
  - destruct Hn as [[_ ?]|(? & _ & _)]; [lia|done].
Qed.

(** ** The whole start *)

(** The calls that change neither the mask nor make a pipe. *)
Definition keeps_signals (c : syscall) : Prop :=
  match c with c_sigprocmask _ _ | c_socketpair => False | _ => True end.

Lemma calls_fork_workers n title c s : calls keeps_signals (fork_workers n title c s).
Proof.
  revert c s. induction n as [|n IH]; intros c s; simpl; [apply calls_ret|]. apply calls_bind; [by apply calls_sys|]. intros r.
  repeat case_match; calls_tac. apply IH.
Qed.

Lemma calls_Initialize_workers nprocs s : calls keeps_signals (Initialize_workers nprocs s).
Proof. apply calls_bind; [apply calls_fork_workers|intros [[c|] s1]; calls_tac]. Qed.

Lemma calls_init_items proto items li s : calls keeps_signals (init_items garbage proto items li s).
Proof.
  revert li s. induction items as [|it items IH]; intros li s; simpl; [apply calls_ret|].
  unfold ListenItem_Parse, TcpListener_Listen, UdpListener_Listen, SetReuseAddr, GetEthAddr.
  calls_tac; by first [apply IH|apply calls_SetNonBlock].
Qed.

Lemma calls_InitSrv c li p : calls keeps_signals (InitSrv garbage c li p).
Proof.
  unfold InitSrv, InitSrv_listeners, InitListener, Daemonize. calls_tac; apply calls_init_items.
Qed.

(** What is established, for the process it returns in. *)
Record started (c : config) (argc nprocs : Z) (p p' : srv_process) (t : io_trace) : Prop := {
  st_listeners : exists s1, more_listeners (configured c (lit "tcp") + configured c (lit "udp")) (srv p) s1 /\
    forked (worker_num nprocs) s1 (srv p');
  st_frame : wf (fr p') (InThread 1%nat);
  st_helper : exists u th, thread_runnable_ (fr p') = [Some u] /\ store (fr p') !! u = Some th /\
    fun_ th = Some (HandleProcess_fn signal_work) /\ state_ th = Some TS_STOP;
  st_signals : exists r1 r r2 u v,
    t = (c_sigprocmask SIG_BLOCK [SIGCHLD; SIGHUP; SIGUSR1], r1) ::
        u ++ (c_socketpair, r) :: v ++ [(c_sigprocmask SIG_SETMASK [], r2)] /\
    Forall (fun e => keeps_signals e.1 /\ e.1 <> c_fork) u /\ Forall (fun e => keeps_signals e.1) v /\
    sig_read_fd_ p' = sin_addr (r_addr r) /\ sig_write_fd_ p' = sin_port (r_addr r);
  st_title : exists q e, spt_init argc (title p) = Some q /\
    setproctitle e (Some (match mode_ (srv p') with WM_WORKER => worker_title | _ => master_title end)) q =
    Some (title p')
}.

Lemma init_processes_ok argc nprocs p w p' t w' :
  init_processes argc nprocs p w = Done (Init_ret 0 p') t w' ->
  fr p' = fr p /\ sig_read_fd_ p' = sig_read_fd_ p /\ sig_write_fd_ p' = sig_write_fd_ p /\
  forked (worker_num nprocs) (srv p) (srv p') /\
  (exists r2 u, t = u ++ [(c_sigprocmask SIG_SETMASK [], r2)] /\ Forall (fun e => keeps_signals e.1) u) /\
  exists q e, spt_init argc (title p) = Some q /\
    setproctitle e (Some (match mode_ (srv p') with WM_WORKER => worker_title | _ => master_title end)) q =
    Some (title p').
Proof.
  unfold init_processes. intros H. destruct (spt_init argc (title p)) as [q|]; [|io_inv; done].
  apply io_bind_inv in H as ([ret s] & t1 & w1 & t2 & H1 & H & ->). cbn [set_title srv] in H1.
  destruct (Z.ltb_spec ret 0); [io_inv; simplify_eq; lia|].
  pose proof (calls_done keeps_signals _ _ _ _ _ (calls_Initialize_workers nprocs _) H1) as Hk.
  apply Initialize_workers_ok in H1; [|lia]. io_inv.
  unfold SetProcTitle in H. cbn [set_srv set_title title mode_ srv] in H.
  destruct (setproctitle _ _ q) as [q2|] eqn:Hq; simpl in H; io_inv; [|done]. simplify_eq. simpl.
  split_and!; try done; [|by eauto].
  by exists a, t1.
Qed.

Lemma InitSigAction_ok p w p' t w' :
  InitSigAction signal_work p w = Done (Init_ret 0 p') t w' ->
  exists x u, CreateThread signal_work (fr p) = Some (u, x) /\ fr p' = x /\ srv p' = srv p /\
    title p' = title p /\
    exists r u v, t = u ++ (c_socketpair, r) :: v /\
      Forall (fun e => keeps_signals e.1 /\ e.1 <> c_fork) u /\ Forall (fun e => keeps_signals e.1) v /\
      sig_read_fd_ p' = sin_addr (r_addr r) /\ sig_write_fd_ p' = sin_port (r_addr r).
Proof.
  unfold InitSigAction. intros H. io_inv. destruct (s32 (r_ret a2) =? -1); [io_inv; done|].
  apply io_bind_inv in H as (b1 & v1 & wn1 & v2 & N1 & H & ->). apply io_bind_inv in H as (b2 & v3 & wn2 & v4 & N2 & H & ->).
  assert (Hnb : forall fd, calls keeps_signals (SetNonBlock fd)) by (intros; by apply calls_SetNonBlock).
  pose proof (calls_done _ _ _ _ _ _ (Hnb _) N1) as K1. pose proof (calls_done _ _ _ _ _ _ (Hnb _) N2) as K2. cbn [set_sig_fds fr] in H. destruct (CreateThread signal_work (fr p)) as [[u x]|]; io_inv; [|done].
  simplify_eq. exists x, u. split_and!; try done.
  exists a2, [(c_sigaction SIGUSR1, a); (c_sigaction SIGCHLD, a0); (c_sigaction SIGHUP, a1)], (v1 ++ v3 ++ []). split; [done|]. split; [repeat constructor; done|].
  split; [|done]. repeat (apply Forall_app; split); done.
Qed.

Lemma InitSrv_ok c li p w p' t w' :
  InitSrv garbage c li p w = Done (Init_ret 0 p') t w' ->
  fr p' = fr p /\ sig_read_fd_ p' = sig_read_fd_ p /\ sig_write_fd_ p' = sig_write_fd_ p /\
  title p' = title p /\
  more_listeners (configured c (lit "tcp") + configured c (lit "udp")) (srv p) (srv p').
Proof.
  unfold InitSrv. intros H. apply io_bind_inv in H as ([ret s] & t1 & w1 & t2 & H1 & H & ->).
  destruct (Z.ltb_spec ret 0); [io_inv; simplify_eq; lia|].
  apply InitSrv_listeners_ok in H1; [|lia].
  apply io_bind_inv in H as ([] & t3 & w3 & t4 & _ & H & ->); io_inv; [|done]. simplify_eq. done.
Qed.

(** Neither of them returns a positive number. *)
Lemma InitSigAction_zero p w ret p' t w' :
  InitSigAction signal_work p w = Done (Init_ret ret p') t w' -> ret = 0.
Proof.
  unfold InitSigAction. intros H. io_inv. destruct (s32 (r_ret a2) =? -1); [io_inv; done|].
  io_inv. destruct (CreateThread _ _) as [[]|]; io_inv; by simplify_eq.
Qed.

Lemma InitSrv_zero c li p w ret p' t w' :
  InitSrv garbage c li p w = Done (Init_ret ret p') t w' -> 0 <= ret -> ret = 0.
Proof.
  unfold InitSrv. intros H Hr. apply io_bind_inv in H as ([r s] & t1 & w1 & t2 & H1 & H & ->).
  destruct (Z.ltb_spec r 0); [io_inv; simplify_eq; lia|].
  apply io_bind_inv in H as ([] & t3 & w3 & t4 & _ & H & ->); io_inv; by simplify_eq.
Qed.

(** C25: A successful start: when [Initialize] returns 0 in a new process, the
    scheduler is in its invariant and its only ready thread is the one that will
    run [SignalHelper]; every configured item has a listener with a descriptor and
    a free lock; the master has one worker for each processor, with the pid that
    [fork] returned, and a worker knows the workers forked before it; SIGCHLD,
    SIGHUP and SIGUSR1 are blocked by the first call and unblocked by the last, and
    no call in between changes the mask; the pipe for signals is the pair that
    [socketpair] made, once, with no [fork] before it, so that all processes share
    it; and the title is that of the role of the process. *)
Theorem initialize_establishes argc nprocs parsed li p w p' t w' :
  Initialize garbage signal_work argc nprocs parsed li p w = Done (Init_ret 0 p') t w' ->
  fr p = frame0 ->
  exists c, parsed = Some c /\ started c argc nprocs p p' t.
Proof.
  unfold Initialize. intros H Hfr. apply io_bind_inv in H as (r1 & t0 & w0 & u & H1 & H & ->).
  apply sys_inv in H1 as (-> & _ & _).
  destruct (Log_Initialize (Some (lit "tinyco")) (log p) (files p)) as [[ret l] f].
  destruct (ret <? 0); [io_inv; done|]. cbn [set_log fr] in H. rewrite Hfr in H.
  destruct (Frame_Init_ok 1000) as (x & Hi & Hwf & _ & Hrun & _). unfold Frame_Init in H. rewrite Hi in H. clear Hi.
  destruct parsed as [c|]; [|io_inv; done]. destruct (ParseConfig (Some c)); cbn [negb] in H; [|io_inv; done].
  exists c. split; [done|].
  apply io_bind_inv in H as (a & t1 & w1 & t2 & H1 & H & ->). destruct a as [ret1 p1| |]; [|io_inv; done..].
  destruct (Z.ltb_spec ret1 0); [io_inv; done|].
  assert (ret1 = 0) as -> by (by eapply InitSigAction_zero).
  apply InitSigAction_ok in H1 as (x1 & u1 & Hct & Hf1 & Hs1 & Htl1 & r & ta & tb & -> & Hta & Htb & Hrd & Hwr).
  apply io_bind_inv in H as (a & t3 & w3 & t4 & H2 & H & ->). destruct a as [ret2 p2| |]; [|io_inv; done..].
  destruct (Z.ltb_spec ret2 0); [io_inv; done|].
  assert (ret2 = 0) as -> by (by eapply InitSrv_zero).
  pose proof (calls_done _ _ _ _ _ _ (calls_InitSrv c li p1) H2) as Ht3. apply InitSrv_ok in H2 as (Hf2 & Hrd2 & Hwr2 & Htl2 & Hls).
  apply init_processes_ok in H as (Hf3 & Hrd3 & Hwr3 & Hfk & (r2 & v & -> & Hv) & q & e & Hq & Hst).
  destruct (CreateThread_wf signal_work x _ Hwf) as (tid & x' & Hct' & Hwf' & Hrun' & Hth & _).
  cbn [set_fr fr] in Hct. rewrite Hct' in Hct. injection Hct as <- <-. destruct Hth as (th & Hth1 & Hth2 & Hth3).
  split.
  - exists (srv p2). rewrite Hs1 in Hls. done.
  - by rewrite Hf3, Hf2, Hf1.
  - exists tid, th. by rewrite Hf3, Hf2, Hf1, Hrun', Hrun.
  - exists r1, r, r2, ta, (tb ++ t3 ++ v). rewrite Hrd3, Hrd2, Hwr3, Hwr2. split; [by rewrite <- !app_assoc|].
    split; [done|]. split; [|done]. by repeat (apply Forall_app; split).
  - exists q, e. split; [by rewrite <- Hq, Htl2, Htl1|exact Hst].
Qed.

End facts.

(** ** A witness *)

(** A master with two workers and one listener on eth0, port 8080. *)
Definition demo_config : config := fun k =>
  if decide (k = lit "tcp") then Some [lit "eth0:8080"]
  else if decide (k = lit "http") then Some [] else None.

Definition demo_start : srv_process :=
  mkSrvProcess ServerImpl_new 0 0 (mkLog 0 [] [] [] None false None) (mkFs ∅ ∅ []) frame0 demo_process.

Definition demo_zero : resp := answer 0 0 [].

Definition demo_answers : list resp :=
  [demo_zero] (* sigprocmask *) ++ [demo_zero; demo_zero; demo_zero] (* sigaction *) ++
  [mkResp 0 0 [] (mkSockaddr 3 4); demo_zero; demo_zero; demo_zero; demo_zero] (* the pipe *) ++
  [answer 5 0 []; demo_zero; demo_zero] (* the address *) ++
  [answer 5 0 []; demo_zero; demo_zero; demo_zero; demo_zero; demo_zero] (* the listener *) ++
  [demo_zero; demo_zero; answer 6 0 []; demo_zero; demo_zero; demo_zero; demo_zero] (* Daemonize, in the child *) ++
  [answer 100 0 []; answer 101 0 []; demo_zero] (* the workers *).

Definition succeeds (o : outcome init_result) : bool :=
  match o with Done (Init_ret 0 _) _ _ => true | _ => false end.

Lemma succeeds_spec o : succeeds o = true -> exists p t w, o = Done (Init_ret 0 p) t w.
Proof. destruct o as [[[] p| |] t w|]; try done. eauto. Qed.

Definition demo_garbage : Listener := mkListener 0 (ip_of 0) 0 None [].

Lemma demo_succeeds :
  succeeds (Initialize demo_garbage 7%nat 1 2 (Some demo_config) (mkListenItem [] (ip_of 0) 0) demo_start
    (mkWorld demo_answers 0)) = true.
Proof. vm_compute. reflexivity. Qed.

Lemma initialize_establishes_witness :
  exists c p' t, started 7%nat c 1 2 demo_start p' t.
Proof.
  destruct (succeeds_spec _ demo_succeeds) as (p' & t & w & E).
  destruct (initialize_establishes demo_garbage 7%nat 1 2 (Some demo_config) (mkListenItem [] (ip_of 0) 0)
    demo_start _ p' t w E eq_refl) as (c & _ & H).
  exists c, p', t. exact H.
Defined.
