(* ===== verification/Worker.v ===== *)
(** * A worker process under its scheduler

    The program of a worker: the coroutine of [ServerImpl::Run], the one of
    [SignalHelper], one per listener and one per connection or datagram, each with
    the function that its work object runs, and the connection tracker that they
    share.  Every execution of it under the scheduler is a history of
    [Shutdown.worker_process], so that the theorems on shutting down hold of real
    interleavings and not only of assumed ones. *)

From S2P Require Import Prelude Heap Thread Frame FrameFacts Sched SchedProps SchedContext World Resume.
From S2P Require Import Process ProcessInv ProcessProps Network FrameIO FrameIOProps Mutex Listener Server ServerProps.
From S2P Require Import ServerImpl ServerImplProps SimpleServer ServerInit Shutdown.

(** ** The program *)

#[local] Instance sockaddr_eq_dec : EqDecision sockaddr.
Proof. solve_decision. Defined.
#[local] Instance req_eq_dec : EqDecision UdpReqInfo.
Proof. solve_decision. Defined.

Inductive wjob :=
  | J_main
  | J_signal
  | J_tcp (i : nat)
  | J_udp (i : nat)
  | J_conn (fd port : Z) (tracked : bool)
  | J_datagram (req : UdpReqInfo) (port : Z).

#[export] Instance wjob_eq_dec : EqDecision wjob.
Proof. solve_decision. Defined.

(** What the business work objects do, for a connection and for a datagram;
    [false]: the process does not survive it. *)
Class Handlers := {
  conn : Z -> Z -> IO bool;
  datagram : UdpReqInfo -> Z -> IO bool
}.

Section worker.
Context {Ha : Handlers}.
(** The server, the descriptor from which [SignalHelper] reads, and the builder,
    which is the server itself. *)
Context (s : ServerImpl) (sigfd : Z) (build : builder).

(** [BuildStreamBusinessWork], [SetFd] and [SetConnTracker]. *)
Definition conn_work (fd : Z) (tracked : bool) : TcpReqWork :=
  let b := SetFd fd TcpReqWork_new in if tracked then SetConnTracker b else b.

(** [Run] without an error returns into [Frame::HandleProcess], which deletes. *)
Definition listener_code (l : Listener) (m : IO work_end) : IO bool :=
  let* r := m in
  match r with
  | W_falls_off => let* _ := SrvWork_delete l in io_ret true
  | W_exit _ | W_crash => io_ret false
  end.

Definition worker_code (j : wjob) : IO bool :=
  match j with
  | J_main => let* _ := ServerImpl_Run s in io_ret true
  | J_signal => let* _ := SignalHelper_Run sigfd s in io_ret true
  | J_tcp i =>
      match listeners_ s !! i with
      | Some l => listener_code l (TcpSrvWork_Run (GetSocketFd l) (GetPort l) (Some build) true)
      | None => io_ret false
      end
  | J_udp i =>
      match listeners_ s !! i with
      | Some l => listener_code l (UdpSrvWork_Run l (Some build))
      | None => io_ret false
      end
  | J_conn fd port tracked =>
      let* alive := conn fd port in
      if alive then let* _ := TcpReqWork_delete (conn_work fd tracked) ConnTracker_new in io_ret true
      else io_ret false
  | J_datagram req port => datagram req port
  end.

Definition worker_spawn (c : syscall) : option wjob :=
  match c with
  | c_create_srv true i => Some (J_tcp i)
  | c_create_srv false i => Some (J_udp i)
  | c_create_tcp fd port tracked => Some (J_conn fd port tracked)
  | c_create_udp sockfd pkg src dst port => Some (J_datagram (mkUdpReqInfo sockfd pkg src dst) port)
  | _ => None
  end.

(** A call as an event of the tracker's history.  The signal coroutine runs
    [SignalCallback] as soon as it has received; a listener closes its socket only
    when it is deleted. *)
Definition event_of (j : wjob) (e : io_event) : option worker_event :=
  match j with
  | J_main => Some (w_call 0 e)
  | J_tcp i => match e with (c_close _, _) => None | _ => Some (w_call (S i) e) end
  | J_signal =>
      match e with
      | (c_recv _ _ _, r) => if 0 <? s32 (r_ret r) then Some (w_signal (int_of_bytes (r_data r))) else None
      | _ => None
      end
  | _ => None
  end.

Definition answeredb (ct : ConnTracker) (e : worker_event) : bool :=
  match e with
  | w_call _ (c_graceful, r) => Bool.eqb (negb (r_ret r =? 0)) (GracefulShutdown ct)
  | w_call _ (c_connsize, r) => r_ret r =? GetConnSize ct
  | _ => true
  end.

Definition worker_shared (j : wjob) (e : io_event) (ct : ConnTracker) : option ConnTracker :=
  match event_of j e with
  | None => Some ct
  | Some x => if answeredb ct x then Some (tracker_step ct x) else None
  end.

(** The destructor of [TcpReqWork] removes the connection. *)
Definition deletion_of (j : wjob) : option worker_event :=
  match j with J_conn fd _ tracked => Some (w_delete (conn_work fd tracked)) | _ => None end.
Definition worker_deleted (j : wjob) (ct : ConnTracker) : ConnTracker :=
  match deletion_of j with Some x => tracker_step ct x | None => ct end.

Definition worker_program : program wjob ConnTracker :=
  mkProgram worker_code worker_spawn worker_shared worker_deleted.

(** A worker as [ServerImpl::Run] finds it: [Initialize] has created the coroutine
    of [SignalHelper]. *)
Definition worker_reachable {HO : HeapOps} (pool : nat) (e0 : Z) : proc wjob ConnTracker -> Prop :=
  preachable worker_program pool J_main [J_signal] true e0 ConnTracker_new.

Definition event_in (jobs : list wjob) (x : pevent) : option worker_event :=
  match x with
  | pe_call w e => j ← jobs !! w; event_of j e
  | pe_delete w => j ← jobs !! w; deletion_of j
  end.
Definition history (p : proc wjob ConnTracker) : list worker_event := omap (event_in (jobs p)) (plog p).

End worker.

(** ** Handlers *)

(** A call that creates nothing. *)
Definition quiet_call (c : syscall) : Prop := worker_spawn c = None.

Class QuietHandlers (Ha : Handlers) : Prop := {
  conn_sane fd port : sane (conn fd port);
  conn_causal fd port : causal (conn fd port);
  conn_quiet fd port : calls quiet_call (conn fd port);
  datagram_sane req port : sane (datagram req port);
  datagram_causal req port : causal (datagram req port);
  datagram_quiet req port : calls quiet_call (datagram req port)
}.

Section code.
Context {Ha : Handlers} (Hq : QuietHandlers Ha) (s : ServerImpl) (sigfd : Z) (build : builder).

(** ** The code can be interrupted anywhere *)

Lemma causal_Frame_accept fd : causal (Frame_accept fd).
Proof. apply causal_loop; [apply accept_productive|]. intros []. unfold accept_body. causal_tac. Qed.

Lemma causal_Frame_recv fd len flags : causal (Frame_recv fd len flags).
Proof. apply causal_loop; [apply recv_productive|]. intros []. unfold recv_body. causal_tac. Qed.

Lemma causal_Frame_recvfrom fd len flags : causal (Frame_recvfrom fd len flags).
Proof. apply causal_loop; [apply recvfrom_productive|]. intros []. unfold recvfrom_body. causal_tac. Qed.

Lemma causal_Frame_send fd buf flags : causal (Frame_send fd buf flags).
Proof. apply causal_loop; [apply send_productive|]. intros n. unfold send_body. causal_tac. Qed.

Lemma causal_SetNonBlock fd : causal (SetNonBlock fd).
Proof. unfold SetNonBlock. causal_tac. Qed.

Hint Resolve causal_Frame_accept causal_Frame_recv causal_Frame_recvfrom causal_SetNonBlock : tinyco.

Lemma causal_RunTcpSrv fd port wb ct : causal (RunTcpSrv fd port wb ct).
Proof. apply causal_loop; [apply tcp_srv_productive|]. intros n. unfold tcp_srv_body, serve_conn. causal_tac. Qed.

Lemma causal_RunUdpSrv l wb : causal (RunUdpSrv l wb).
Proof. apply causal_loop; [apply udp_srv_productive|]. intros []. unfold udp_srv_body. causal_tac. Qed.

Lemma causal_WorkerRun : causal (WorkerRun s).
Proof.
  unfold WorkerRun. apply causal_bind; [|intros _].
  - generalize 0%nat. induction (listeners_ s) as [|l ls IH]; intros i; cbn [start_listeners]; [apply causal_ret|].
    repeat case_decide; auto. all: apply causal_bind; [apply causal_sys|auto].
  - apply causal_loop; [apply worker_productive|]. intros []. unfold worker_body, ServerLoop. causal_tac.
Qed.

Lemma sane_SignalCallback sig s' : sane (SignalCallback sig s').
Proof.
  unfold SignalCallback. destruct (mode_ s'); repeat case_match; try apply sane_ret. apply sane_loop, GetWorkerStatus_productive.
Qed.

Lemma causal_SignalCallback sig s' : causal (SignalCallback sig s').
Proof.
  unfold SignalCallback. destruct (mode_ s'); repeat case_match; try apply causal_ret.
  apply causal_loop; [apply GetWorkerStatus_productive|]. intros s0. unfold GetWorkerStatus_body. causal_tac.
Qed.

Lemma signal_productive fd : productive (signal_body fd).
Proof.
  split.
  - intros s0. unfold signal_body. apply sane_bind; [auto with tinyco|]. intros [ret data].
    destruct (ret <? 0); [apply sane_ret|]. apply sane_bind; [apply sane_SignalCallback|]. intros s1. apply sane_ret.
  - intros s0 w s1 t w' H. unfold signal_body in H. apply io_bind_inv in H as ([ret data] & t1 & w1 & t2 & Hr & _ & ->).
    apply Frame_recv_calls in Hr. by destruct t1.
Qed.

Lemma causal_SignalHelper_Run fd s' : causal (SignalHelper_Run fd s').
Proof.
  apply causal_loop; [apply signal_productive|]. intros s0. unfold signal_body. apply causal_bind; [apply causal_Frame_recv|].
  intros [ret data]. destruct (ret <? 0); [apply causal_ret|]. apply causal_bind; [apply causal_SignalCallback|]. intros s1. apply causal_ret.
Qed.

Context (Hmode : mode_ s = WM_WORKER).

Lemma sane_listener_code l m : sane m -> sane (listener_code l m).
Proof.
  intros Hm. unfold listener_code, SrvWork_delete, Listener_delete, Destroy. apply sane_bind; [done|]. intros []; sane_tac.
Qed.

Lemma causal_listener_code l m : causal m -> causal (listener_code l m).
Proof.
  intros Hm. unfold listener_code, SrvWork_delete, Listener_delete, Destroy. apply causal_bind; [done|]. intros []; causal_tac.
Qed.

#[export] Instance worker_coded : Coded (worker_program s sigfd build).
Proof.
  split; intros []; cbn [code worker_program worker_code]; unfold ServerImpl_Run, TcpSrvWork_Run, UdpSrvWork_Run, TcpReqWork_delete;
    rewrite ?Hmode.
  - apply sane_bind; [|intros; apply sane_ret]. apply sane_bind; [apply sane_WorkerRun|intros; apply sane_ret].
  - apply sane_bind; [|intros; apply sane_ret]. apply sane_loop, signal_productive.
  - destruct (listeners_ s !! i); [|apply sane_ret]. apply sane_listener_code, sane_bind; [|intros; apply sane_ret].
    apply sane_loop, tcp_srv_productive.
  - destruct (listeners_ s !! i); [|apply sane_ret]. apply sane_listener_code, sane_bind; [|intros; apply sane_ret].
    apply sane_loop, udp_srv_productive.
  - apply sane_bind; [apply conn_sane|]. intros []; sane_tac.
  - apply datagram_sane.
  - apply causal_bind; [|intros; apply causal_ret]. apply causal_bind; [apply causal_WorkerRun|intros; apply causal_ret].
  - apply causal_bind; [|intros; apply causal_ret]. apply causal_SignalHelper_Run.
  - destruct (listeners_ s !! i); [|apply causal_ret]. apply causal_listener_code, causal_bind; [|intros; apply causal_ret].
    apply causal_RunTcpSrv.
  - destruct (listeners_ s !! i); [|apply causal_ret]. apply causal_listener_code, causal_bind; [|intros; apply causal_ret].
    apply causal_RunUdpSrv.
  - apply causal_bind; [apply conn_causal|]. intros []; causal_tac.
  - apply datagram_causal.
Qed.

(** Some answer always fits the tracker. *)
Lemma worker_answerable : answerable (worker_program s sigfd build).
Proof.
  intros j c ct _. cbn [shared worker_program]. unfold worker_shared.
  exists (mkResp (match c with c_graceful => if GracefulShutdown ct then 1 else 0 | c_connsize => GetConnSize ct | _ => 0 end)
            0 [] (mkSockaddr 0 0)).
  destruct (event_of j _) as [x|] eqn:E; [|eauto]. enough (answeredb ct x = true) as -> by eauto.
  assert (Hx : (exists i, x = w_call i (c, mkResp (match c with c_graceful => if GracefulShutdown ct then 1 else 0
    | c_connsize => GetConnSize ct | _ => 0 end) 0 [] (mkSockaddr 0 0))) \/ exists sig, x = w_signal sig).
  { destruct j; try done; cbn [event_of] in E.
    - injection E as <-. eauto.
    - by destruct c.
    - destruct c; try done; injection E as <-; eauto. }
  destruct Hx as [[i ->]|[sig ->]]; [|done]. destruct c; try done; cbn.
  - by destruct (GracefulShutdown ct).
  - apply Z.eqb_refl.
Qed.

(** ** Who creates threads *)

(** Which listener's coroutine an event creates. *)
Definition srv_of (c : syscall) : option nat := match c with c_create_srv _ i => Some i | _ => None end.
Definition listener_of (j : wjob) : option nat := match j with J_tcp i | J_udp i => Some i | _ => None end.
Definition starts_no_srv (c : syscall) : Prop := match c with c_create_srv _ _ => False | _ => True end.

Lemma calls_impl {A} (P Q : syscall -> Prop) (m : IO A) : (forall c, P c -> Q c) -> calls P m -> calls Q m.
Proof. intros H Hm w. specialize (Hm w). destruct (m w); (eapply Forall_impl; [exact Hm|]); intros e; apply H. Qed.

Lemma quiet_starts c : quiet_call c -> starts_no_srv c.
Proof. unfold quiet_call, worker_spawn. destruct c; try done. by destruct tcp. Qed.

Lemma others_start_no_srv j : j <> J_main -> calls starts_no_srv (worker_code s sigfd build j).
Proof.
  assert (Hdel : forall l m, calls starts_no_srv m -> calls starts_no_srv (listener_code l m)).
  { intros l m Hm. unfold listener_code, SrvWork_delete, Listener_delete, Destroy. apply calls_bind; [done|]. intros []; calls_tac. }
  destruct j; intros Hj; [done|..]; cbn [worker_code]; unfold TcpSrvWork_Run, UdpSrvWork_Run, TcpReqWork_delete.
  - apply calls_bind; [|intros; apply calls_ret]. apply calls_loop. intros s0. unfold signal_body.
    apply calls_bind; [by apply calls_Frame_recv|]. intros [ret data]. destruct (ret <? 0); [apply calls_ret|].
    apply calls_bind; [|intros; apply calls_ret]. unfold SignalCallback. destruct (mode_ s0); repeat case_match; try apply calls_ret.
    apply calls_loop. intros s1. unfold GetWorkerStatus_body. calls_tac.
  - destruct (listeners_ s !! i); [|apply calls_ret]. apply Hdel, calls_bind; [|intros; apply calls_ret].
    apply calls_loop. intros n. unfold tcp_srv_body, serve_conn. calls_tac; by first [apply calls_Frame_accept|apply calls_SetNonBlock].
  - destruct (listeners_ s !! i); [|apply calls_ret]. apply Hdel, calls_bind; [|intros; apply calls_ret].
    apply calls_loop. intros n. unfold udp_srv_body. calls_tac. by apply calls_Frame_recvfrom.
  - apply calls_bind; [|intros; calls_tac]. apply (calls_impl quiet_call); [apply quiet_starts|apply conn_quiet].
  - apply (calls_impl quiet_call); [apply quiet_starts|apply datagram_quiet].
Qed.

(** The main coroutine starts the listeners in order: a monitor with the next one. *)
Definition srv_next (n : nat) (e : io_event) : option nat :=
  match e.1 with c_create_srv _ i => if decide (n <= i)%nat then Some (S i) else None | _ => Some n end.

Lemma start_listeners_order n i ls : (n <= i)%nat -> drives srv_next n (start_listeners i ls) (fun _ _ => True).
Proof.
  revert n i. induction ls as [|l ls IH]; intros n i Hn; cbn [start_listeners]; [by apply drives_ret|].
  assert (Hs : forall b, drives srv_next n (sys (c_create_srv b i)) (fun _ m => m = S i)).
  { intros b. apply drives_sys. intros r. unfold srv_next. cbn [fst]. rewrite decide_True by done. by exists (S i). }
  repeat case_decide; [..|apply IH; lia]; (eapply drives_bind; [apply Hs|]; intros a m ->; apply IH; lia).
Qed.

Lemma main_order e h : runs (worker_code s sigfd build J_main) e h -> is_Some (drive srv_next 0%nat h).
Proof.
  unfold runs. intros <-. cbn [worker_code]. unfold ServerImpl_Run. rewrite Hmode.
  apply (drives_accepts srv_next _ _ (fun _ _ => True)).
  do 2 (apply (drives_bind _ _ _ _ (fun _ _ => True)); [|by intros; apply drives_ret]). unfold WorkerRun.
  apply (drives_bind _ _ _ _ (fun _ _ => True)); [by apply start_listeners_order|]. intros [] n _.
  apply (drives_loop _ _ (fun _ _ => True)); [apply worker_productive|done|]. intros [] m _.
  assert (Hc : calls starts_no_srv (worker_body tt)) by (unfold worker_body, ServerLoop; calls_tac).
  intros w. pose proof (drives_calls srv_next m _ _ Hc) as Hd. specialize (Hd ltac:(by intros [])  w).
  destruct (worker_body tt w) as [[[]|[]] t w'|t]; [destruct Hd as (m' & -> & _); eauto..|done].
Qed.

Lemma order_nodup n h :
  is_Some (drive srv_next n h) ->
  NoDup (omap (fun e : io_event => srv_of e.1) h) /\ Forall (fun i => (n <= i)%nat) (omap (fun e : io_event => srv_of e.1) h).
Proof.
  revert n. induction h as [|[c r] h IH]; intros n H; [by split; constructor|].
  rewrite drive_cons in H. destruct (srv_next n (c, r)) as [m|] eqn:E; [|by destruct H]. cbn [mbind option_bind] in H.
  destruct (IH m H) as [Hnd Hall]. assert (Hmn : (n <= m)%nat).
  { destruct c; cbn in E; try (injection E as <-; lia). case_decide; [injection E as <-; lia|done]. }
  assert (Hall' : Forall (fun i => (n <= i)%nat) (omap (fun e : io_event => srv_of e.1) h)).
  { eapply Forall_impl; [exact Hall|]. intros; simpl in *; lia. }
  destruct c; try done. cbn in E |- *. case_decide as Hd; [|done]. injection E as <-. split.
  - constructor; [|done]. intros Hin. rewrite Forall_forall in Hall. specialize (Hall _ Hin). simpl in Hall. lia.
  - by constructor.
Qed.

(** ** The history of an execution *)

Definition created (x : pevent) : option wjob := match x with pe_call _ (c, _) => worker_spawn c | pe_delete _ => None end.

(** The log so far is a history with the tracker that the process has. *)
Record worker_log (o : observed wjob ConnTracker) : Prop := {
  wl_works : Forall (fun x => (by_work x < length (ob_jobs o))%nat) (ob_log o);
  wl_jobs : ob_jobs o = [J_main; J_signal] ++ omap created (ob_log o);
  wl_consistent : consistent ConnTracker_new (omap (event_in (ob_jobs o)) (ob_log o));
  wl_tracker : tracker_after ConnTracker_new (omap (event_in (ob_jobs o)) (ob_log o)) = ob_sh o
}.

Lemma answeredb_spec ct x : answeredb ct x = true -> answered_by ct x.
Proof.
  destruct x as [|co [c r]|]; try done. destruct c; try done; simpl; [apply eqb_prop|apply Z.eqb_eq].
Qed.

Lemma blocking_event j c r : blocks c ->
  worker_spawn c = None /\
  forall x, event_of j (c, r) = Some x -> answered_by ConnTracker_new x /\ (forall ct, tracker_step ct x = ct /\ answered_by ct x).
Proof. intros Hb. destruct c; try done; (split; [done|]); intros x H; destruct j; simplify_eq/=; done. Qed.

(** One more entry of the log: the history grows by its event. *)
Lemma history_snoc o more x :
  worker_log o -> (by_work x < length (ob_jobs o))%nat ->
  omap (event_in (ob_jobs o ++ more)) (ob_log o ++ [x]) =
  omap (event_in (ob_jobs o)) (ob_log o) ++ option_list (event_in (ob_jobs o) x).
Proof.
  intros [Hw _ _ _] Hx.
  assert (Hin : forall z, (by_work z < length (ob_jobs o))%nat -> event_in (ob_jobs o ++ more) z = event_in (ob_jobs o) z).
  { intros z Hz. destruct z as [w e|w]; cbn [event_in by_work] in *; by rewrite lookup_app_l. }
  rewrite omap_app. f_equal.
  - clear -Hw Hin. induction Hw as [|z l Hz Hw IH]; [done|]. cbn [omap list_omap]. by rewrite Hin, IH.
  - cbn [omap list_omap]. rewrite Hin by done. by destruct (event_in (ob_jobs o) x).
Qed.

Lemma worker_log_snoc o jobs' ct x y :
  worker_log o -> (by_work x < length (ob_jobs o))%nat -> jobs' = ob_jobs o ++ option_list (created x) ->
  event_in (ob_jobs o) x = y ->
  match y with Some e => answered_by (ob_sh o) e /\ tracker_step (ob_sh o) e = ct | None => ct = ob_sh o end ->
  worker_log (mkObs jobs' ct (ob_log o ++ [x])).
Proof.
  intros Ho Hx -> Hy Hct. pose proof (history_snoc o (option_list (created x)) x Ho Hx) as Hh. rewrite Hy in Hh.
  destruct Ho as [Hw Hj Hc Ht]. split; cbn [ob_jobs ob_sh ob_log].
  - apply Forall_app. split; [|apply Forall_singleton; rewrite length_app; lia].
    eapply Forall_impl; [exact Hw|]. intros z Hz. simpl in *. rewrite length_app. lia.
  - rewrite omap_app, Hj, <- app_assoc. cbn [omap list_omap]. by destruct (created x).
  - rewrite Hh. apply consistent_app. split; [done|]. rewrite Ht. destruct y; simpl; [|done]. by split; [apply Hct|].
  - rewrite Hh, tracker_after_app, Ht. destruct y; simpl; [by destruct Hct|done].
Qed.

Lemma change_worker_log o o' : worker_log o -> change (worker_program s sigfd build) o o' -> worker_log o'.
Proof.
  intros Ho Hc. destruct Hc as [w j c r ct Hj Hb Hs|w j c r Hj Hb|w j Hj]; pose proof (lookup_lt_Some _ _ _ Hj) as Hlt.
  - eapply worker_log_snoc; [done|done|done|cbn [event_in]; rewrite Hj; reflexivity|].
    cbn [shared worker_program] in Hs. unfold worker_shared in Hs. cbn [mbind option_bind].
    destruct (event_of j (c, r)) as [x|]; [|by injection Hs].
    destruct (answeredb (ob_sh o) x) eqn:Hans; [|done]. injection Hs as <-. split; [by apply answeredb_spec|done].
  - destruct (blocking_event j c r Hb) as [Hsp He].
    eapply worker_log_snoc; [done|done| |cbn [event_in]; rewrite Hj; reflexivity|].
    + cbn [created]. rewrite Hsp. by rewrite app_nil_r.
    + cbn [mbind option_bind]. destruct (event_of j (c, r)) as [x|] eqn:E; [|done].
      destruct (He x eq_refl) as [_ Hx]. destruct (Hx (ob_sh o)). by split.
  - eapply worker_log_snoc; [done|done|by rewrite app_nil_r|cbn [event_in]; rewrite Hj; reflexivity|].
    cbn [mbind option_bind deleted worker_program]. unfold worker_deleted. by destruct j.
Qed.

(** The history only grows. *)
Lemma change_history o o' :
  worker_log o -> change (worker_program s sigfd build) o o' ->
  omap (event_in (ob_jobs o)) (ob_log o) `prefix_of` omap (event_in (ob_jobs o')) (ob_log o').
Proof.
  intros Ho [w j c r ct Hj _ _|w j c r Hj _|w j Hj]; pose proof (lookup_lt_Some _ _ _ Hj) as Hlt; cbn [ob_jobs ob_log].
  - rewrite history_snoc by done. by apply prefix_app_r.
  - pose proof (history_snoc o [] (pe_call w (c, r)) Ho Hlt) as H. rewrite app_nil_r in H. rewrite H. by apply prefix_app_r.
  - pose proof (history_snoc o [] (pe_delete w) Ho Hlt) as H. rewrite app_nil_r in H. rewrite H. by apply prefix_app_r.
Qed.

Lemma reachable_worker_log {HO : HeapOps} pool e0 p :
  worker_reachable s sigfd build pool e0 p -> worker_log (obs p).
Proof.
  intros Hr. pose proof (preachable_changes _ _ _ _ _ _ _ p Hr) as Hc.
  assert (H0 : worker_log (mkObs [J_main; J_signal] ConnTracker_new [])) by (split; [constructor|done|done|done]).
  revert H0. induction Hc as [|o1 o2 o3 Hc _ IH]; [done|]. intros H. apply IH. by eapply change_worker_log.
Qed.

Lemma step_history {HO : HeapOps} pool e0 p l p' :
  worker_reachable s sigfd build pool e0 p -> pstep (worker_program s sigfd build) p l p' -> history p `prefix_of` history p'.
Proof.
  intros Hr Hst. pose proof (reachable_worker_log pool e0 p Hr) as Hlog. destruct Hst as [p l p' He Hx].
  pose proof (preachable_inv _ _ _ _ _ _ _ p Hr) as Hp.
  destruct (pexec_inv _ coded_sane coded_causal p l Hp He) as (p1 & Hx' & _ & Hsh).
  rewrite Hx in Hx'. injection Hx' as <-. pose proof (step_changes _ coded_sane coded_causal p p' Hp Hsh) as Hc.
  assert (Hgo : forall o o', rtc (change (worker_program s sigfd build)) o o' -> worker_log o ->
    omap (event_in (ob_jobs o)) (ob_log o) `prefix_of` omap (event_in (ob_jobs o')) (ob_log o')).
  { induction 1 as [|o1 o2 o3 H1 _ IH]; intros Ho; [done|]. etrans; [by eapply change_history|]. apply IH. by eapply change_worker_log. }
  exact (Hgo _ _ Hc Hlog).
Qed.

(** ** What each coroutine did *)

Lemma omap_omap {A B C} (f : A -> option B) (g : B -> option C) (h : A -> option C) l :
  Forall (fun x => (f x ≫= g) = h x) l -> omap g (omap f l) = omap h l.
Proof.
  induction 1 as [|x l Hx _ IH]; [done|]. cbn [omap list_omap]. destruct (f x) as [y|]; cbn [mbind option_bind] in Hx.
  - cbn [omap list_omap]. by rewrite Hx, IH.
  - by rewrite <- Hx, IH.
Qed.

Lemma finite_choice {A} (Q : nat -> A -> Prop) (n : nat) :
  inhabited A -> (forall i, (i < n)%nat -> exists a, Q i a) -> exists f, forall i, (i < n)%nat -> Q i (f i).
Proof.
  intros [a0] H. induction n as [|n IH]; [exists (fun _ => a0); intros; lia|].
  destruct IH as [f Hf]; [intros i Hi; apply H; lia|]. destruct (H n) as [a Hqa]; [lia|].
  exists (fun i => if decide (i = n) then a else f i). intros i Hi. case_decide as Hin; [by rewrite Hin|]. apply Hf. lia.
Qed.

(** Two entries of a list with the same image are one. *)
Lemma omap_nodup_inj {A B} (f : A -> option B) l i j x y b :
  NoDup (omap f l) -> l !! i = Some x -> l !! j = Some y -> f x = Some b -> f y = Some b -> i = j.
Proof.
  revert i j. induction l as [|z l IH]; intros i j Hnd Hi Hj Hx Hy; [done|].
  assert (Hin : forall k v, l !! k = Some v -> f v = Some b -> b ∈ omap f l).
  { intros k v Hk Hv. apply list_elem_of_omap. exists v. split; [|done]. by eapply list_elem_of_lookup_2. }
  cbn [omap list_omap] in Hnd. destruct i as [|i], j as [|j]; simplify_eq/=; [done|..].
  - rewrite Hx in Hnd. apply NoDup_cons in Hnd as [Hn _]. destruct Hn. eapply Hin; eauto.
  - rewrite Hy in Hnd. apply NoDup_cons in Hnd as [Hn _]. destruct Hn. eapply Hin; eauto.
  - f_equal. eapply IH; try done. destruct (f z); [by apply NoDup_cons in Hnd as [_ ?]|done].
Qed.

Lemma created_not_start x : created x <> Some J_main /\ created x <> Some J_signal.
Proof. destruct x as [w [c r]|w]; [|done]. destruct c; try done. cbn. by destruct tcp. Qed.

Definition not_closing (e : io_event) : option io_event := match e with (c_close _, _) => None | _ => Some e end.

Lemma not_closing_all t : Forall (fun e : io_event => not_close e.1) t -> omap not_closing t = t.
Proof. induction 1 as [|[c r] t Hc _ IH]; [done|]. cbn [omap list_omap]. rewrite IH. by destruct c. Qed.

Lemma RunTcpSrv_keeps fd port : calls not_close (RunTcpSrv fd port (Some build) true).
Proof.
  apply calls_loop. intros n. unfold tcp_srv_body, serve_conn. cbv beta iota.
  calls_tac; by first [apply calls_Frame_accept|apply calls_SetNonBlock].
Qed.

(** Apart from its destructor, a listener's coroutine is [RunTcpSrv]. *)
Lemma listener_trace l w :
  omap not_closing (trace_of (listener_code l (TcpSrvWork_Run (GetSocketFd l) (GetPort l) (Some build) true) w)) =
  trace_of (RunTcpSrv (GetSocketFd l) (GetPort l) (Some build) true w).
Proof.
  unfold listener_code, TcpSrvWork_Run. rewrite !io_bind_after. pose proof (RunTcpSrv_keeps (GetSocketFd l) (GetPort l) w) as Hk.
  destruct (RunTcpSrv (GetSocketFd l) (GetPort l) (Some build) true w) as [a t w'|t]; cbn [after io_ret trace_of]; [|by apply not_closing_all].
  rewrite trace_after, app_nil_r, omap_app, (not_closing_all t Hk).
  match goal with |- _ ++ omap _ (trace_of (?m ?v)) = _ => assert (Hc : calls (fun c => exists fd, c = c_close fd) m) end.
  { destruct a as [code|]; [destruct (code <? 0)|]; unfold SrvWork_delete, Listener_delete, Destroy;
    repeat first [apply calls_bind; [|intros ?]|apply calls_ret|by apply calls_sys; eexists|case_match]. }
  match type of Hc with calls _ ?m => specialize (Hc w'); destruct (m w') as [b u v|u] end; cbn [trace_of];
    rewrite <- (app_nil_r t) at 2; f_equal; (induction Hc as [|[c r] u [fd Hc] _ IH]; [done|]); simpl in Hc; by subst c.
Qed.

Section execution.
Context {HO : HeapOps} (pool : nat) (e0 : Z) (p : proc wjob ConnTracker) (Hr : worker_reachable s sigfd build pool e0 p).

Lemma worker_runs w j : jobs p !! w = Some j ->
  exists wo, calls_by w (plog p) = trace_of (worker_code s sigfd build j wo).
Proof.
  intros Hj. destruct (log_runs (worker_program s sigfd build) p w j (preachable_inv _ _ _ _ _ _ _ p Hr) Hj) as (e & He & _).
  eexists. symmetry. exact He.
Qed.

Lemma jobs_main w : jobs p !! w = Some J_main <-> w = 0%nat.
Proof.
  pose proof (wl_jobs _ (reachable_worker_log _ _ _ Hr)) as Hj. cbn [obs ob_jobs ob_log] in Hj. rewrite Hj.
  split; [|by intros ->]. destruct w as [|[|w]]; [done|done|]. simpl. intros Hw. apply list_elem_of_lookup_2 in Hw.
  apply list_elem_of_omap in Hw as (x & _ & Hx). by destruct (created_not_start x).
Qed.

Lemma main_calls : calls_of 0 (history p) = calls_by 0%nat (plog p).
Proof.
  apply omap_omap. apply Forall_forall. intros [w e|w] _; cbn [event_in call_by].
  - pose proof (jobs_main w) as Hw. destruct (jobs p !! w) as [j|] eqn:Ej; cbn [mbind option_bind].
    + destruct (decide (w = 0%nat)) as [->|Hn].
      * by assert (Some j = Some J_main) as [= ->] by (rewrite <- Ej; by apply Hw).
      * destruct j; try done; [by destruct Hn; apply Hw| |]; destruct e as [[]]; try done; cbn; by case_match.
    + destruct (decide (w = 0%nat)) as [->|Hn]; [|done]. exfalso. assert (None = Some J_main) by (rewrite <- Ej; by apply Hw). done.
  - destruct (jobs p !! w) as [[]|]; done.
Qed.

Lemma srv_unique w v j k i :
  jobs p !! w = Some j -> jobs p !! v = Some k -> listener_of j = Some i -> listener_of k = Some i -> w = v.
Proof.
  pose proof (reachable_worker_log _ _ _ Hr) as Hl. pose proof (wl_jobs _ Hl) as Hj. cbn [obs ob_jobs ob_log] in Hj.
  intros Hw Hv. apply (omap_nodup_inj listener_of (jobs p) w v j k i); [|done|done].
  rewrite Hj, omap_app. cbn [omap list_omap app listener_of].
  rewrite (omap_omap _ _ (fun x => call_by 0%nat x ≫= (fun e => srv_of e.1))).
  2:{ apply Forall_forall. intros [u [c r]|u] Hx; [|done]. cbn [created call_by].
      assert (Hu : is_Some (jobs p !! u)).
      { apply lookup_lt_is_Some. pose proof (wl_works _ Hl) as Hws. rewrite Forall_forall in Hws. apply (Hws _ Hx). }
      destruct (decide (u = 0%nat)) as [->|Hn]; cbn [mbind option_bind fst].
      - destruct c; try done. by destruct tcp.
      - destruct Hu as [ju Hju]. destruct (worker_runs u ju Hju) as [wo Hwo].
        assert (Hjm : ju <> J_main) by (intros ->; by apply Hn, jobs_main).
        pose proof (others_start_no_srv ju Hjm wo) as Hc.
        assert (Hin : (c, r) ∈ calls_by u (plog p)).
        { apply list_elem_of_omap. exists (pe_call u (c, r)). split; [done|]. cbn. by rewrite decide_True. }
        rewrite Hwo in Hin. assert (Hs : starts_no_srv c).
        { destruct (worker_code s sigfd build ju wo); cbn [trace_of] in Hin; rewrite Forall_forall in Hc; by apply (Hc (c, r)). }
        by destruct c. }
  rewrite <- (omap_omap (call_by 0%nat) (fun e : io_event => srv_of e.1)) by (by apply Forall_forall).
  destruct (log_runs (worker_program s sigfd build) p 0%nat J_main (preachable_inv _ _ _ _ _ _ _ p Hr) (proj2 (jobs_main 0%nat) eq_refl)) as (e & He & _).
  apply (order_nodup 0%nat). exact (main_order _ _ He).
Qed.

Lemma listener_calls w i : jobs p !! w = Some (J_tcp i) -> calls_of (S i) (history p) = omap not_closing (calls_by w (plog p)).
Proof.
  intros Hw. unfold history, calls_of, calls_by. rewrite (omap_omap (call_by w) not_closing (fun x => call_by w x ≫= not_closing)) by (by apply Forall_forall).
  apply omap_omap. apply Forall_forall. intros [v e|v] _; cbn [event_in call_by].
  - destruct (decide (v = w)) as [->|Hn].
    + rewrite Hw. cbn. destruct e as [[] r]; try done; cbn; by rewrite decide_True.
    + destruct (jobs p !! v) as [j|] eqn:Ej; [|done]. pose proof (fun E => srv_unique w v _ _ i Hw Ej eq_refl E) as Hu. cbn [mbind option_bind].
      destruct j as [| |k| | |]; try done; destruct e as [[] r]; try done; cbn; try (by case_match);
        rewrite decide_False; try done; intros [= ->]; apply Hn; symmetry; by apply Hu.
  - by destruct (jobs p !! v) as [[]|].
Qed.

Lemma listener_run i l :
  listeners_ s !! i = Some l ->
  exists wo, calls_of (S i) (history p) = trace_of (RunTcpSrv (GetSocketFd l) (GetPort l) (Some build) true wo).
Proof.
  intros Hi. destruct (decide (J_tcp i ∈ jobs p)) as [[w Hw]%list_elem_of_lookup|Hno].
  - destruct (worker_runs w _ Hw) as [wo Hwo]. exists wo. rewrite (listener_calls w i Hw), Hwo. cbn [worker_code].
    rewrite Hi. apply listener_trace.
  - exists (mkWorld [] 0). assert (Hs : sane (RunTcpSrv (GetSocketFd l) (GetPort l) (Some build) true)) by apply sane_loop, tcp_srv_productive.
    pose proof (runs_nil _ 0 Hs) as Hn. unfold runs in Hn. cbn [fmap list_fmap] in Hn. rewrite Hn.
    unfold history, calls_of. rewrite (omap_omap _ _ (fun _ => None)).
    { induction (plog p) as [|x q IH]; [done|]. exact IH. }
    apply Forall_forall. intros [v e|v] _; cbn [event_in]; destruct (jobs p !! v) as [j|] eqn:Ej; try done; cbn [mbind option_bind];
      [|by destruct j]. destruct j as [| |k| | |]; try done; destruct e as [[] r]; try done; cbn; try (by case_match);
      (rewrite decide_False; [done|]); intros [= ->]; apply Hno; by eapply list_elem_of_lookup_2.
Qed.

(** A run of the main coroutine that did what it did gives a history of [Shutdown]. *)
Lemma worker_history wm :
  calls_by 0%nat (plog p) = trace_of (worker_code s sigfd build J_main wm) ->
  exists wl, worker_process s (Some build) wm wl (history p).
Proof.
  intros Hm. destruct (finite_choice (fun i w => forall l, listeners_ s !! i = Some l ->
    calls_of (S i) (history p) = trace_of (RunTcpSrv (GetSocketFd l) (GetPort l) (Some build) true w)) (length (listeners_ s)))
    as [wl Hwl]; [exact (inhabits (mkWorld [] 0))| |].
  { intros i [l Hl]%lookup_lt_is_Some. destruct (listener_run i l Hl) as [wo Hwo]. exists wo. intros l' Hl'. by simplify_eq. }
  exists wl. split.
  - rewrite main_calls, Hm. cbn [worker_code]. unfold ServerImpl_Run. rewrite Hmode, !io_bind_after.
    destruct (WorkerRun s wm); cbn [after io_ret trace_of]; by rewrite ?app_nil_r.
  - intros i l Hi _. apply Hwl; [by eapply lookup_lt_Some|done].
  - exact (wl_consistent _ (reachable_worker_log _ _ _ Hr)).
Qed.

(** C5: What happens in a worker process is a history as the theorems on shutting
    down assume it: whatever the scheduler, libevent, the kernel and the peers do,
    in every state that a worker reaches, the interleaved calls of its coroutines,
    the dispatched signals and the deletions of connections project to runs of
    [WorkerRun] and of [RunTcpSrv] of each listener (each started at most once), and
    every question to the connection tracker was answered by the tracker of that
    moment. *)
Theorem worker_refines_process :
  exists wm wl, worker_process s (Some build) wm wl (history p) /\
    tracker_after ConnTracker_new (history p) = sh p.
Proof.
  destruct (worker_runs 0%nat J_main (proj2 (jobs_main 0%nat) eq_refl)) as [wm Hm].
  destruct (worker_history wm Hm) as [wl Hwl]. exists wm, wl. split; [done|].
  exact (wl_tracker _ (reachable_worker_log _ _ _ Hr)).
Qed.

End execution.

End code.

(** ** Witnesses *)

(** A connection is echoed. *)
#[local] Instance echo_handlers : Handlers := {|
  conn fd port :=
    let* a := Frame_recv fd 16 0 in
    let* _ := Frame_send fd (snd a) 0 in io_ret true;
  datagram req port := io_ret true
|}.

#[local] Instance echo_handlers_quiet : QuietHandlers echo_handlers.
Proof.
  split; intros; cbn [conn datagram echo_handlers].
  - apply sane_bind; [auto with tinyco|]. intros a. apply sane_bind; [auto with tinyco|]. intros n. apply sane_ret.
  - apply causal_bind; [apply causal_Frame_recv|]. intros a. apply causal_bind; [apply causal_Frame_send|]. intros n. apply causal_ret.
  - apply calls_bind; [by apply calls_Frame_recv|]. intros a. apply calls_bind; [|intros; apply calls_ret].
    apply calls_loop. intros n. unfold send_body. calls_tac.
  - apply sane_ret.
  - apply causal_ret.
  - apply calls_ret.
Qed.

Definition ok : resp := answer 0 0 [].
Definition again : resp := answer (-1) EAGAIN [].
Definition any_port : builder := fun _ => true.

(** The worker of [Shutdown.demo_worker] serves the connection 7 and is told to
    stop by SIGHUP. *)
Definition worker_labels : list plabel :=
  [P_call ok; P_block 0 0;                                                  (* main: the listener, sleep *)
   P_call again; P_block 0 EAGAIN;                                          (* signal: nothing yet *)
   P_call ok; P_call again; P_block 0 EAGAIN;                               (* listener: lock, no connection *)
   P_main 5 (Some (4%nat, EV_READ)) 0;
   P_call (answer 7 0 []); P_call ok; P_call ok; P_call ok; P_call ok; P_call ok; P_call ok; P_call again; P_block 6 0;
   P_call (answer 2 0 (lit "hi")); P_call (answer 2 0 []); P_call ok; P_exit 0;
   P_main 7 (Some (2%nat, EV_READ)) 0; P_call (answer 4 0 (int_bytes SIGHUP)); P_call again; P_block 8 0;
   P_main 1000 None 0; P_call (answer 1 0 []); P_call ok].
Definition worker_end : option (proc wjob ConnTracker) :=
  p0 ← start 1 J_main [J_signal] true 0 ConnTracker_new; prun (worker_program demo_worker 9 any_port) worker_labels p0.

Lemma worker_end_tracker : (sh <$> worker_end) = Some (mkConnTracker true ∅).
Proof. vm_compute. reflexivity. Qed.

Lemma worker_refines_process_witness :
  exists p wm wl, worker_process demo_worker (Some any_port) wm wl (history p) /\
    tracker_after ConnTracker_new (history p) = mkConnTracker true ∅.
Proof.
  pose proof worker_end_tracker as Hs. destruct worker_end as [p|] eqn:E; [|discriminate Hs]. injection Hs as Hs.
  unfold worker_end in E. pose proof (prun_preachable _ _ _ _ _ _ _ _ p E) as Hr.
  destruct (worker_refines_process echo_handlers_quiet demo_worker 9 any_port eq_refl 1 0 p Hr) as (wm & wl & Hw & Ht).
  exists p, wm, wl. split; [exact Hw|]. rewrite Ht. exact Hs.
Defined.
