(* ===== verification/WorkerProgress.v ===== *)
(** * A worker does not get stuck

    A coroutine of a worker waits only for its own descriptor: the listeners for
    theirs, the one of [SignalHelper] for the pipe, a connection for the accepted
    one.  As long as these are different, [Frame::Schedule] always has something to
    do, whatever is answered. *)

From S2P Require Import Prelude Heap Thread Frame FrameFacts Sched SchedProps SchedSpec SchedContext World Resume.
From S2P Require Import Process ProcessInv ProcessProps ProcessSched Network FrameIO FrameIOProps Mutex Listener Server ServerProps.
From S2P Require Import ServerImpl ServerImplProps SimpleServer ServerInit Shutdown Worker.

(** ** Own descriptors *)

(** The descriptor that belongs to a work object. *)
Definition descriptor (s : ServerImpl) (sigfd : Z) (j : wjob) : option Z :=
  match j with
  | J_main | J_datagram _ _ => None
  | J_signal => Some sigfd
  | J_tcp i | J_udp i => GetSocketFd <$> listeners_ s !! i
  | J_conn fd _ _ => Some fd
  end.

Definition waits_own (own : option Z) (c : syscall) : Prop :=
  match c with c_wait fd _ => own = Some fd | _ => True end.

(** A handler waits for the connection that it serves only. *)
Class OwnHandlers (Ha : Handlers) : Prop := {
  conn_own fd port : calls (waits_own (Some fd)) (conn fd port);
  datagram_own req port : calls (waits_own None) (datagram req port)
}.

(** A call that a computation is at is one of its calls. *)
Lemma demand_calls {A} (P : syscall -> Prop) (m : IO A) e h c : calls P m -> demand m e h = Some c -> P c.
Proof.
  unfold demand. intros Hm Hd. apply fmap_Some in Hd as ([c' r] & Hl & ->).
  specialize (Hm (mkWorld (h.*2 ++ [no_answer]) e)).
  destruct (m (mkWorld (h.*2 ++ [no_answer]) e)); cbn [trace_of] in Hl; by apply (Forall_lookup_1 _ _ _ _ Hm Hl).
Qed.

Section worker.
Context {Ha : Handlers} (Hq : QuietHandlers Ha) (Hown : OwnHandlers Ha) (s : ServerImpl) (sigfd : Z) (build : builder).
Context (Hmode : mode_ s = WM_WORKER).

#[local] Instance coded_here : Coded (worker_program s sigfd build) := worker_coded Hq s sigfd build Hmode.

Lemma own_listener_code own l m : calls (waits_own own) m -> calls (waits_own own) (listener_code l m).
Proof.
  intros Hm. unfold listener_code, SrvWork_delete, Listener_delete, Destroy. apply calls_bind; [done|]. intros []; calls_tac.
Qed.

Lemma worker_waits_own j : calls (waits_own (descriptor s sigfd j)) (worker_code s sigfd build j).
Proof.
  destruct j; cbn [worker_code descriptor]; unfold ServerImpl_Run, TcpSrvWork_Run, UdpSrvWork_Run, TcpReqWork_delete;
    rewrite ?Hmode.
  - do 2 (apply calls_bind; [|intros; apply calls_ret]). unfold WorkerRun. apply calls_bind.
    + generalize 0%nat. induction (listeners_ s) as [|l ls IH]; intros i; cbn [start_listeners]; [apply calls_ret|].
      repeat case_decide; auto. all: apply calls_bind; [by apply calls_sys|auto].
    + intros _. apply calls_loop. intros []. unfold worker_body, ServerLoop. calls_tac.
  - apply calls_bind; [|intros; apply calls_ret]. apply calls_loop. intros s0. unfold signal_body.
    apply calls_bind; [by apply calls_Frame_recv|]. intros [ret data]. destruct (ret <? 0); [apply calls_ret|].
    apply calls_bind; [|intros; apply calls_ret]. unfold SignalCallback. destruct (mode_ s0); repeat case_match; try apply calls_ret.
    apply calls_loop. intros s1. unfold GetWorkerStatus_body. calls_tac.
  - destruct (listeners_ s !! i); [|apply calls_ret]. apply own_listener_code, calls_bind; [|intros; apply calls_ret].
    apply calls_loop. intros n. unfold tcp_srv_body, serve_conn. calls_tac; by first [apply calls_Frame_accept|apply calls_SetNonBlock].
  - destruct (listeners_ s !! i); [|apply calls_ret]. apply own_listener_code, calls_bind; [|intros; apply calls_ret].
    apply calls_loop. intros n. unfold udp_srv_body. calls_tac. by apply calls_Frame_recvfrom.
  - apply calls_bind; [apply conn_own|]. intros []; calls_tac.
  - apply datagram_own.
Qed.

(** ** Different work objects have different descriptors *)

Context {HO : HeapOps} (pool : nat) (e0 : Z) (p : proc wjob ConnTracker) (Hr : worker_reachable s sigfd build pool e0 p).

(** What the kernel promises of the descriptors that are open at a time. *)
Definition open_once : Prop :=
  NoDup (sigfd :: (GetSocketFd <$> listeners_ s)) /\
  forall t u co co' fd port tracked, cos p !! t = Some co -> cos p !! u = Some co' ->
    co_job co = J_conn fd port tracked -> descriptor s sigfd (co_job co') = Some fd -> t = u.

Lemma jobs_signal w : jobs p !! w = Some J_signal -> w = 1%nat.
Proof.
  pose proof (wl_jobs _ (reachable_worker_log Hq s sigfd build Hmode _ _ _ Hr)) as Hj. cbn [obs ob_jobs ob_log] in Hj. rewrite Hj.
  destruct w as [|[|w]]; [done|done|]. simpl. intros Hw. apply list_elem_of_lookup_2 in Hw.
  apply list_elem_of_omap in Hw as (x & _ & Hx). by destruct (created_not_start x).
Qed.

Lemma listener_descriptor j fd :
  (forall a b c, j <> J_conn a b c) -> descriptor s sigfd j = Some fd ->
  (j = J_signal /\ fd = sigfd) \/ exists i l, listener_of j = Some i /\ listeners_ s !! i = Some l /\ fd = GetSocketFd l.
Proof.
  intros Hn. destruct j; cbn [descriptor listener_of]; try done.
  - intros [= <-]. by left.
  - intros (l & Hl & ->)%fmap_Some. right. by exists i, l.
  - intros (l & Hl & ->)%fmap_Some. right. by exists i, l.
  - by destruct (Hn fd0 port tracked).
Qed.

Lemma descriptor_unique t u co co' fd :
  open_once -> cos p !! t = Some co -> cos p !! u = Some co' ->
  descriptor s sigfd (co_job co) = Some fd -> descriptor s sigfd (co_job co') = Some fd -> t = u.
Proof.
  intros [Hnd Hc] Ht Hu Hd Hd'. pose proof (preachable_inv _ _ _ _ _ _ _ p Hr) as Hp.
  assert (Hconn : forall j, (exists a b c, j = J_conn a b c) \/ (forall a b c, j <> J_conn a b c)).
  { intros []; try (by right). left. by eexists _, _, _. }
  destruct (Hconn (co_job co)) as [(a & b & c & E)|Hn].
  { rewrite E in Hd. injection Hd as ->. by eapply Hc. }
  destruct (Hconn (co_job co')) as [(a & b & c & E)|Hn'].
  { rewrite E in Hd'. injection Hd' as ->. symmetry. by eapply Hc. }
  apply NoDup_cons in Hnd as [Hsig Hnd].
  assert (Hns : forall i l, listeners_ s !! i = Some l -> GetSocketFd l <> sigfd).
  { intros i l Hl <-. apply Hsig, list_elem_of_fmap. exists l. split; [done|]. by eapply list_elem_of_lookup_2. }
  pose proof (co_jobs _ _ _ (pi_co _ _ _ Hp _ _ Ht)) as Hj. pose proof (co_jobs _ _ _ (pi_co _ _ _ Hp _ _ Hu)) as Hj'.
  apply (pi_inj _ _ _ Hp t u co co' Ht Hu).
  destruct (listener_descriptor _ _ Hn Hd) as [[E1 ->]|(i & l & Hi & Hl & ->)], (listener_descriptor _ _ Hn' Hd') as [[E2 E]|(k & l' & Hk & Hl' & E)].
  - rewrite E1 in Hj. rewrite E2 in Hj'. apply jobs_signal in Hj, Hj'. congruence.
  - by destruct (Hns k l' Hl').
  - by destruct (Hns i l Hl).
  - assert (i = k) as ->.
    { apply (NoDup_lookup _ i k (GetSocketFd l) Hnd); rewrite list_lookup_fmap; [by rewrite Hl|by rewrite Hl', E]. }
    by eapply (srv_unique Hq s sigfd build Hmode pool e0 p Hr _ _ _ _ k Hj Hj').
Qed.

Lemma never_waits_twice : open_once -> ~ waits_twice (worker_program s sigfd build) p.
Proof.
  intros Ho (co & fd & evs & Hcur & Hn & Hio). pose proof (preachable_inv _ _ _ _ _ _ _ p Hr) as Hp.
  destruct (waiter_call (worker_program s sigfd build) p fd Hp) as (u & co' & evs' & Hu & Hco' & Hn'); [|done|].
  { apply (reachable_saved pool). by eapply preachable_sched. }
  unfold current in Hcur. destruct (ctl p) as [|t] eqn:Hk; [done|].
  pose proof (demand_calls _ _ _ _ _ (worker_waits_own (co_job co)) Hn) as Hd.
  pose proof (demand_calls _ _ _ _ _ (worker_waits_own (co_job co')) Hn') as Hd'. cbn [waits_own] in Hd, Hd'.
  apply (not_holder _ _ _ _ _ Hp Hk Hu). symmetry. by eapply descriptor_unique.
Qed.

(** C7: A worker never gets stuck: in every state that it reaches, with the
    descriptors that are open at that time different from each other, and handlers
    that wait for their own connection only, either some coroutine or the main loop
    can take a step, whatever the calls are answered, or the process has come to its
    end: [ServerImpl::Run] has returned or a listener has ended the process.  In
    particular no coroutine ever hands libevent a descriptor for which another one
    waits. *)
Theorem worker_progress :
  open_once ->
  (exists l, penabled (worker_program s sigfd build) l p = true) \/ process_ended (worker_program s sigfd build) p.
Proof.
  intros Ho. pose proof (preachable_inv _ _ _ _ _ _ _ p Hr) as Hp.
  destruct (progress (worker_program s sigfd build) p (worker_answerable s sigfd build) Hp) as [?|[?|Hw]]; [by left|by right|].
  by destruct (never_waits_twice Ho).
Qed.

End worker.

(** ** Witness *)

#[local] Instance echo_own : OwnHandlers echo_handlers.
Proof.
  split; intros; cbn [conn datagram echo_handlers]; [|apply calls_ret].
  apply calls_bind; [by apply calls_Frame_recv|]. intros a. apply calls_bind; [|intros; apply calls_ret].
  apply calls_loop. intros n. unfold send_body. calls_tac.
Qed.

(** The run of [Worker.worker_labels], up to where the connection has been read. *)
Definition worker_middle : option (proc wjob ConnTracker) :=
  p0 ← start 1 J_main [J_signal] true 0 ConnTracker_new;
  prun (worker_program (Ha := echo_handlers) demo_worker 9 any_port) (take 18 worker_labels) p0.
Definition work_of (x : tid * coroutine wjob) : tid * wjob := (fst x, co_job (snd x)).

Lemma worker_middle_works :
  (fun p => work_of <$> map_to_list (cos p)) <$> worker_middle =
  Some [(4%nat, J_tcp 0); (2%nat, J_signal); (5%nat, J_conn 7 80 true); (3%nat, J_main)].
Proof. vm_compute. reflexivity. Qed.

Lemma worker_progress_witness :
  exists p, worker_middle = Some p /\
    ((exists l, penabled (worker_program (Ha := echo_handlers) demo_worker 9 any_port) l p = true) \/
     process_ended (worker_program (Ha := echo_handlers) demo_worker 9 any_port) p).
Proof.
  pose proof worker_middle_works as Hw. destruct worker_middle as [p|] eqn:E; [|discriminate Hw]. injection Hw as Hw.
  unfold worker_middle in E. pose proof (prun_preachable _ _ _ _ _ _ _ _ p E) as Hr. exists p. split; [reflexivity|].
  apply (worker_progress echo_handlers_quiet echo_own demo_worker 9 any_port eq_refl 1 0 p Hr). split.
  { apply (bool_decide_unpack (NoDup [9; 5])). vm_compute. exact I. }
  assert (Hin : forall t co, cos p !! t = Some co ->
    (t, co_job co) ∈ [(4%nat, J_tcp 0); (2%nat, J_signal); (5%nat, J_conn 7 80 true); (3%nat, J_main)]).
  { intros t co Ht. rewrite <- Hw. apply list_elem_of_fmap. exists (t, co). split; [done|]. by apply elem_of_map_to_list. }
  clear E Hr Hw. intros t u co co' fd port tr Ht Hu Hj Hd. apply Hin in Ht, Hu. rewrite Hj in Ht.
  rewrite !elem_of_cons, elem_of_nil in Ht, Hu. destruct Ht as [?|[?|[[= -> -> -> ->]|[?|?]]]]; try done.
  destruct Hu as [[= -> Ej]|[[= -> Ej]|[[= -> Ej]|[[= -> Ej]|?]]]]; try done; rewrite Ej in Hd; vm_compute in Hd; congruence.
Defined.
