(* ===== verification/WorkerShutdown.v ===== *)
(** * Shutting a worker down

    The theorems of [Shutdown] for the worker process under its scheduler. *)

From S2P Require Import Prelude Heap Thread Frame FrameFacts Sched SchedProps SchedContext World Resume.
From S2P Require Import Process ProcessInv ProcessProps Network FrameIO FrameIOProps Mutex Listener Server ServerProps.
From S2P Require Import ServerImpl ServerImplProps SimpleServer ServerInit Shutdown Worker.

Section worker.
Context {Ha : Handlers} (Hq : QuietHandlers Ha) (s : ServerImpl) (sigfd : Z) (build : builder) (Hmode : mode_ s = WM_WORKER).
Context {HO : HeapOps} (pool : nat) (e0 : Z) (p : proc wjob ConnTracker) (Hr : worker_reachable s sigfd build pool e0 p).

#[local] Instance coded_worker : Coded (worker_program s sigfd build) := worker_coded Hq s sigfd build Hmode.

(** The main coroutine has returned from [ServerImpl::Run]. *)
Definition main_returned : Prop :=
  exists t co, cos p !! t = Some co /\ co_work co = 0%nat /\ is_Some (co_result (worker_program s sigfd build) co).

Lemma main_returned_run :
  main_returned ->
  exists wm t w', WorkerRun s wm = Done tt t w' /\ calls_by 0%nat (plog p) = trace_of (worker_code s sigfd build J_main wm).
Proof.
  intros (t & co & Ht & Hw & b & Hb). pose proof (preachable_inv _ _ _ _ _ _ _ p Hr) as Hp.
  pose proof (pi_co _ _ _ Hp t co Ht) as Hok. pose proof (co_jobs _ _ _ Hok) as Hj. rewrite Hw in Hj.
  assert (co_job co = J_main) as Ej.
  { pose proof (proj2 (jobs_main Hq s sigfd build Hmode pool e0 p Hr 0%nat) eq_refl) as H0.
    enough (Some (co_job co) = Some J_main) by congruence. by transitivity (jobs p !! 0%nat). }
  pose proof (co_runs _ _ _ Hok) as Hrun. pose proof (co_log _ _ _ Hok) as Hlog.
  unfold co_result, result in Hb. rewrite Ej in Hb, Hrun. rewrite Hw in Hlog. cbn [code worker_program] in Hb, Hrun.
  exists (mkWorld (co_hist co).*2 (co_errno co)). unfold runs in Hrun. rewrite Hlog, Hrun.
  clear Hrun. cbn [worker_code] in Hb. unfold ServerImpl_Run in Hb. rewrite Hmode, !io_bind_after in Hb.
  destruct (WorkerRun s _) as [[] u w|u]; [|done]. by exists u, w.
Qed.

(** C14: A worker process shuts down when it is told to: in every execution under its
    scheduler, after the signal coroutine has dispatched SIGHUP each listener enters
    at most one more connection, and from any moment at which no connection is left
    and no new one is entered, the main coroutine makes at most three more calls (a
    sleep and its two questions) before it ends. *)
Theorem worker_shuts_down h1 h2 h3 :
  history p = h1 ++ w_signal SIGHUP :: h2 ++ h3 ->
  (forall i l, listeners_ s !! i = Some l -> GetProto l = lit "tcp" ->
     (count enters (calls_of (S i) (h2 ++ h3)) <= 1)%nat) /\
  (conns_ (tracker_after ConnTracker_new (h1 ++ w_signal SIGHUP :: h2)) = ∅ ->
   Forall (fun e => ~ opens_any e) h3 ->
   (count (fun e => negb (starts e)) (calls_of 0 h3) <= 3)%nat).
Proof.
  intros E. destruct (worker_runs Hq s sigfd build Hmode pool e0 p Hr 0%nat J_main) as [wm Hm].
  { by apply (jobs_main Hq s sigfd build Hmode pool e0 p Hr). }
  destruct (worker_history Hq s sigfd build Hmode pool e0 p Hr wm Hm) as [wl Hwl].
  by apply (graceful_shutdown s (Some build) wm wl (history p)).
Qed.

(** C15: A worker process that ends has nothing left to do: when its main coroutine
    has returned, in every execution under its scheduler, SIGHUP had been dispatched
    before, and every connection that was entered before the main coroutine's last
    question had been given up by the deletion of its work object.  (The number of
    connections is compared in 32 bits.) *)
Theorem worker_ends_clean :
  main_returned -> Z.of_nat (length (history p)) < 2 ^ 32 ->
  exists h1 r h2, history p = h1 ++ w_call 0 (c_connsize, r) :: h2 /\ calls_of 0 h2 = [] /\
    w_signal SIGHUP ∈ h1 /\
    forall k1 e k2 fd, h1 = k1 ++ e :: k2 -> opens fd e -> exists e', e' ∈ k2 /\ closes fd e'.
Proof.
  intros Hm Hlen. destruct (main_returned_run Hm) as (wm & t & w' & Hrun & Hc).
  destruct (worker_history Hq s sigfd build Hmode pool e0 p Hr wm Hc) as [wl Hwl].
  exact (worker_exit_clean s (Some build) wm wl (history p) t w' Hwl Hrun Hlen).
Qed.

End worker.

(** ** Witnesses *)

(** The run of [Worker.worker_labels]: a connection is served, SIGHUP arrives, the
    main coroutine asks its questions and returns. *)
Definition ended_history : list worker_event := match worker_end with Some p => history p | None => [] end.
Definition hup_before : list worker_event := take 13 ended_history.
Definition hup_after : list worker_event := drop 14 ended_history.

Lemma ended_split :
  match worker_end with
  | Some p => history p = hup_before ++ w_signal SIGHUP :: [] ++ hup_after
  | None => False
  end.
Proof. vm_compute. reflexivity. Qed.

Lemma ended_main :
  match worker_end with
  | Some p =>
      match cos p !! 3%nat with
      | Some co => co_work co = 0%nat /\ co_result (worker_program (Ha := echo_handlers) demo_worker 9 any_port) co = Some true
      | None => False
      end
  | None => False
  end.
Proof. vm_compute. split; reflexivity. Qed.

Lemma ended_clean :
  conns_ (tracker_after ConnTracker_new (hup_before ++ [w_signal SIGHUP])) = ∅ /\ Forall (fun e => ~ opens_any e) hup_after /\
  Z.of_nat (length ended_history) < 2 ^ 32.
Proof.
  split; [vm_compute; reflexivity|]. split; [|vm_compute; reflexivity].
  let h := eval vm_compute in hup_after in change hup_after with h. repeat (apply Forall_cons; split; [intros []|]).
  apply Forall_nil. exact I.
Qed.

Lemma worker_shuts_down_witness :
  exists p, worker_end = Some p /\ (count (fun e => negb (starts e)) (calls_of 0 hup_after) <= 3)%nat /\
    calls_of 0 hup_after <> [].
Proof.
  destruct ended_clean as (H1 & H2 & _). pose proof ended_split as Hs.
  destruct worker_end as [p|] eqn:E; [|destruct Hs]. exists p. split; [reflexivity|].
  pose proof E as E'. unfold worker_end in E'. pose proof (prun_preachable _ _ _ _ _ _ _ _ p E') as Hr. clear E E'.
  split; [|vm_compute; discriminate].
  exact (proj2 (worker_shuts_down echo_handlers_quiet demo_worker 9 any_port eq_refl 1 0 p Hr hup_before [] hup_after Hs) H1 H2).
Defined.

Lemma worker_ends_clean_witness :
  exists p h1 r h2, worker_end = Some p /\ history p = h1 ++ w_call 0 (c_connsize, r) :: h2 /\ w_signal SIGHUP ∈ h1.
Proof.
  destruct ended_clean as (_ & _ & H3). pose proof ended_main as Hm. unfold ended_history in H3.
  destruct worker_end as [p|] eqn:E; [|destruct Hm].
  pose proof E as E'. unfold worker_end in E'. pose proof (prun_preachable _ _ _ _ _ _ _ _ p E') as Hr. clear E E'.
  assert (Hmain : main_returned (Ha := echo_handlers) demo_worker 9 any_port p).
  { destruct (cos p !! 3%nat) as [co|] eqn:Eco; [|destruct Hm]. destruct Hm as [Hw Hres]. exists 3%nat, co.
    split; [exact Eco|]. split; [exact Hw|]. exists true. exact Hres. }
  destruct (worker_ends_clean echo_handlers_quiet demo_worker 9 any_port eq_refl 1 0 p Hr Hmain H3) as (h1 & r & h2 & Hh & _ & Hs & _).
  exists p, h1, r, h2. auto.
Defined.
