(* ===== verification/Farm.v ===== *)
(** * The workers of a server together

    Several worker processes, each with its own scheduler and any number of
    coroutines, and the lock of one listener in the memory they share; workers are
    killed, and the master unlocks for the dead.  The lock is [LockMachine]: between
    the memory accesses of one method the other processes run, and a worker can be
    killed inside one.  Every execution in which no [cmpxchgq] is torn is one of
    [Cluster] with the abstract lock, so that what holds there of accept loops holds
    of whole processes.  A worker that the master starts again is not modelled: it
    is a copy of the master's process. *)

From S2P Require Import Prelude Heap Thread Frame FrameFacts Sched SchedProps SchedContext World Resume.
From S2P Require Import Process ProcessInv ProcessProps Network FrameIO FrameIOProps Mutex LockSpec LockMachine Listener Server ServerProps.
From S2P Require Import Cluster ServerImpl ServerImplProps SimpleServer ServerInit Shutdown Worker.

(** ** State and steps *)

(** The living workers, the lock in memory with the identifiers of those that were
    killed, and the calls of all on the listener, each where it returned. *)
Record farm := mkFarm {
  alive : gmap Z (proc wjob ConnTracker);
  lock : machine;
  glog : list gevent
}.

Inductive farm_label :=
  | F_step (pid : Z) (l : plabel)      (* a step of a worker's process *)
  | F_access (pid : Z)                 (* an access inside a method of the lock *)
  | F_kill (pid : Z)
  | F_reap_read (d : Z)                (* the first access of the master's ForcedUnlockIfNeed *)
  | F_reap (d : Z) (r : resp).         (* the last one *)

(** [TryLock] or [Unlock] returns what its last access answers: 0 or -1. *)
Definition answers (r : resp) (ok : bool) : bool := s32 (r_ret r) =? (if ok then 0 else -1).

(** A worker's call on the listener returns: the last access of the method. *)
Definition lock_return (pid : Z) (e : io_event) (m : machine) : option machine :=
  match e with
  | (c_trylock, r) =>
      '(m', o) ← mstep m (match pcs m pid with In_TryLock _ => A_cas_write pid | _ => A_test pid end);
      match o with Some (L_try _ ok) => if answers r ok then Some m' else None | _ => None end
  | (c_unlock, r) =>
      '(m', o) ← mstep m (A_cas_write pid);
      match o with Some (L_release _ ok) => if answers r ok then Some m' else None | _ => None end
  | _ => Some m
  end.

Fixpoint lock_returns (pid : Z) (t : io_trace) (m : machine) : option machine :=
  match t with
  | [] => Some m
  | e :: t => m ← lock_return pid e m; lock_returns pid t m
  end.

(** The accesses before the last one. *)
Definition access_of (c : syscall) (pid : Z) (x : lock_pc) : option lock_access :=
  match c, x with
  | c_trylock, Idle => Some (A_test pid)
  | c_trylock, Tested => Some (A_cas_read pid)
  | c_unlock, Idle => Some (A_unlock_read pid)
  | _, _ => None
  end.

(** An access with which no method returns. *)
Definition quiet_access (a : lock_access) (m : machine) : option machine :=
  '(m', o) ← mstep m a; match o with None => Some m' | Some _ => None end.

Section farm.
Context {HO : HeapOps} {Ha : Handlers} (s : ServerImpl) (sigfd : Z) (build : builder).
(** The process of the master, and the position of the listener. *)
Context (master : Z) (i : nat).

Abbreviation worker := (proc wjob ConnTracker).
Abbreviation prog := (worker_program s sigfd build).

(** What a worker did on the listener. *)
Definition on_listener (p : worker) : io_trace := calls_of (S i) (history p).
Definition new_calls (p p' : worker) : io_trace := drop (length (on_listener p)) (on_listener p').

(** The call that the executing coroutine wants answered, when that is the listener's. *)
Definition listener_call (p : worker) : option syscall :=
  co ← current p; if decide (co_job co = J_tcp i) then next_call prog co else None.

Definition farm_exec (a : farm_label) (F : farm) : option farm :=
  match a with
  | F_step pid l =>
      p ← alive F !! pid;
      if penabled prog l p then
        p' ← pexec prog l p;
        let more := new_calls p p' in
        m ← lock_returns pid more (lock F);
        Some (mkFarm (<[pid := p']> (alive F)) m (glog F ++ (pair pid <$> more)))
      else None
  | F_access pid =>
      p ← alive F !! pid;
      c ← listener_call p;
      a ← access_of c pid (pcs (lock F) pid);
      m ← quiet_access a (lock F);
      Some (mkFarm (alive F) m (glog F))
  | F_kill pid =>
      _ ← alive F !! pid;
      m ← quiet_access (A_crash pid) (lock F);
      Some (mkFarm (delete pid (alive F)) m (glog F))
  | F_reap_read d =>
      m ← quiet_access (A_force_read d) (lock F);
      Some (mkFarm (alive F) m (glog F))
  | F_reap d r =>
      '(m, o) ← mstep (lock F) (match clearing (lock F) with Some _ => A_force_write | None => A_force_read d end);
      if decide (o = Some (L_revoke d)) then
        Some (mkFarm (alive F) m (glog F ++ [(master, (c_forced_unlock d, r))]))
      else None
  end.

Fixpoint farm_run (ls : list farm_label) (F : farm) : option farm :=
  match ls with
  | [] => Some F
  | a :: ls => F ← farm_exec a F; farm_run ls F
  end.

(** The workers after [fork]; [InitMtx] was called before. *)
Definition farm_start (pool : nat) (e0 : Z) (pids : list Z) : option farm :=
  p0 ← start pool J_main [J_signal] true e0 ConnTracker_new;
  Some (mkFarm (list_to_map ((fun pid => (pid, p0)) <$> pids)) machine0 []).

End farm.

(** ** The lock of a farm is the abstract lock *)

(** A method that returns what the abstract lock allows is a call of it. *)
Lemma spec_lock_call pid e h h' lb :
  lock_label_of (pid, e) = Some lb -> spec_step h lb = Some h' ->
  match lb with L_try _ ok | L_release _ ok => answers e.2 ok = true | L_revoke _ => True end ->
  lock_call h (pid, e) = Some h'.
Proof.
  destruct e as [c r]. unfold answers. destruct c; cbn; intros [= <-]; cbn.
  - unfold TryLock, spec_ops, spec_TryLock. destruct (Z.leb_spec 0 (s32 (r_ret r))); case_bool_decide as Hb; try done;
      intros [= <-] ->%Z.eqb_eq; destruct h; try done; by case_bool_decide.
  - unfold Unlock, spec_ops, spec_Unlock. destruct (Z.leb_spec 0 (s32 (r_ret r))); case_bool_decide as Hb; try done;
      intros [= <-] ->%Z.eqb_eq; case_decide; try done; by case_bool_decide.
  - intros [= <-] _. case_bool_decide; by case_decide.
Qed.

Lemma answers_sign r ok : answers r ok = true -> (0 <=? s32 (r_ret r)) = ok.
Proof. unfold answers. intros ->%Z.eqb_eq. by destruct ok. Qed.

Lemma lock_return_spec pid e m m' :
  machine_ok m -> pid_ok pid -> ~ (exists d, e.1 = c_forced_unlock d) -> lock_return pid e m = Some m' -> torn m' = false ->
  machine_ok m' /\ dead m' = dead m /\ lock_call (holder_of (word m)) (pid, e) = Some (holder_of (word m')).
Proof.
  intros Hm Hp Hf Hr Ht.
  assert (Hstep : forall a m1 o lb, mstep m a = Some (m1, o) -> o = Some lb -> m1 = m' -> access_ok a -> (forall p, a <> A_crash p) ->
    lock_label_of (pid, e) = Some lb ->
    match lb with L_try _ ok | L_release _ ok => answers e.2 ok = true | L_revoke _ => True end ->
    machine_ok m' /\ dead m' = dead m /\ lock_call (holder_of (word m)) (pid, e) = Some (holder_of (word m'))).
  { intros a m1 o lb H1 -> -> Ha Hc Hlb Hans. destruct (mstep_simulates m a m' _ Hm Ha H1 Ht) as [Hm' Hs].
    split; [done|]. split; [by eapply mstep_dead|]. by eapply spec_lock_call. }
  destruct e as [c r]. destruct c; cbn [lock_return] in Hr; try (injection Hr as <-; by split_and!).
  - apply bind_Some in Hr as ([m1 o] & H1 & Hr). destruct o as [[q ok|q ok|q]|]; try done.
    destruct (answers r ok) eqn:Ha; [|done]. injection Hr as ->.
    assert (q = pid) as ->.
    { destruct (pcs m pid); simpl in H1; repeat case_match; by simplify_eq. }
    eapply (Hstep _ _ _ (L_try pid ok) H1); [done|done|by destruct (pcs m pid)|by destruct (pcs m pid)| |exact Ha].
    cbn. by rewrite (answers_sign _ _ Ha).
  - apply bind_Some in Hr as ([m1 o] & H1 & Hr). destruct o as [[q ok|q ok|q]|]; try done.
    destruct (answers r ok) eqn:Ha; [|done]. injection Hr as ->.
    assert (q = pid) as -> by (simpl in H1; repeat case_match; by simplify_eq).
    eapply (Hstep _ _ _ (L_release pid ok) H1); [done|done|done|done| |exact Ha]. cbn. by rewrite (answers_sign _ _ Ha).
  - destruct Hf. by eexists.
Qed.

Lemma lock_return_torn pid e m m' : lock_return pid e m = Some m' -> torn m' = false -> torn m = false.
Proof.
  destruct e as [c r]. destruct c; cbn [lock_return]; try (by intros [= <-]);
    intros ([m1 o] & H1 & Hr)%bind_Some Ht; eapply mstep_torn; try exact H1; repeat case_match; by simplify_eq.
Qed.

Lemma lock_returns_torn pid t m m' : lock_returns pid t m = Some m' -> torn m' = false -> torn m = false.
Proof.
  revert m. induction t as [|e t IH]; intros m; cbn [lock_returns]; [by intros [= <-]|].
  intros (m1 & H1 & H2)%bind_Some Ht. eapply lock_return_torn; [exact H1|]. by eapply IH.
Qed.

Lemma lock_returns_spec pid t m m' :
  machine_ok m -> pid_ok pid -> Forall (fun e : io_event => ~ exists d, e.1 = c_forced_unlock d) t ->
  lock_returns pid t m = Some m' -> torn m' = false ->
  machine_ok m' /\ dead m' = dead m /\ lock_run (holder_of (word m)) (pair pid <$> t) = Some (holder_of (word m')).
Proof.
  intros Hm Hp Ht. revert m Hm. induction Ht as [|e t He Ht IH]; intros m Hm; cbn [lock_returns].
  { intros [= <-] _. by split_and!. }
  intros (m1 & H1 & H2)%bind_Some Hto.
  destruct (lock_return_spec pid e m m1 Hm Hp He H1) as (Hm1 & Hd1 & Hc1); [by eapply lock_returns_torn|].
  destruct (IH m1 Hm1 H2 Hto) as (Hm' & Hd' & Hc'). split; [done|]. split; [congruence|].
  cbn [fmap list_fmap lock_run]. rewrite Hc1. exact Hc'.
Qed.

(** An access inside a method changes no holder. *)
Lemma quiet_access_spec a m m' :
  machine_ok m -> access_ok a -> quiet_access a m = Some m' -> torn m' = false ->
  machine_ok m' /\ holder_of (word m') = holder_of (word m).
Proof.
  intros Hm Ha ([m1 o] & H1 & Hr)%bind_Some Ht. destruct o; [done|]. injection Hr as ->.
  destruct (mstep_simulates m a m' None Hm Ha H1 Ht) as [? [= <-]]. by split.
Qed.

Lemma quiet_access_dead a m m' : quiet_access a m = Some m' -> (forall p, a <> A_crash p) -> dead m' = dead m.
Proof. intros ([m1 o] & H1 & Hr)%bind_Some. destruct o; [done|]. injection Hr as ->. by eapply mstep_dead. Qed.

Lemma quiet_access_torn a m m' : quiet_access a m = Some m' -> torn m' = false -> torn m = false.
Proof. intros ([m1 o] & H1 & Hr)%bind_Some. destruct o; [done|]. injection Hr as ->. by eapply mstep_torn. Qed.

Lemma quiet_crash p m m' : quiet_access (A_crash p) m = Some m' -> m' = bury p m.
Proof. unfold quiet_access. cbn. case_decide; [done|]. by intros [= <-]. Qed.

(** ** Executions are those of a cluster *)

Section facts.
Context {HO : HeapOps} {Ha : Handlers} (Hq : QuietHandlers Ha) (s : ServerImpl) (sigfd : Z) (build : builder).
Context (Hmode : mode_ s = WM_WORKER) (master : Z) (i : nat) (l : Listener).
Context (Hl : listeners_ s !! i = Some l) (pool : nat) (e0 : Z) (pids : list Z).
Context (Hpids : Forall pid_ok pids) (Hmaster : master ∉ pids).

#[local] Instance coded_workers : Coded (worker_program s sigfd build) := worker_coded Hq s sigfd build Hmode.
Abbreviation reached := (worker_reachable s sigfd build pool e0).
Abbreviation unlocks := (fun e : gevent => exists d, e.2.1 = c_forced_unlock d).

Record finv (F : farm) : Prop := {
  fi_known pid : pid ∈ pids <-> is_Some (alive F !! pid) \/ pid ∈ dead (lock F);
  fi_killed pid : pid ∈ dead (lock F) -> alive F !! pid = None;
  fi_alive pid p : alive F !! pid = Some p -> reached p /\ of_proc pid (glog F) = on_listener i p;
  fi_past pid : pid ∈ dead (lock F) -> exists p, reached p /\ of_proc pid (glog F) = on_listener i p;
  fi_others : Forall (fun e => if decide (e.1 ∈ pids) then ~ unlocks e else unlocks e) (glog F);
  fi_dead g1 e d g2 : glog F = g1 ++ e :: g2 -> e.2.1 = c_forced_unlock d -> d ∈ dead (lock F) /\ of_proc d g2 = [];
  fi_machine : machine_ok (lock F);
  fi_lock : lock_run None (glog F) = Some (holder_of (word (lock F)))
}.

Lemma lock_run_app (m : option Z) g1 g2 : lock_run m (g1 ++ g2) = m1 ← lock_run m g1; lock_run m1 g2.
Proof. revert m. induction g1 as [|e g1 IH]; intros m; [done|]. simpl. destruct (lock_call m e); [apply IH|done]. Qed.

Lemma of_proc_tagged q pid t : of_proc q (pair pid <$> t) = if decide (pid = q) then t else [].
Proof.
  induction t as [|e t IH]; [by case_decide|]. cbn [fmap list_fmap]. change ((pid, e) :: (pair pid <$> t)) with ([(pid, e)] ++ (pair pid <$> t)).
  rewrite of_proc_app, of_proc_one, IH. cbn [fst snd]. by case_decide.
Qed.

(** No worker unlocks for another. *)
Lemma listener_never_unlocks p : reached p -> Forall (fun e : io_event => ~ exists d, e.1 = c_forced_unlock d) (on_listener i p).
Proof.
  intros Hr. destruct (listener_run Hq s sigfd build Hmode pool e0 p Hr i l Hl) as [wo Hwo]. unfold on_listener. rewrite Hwo.
  assert (Hc : calls (fun c => match c with c_forced_unlock _ => False | _ => True end) (RunTcpSrv (GetSocketFd l) (GetPort l) (Some build) true)).
  { apply calls_loop. intros n. unfold tcp_srv_body, serve_conn. cbv beta iota.
    calls_tac; by first [apply calls_Frame_accept|apply calls_SetNonBlock]. }
  apply (calls_impl _ (fun c => ~ exists d, c = c_forced_unlock d)) in Hc; [|by intros [] ? [? ?]].
  specialize (Hc wo). by destruct (RunTcpSrv _ _ _ _ wo).
Qed.

Lemma on_listener_grows p pl p' :
  reached p -> pstep (worker_program s sigfd build) p pl p' -> on_listener i p' = on_listener i p ++ new_calls i p p'.
Proof.
  intros Hr Hst. destruct (step_history Hq s sigfd build Hmode pool e0 p pl p' Hr Hst) as [k Hk].
  unfold new_calls, on_listener. by rewrite Hk, calls_of_app, drop_app_length.
Qed.

Lemma reached_step p pl p' : reached p -> pstep (worker_program s sigfd build) p pl p' -> reached p'.
Proof. intros (p0 & ls & Hst & Hs) Hp. exists p0, (ls ++ [pl]). split; [done|]. by eapply psteps_snoc. Qed.

(** Where an unlock for the dead is in a longer sequence. *)
Lemma unlock_split (g more g1 g2 : list gevent) e :
  g ++ more = g1 ++ e :: g2 ->
  (exists g2', g = g1 ++ e :: g2' /\ g2 = g2' ++ more) \/ (exists k, g1 = g ++ k /\ more = k ++ e :: g2).
Proof.
  intros E. apply app_eq_app in E as [k [[E1 E2]|[E1 E2]]].
  - destruct k as [|x k]; simpl in E2.
    + right. exists []. rewrite app_nil_r in E1 |- *. by subst.
    + injection E2 as <- ->. left. by exists k.
  - right. by exists k.
Qed.

(** What the calls of a worker's step do to the log. *)
Lemma finv_step pid pl p p' m F :
  finv F -> alive F !! pid = Some p -> penabled (worker_program s sigfd build) pl p = true ->
  pexec (worker_program s sigfd build) pl p = Some p' -> lock_returns pid (new_calls i p p') (lock F) = Some m -> torn m = false ->
  finv (mkFarm (<[pid := p']> (alive F)) m (glog F ++ (pair pid <$> new_calls i p p'))).
Proof.
  intros HF Hp He Hp' Hm Ht.
  destruct (fi_alive _ HF pid p Hp) as [Hr Hlog]. assert (Hst : pstep (worker_program s sigfd build) p pl p') by (by constructor).
  pose proof (on_listener_grows p pl p' Hr Hst) as Hg. pose proof (reached_step p pl p' Hr Hst) as Hr'.
  pose proof (listener_never_unlocks p' Hr') as Hnu. rewrite Hg in Hnu. apply Forall_app in Hnu as [_ Hnu].
  assert (Hin : pid ∈ pids) by (apply (fi_known _ HF); left; by rewrite Hp).
  assert (Hpid : pid_ok pid) by (rewrite Forall_forall in Hpids; by apply Hpids).
  destruct (lock_returns_spec pid _ _ _ (fi_machine _ HF) Hpid Hnu Hm Ht) as (Hok & Hdead & Hlock).
  assert (Hof : forall q, of_proc q (glog F ++ (pair pid <$> new_calls i p p')) =
    of_proc q (glog F) ++ if decide (pid = q) then new_calls i p p' else []).
  { intros q. by rewrite of_proc_app, of_proc_tagged. }
  split; cbn [alive glog lock]; rewrite ?Hdead.
  - intros q. rewrite (fi_known _ HF q). destruct (decide (pid = q)) as [->|Hn]; [rewrite lookup_insert_eq, Hp|by rewrite lookup_insert_ne].
    split; intros [?|?]; (by right) || (left; eauto).
  - intros q Hk. pose proof (fi_killed _ HF q Hk). rewrite lookup_insert_ne; [done|]. intros ->. congruence.
  - intros q p1. rewrite Hof. destruct (decide (pid = q)) as [->|Hn].
    + rewrite lookup_insert_eq. intros [= <-]. split; [done|]. by rewrite Hlog, Hg.
    + rewrite lookup_insert_ne by done. intros Hq1. rewrite app_nil_r. by apply (fi_alive _ HF).
  - intros q Hk. rewrite Hof. rewrite decide_False; [rewrite app_nil_r; by apply (fi_past _ HF)|].
    intros ->. pose proof (fi_killed _ HF q Hk). congruence.
  - apply Forall_app. split; [apply HF|]. apply Forall_fmap. eapply Forall_impl; [exact Hnu|].
    intros e Hne. cbn. by rewrite decide_True.
  - intros g1 e d g2 E Hd. destruct (unlock_split _ _ _ _ _ E) as [(g2' & E1 & ->)|(k & _ & E2)].
    + destruct (fi_dead _ HF g1 e d g2' E1 Hd) as [Hk Hn]. split; [done|]. rewrite of_proc_app, Hn, of_proc_tagged.
      rewrite decide_False; [done|]. intros ->. pose proof (fi_killed _ HF d Hk). congruence.
    + exfalso. assert (Hine : e ∈ pair pid <$> new_calls i p p') by (rewrite E2; in_lists).
      apply list_elem_of_fmap in Hine as (x & -> & Hx). rewrite Forall_forall in Hnu. apply (Hnu x Hx). by exists d.
  - exact Hok.
  - by rewrite lock_run_app, (fi_lock _ HF).
Qed.

(** An access inside a method. *)
Lemma finv_quiet a m F :
  finv F -> access_ok a -> (forall p, a <> A_crash p) -> quiet_access a (lock F) = Some m -> torn m = false ->
  finv (mkFarm (alive F) m (glog F)).
Proof.
  intros HF Hac Hc Hm Ht. destruct (quiet_access_spec a _ _ (fi_machine _ HF) Hac Hm Ht) as [Hok Hh].
  pose proof (quiet_access_dead a _ _ Hm Hc) as Hd.
  split; cbn [alive glog lock]; rewrite ?Hd, ?Hh; try done; apply HF.
Qed.

Lemma finv_kill pid p m F :
  finv F -> alive F !! pid = Some p -> quiet_access (A_crash pid) (lock F) = Some m -> torn m = false ->
  finv (mkFarm (delete pid (alive F)) m (glog F)).
Proof.
  intros HF Hp Hm Ht. destruct (fi_alive _ HF pid p Hp) as [Hr Hlog].
  assert (Hin : pid ∈ pids) by (apply (fi_known _ HF); left; by rewrite Hp).
  assert (Hpid : pid_ok pid) by (rewrite Forall_forall in Hpids; by apply Hpids).
  destruct (quiet_access_spec (A_crash pid) _ _ (fi_machine _ HF) Hpid Hm Ht) as [Hok Hh].
  apply quiet_crash in Hm as ->.
  split; cbn [alive glog lock bury dead]; try apply HF; [..|exact Hok].
  - intros q. rewrite (fi_known _ HF q), elem_of_cons. destruct (decide (pid = q)) as [->|Hn].
    + rewrite lookup_delete_eq, Hp. naive_solver.
    + rewrite lookup_delete_ne by done. naive_solver.
  - intros q [->|Hk]%elem_of_cons; [apply lookup_delete_eq|]. apply lookup_delete_None. right. by apply (fi_killed _ HF).
  - intros q p1 [_ Hq1]%lookup_delete_Some. by apply (fi_alive _ HF).
  - intros q [->|Hk]%elem_of_cons; [by exists p|by apply (fi_past _ HF)].
  - intros g1 e d g2 E Hd. destruct (fi_dead _ HF g1 e d g2 E Hd) as [Hk Hn]. split; [by right|done].
Qed.

(** The master's unlock returns. *)
Lemma finv_reap d r a m F :
  finv F -> (a = A_force_write \/ a = A_force_read d) -> mstep (lock F) a = Some (m, Some (L_revoke d)) -> torn m = false ->
  finv (mkFarm (alive F) m (glog F ++ [(master, (c_forced_unlock d, r))])).
Proof.
  intros HF Hac Hm Ht.
  destruct (mstep_simulates _ a m _ (fi_machine _ HF) ltac:(by destruct Hac as [-> | ->]) Hm Ht) as [Hok Hs].
  pose proof (mstep_dead _ a m _ Hm ltac:(by destruct Hac as [-> | ->])) as Hdead.
  assert (Hd : d ∈ dead (lock F)).
  { destruct Hac as [-> | ->]; cbn in Hm.
    - destruct (clearing (lock F)) as [d'|] eqn:Hc; [|done]. injection Hm as _ ->.
      by destruct (mo_clearing _ (fi_machine _ HF) d Hc).
    - case_decide as Hd; [|done]. by destruct Hd. }
  assert (Hof : forall q, q ∈ pids -> of_proc q (glog F ++ [(master, (c_forced_unlock d, r))]) = of_proc q (glog F)).
  { intros q Hqp. rewrite of_proc_app, of_proc_one, decide_False by (by intros <-). apply app_nil_r. }
  assert (Hkp : forall q, q ∈ dead (lock F) -> q ∈ pids) by (intros q ?; apply (fi_known _ HF); by right).
  split; cbn [alive glog lock]; rewrite ?Hdead; try apply HF; [..|exact Hok|].
  - intros q p1 Hq1. rewrite Hof; [by apply (fi_alive _ HF)|]. apply (fi_known _ HF). left. by rewrite Hq1.
  - intros q Hkq. rewrite Hof by auto. by apply (fi_past _ HF).
  - apply Forall_app. split; [apply HF|]. apply Forall_singleton. rewrite decide_False by done. by exists d.
  - intros g1 e d' g2 E Hd'. destruct (unlock_split _ _ _ _ _ E) as [(g2' & E1 & ->)|(k & _ & E2)].
    + destruct (fi_dead _ HF g1 e d' g2' E1 Hd') as [Hkd Hn]. split; [done|]. rewrite of_proc_app, Hn, of_proc_one.
      rewrite decide_False; [done|]. intros E'. apply Hmaster. cbn in E'. rewrite E'. auto.
    + destruct k as [|x k]; [|by destruct k]. injection E2 as <- <-. injection Hd' as <-. done.
  - rewrite lock_run_app, (fi_lock _ HF). cbn [mbind option_bind lock_run].
    rewrite (spec_lock_call master (c_forced_unlock d, r) _ _ (L_revoke d) eq_refl Hs I). done.
Qed.

Lemma access_of_ok c pid x a : access_of c pid x = Some a -> pid_ok pid -> access_ok a /\ forall p, a <> A_crash p.
Proof. intros H Hp. destruct c, x; cbn in H; simplify_eq; done. Qed.

Lemma farm_exec_torn a F F' : farm_exec s sigfd build master i a F = Some F' -> torn (lock F') = false -> torn (lock F) = false.
Proof.
  destruct a as [pid pl|pid|pid|d|d r]; cbn [farm_exec].
  - intros (p & _ & Hx)%bind_Some. destruct (penabled _ pl p); [|done].
    apply bind_Some in Hx as (p' & _ & (m & Hm & [= <-])%bind_Some). by eapply lock_returns_torn.
  - intros (p & _ & (c & _ & (a & _ & (m & Hm & [= <-])%bind_Some)%bind_Some)%bind_Some)%bind_Some. by eapply quiet_access_torn.
  - intros (p & _ & (m & Hm & [= <-])%bind_Some)%bind_Some. by eapply quiet_access_torn.
  - intros (m & Hm & [= <-])%bind_Some. by eapply quiet_access_torn.
  - intros ([m o] & Hm & Hx)%bind_Some. case_decide; [|done]. injection Hx as <-. by eapply mstep_torn.
Qed.

Lemma finv_exec a F F' : finv F -> farm_exec s sigfd build master i a F = Some F' -> torn (lock F') = false -> finv F'.
Proof.
  intros HF. destruct a as [pid pl|pid|pid|d|d r]; cbn [farm_exec].
  - intros (p & Hp & Hx)%bind_Some. destruct (penabled _ pl p) eqn:He; [|done].
    apply bind_Some in Hx as (p' & Hp' & (m & Hm & [= <-])%bind_Some). by apply (finv_step pid pl).
  - intros (p & Hp & (c & _ & (a & Hac & (m & Hm & [= <-])%bind_Some)%bind_Some)%bind_Some)%bind_Some.
    assert (Hin : pid ∈ pids) by (apply (fi_known _ HF); left; by rewrite Hp).
    destruct (access_of_ok _ _ _ _ Hac) as [Hok Hc]; [rewrite Forall_forall in Hpids; by apply Hpids|]. by apply (finv_quiet a).
  - intros (p & Hp & (m & Hm & [= <-])%bind_Some)%bind_Some. by eapply finv_kill.
  - intros (m & Hm & [= <-])%bind_Some. by apply (finv_quiet (A_force_read d)).
  - intros ([m o] & Hm & Hx)%bind_Some. case_decide as Ho; [|done]. injection Hx as <-. subst o.
    eapply finv_reap; [done| |exact Hm]. destruct (clearing (lock F)); auto.
Qed.

Lemma farm_run_torn ls F F' : farm_run s sigfd build master i ls F = Some F' -> torn (lock F') = false -> torn (lock F) = false.
Proof.
  revert F. induction ls as [|a ls IH]; intros F; cbn [farm_run]; [by intros [= <-]|].
  intros (F1 & H1 & H2)%bind_Some Ht. eapply farm_exec_torn; [exact H1|]. by eapply IH.
Qed.

Lemma finv_run ls F F' : finv F -> farm_run s sigfd build master i ls F = Some F' -> torn (lock F') = false -> finv F'.
Proof.
  revert F. induction ls as [|a ls IH]; intros F HF; cbn [farm_run]; [by intros [= <-]|].
  intros (F1 & H1 & H2)%bind_Some Ht. eapply IH; [|exact H2|done]. eapply finv_exec; [done|exact H1|]. by eapply farm_run_torn.
Qed.

Lemma finv_start F : farm_start pool e0 pids = Some F -> finv F.
Proof.
  unfold farm_start. intros (p0 & Hst & [= <-])%bind_Some.
  assert (Hr : reached p0) by (exists p0, []; split; [exact Hst|constructor]).
  destruct (start_inv (worker_program s sigfd build) coded_sane pool J_main [J_signal] true e0 ConnTracker_new) as (p1 & Hst' & _ & _ & _ & Hlog).
  rewrite Hst in Hst'. injection Hst' as <-.
  set (ws := list_to_map ((fun pid => (pid, p0)) <$> pids) : gmap Z (proc wjob ConnTracker)).
  assert (Hin : forall pid p, ws !! pid = Some p -> p = p0 /\ pid ∈ pids).
  { intros pid p Hp%elem_of_list_to_map_2. apply list_elem_of_fmap in Hp as (q & [= -> ->] & Hq'). done. }
  split; cbn [alive glog lock machine0 dead].
  - intros pid. split.
    + intros Hpid. left. destruct (ws !! pid) eqn:E; [eauto|]. apply not_elem_of_list_to_map in E. destruct E.
      rewrite <- list_fmap_compose. apply list_elem_of_fmap. by exists pid.
    + intros [[p Hp]|Hk]; [by apply Hin in Hp as [_ ?]|by apply not_elem_of_nil in Hk].
  - by intros pid Hk%not_elem_of_nil.
  - intros pid p [-> _]%Hin. split; [done|]. unfold on_listener, history. by rewrite Hlog.
  - by intros pid Hk%not_elem_of_nil.
  - constructor.
  - intros g1 e d g2 E. by destruct g1.
  - apply machine0_ok.
  - done.
Qed.

(** Workers under their schedulers are a cluster of accept loops. *)
Lemma farm_cluster F :
  finv F -> cluster_run (GetSocketFd l) (GetPort l) (Some build) true pids None (glog F) (holder_of (word (lock F))).
Proof.
  intros HF. split.
  - done.
  - apply Forall_forall. intros pid Hpid.
    assert (exists p, reached p /\ of_proc pid (glog F) = on_listener i p) as (p & Hr & E).
    { apply (fi_known _ HF) in Hpid as [[p Hp]|Hk]; [exists p; by apply (fi_alive _ HF)|by apply (fi_past _ HF)]. }
    destruct (listener_run Hq s sigfd build Hmode pool e0 p Hr i l Hl) as [wo Hwo]. exists wo, [].
    rewrite app_nil_r, E. unfold on_listener. rewrite Hwo. done.
  - eapply Forall_impl; [apply (fi_others _ HF)|]. intros e He. cbn in He. case_decide; [by left|by right].
  - intros g1 e d g2 E Hd. by apply (fi_dead _ HF g1 e d g2 E Hd).
  - apply HF.
Qed.

(** C11: Of all workers of a server only the holder of a listener's lock accepts on it.
    An execution interleaves any number of worker processes, each with its own
    scheduler, its listeners, connections and signals, workers killed at any step,
    also inside a method of the lock, and a master that unlocks for the dead; every
    method of [AtomicMtx] is its single memory accesses, between which the other
    processes run.  In every execution in which no [cmpxchgq] is torn (it has no
    lock prefix; on one processor none is): the identifier in the word is that of
    the holder by the answers given so far; every call that a worker makes on the
    listener obeys the discipline for the holder at that moment: it accepts, or
    waits for a connection, only while the lock is its own, and sleeps or serves
    only while it is not; and between the calls of [accept] of two different workers
    the first has given up the lock or was unlocked for. *)
Theorem workers_accept_alone ls F :
  (F0 ← farm_start pool e0 pids; farm_run s sigfd build master i ls F0) = Some F -> torn (lock F) = false ->
  hrun None (glog F) = Some (holder_of (word (lock F))) /\
  (forall g1 pid e g2, glog F = g1 ++ (pid, e) :: g2 -> pid ∈ pids ->
     exists h, hrun None g1 = Some h /\ accept_discipline (bool_decide (h = Some pid)) e) /\
  (forall g1 p fd r g2 q fd' r' g3,
     glog F = g1 ++ (p, (c_accept fd, r)) :: g2 ++ (q, (c_accept fd', r')) :: g3 ->
     p ∈ pids -> q ∈ pids -> p <> q -> Exists (gives_up p) g2).
Proof.
  intros (F0 & Hst & Hrun)%bind_Some Ht. pose proof (finv_run _ _ _ (finv_start F0 Hst) Hrun Ht) as HF.
  pose proof (farm_cluster F HF) as Hc. destruct (accepts_alone _ _ _ _ _ _ _ _ Hc I eq_refl) as [H1 H2].
  split; [|split; [|exact H2]].
  - destruct (cluster_lock _ _ _ _ _ _ _ _ Hc I eq_refl [] (glog F) eq_refl) as (m1 & [= <-] & _ & _ & Hh). exact Hh.
  - intros g1 pid e g2 E Hin. destruct (H1 g1 pid e g2 E Hin) as (h & Hl1 & Hd). exists h. split; [|exact Hd].
    destruct (cluster_lock _ _ _ _ _ _ _ _ Hc I eq_refl g1 _ E) as (h' & Hl2 & _ & Hh & _).
    rewrite Hl1 in Hl2. injection Hl2 as <-. exact Hh.
Qed.

End facts.

(** ** Witness *)

(** Worker 10 and worker 11 both find the word 0; worker 10 gets the lock, worker 11
    fails at the compare; worker 10 waits for a connection and is killed; between the
    two accesses with which the master, process 9, unlocks for it, worker 11 fails
    again; then it gets the lock and accepts. *)
Definition no : resp := answer (-1) 0 [].
Definition farm_labels : list farm_label :=
  (F_step 10 <$> take 4 worker_labels) ++ (F_step 11 <$> take 4 worker_labels) ++
  [F_access 10; F_access 11; F_access 10; F_step 10 (P_call ok); F_access 11; F_step 11 (P_call no);
   F_step 10 (P_call again); F_step 10 (P_block 0 EAGAIN); F_kill 10; F_step 11 (P_block 0 0);
   F_reap_read 10; F_step 11 (P_main 60 None 0); F_step 11 (P_call no); F_reap 10 ok; F_step 11 (P_block 60 0);
   F_step 11 (P_main 120 None 0); F_access 11; F_access 11; F_step 11 (P_call ok); F_step 11 (P_call (answer 8 0 []))].
Definition farm_end : option farm :=
  F0 ← farm_start 1 0 [10; 11];
  farm_run (Ha := echo_handlers) demo_worker 9 any_port 9 0 farm_labels F0.
Definition farm_log : list gevent :=
  [(10, (c_trylock, ok)); (11, (c_trylock, no)); (10, (c_accept 5, again))] ++
  [(11, (c_sleep 50, answer (-1) 0 [])); (11, (c_trylock, no)); (9, (c_forced_unlock 10, ok)); (11, (c_sleep 50, answer (-1) 0 []));
   (11, (c_trylock, ok))] ++
  [(11, (c_accept 5, answer 8 0 []))].

Lemma farm_end_log : (fun F => (glog F, word (lock F), torn (lock F))) <$> farm_end = Some (farm_log, 11, false).
Proof. vm_compute. reflexivity. Qed.

Lemma farm_pids : Forall pid_ok [10; 11] /\ (9 ∉ [10; 11]).
Proof. split; [repeat constructor|set_solver]. Qed.

Lemma workers_accept_alone_witness :
  exists F, farm_end = Some F /\ word (lock F) = 11 /\ hrun None (glog F) = Some (Some 11) /\
    Exists (gives_up 10) (take 5 (drop 3 (glog F))).
Proof.
  pose proof farm_end_log as Hlog. destruct farm_end as [F|] eqn:E; [|discriminate Hlog]. injection Hlog as Hlog Hw Ht.
  exists F. split; [reflexivity|]. split; [exact Hw|]. unfold farm_end in E.
  destruct farm_pids as [Hp1 Hp2].
  destruct (workers_accept_alone (Ha := echo_handlers) echo_handlers_quiet demo_worker 9 any_port eq_refl 9 0
    (mkListener 5 (mkIP 0) 80 None (lit "tcp")) eq_refl 1 0 [10; 11] Hp1 Hp2 farm_labels F E Ht) as (Hh & _ & H).
  rewrite Hw in Hh. split; [exact Hh|]. rewrite Hlog.
  apply (H (take 2 farm_log) 10 5 again (take 5 (drop 3 farm_log)) 11 5 (answer 8 0 []) []);
    [exact Hlog|left|right; left|discriminate].
Defined.
