(* ===== verification/Signals.v ===== *)
(** * Signals and the processes that share their pipe

    [InitSigAction] makes one socket pair before [Daemonize] and the forks, so the
    handlers of all processes write to one stream and the [SignalHelper] coroutines
    of all processes read from it.  A step of the bus is a handler that writes its
    signal or a helper that reads one and runs [SignalCallback] in its own process;
    the stream socket hands out what was written, in order. *)

From stdpp Require Import functions.
From S2P Require Import Prelude CStr World Network FrameIO FrameIOProps Server ServerImpl ServerImplProps SetProcTitle ServerInit.

(** ** An int on the wire *)

Lemma byte_of_Z z : 0 <= z < 256 -> Z.of_N (Ascii.N_of_ascii (Ascii.ascii_of_N (Z.to_N z))) = z.
Proof. intros. rewrite Ascii.N_ascii_embedding by lia. lia. Qed.

Lemma int_round_trip v : 0 <= v < 2 ^ 31 -> int_of_bytes (int_bytes v) = v.
Proof.
  intros Hv. unfold int_of_bytes, int_bytes. rewrite (wrap_id 32 v) by lia.
  cbn [map take foldr]. rewrite !byte_of_Z by (apply Z.mod_pos_bound; lia).
  change (2 ^ (8 * 0)) with 1. change (2 ^ (8 * 1)) with 256.
  change (2 ^ (8 * 2)) with (256 * 256). change (2 ^ (8 * 3)) with (256 * 256 * 256).
  rewrite Z.div_1_r, <- !Z.div_div by lia. rewrite s32_id; Z.to_euclidean_division_equations; lia.
Qed.

Lemma int_bytes_length v : length (int_bytes v) = 4%nat.
Proof. done. Qed.

(** ** The bus *)

Record bus := mkBus { pipe : bytes; servers : Z -> ServerImpl }.

Inductive bus_label :=
  | Sent (p sig : Z)
  | Got (p sig : Z).

Section bus.
(** The two ends of the pair, the same in every process. *)
Context (rfd wfd : Z).

Inductive bus_step (b : bus) : bus_label -> bus -> Prop :=
  | step_send p sig w t w' :
      0 <= sig < 2 ^ 31 -> AllInOneCallback wfd sig w = Done 4 t w' -> Forall os_ok t ->
      bus_step b (Sent p sig) (mkBus (pipe b ++ sent wfd t) (servers b))
  | step_read p w s' t w' :
      signal_body rfd (servers b p) w = Done (inl s') t w' -> Forall os_ok t ->
      received rfd t <> [] -> received rfd t = take 4 (pipe b) ->
      bus_step b (Got p (int_of_bytes (take 4 (pipe b)))) (mkBus (drop 4 (pipe b)) (<[p := s']> (servers b))).

Inductive bus_steps (b : bus) : list bus_label -> bus -> Prop :=
  | steps_nil : bus_steps b [] b
  | steps_snoc ls b1 l b2 : bus_steps b ls b1 -> bus_step b1 l b2 -> bus_steps b (ls ++ [l]) b2.

Definition sent_signals (ls : list bus_label) : list Z :=
  omap (fun l => match l with Sent _ s => Some s | Got _ _ => None end) ls.
Definition got_signals (ls : list bus_label) : list Z :=
  omap (fun l => match l with Got _ s => Some s | Sent _ _ => None end) ls.

(** ** One step *)

(** A handler that reports success wrote its whole signal. *)
Lemma handler_writes sig w t w' :
  AllInOneCallback wfd sig w = Done 4 t w' -> Forall os_ok t -> sent wfd t = int_bytes sig.
Proof.
  unfold AllInOneCallback. intros E Hok.
  pose proof (send_loop_spec wfd (int_bytes sig) ltac:(done) 0 w) as H. rewrite E in H.
  destruct (H Hok) as (_ & n & Hn & Hs & [[-> _]|[_ Hr]]); [|lia]. rewrite Hs. done.
Qed.

Lemma received_not_recv P fd t :
  Forall (fun e : io_event => P e.1) t ->
  (forall c, P c -> match c with c_recv _ _ _ | c_recvfrom _ _ _ => False | _ => True end) ->
  received fd t = [].
Proof.
  intros Ht HP. induction Ht as [|[c r] t Hc Ht IH]; [done|]. unfold received in *. simpl. rewrite IH.
  specialize (HP c Hc). by destruct c.
Qed.

Lemma calls_SignalCallback sig s :
  calls (fun c => c = c_waitpid) (SignalCallback sig s).
Proof.
  unfold SignalCallback. destruct (mode_ s); repeat case_match; try apply calls_ret.
  unfold GetWorkerStatus, GetWorkerStatus_body. apply calls_loop. calls_tac.
Qed.

(** What a helper that received a signal does. *)
Lemma helper_reads s w s' t w' :
  signal_body rfd s w = Done (inl s') t w' -> Forall os_ok t ->
  exists wc tc, SignalCallback (int_of_bytes (received rfd t)) s wc = Done s' tc w'.
Proof.
  unfold signal_body. intros H Hok. apply io_bind_inv in H as ([ret data] & t1 & w1 & t2 & Hr & H & ->).
  destruct (ret <? 0); [io_inv; done|].
  apply Forall_app in Hok as [Hok1 _]. pose proof (recv_facts rfd 4 0 w ltac:(done)) as Hf. rewrite Hr in Hf.
  destruct (Hf Hok1) as (Hd & _). io_inv.
  match goal with H : SignalCallback _ _ _ = _ |- _ => rename H into Hs end.
  rewrite app_nil_r, received_app.
  rewrite (received_not_recv _ _ _ (calls_done _ _ _ _ _ _ (calls_SignalCallback _ _) Hs)) by (by intros c ->).
  rewrite app_nil_r. injection H as <-. eauto.
Qed.

(** ** Executions *)

Definition encoded (q : list Z) : bytes := concat (int_bytes <$> q).

Lemma encoded_snoc q sig : encoded (q ++ [sig]) = encoded q ++ int_bytes sig.
Proof. unfold encoded. by rewrite fmap_app, concat_app. Qed.

Lemma encoded_take sig q : take 4 (encoded (sig :: q)) = int_bytes sig.
Proof. done. Qed.
Lemma encoded_drop sig q : drop 4 (encoded (sig :: q)) = encoded q.
Proof. done. Qed.

Lemma steps_fifo b ls b' :
  bus_steps b ls b' -> pipe b = [] ->
  exists q, pipe b' = encoded q /\ Forall (fun s => 0 <= s < 2 ^ 31) q /\
    sent_signals ls = got_signals ls ++ q.
Proof.
  intros H Hb. induction H as [|ls b1 l b2 _ IH Hs]; [by exists []|].
  destruct IH as (q & Hp & Hq & Hl).
  assert (Hsnoc : sent_signals (ls ++ [l]) = sent_signals ls ++ sent_signals [l] /\
    got_signals (ls ++ [l]) = got_signals ls ++ got_signals [l]) by (by split; apply omap_app).
  destruct Hsnoc as [-> ->]. destruct Hs as [p sig w t w' Hsig Hh Hok|p w s' t w' Hb1 Hok Hne Hr].
  - exists (q ++ [sig]). rewrite encoded_snoc. cbn [pipe sent_signals got_signals omap list_omap].
    rewrite (handler_writes _ _ _ _ Hh Hok), Hp. split; [done|]. split.
    + apply Forall_app. by split; [|apply Forall_singleton].
    + by rewrite Hl, app_nil_r, app_assoc.
  - rewrite Hp in *. destruct q as [|sig q]; [by rewrite Hr in Hne|]. exists q.
    apply Forall_cons in Hq as [Hsig Hq]. cbn [pipe sent_signals got_signals omap list_omap].
    rewrite encoded_take, encoded_drop, int_round_trip, Hl by done.
    split; [done|]. split; [done|]. by rewrite app_nil_r, <- app_assoc.
Qed.

(** C35: The pipe delivers signals in order to whoever reads: in every execution of
    any number of processes, what has been read is a prefix of what the handlers
    have sent, nothing lost, doubled or torn, the rest is still in the pipe; and
    each signal is dispatched by [SignalCallback] in the process that read it, not
    in the one it was sent to. *)
Theorem signals_in_order b ls b' :
  bus_steps b ls b' -> pipe b = [] ->
  (exists q, pipe b' = encoded q /\ sent_signals ls = got_signals ls ++ q) /\
  (forall p sig b'', bus_step b' (Got p sig) b'' ->
     (exists q, sent_signals ls = got_signals ls ++ sig :: q) /\
     (exists w t w', SignalCallback sig (servers b' p) w = Done (servers b'' p) t w') /\
     forall r, r <> p -> servers b'' r = servers b' r).
Proof.
  intros H Hb. destruct (steps_fifo b ls b' H Hb) as (q & Hp & Hq & Hl). split; [eauto|].
  intros p sig b'' Hs. inversion Hs as [|? w s' t w' Hb1 Hok Hne Hr]; subst. simpl.
  assert (Hfirst : exists s q', q = s :: q' /\ take 4 (pipe b') = int_bytes s /\ 0 <= s < 2 ^ 31).
  { rewrite Hp in *. destruct q as [|s q]; [by rewrite Hr in Hne|]. apply Forall_cons in Hq as [Hs0 _].
    exists s, q. split; [done|]. split; [apply encoded_take|done]. }
  destruct Hfirst as (s & q' & -> & Ht & Hs0). rewrite Ht in *. rewrite (int_round_trip s Hs0) in *.
  split; [eauto|]. split.
  - destruct (helper_reads _ _ _ _ _ Hb1 Hok) as (wc & tc & Hc). rewrite Hr, int_round_trip in Hc by done.
    rewrite fn_lookup_insert. eauto.
  - intros r Hne'. by rewrite fn_lookup_insert_ne by congruence.
Qed.

(** A worker can steal the master's SIGCHLD: when the signal of an exited child,
    sent to the master, is read by a worker, no process changes in any way, and
    the pipe is empty again: the master does not learn that the child exited. *)
Theorem sigchld_stolen b m b1 v sig b2 :
  pipe b = [] -> mode_ (servers b v) = WM_WORKER ->
  bus_step b (Sent m SIGCHLD) b1 -> bus_step b1 (Got v sig) b2 ->
  sig = SIGCHLD /\ pipe b2 = [] /\ forall p, servers b2 p = servers b p.
Proof.
  intros Hb Hv H1 H2. inversion H1 as [? ? w t w' Hsig Hh Hok|]; subst.
  pose proof (handler_writes _ _ _ _ Hh Hok) as Hsent.
  inversion H2 as [|? w2 s' t2 w2' Hb2 Hok2 Hne Hr]; subst. simpl in *. rewrite Hsent, Hb in *.
  destruct (helper_reads _ _ _ _ _ Hb2 Hok2) as (wc & tc & Hc). rewrite Hr in Hc.
  change (int_of_bytes (take 4 ([] ++ int_bytes SIGCHLD))) with SIGCHLD in *.
  unfold SignalCallback in Hc. rewrite Hv in Hc. change (SIGCHLD =? SIGHUP) with false in Hc. cbv iota in Hc.
  apply io_ret_inv in Hc as (<- & _ & _).
  split; [done|]. split; [done|]. intros p. destruct (decide (p = v)) as [->|Hne'].
  - by rewrite fn_lookup_insert.
  - by rewrite fn_lookup_insert_ne by congruence.
Qed.

End bus.

(** ** Witnesses *)

(** Process 1 is the master, every other one a worker. *)
Definition demo_servers (p : Z) : ServerImpl :=
  if decide (p = 1) then set_mode WM_MASTER ServerImpl_new else set_mode WM_WORKER ServerImpl_new.

Lemma demo_send b p sig :
  0 <= sig < 2 ^ 31 -> bus_step 3 4 b (Sent p sig) (mkBus (pipe b ++ int_bytes sig) (servers b)).
Proof.
  intros Hs. pose proof (step_send 3 4 b p sig (os [answer 4 0 []]) [(c_send 4 (int_bytes sig) 0, answer 4 0 [])]
    (mkWorld [] 0) Hs eq_refl ltac:(repeat constructor; discriminate)) as H. exact H.
Qed.

(** A worker reads a signal that means nothing to it. *)
Lemma demo_read rest s p sv :
  0 <= s < 2 ^ 31 -> s <> SIGHUP -> mode_ (sv p) = WM_WORKER ->
  bus_step 3 4 (mkBus (int_bytes s ++ rest) sv) (Got p s) (mkBus rest (<[p := sv p]> sv)).
Proof.
  intros Hs Hh Hm.
  assert (E : signal_body 3 (sv p) (os [answer 4 0 (int_bytes s)]) =
    Done (inl (sv p)) [(c_recv 3 4 0, answer 4 0 (int_bytes s))] (mkWorld [] 0)).
  { unfold signal_body, io_bind at 1.
    change (Frame_recv 3 4 0 (os [answer 4 0 (int_bytes s)])) with
      (Done (4, int_bytes s) [(c_recv 3 4 0, answer 4 0 (int_bytes s))] (mkWorld [] 0)).
    cbn [Z.ltb Z.compare]. rewrite int_round_trip by done. unfold SignalCallback. rewrite Hm.
    by rewrite (proj2 (Z.eqb_neq _ _) Hh). }
  pose proof (step_read 3 4 (mkBus (int_bytes s ++ rest) sv) p _ _ _ _ E
    ltac:(repeat constructor; discriminate) ltac:(discriminate) eq_refl) as H.
  change (take 4 (pipe (mkBus (int_bytes s ++ rest) sv))) with (int_bytes s) in H.
  rewrite int_round_trip in H by done. exact H.
Qed.

Lemma signals_in_order_witness :
  exists b', bus_steps 3 4 (mkBus [] demo_servers) [Sent 1 SIGCHLD; Sent 1 SIGUSR1; Got 2 SIGCHLD] b' /\
  exists q, pipe b' = encoded q /\ [SIGCHLD; SIGUSR1] = [SIGCHLD] ++ q.
Proof.
  assert (H : bus_steps 3 4 (mkBus [] demo_servers) [Sent 1 SIGCHLD; Sent 1 SIGUSR1; Got 2 SIGCHLD]
    (mkBus (int_bytes SIGUSR1) (<[2 := demo_servers 2]> demo_servers))).
  { apply (steps_snoc 3 4 _ [Sent 1 SIGCHLD; Sent 1 SIGUSR1] (mkBus (int_bytes SIGCHLD ++ int_bytes SIGUSR1) demo_servers)).
    - apply (steps_snoc 3 4 _ [Sent 1 SIGCHLD] (mkBus (int_bytes SIGCHLD) demo_servers)).
      + apply (steps_snoc 3 4 _ [] (mkBus [] demo_servers)); [constructor|]. exact (demo_send (mkBus [] demo_servers) 1 SIGCHLD ltac:(split; [discriminate|reflexivity])).
      + exact (demo_send (mkBus (int_bytes SIGCHLD) demo_servers) 1 SIGUSR1 ltac:(split; [discriminate|reflexivity])).
    - apply demo_read; [split; [discriminate|reflexivity]|discriminate|reflexivity]. }
  eexists. split; [exact H|]. exact (proj1 (signals_in_order 3 4 _ _ _ H eq_refl)).
Defined.

Lemma sigchld_stolen_witness :
  exists b1 b2, bus_step 3 4 (mkBus [] demo_servers) (Sent 1 SIGCHLD) b1 /\ bus_step 3 4 b1 (Got 2 SIGCHLD) b2 /\
    restart_worker_pid_ (servers b2 1) = [].
Proof.
  assert (H1 := demo_send (mkBus [] demo_servers) 1 SIGCHLD ltac:(split; [discriminate|reflexivity])).
  assert (H2 := demo_read [] SIGCHLD 2 demo_servers ltac:(split; [discriminate|reflexivity])
    ltac:(discriminate) eq_refl).
  eexists _, _. split; [exact H1|]. split; [exact H2|].
  destruct (sigchld_stolen 3 4 (mkBus [] demo_servers) 1 _ 2 SIGCHLD _ eq_refl eq_refl H1 H2) as (_ & _ & H).
  rewrite H. reflexivity.
Defined.
