(* ===== verification/Dns.v ===== *)
(** * Name resolution: dns_resolve.h, dns_resolve_impl.{h,cc}

    The cache of [DNSResolverImpl] is a map shared by all resolvers of the process;
    c-ares, which builds queries and reads replies, is the parameter [Ares].  The
    time is an argument: [tv1] when the cache is checked, [tv2] when it is filled. *)

From S2P Require Import Prelude World Network FrameIO FrameIOProps.

Class Ares := {
  ares_library_init : Z;                       (* 0: success *)
  ares_init_options : Z;
  ares_mkquery : bytes -> option bytes;        (* [None]: an error *)
  ares_servers : list Z;                       (* the addresses of the channel *)
  ares_parse_a_reply : bytes -> option (list Z) (* [None]: no [hostent] *)
}.

Record ResCache := mkResCache { rc_ip : list Z; rc_timeout : Z; rc_idx : Z }.

(** What [operator[]] creates for a new key. *)
Definition ResCache_default : ResCache := mkResCache [] 0 0.

(** The address and the entry with its index moved on; the index is a
    [uint32_t]. *)
Definition PickOne (c : ResCache) : Z * ResCache :=
  match rc_ip c with
  | [] => (0, c)
  | ips =>
      (default 0 (ips !! Z.to_nat (rc_idx c mod Z.of_nat (length ips))),
       mkResCache ips (rc_timeout c) (u32 (rc_idx c + 1)))
  end.

(** [ares_channel_init] and [res_cache_]. *)
Record Resolver := mkResolver { ares_channel_init : bool; res_cache_ : gmap bytes ResCache }.

Section resolve.
Context {A : Ares}.

Definition init_channel (r : Resolver) : option Resolver :=
  if ares_channel_init r then Some r
  else if negb (ares_library_init =? 0) then None
  else if negb (ares_init_options =? 0) then None
  else Some (mkResolver true (res_cache_ r)).

(** The entry that answers from the cache. *)
Definition cached (tv1 : timeval) (domain : bytes) (r : Resolver) : option ResCache :=
  c ← res_cache_ r !! domain;
  if mstime tv1 / 1000 <? rc_timeout c then Some c else None.

Definition set_cache (d : bytes) (c : ResCache) (r : Resolver) : Resolver :=
  mkResolver (ares_channel_init r) (<[d := c]> (res_cache_ r)).

(** The result, [*ip] and the resolver's state.  Other coroutines resolve while
    this one waits for the answer: [others] is what they do to the cache. *)
Definition Resolve (others : gmap bytes ResCache -> gmap bytes ResCache) (tv1 tv2 : timeval) (domain : bytes) (ip : Z) (r : Resolver) :
    IO (bool * Z * Resolver) :=
  match init_channel r with
  | None => io_ret (false, ip, r)
  | Some r =>
      match cached tv1 domain r with
      | Some c => let '(res, c) := PickOne c in io_ret (true, res, set_cache domain c r)
      | None =>
          match ares_mkquery domain, ares_servers with
          | Some req, dnsip :: _ =>
              let* u := UdpSendAndRecv req (mkSockaddr dnsip (htons 53)) [] in
              let '(ret, rsp) := u in
              let r := mkResolver (ares_channel_init r) (others (res_cache_ r)) in
              if ret <? 0 then io_ret (false, ip, r)
              else match ares_parse_a_reply rsp with
              | None => io_ret (false, ip, r)
              | Some addrs =>
                  let n := default ResCache_default (res_cache_ r !! domain) in
                  let n := mkResCache (rc_ip n ++ map u32 addrs) (u32 (mstime tv2 / 1000 + 5 * 60)) (rc_idx n) in
                  let '(res, n) := PickOne n in
                  io_ret (true, res, set_cache domain n r)
              end
          | _, _ => io_ret (false, ip, r)
          end
      end
  end.

End resolve.

(** ** Round robin *)

Fixpoint picks (k : nat) (c : ResCache) : list Z * ResCache :=
  match k with
  | O => ([], c)
  | S k => let '(x, c) := PickOne c in let '(l, c) := picks k c in (x :: l, c)
  end.

(** [k] picks from an entry of [n] addresses are its addresses at the next [k]
    positions, cyclically. *)
Lemma picks_spec k c :
  rc_ip c <> [] -> 0 <= rc_idx c -> rc_idx c + Z.of_nat k < 2 ^ 32 ->
  fst (picks k c) =
    map (fun j => default 0 (rc_ip c !! Z.to_nat ((rc_idx c + Z.of_nat j) mod Z.of_nat (length (rc_ip c)))))
      (seq 0 k) /\
  snd (picks k c) = mkResCache (rc_ip c) (rc_timeout c) (rc_idx c + Z.of_nat k).
Proof.
  revert c. induction k as [|k IH]; intros c Hne H0 Hk.
  - simpl. destruct c. simpl. by rewrite Z.add_0_r.
  - simpl picks. unfold PickOne. destruct (rc_ip c) as [|a ips] eqn:E; [done|].
    rewrite <- E. rewrite wrap_id by lia.
    specialize (IH (mkResCache (rc_ip c) (rc_timeout c) (rc_idx c + 1))). simpl in IH.
    destruct IH as [IH1 IH2]; [by rewrite E|lia|lia|].
    destruct (picks k _) as [l c'] eqn:Ep. simpl in *. subst l c'. split.
    + rewrite Z.add_0_r. f_equal. rewrite <- seq_shift, map_map. apply map_ext. intros j.
      do 4 f_equal. lia.
    + f_equal. lia.
Qed.

Lemma rotate_permutation {T} (l : list T) (d : T) (i : Z) :
  l <> [] -> 0 <= i ->
  map (fun j => default d (l !! Z.to_nat ((i + Z.of_nat j) mod Z.of_nat (length l)))) (seq 0 (length l)) ≡ₚ l.
Proof.
  intros Hne Hi. set (n := Z.of_nat (length l)).
  assert (Hn : 0 < n) by (unfold n; destruct l; [done|simpl; lia]).
  set (m := Z.to_nat (i mod n)).
  assert (Hm : (m < length l)%nat) by (unfold m; pose proof (Z.mod_pos_bound i n Hn); lia).
  transitivity (drop m l ++ take m l).
  2:{ rewrite Permutation_app_comm. by rewrite take_drop. }
  match goal with |- ?a ≡ₚ ?b => enough (E : a = b) by (by rewrite E) end.
  apply list_eq. intros j. destruct (decide (j < length l)%nat) as [Hj|Hj].
  - rewrite list_lookup_fmap, lookup_seq_lt by done. simpl.
    assert (Hidx : Z.to_nat ((i + Z.of_nat j) mod n) =
      if decide (j < length l - m)%nat then (m + j)%nat else (m + j - length l)%nat).
    { assert (Hz : i mod n = Z.of_nat m) by (unfold m; pose proof (Z.mod_pos_bound i n Hn); lia).
      rewrite <- Z.add_mod_idemp_l, Hz by lia. case_decide.
      - rewrite Z.mod_small by lia. lia.
      - rewrite <- (Z.mod_unique (Z.of_nat m + Z.of_nat j) n 1 (Z.of_nat m + Z.of_nat j - n)) by lia. lia. }
    rewrite Hidx. case_decide.
    + rewrite lookup_app_l by (rewrite length_drop; lia). rewrite lookup_drop.
      destruct (lookup_lt_is_Some_2 l (m + j)) as [x ->]; [lia|done].
    + rewrite lookup_app_r by (rewrite length_drop; lia). rewrite length_drop, lookup_take_lt by lia.
      replace (j - (length l - m))%nat with (m + j - length l)%nat by lia.
      destruct (lookup_lt_is_Some_2 l (m + j - length l)) as [x ->]; [lia|done].
  - rewrite !lookup_ge_None_2; [done|rewrite length_app, length_drop, length_take; lia|].
    rewrite length_fmap, length_seq. lia.
Qed.

(** ** One resolution *)

Section resolution.
Context {A : Ares} (others : gmap bytes ResCache -> gmap bytes ResCache) (tv1 tv2 : timeval).

(** From a fresh entry, without a call. *)
Lemma Resolve_cached domain ip r c w :
  ares_channel_init r = true -> res_cache_ r !! domain = Some c -> mstime tv1 / 1000 < rc_timeout c ->
  Resolve others tv1 tv2 domain ip r w =
    Done (true, fst (PickOne c), set_cache domain (snd (PickOne c)) r) [] w.
Proof.
  intros Hinit Hc Ht. unfold Resolve, init_channel, cached. rewrite Hinit, Hc. cbn [mbind option_bind].
  rewrite (proj2 (Z.ltb_lt _ _) Ht). by destruct (PickOne c).
Qed.

Lemma PickOne_keeps c : rc_ip (snd (PickOne c)) = rc_ip c /\ rc_timeout (snd (PickOne c)) = rc_timeout c.
Proof. unfold PickOne. by destruct (rc_ip c) eqn:E; simpl; rewrite ?E. Qed.

(** A resolution that succeeds leaves the channel initialised and an entry for its
    domain, the one that answered or one that lives for five minutes; other
    entries are what the others made of them. *)
Lemma Resolve_true domain ip r w ip' r' t w' :
  Resolve others tv1 tv2 domain ip r w = Done (true, ip', r') t w' ->
  ares_channel_init r' = true /\
  exists c', res_cache_ r' !! domain = Some c' /\
    (t = [] /\ (exists c, res_cache_ r !! domain = Some c /\ rc_timeout c' = rc_timeout c) /\
       mstime tv1 / 1000 < rc_timeout c' /\
       (forall d, d <> domain -> res_cache_ r' !! d = res_cache_ r !! d) \/
     rc_timeout c' = u32 (mstime tv2 / 1000 + 300) /\
       forall d, d <> domain -> res_cache_ r' !! d = others (res_cache_ r) !! d).
Proof.
  unfold Resolve, init_channel. intros H.
  assert (Hi : exists r1, (if ares_channel_init r then Some r
      else if negb (ares_library_init =? 0) then None
      else if negb (ares_init_options =? 0) then None else Some (mkResolver true (res_cache_ r))) = Some r1 /\
    ares_channel_init r1 = true /\ res_cache_ r1 = res_cache_ r).
  { repeat case_match; try (io_inv; congruence); eauto. }
  destruct Hi as (r1 & Hr1 & Hinit & Hcache). rewrite Hr1 in H. unfold cached in H. rewrite Hcache in H.
  assert (Hnew : forall n, (let '(res, n) := PickOne n in
      io_ret (true, res, set_cache domain n (mkResolver (ares_channel_init r1) (others (res_cache_ r))))) =
    io_ret (true, fst (PickOne n), set_cache domain (snd (PickOne n))
      (mkResolver (ares_channel_init r1) (others (res_cache_ r))))) by (intros n; by destruct (PickOne n)).
  destruct (res_cache_ r !! domain) as [c|] eqn:Hc; cbn [mbind option_bind] in H;
    [destruct (Z.ltb_spec (mstime tv1 / 1000) (rc_timeout c)) as [Ht|Ht]|].
  1:{ destruct (PickOne c) as [x c'] eqn:Ep. io_inv. simplify_eq. pose proof (PickOne_keeps c) as [_ Hk].
      rewrite Ep in Hk. simpl in *. split; [done|]. exists c'. rewrite lookup_insert_eq, Hk. split; [done|].
      left. split_and!; [done|by exists c|done|]. intros d Hd. by rewrite lookup_insert_ne, Hcache. }
  all: destruct (ares_mkquery domain) as [q|]; [|io_inv; simplify_eq];
    destruct ares_servers as [|dnsip]; [io_inv; simplify_eq|]; io_inv;
    match type of H with context [let '(_, _) := ?x in _] => destruct x as [ret rsp] end;
    cbn [res_cache_] in H;
    destruct (ret <? 0); [io_inv; simplify_eq|]; destruct (ares_parse_a_reply rsp); [|io_inv; simplify_eq];
    rewrite Hnew in H; io_inv; simplify_eq; cbn [set_cache ares_channel_init res_cache_];
    (split; [done|]); eexists; rewrite lookup_insert_eq; (split; [done|]); right;
    rewrite (proj2 (PickOne_keeps _)); (split; [done|]); intros d Hd; by rewrite lookup_insert_ne.
Qed.

End resolution.

(** ** Claims *)

(** The next address of an entry that has one. *)
Definition next_pick (c : ResCache) : option Z := rc_ip c !! Z.to_nat (rc_idx c mod Z.of_nat (length (rc_ip c))).

Lemma PickOne_spec c :
  snd (PickOne c) = mkResCache (rc_ip c) (rc_timeout c) (if decide (rc_ip c = []) then rc_idx c else u32 (rc_idx c + 1)) /\
  (rc_ip c = [] -> fst (PickOne c) = 0) /\ (rc_ip c <> [] -> next_pick c = Some (fst (PickOne c))).
Proof.
  unfold PickOne, next_pick. destruct c as [[|a ips] tm idx]; [done|]. split; [done|]. split; [done|]. intros _.
  cbn [rc_ip rc_idx fst]. destruct (lookup_lt_is_Some_2 (a :: ips) (Z.to_nat (idx mod Z.of_nat (length (a :: ips))))) as [x Hx];
    [|by rewrite Hx]. pose proof (Z.mod_pos_bound idx (Z.of_nat (length (a :: ips)))). cbn [length] in *. lia.
Qed.

(** C31: The resolver shares the load: over as many calls as an entry has addresses,
    [PickOne] returns every address exactly once (as long as its 32-bit index does
    not wrap), and the entry is otherwise unchanged.  While an entry is fresh
    [Resolve] answers from it without any call.  When there is none, or it has
    expired, and the resolution succeeds, then c-ares made a query, the exchange of
    it with its first server succeeded with the reply that c-ares parses to
    [addrs], and the new entry is the one that is in the cache then with exactly
    these addresses behind its own (expired addresses stay), five minutes to live
    and its index moved on by one; the result is the address at the old index, and
    no other entry is touched.  When it fails, [ip] and the cache are untouched. *)
Theorem dns_round_robin_and_cache {A : Ares} others tv1 tv2 domain ip r w :
  ares_channel_init r = true ->
  (forall c, rc_ip c <> [] -> 0 <= rc_idx c -> rc_idx c + Z.of_nat (length (rc_ip c)) < 2 ^ 32 ->
   fst (picks (length (rc_ip c)) c) ≡ₚ rc_ip c /\ rc_ip (snd (picks (length (rc_ip c)) c)) = rc_ip c) /\
  (forall c, res_cache_ r !! domain = Some c -> mstime tv1 / 1000 < rc_timeout c -> rc_ip c <> [] ->
   exists x, next_pick c = Some x /\
   Resolve others tv1 tv2 domain ip r w =
     Done (true, x, set_cache domain (mkResCache (rc_ip c) (rc_timeout c) (u32 (rc_idx c + 1))) r) [] w) /\
  ((forall c, res_cache_ r !! domain = Some c -> rc_timeout c <= mstime tv1 / 1000) ->
   match Resolve others tv1 tv2 domain ip r w with
   | Done (true, x, r') t w' => exists req dnsip rest ret rsp addrs,
       ares_mkquery domain = Some req /\ ares_servers = dnsip :: rest /\
       UdpSendAndRecv req (mkSockaddr dnsip (htons 53)) [] w = Done (ret, rsp) t w' /\ 0 <= ret /\
       ares_parse_a_reply rsp = Some addrs /\
       let old := default ResCache_default (others (res_cache_ r) !! domain) in
       let ips := rc_ip old ++ map u32 addrs in
       res_cache_ r' !! domain = Some (mkResCache ips (u32 (mstime tv2 / 1000 + 300))
         (if decide (ips = []) then rc_idx old else u32 (rc_idx old + 1))) /\
       (if decide (ips = []) then x = 0 else ips !! Z.to_nat (rc_idx old mod Z.of_nat (length ips)) = Some x) /\
       forall d, d <> domain -> res_cache_ r' !! d = others (res_cache_ r) !! d
   | Done (false, ip', r') _ _ => ip' = ip /\ (r' = r \/ res_cache_ r' = others (res_cache_ r))
   | Blocked _ => True
   end).
Proof.
  intros Hinit. split; [|split].
  - intros c Hne H0 Hk. destruct (picks_spec (length (rc_ip c)) c Hne H0 Hk) as [-> ->]. split; [|done].
    by apply (rotate_permutation (rc_ip c) 0 (rc_idx c)).
  - intros c Hc Ht Hne. destruct (PickOne_spec c) as (Hp & _ & Hx). rewrite decide_False in Hp by done.
    exists (fst (PickOne c)). split; [by apply Hx|]. rewrite <- Hp. by apply Resolve_cached.
  - intros Ht. unfold Resolve, init_channel, cached. rewrite Hinit.
    replace (c ← res_cache_ r !! domain; if mstime tv1 / 1000 <? rc_timeout c then Some c else None) with (@None ResCache).
    2:{ destruct (res_cache_ r !! domain) as [c|] eqn:Hc; [|done]. cbn. by rewrite (proj2 (Z.ltb_ge _ _) (Ht c eq_refl)). }
    destruct (ares_mkquery domain) as [req|]; [|simpl; auto].
    destruct ares_servers as [|dnsip rest]; [simpl; auto|].
    unfold io_bind. destruct (UdpSendAndRecv _ _ _ w) as [[ret rsp] t w'|] eqn:Hu; [|done].
    destruct (Z.ltb_spec ret 0); [simpl; auto|]. destruct (ares_parse_a_reply rsp) as [addrs|] eqn:Hrep; [|simpl; auto].
    cbn [res_cache_]. set (old := default ResCache_default _).
    destruct (PickOne_spec (mkResCache (rc_ip old ++ map u32 addrs) (u32 (mstime tv2 / 1000 + 5 * 60)) (rc_idx old))) as (Hp & Hz & Hx).
    destruct (PickOne _) as [res n']. cbn [fst snd rc_ip rc_idx rc_timeout next_pick] in Hp, Hz, Hx. subst n'. simpl.
    exists req, dnsip, rest, ret, rsp, addrs. rewrite app_nil_r, lookup_insert_eq. split_and!; try done.
    + case_decide; [by apply Hz|by apply Hx].
    + intros d Hd. by rewrite lookup_insert_ne.
Qed.

Definition demo_cache : ResCache := mkResCache [1; 2; 3] 1000 7.

#[local] Instance demo_ares : Ares := {|
  ares_library_init := 0; ares_init_options := 0;
  ares_mkquery d := Some d; ares_servers := [134744072]; ares_parse_a_reply b := Some [4]
|}.

(** The expired entry of a domain that now has the address 4: the three old addresses
    stay, and the new one is the next in turn. *)
Lemma dns_round_robin_and_cache_witness :
  let r := mkResolver true {[ lit "a" := demo_cache ]} in
  let w := mkWorld [answer 3 0 []; answer 0 0 []; answer 0 0 []; answer 1 0 []; answer 2 0 (lit "ok")] 0 in
  fst (picks 3 demo_cache) = [2; 3; 1] /\ fst (picks 3 demo_cache) ≡ₚ [1; 2; 3] /\
  match Resolve (fun m => m) (mkTimeval 2000 0) (mkTimeval 2000 0) (lit "a") 0 r w with
  | Done (true, x, r') t _ => x = 4 /\ rc_ip <$> res_cache_ r' !! lit "a" = Some [1; 2; 3; 4] /\
      exists ret rsp w', UdpSendAndRecv (lit "a") (mkSockaddr 134744072 (htons 53)) [] w = Done (ret, rsp) t w'
  | _ => False
  end.
Proof.
  intros r w.
  destruct (dns_round_robin_and_cache (fun m => m) (mkTimeval 2000 0) (mkTimeval 2000 0) (lit "a") 0 r w eq_refl)
    as (H1 & _ & H3).
  split; [reflexivity|]. split; [apply (H1 demo_cache); reflexivity || discriminate|].
  assert (Hold : forall c, res_cache_ r !! lit "a" = Some c -> rc_timeout c <= mstime (mkTimeval 2000 0) / 1000).
  { unfold r. cbn [res_cache_]. intros c [_ <-]%lookup_singleton_Some. vm_compute. discriminate. }
  specialize (H3 Hold).
  destruct (Resolve _ _ _ _ _ _ _) as [[[[] x] r'] t w'|] eqn:E; [|vm_compute in E; discriminate E..].
  destruct H3 as (req & dnsip & rest & ret & rsp & addrs & [= <-] & [= <- _] & Hu & _ & _ & _).
  assert (Hx : match Resolve (fun m => m) (mkTimeval 2000 0) (mkTimeval 2000 0) (lit "a") 0 r w with
    | Done (true, x, r') _ _ => x = 4 /\ rc_ip <$> res_cache_ r' !! lit "a" = Some [1; 2; 3; 4] | _ => False end)
    by (vm_compute; by split).
  rewrite E in Hx. destruct Hx as [Hx1 Hx2]. split; [exact Hx1|]. split; [exact Hx2|]. by exists ret, rsp, w'.
Defined.
