(* ===== verification/Https.v ===== *)
(** * HTTPS clients: https_client.{h,cc}

    The calls of OpenSSL are answered by the environment: an answer of [SSL_read]
    is what OpenSSL made of the bytes it got through the callbacks of the
    connection's BIO, which are functions of the framework ([mt_read],
    [mt_write]).  That [SSL_free] and [BIO_free] call the destroy callback of
    the BIO ([mt_free]) is OpenSSL's documented behaviour. *)

From S2P Require Import Prelude CStr World Network FrameIO FrameIOProps HttpMsg HttpTool.

(** ** The BIO *)

Record BIO := mkBIO { b_init : bool; b_num : Z; b_shutdown : bool }.

#[export] Instance BIO_eq_dec : EqDecision BIO.
Proof. solve_decision. Defined.

Definition SHUT_RDWR : Z := 2.

(** [BIO_new] sets [shutdown] to 1 and calls this. *)
Definition mt_new (b : BIO) : BIO := mkBIO false 0 (b_shutdown b).

Definition mt_free (b : BIO) : IO BIO :=
  if b_shutdown b then
    if b_init b then
      let* _ := sys (c_shutdown (b_num b) SHUT_RDWR) in
      let* _ := sys (c_close (b_num b)) in
      io_ret (mkBIO false (b_num b) (b_shutdown b))
    else io_ret (mkBIO false (b_num b) (b_shutdown b))
  else io_ret b.

(** The result and what is stored at [out] ([None]: a null pointer). *)
Definition mt_read (b : BIO) (out : option Z) : IO (Z * bytes) :=
  match out with
  | Some outl =>
      let* _ := set_errno 0 in
      Frame_recv (b_num b) (u64 outl) 0
  | None => io_ret (0, [])
  end.

Definition mt_write (b : BIO) (inp : option bytes) : IO Z :=
  match inp with
  | Some buf =>
      let* _ := set_errno 0 in
      Frame_send (b_num b) buf 0
  | None => io_ret 0
  end.

Inductive bio_cmd :=
  | BIO_C_SET_FD (fd : Z)
  | BIO_C_GET_FD (ptr : option Z)
  | BIO_CTRL_GET_CLOSE
  | BIO_CTRL_SET_CLOSE
  | BIO_CTRL_DUP
  | BIO_CTRL_FLUSH
  | BIO_CTRL_OTHER (cmd : Z).

(** The result, the BIO and what [GET_FD] stored at its pointer. *)
Definition mt_ctrl (b : BIO) (cmd : bio_cmd) (num : Z) : IO (Z * BIO * option Z) :=
  let b2z (x : bool) := if x then 1 else 0 in
  match cmd with
  | BIO_C_SET_FD fd =>
      let* b := mt_free b in
      io_ret (1, mkBIO true fd (negb (num =? 0)), None)
  | BIO_C_GET_FD ptr =>
      if b_init b then io_ret (b_num b, b, (fun _ => b_num b) <$> ptr) else io_ret (-1, b, ptr)
  | BIO_CTRL_GET_CLOSE => io_ret (b2z (b_shutdown b), b, None)
  | BIO_CTRL_SET_CLOSE => io_ret (1, mkBIO (b_init b) (b_num b) (negb (num =? 0)), None)
  | BIO_CTRL_DUP | BIO_CTRL_FLUSH => io_ret (1, b, None)
  | BIO_CTRL_OTHER _ => io_ret (0, b, None)
  end.

(** ** The client *)

(** [NULL] is the answer 0. *)
Definition openssl (f : ssl_call) : IO resp := sys (c_openssl f).

Section https.
Context {HL : HttpLib} (strerror : Z -> bytes).

(** [ctx_] is static; it is a member here. *)
Record HttpsClient := mkHttps {
  hs_fd : Z;
  ctx_ : bool;
  bio_ : option BIO;
  ssl_ : bool;
  hs_strlog : bytes;
  hs_strerr : bytes;
  bud_ : Z * Z * Z
}.

Definition HttpsClient_new (garbage : Z * Z * Z) (ctx : bool) : HttpsClient :=
  mkHttps (-1) ctx None false [] [] garbage.

Definition hs_set_fd (fd : Z) (c : HttpsClient) : HttpsClient :=
  mkHttps fd (ctx_ c) (bio_ c) (ssl_ c) (hs_strlog c) (hs_strerr c) (bud_ c).
Definition set_ctx (x : bool) (c : HttpsClient) : HttpsClient :=
  mkHttps (hs_fd c) x (bio_ c) (ssl_ c) (hs_strlog c) (hs_strerr c) (bud_ c).
Definition set_bio (b : option BIO) (c : HttpsClient) : HttpsClient :=
  mkHttps (hs_fd c) (ctx_ c) b (ssl_ c) (hs_strlog c) (hs_strerr c) (bud_ c).
Definition set_ssl (s : bool) (c : HttpsClient) : HttpsClient :=
  mkHttps (hs_fd c) (ctx_ c) (bio_ c) s (hs_strlog c) (hs_strerr c) (bud_ c).
Definition log_to (s : bytes) (c : HttpsClient) : HttpsClient :=
  mkHttps (hs_fd c) (ctx_ c) (bio_ c) (ssl_ c) (hs_strlog c ++ s) (hs_strerr c) (bud_ c).
Definition err (s : bytes) (c : HttpsClient) : HttpsClient :=
  mkHttps (hs_fd c) (ctx_ c) (bio_ c) (ssl_ c) (hs_strlog c) (hs_strerr c ++ s) (bud_ c).
Definition set_bud (b : Z * Z * Z) (c : HttpsClient) : HttpsClient :=
  mkHttps (hs_fd c) (ctx_ c) (bio_ c) (ssl_ c) (hs_strlog c) (hs_strerr c) b.

Definition ClearLog (c : HttpsClient) : HttpsClient :=
  mkHttps (hs_fd c) (ctx_ c) (bio_ c) (ssl_ c) [] [] (bud_ c).

Definition Https_GetErrorMsg (c : HttpsClient) : bytes * HttpsClient :=
  (hs_strerr c,
   mkHttps (hs_fd c) (ctx_ c) (bio_ c) (ssl_ c) (hs_strlog c) [] (bud_ c)).

(** [SSL_free] and [BIO_free] destroy the BIO. *)
Definition free_bio (b : option BIO) : IO unit :=
  match b with
  | Some b => let* _ := mt_free b in io_ret tt
  | None => io_ret tt
  end.

Definition Https_Close (c : HttpsClient) : IO HttpsClient :=
  let* c :=
    if ssl_ c then
      let* _ := openssl l_SSL_shutdown in
      let* _ := free_bio (bio_ c) in      (* by [SSL_free] *)
      io_ret (set_bio None c)
    else io_ret c in
  let* _ := free_bio (bio_ c) in
  let* _ := if negb (hs_fd c =? -1) then let* _ := sys (c_close (hs_fd c)) in io_ret tt
            else io_ret tt in
  io_ret (set_bio None (set_ssl false (hs_set_fd (-1) c))).

Definition HttpsClient_delete (c : HttpsClient) : IO HttpsClient := Https_Close c.

(** ** Connecting *)

Definition SO_KEEPALIVE : Z := 9.
Definition SOL_TCP : Z := 6.
Definition TCP_KEEPIDLE : Z := 4.
Definition TCP_KEEPINTVL : Z := 5.
Definition TCP_KEEPCNT : Z := 6.

(** One option after the other: level, option, value, message and result. *)
Fixpoint set_options (l : list (Z * Z * Z * bytes * Z)) (c : HttpsClient) : IO (Z * HttpsClient) :=
  match l with
  | [] => io_ret (hs_fd c, c)
  | (level, opt, val, msg, ret) :: l =>
      let* r := sys (c_setsockopt (hs_fd c) level opt val) in
      if negb (s32 (r_ret r) =? 0) then
        let c := err msg c in
        let* _ := sys (c_close (hs_fd c)) in io_ret (ret, c)
      else set_options l c
  end.

Definition CreateSocket (c : HttpsClient) : IO (Z * HttpsClient) :=
  let keepalive := 1 in
  let keepidle := 20 in
  let keepinterval := 3 in
  let keepcount := 3 in
  let* s := sys (c_socket SOCK_STREAM) in
  let c := hs_set_fd (s32 (r_ret s)) c in
  if hs_fd c =? -1 then io_ret (-1, err (lit "socket error") c)
  else
    let* ret := SetNonBlock (hs_fd c) in
    if ret <? 0 then io_ret (-2, err (lit "fail to set nonblock") c)
    else
      set_options
        [(SOL_SOCKET, SO_KEEPALIVE, keepalive, lit "setsockopt SO_KEEPALIVE error", -4);
         (SOL_TCP, TCP_KEEPIDLE, keepidle, lit "setsockopt TCP_KEEPIDLE error", -5);
         (SOL_TCP, TCP_KEEPINTVL, keepinterval, lit "setsockopt TCP_KEEPINTVL error", -6);
         (SOL_TCP, TCP_KEEPCNT, keepcount, lit "setsockopt TCP_KEEPCNT error", -7)] c.

(** [BIO_new] and [BIO_set_fd] on the new BIO. *)
Definition BIO_new_socket_mt (fd close_flag : Z) : IO (option BIO) :=
  let* n := openssl l_BIO_new in
  if r_ret n =? 0 then io_ret None
  else
    let* r := mt_ctrl (mt_new (mkBIO false 0 true)) (BIO_C_SET_FD fd) close_flag in
    io_ret (Some (snd (fst r))).

(** [goto end] *)
Definition init_end (c : HttpsClient) : IO (Z * HttpsClient) :=
  let* c := Https_Close c in io_ret (-2, c).

Definition init_ctx (c : HttpsClient) : IO (bool * HttpsClient) :=
  if ctx_ c then io_ret (true, c)
  else
    let* n := openssl l_SSL_CTX_new in
    if r_ret n =? 0 then io_ret (false, err (lit "SSL_CTX_new error") c)
    else io_ret (true, set_ctx true c).

Definition start_tls (c : HttpsClient) : IO (Z * HttpsClient) :=
  let* n := openssl l_SSL_new in
  let c := set_ssl (negb (r_ret n =? 0)) c in
  if r_ret n =? 0 then init_end (err (lit "SSL_new error") c)
  else
    let* r := openssl l_SSL_connect in
    let ret := s32 (r_ret r) in
    if ret <=? 0 then
      let* e := openssl (l_SSL_get_error ret) in
      init_end (err (lit "SSL_connect error, error code = " ++ to_string (s32 (r_ret e))) c)
    else io_ret (0, c).

Definition Https_Init (ip port connect_timeout read_timeout write_timeout : Z) (c : HttpsClient) :
    IO (Z * HttpsClient) :=
  let c := set_bud (connect_timeout, read_timeout, write_timeout) (ClearLog c) in
  let* r := CreateSocket c in
  let '(fd, c) := r in
  let c := hs_set_fd fd c in
  if hs_fd c <? 0 then io_ret (-1, err (lit "CreateSocket error") c)
  else
    let* b := BIO_new_socket_mt (hs_fd c) 1 in
    let c := set_bio b c in
    match b with
    | None => init_end c
    | Some _ =>
        let* o := init_ctx c in
        let '(ok, c) := o in
        if negb ok then init_end c
        else
          let c := log_to (lit "HttpsClient connect to " ++ inet_ntoa ip ++ lit ":" ++ to_string port) c in
          let* ret := Frame_connect (hs_fd c) (mkSockaddr ip (htons port)) in
          if ret <? 0 then
            init_end (err (lit "tinyco::connect error: " ++ lit "strerror(errno)") c)
          else start_tls c
    end.

(** ** Sending and receiving *)

Definition max_recvlen : Z := 5120.

(** [.append(SSTR(SSL_get_error(..)))] and what follows it. *)
Definition log_ssl_error (msg : bytes) (res ret : Z) (c : HttpsClient) : IO HttpsClient :=
  let* e := openssl (l_SSL_get_error res) in
  let* en := get_errno in
  io_ret (err (msg ++ to_string (s32 (r_ret e)) ++ lit "|ret = " ++ to_string ret ++
               lit "|errno = " ++ to_string en ++ lit "|strerror = " ++ strerror en) c).

(** [while (left)]: the loop state is [left] and [ret]; the result is the last
    [ret], or the client after an error. *)
Definition ssl_write_body (buf : bytes) (c : HttpsClient) (s : Z * Z) :
    IO (Z * Z + (Z + HttpsClient)) :=
  let '(left_, ret) := s in
  if negb (left_ =? 0) then
    let* r := openssl (l_SSL_write (drop (Z.to_nat (blen buf - left_)) buf) (s32 left_)) in
    let ret := s32 (r_ret r) in
    if ret <=? 0 then
      let* c := log_ssl_error (lit "SSL_write error, error code = ") ret ret c in
      io_ret (inr (inr c))
    else if s32 left_ <? ret then
      io_ret (inr (inr (err (lit "SSL_write error, left = " ++ to_string left_ ++
                             lit "|ret = " ++ to_string ret) c)))
    else io_ret (inl (u64 (left_ - ret), ret))
  else io_ret (inr (inl ret)).

(** The receive loop: the state is [real_buf], the result [http_done], [real_buf]
    and the client. *)
Definition ssl_read_body (ret : Z) (c : HttpsClient) (real_buf : bytes) :
    IO (bytes + (bool * bytes * HttpsClient)) :=
  let* r := openssl (l_SSL_read max_recvlen) in
  let recvlen_ := s32 (r_ret r) in
  if recvlen_ <=? 0 then
    let* c := log_ssl_error (lit "SSL_read error, error code = ") recvlen_ ret c in
    io_ret (inr (false, real_buf, c))
  else
    let real_buf := real_buf ++ r_data r in
    let ret := fst (CheckHttp real_buf 0) in
    if HPC_OK =? ret then io_ret (inr (true, real_buf, c))
    else if HPC_NOT_COMPLETE_HTTP =? ret then io_ret (inl real_buf)
    else io_ret (inr (false, real_buf, c)).

Definition SslSendAndReceive (sendbuf recvbuf : bytes) (c : HttpsClient) : IO (Z * bytes * HttpsClient) :=
  let* r := loop (ssl_write_body sendbuf c) (blen sendbuf, 0) in
  match r with
  | inr c => io_ret (-1, recvbuf, c)
  | inl ret =>
      let* r := loop (ssl_read_body ret c) [] in
      let '(http_done, real_buf, c) := r in
      if http_done then io_ret (0, real_buf, c) else io_ret (-1, recvbuf, c)
  end.

Definition Https_SendAndReceive (sendbuf recvbuf : option bytes) (c : HttpsClient) :
    IO (Z * option bytes * HttpsClient) :=
  let c := ClearLog c in
  if (hs_fd c <? 0) || negb (ssl_ c) || bool_decide (bio_ c = None) then
    io_ret (-1, recvbuf, err (lit "invalid parameters") c)
  else
    match sendbuf, recvbuf with
    | Some sb, Some rb =>
        if blen sb =? 0 then io_ret (-1, recvbuf, err (lit "invalid parameters") c)
        else
          let* r := SslSendAndReceive sb rb c in
          let '(ret, out, c) := r in io_ret (ret, Some out, c)
    | _, _ => io_ret (-1, recvbuf, err (lit "invalid parameters") c)
    end.

End https.
