(* ===== verification/HttpsProps.v ===== *)
(** * Properties of the HTTPS client *)

From S2P Require Import Prelude CStr World Network FrameIO FrameIOProps HttpMsg HttpTool Https.

(** ** What OpenSSL was given and what it gave *)

Definition tls_out (e : io_event) : bytes :=
  match e with
  | (c_openssl (l_SSL_write buf _), r) => take (Z.to_nat (s32 (r_ret r))) buf
  | _ => []
  end.
Definition tls_in (e : io_event) : bytes :=
  match e with
  | (c_openssl (l_SSL_read _), r) => if 0 <? s32 (r_ret r) then r_data r else []
  | _ => []
  end.
Definition tls_sent (t : io_trace) : bytes := concat (map tls_out t).
Definition tls_received (t : io_trace) : bytes := concat (map tls_in t).

Lemma tls_sent_app t u : tls_sent (t ++ u) = tls_sent t ++ tls_sent u.
Proof. unfold tls_sent. by rewrite map_app, concat_app. Qed.
Lemma tls_received_app t u : tls_received (t ++ u) = tls_received t ++ tls_received u.
Proof. unfold tls_received. by rewrite map_app, concat_app. Qed.

(** The connection of a client: everything but its logs. *)
Definition session (c : HttpsClient) := (hs_fd c, ctx_ c, bio_ c, ssl_ c, bud_ c).

Section props.
Context {HL : HttpLib} (strerror : Z -> bytes).

Lemma log_ssl_error_done msg res ret c w c' t w' :
  log_ssl_error strerror msg res ret c w = Done c' t w' ->
  session c' = session c /\ tls_sent t = [] /\ tls_received t = [].
Proof. unfold log_ssl_error, openssl. intros H. io_inv. done. Qed.

(** ** Sending *)

Section write.
Context (buf : bytes) (c : HttpsClient).
Hypothesis Hlen : blen buf < 2 ^ 31.

Lemma ssl_write_productive : productive (ssl_write_body strerror buf c).
Proof.
  unfold ssl_write_body, log_ssl_error, openssl. split; [intros []; sane_tac|].
  intros [l r] w s' t w' H. destruct (negb (l =? 0)); io_inv; [|done]. done.
Qed.

Lemma ssl_write_step l r w x t w' :
  0 <= l <= blen buf -> ssl_write_body strerror buf c (l, r) w = Done x t w' ->
  tls_received t = [] /\
  match x with
  | inl (l', _) => 0 <= l' <= blen buf /\
      take (Z.to_nat (blen buf - l)) buf ++ tls_sent t = take (Z.to_nat (blen buf - l')) buf
  | inr (inl _) => l = 0 /\ t = []
  | inr (inr c') => session c' = session c /\
      exists n, take (Z.to_nat (blen buf - l)) buf ++ tls_sent t = take n buf
  end.
Proof using Hlen.
  intros Hl H. unfold ssl_write_body, openssl in H. destruct (Z.eqb_spec l 0) as [->|Hl0]; cbn [negb] in H; cbv iota in H.
  { by io_inv. }
  apply io_bind_inv in H as (a & t1 & w1 & t2 & H1 & H & ->). apply sys_inv in H1 as (-> & _ & _).
  assert (Hpre : forall n, take (Z.to_nat (blen buf - l)) buf ++
    take (Z.to_nat n) (drop (Z.to_nat (blen buf - l)) buf) =
    take (Z.to_nat (blen buf - l) + Z.to_nat n) buf) by (intros; apply take_take_drop).
  cbv zeta in H. rewrite tls_sent_app, tls_received_app.
  set (e1 := tls_sent [(_, a)]). change (tls_received [(_, a)]) with (@nil ascii).
  assert (Hs : e1 = take (Z.to_nat (s32 (r_ret a))) (drop (Z.to_nat (blen buf - l)) buf)).
  { unfold e1, tls_sent. simpl. by rewrite app_nil_r. }
  destruct (Z.leb_spec (s32 (r_ret a)) 0) as [Hr|Hr].
  - io_inv. match goal with H : log_ssl_error _ _ _ _ _ _ = _ |- _ => apply log_ssl_error_done in H as (E1 & E2 & E3) end.
    rewrite tls_sent_app, tls_received_app, E2, E3, !app_nil_r, Hs, Hpre. eauto.
  - rewrite s32_id in H by lia. destruct (Z.ltb_spec l (s32 (r_ret a))); io_inv;
      change (tls_sent []) with (@nil ascii); rewrite !app_nil_r, Hs, Hpre.
    + split; [done|]. split; [done|]. eauto.
    + rewrite wrap_id by lia. split; [done|]. split; [lia|]. f_equal. lia.
Qed.

Lemma ssl_write_loop w :
  match loop (ssl_write_body strerror buf c) (blen buf, 0) w with
  | Done x t _ => tls_received t = [] /\
      match x with
      | inl _ => tls_sent t = buf
      | inr c' => session c' = session c /\ exists n, tls_sent t = take n buf
      end
  | Blocked _ => True
  end.
Proof using Hlen.
  pose proof (blen_nonneg buf) as Hb.
  apply (loop_rule _ ssl_write_productive
    (fun s acc => 0 <= s.1 <= blen buf /\ tls_received acc = [] /\
       tls_sent acc = take (Z.to_nat (blen buf - s.1)) buf)
    (fun x t => tls_received t = [] /\
      match x with
      | inl _ => tls_sent t = buf
      | inr c' => session c' = session c /\ exists n, tls_sent t = take n buf
      end)).
  - intros [l r] acc w0 [l' r'] t w' (Hl & Hrec & Hsent) Hbody. cbn [fst] in *.
    destruct (ssl_write_step l r w0 _ t w' Hl Hbody) as (Hr & Hl' & Hs).
    rewrite tls_received_app, tls_sent_app, Hrec, Hr, Hsent. split_and!; done || lia.
  - intros [l r] acc w0 x t w' (Hl & Hrec & Hsent) Hbody. cbn [fst] in *.
    destruct (ssl_write_step l r w0 _ t w' Hl Hbody) as (Hr & Hx).
    rewrite tls_received_app, tls_sent_app, Hrec, Hr, Hsent. split; [done|]. destruct x as [v|c'].
    + destruct Hx as [-> ->]. rewrite Z.sub_0_r. change (tls_sent []) with (@nil ascii).
      rewrite app_nil_r, take_ge; [done|]. unfold blen. lia.
    + done.
  - simpl. rewrite Z.sub_diag. split_and!; try lia; done.
Qed.

End write.

(** ** Receiving *)

Lemma ssl_read_productive ret c : productive (ssl_read_body strerror ret c).
Proof.
  unfold ssl_read_body, log_ssl_error, openssl. split; [intros; sane_tac|].
  intros s w s' t w' H. io_inv. done.
Qed.

Lemma ssl_read_step ret c rb w x t w' :
  ssl_read_body strerror ret c rb w = Done x t w' ->
  tls_sent t = [] /\
  match x with
  | inl rb' => rb' = rb ++ tls_received t /\ fst (CheckHttp rb' 0) = HPC_NOT_COMPLETE_HTTP
  | inr (done_, rb', c') => session c' = session c /\
      (done_ = true -> rb' = rb ++ tls_received t /\ fst (CheckHttp rb' 0) = HPC_OK)
  end.
Proof.
  intros H. unfold ssl_read_body, openssl in H.
  apply io_bind_inv in H as (a & t1 & w1 & t2 & H1 & H & ->). apply sys_inv in H1 as (-> & _ & _).
  rewrite tls_sent_app, tls_received_app. change (tls_sent [(_, a)]) with (@nil ascii).
  set (e1 := tls_received [(_, a)]).
  assert (Hs : e1 = if 0 <? s32 (r_ret a) then r_data a else []).
  { unfold e1, tls_received. simpl. by rewrite app_nil_r. }
  cbv zeta in H. destruct (Z.leb_spec (s32 (r_ret a)) 0) as [Hr|Hr].
  - io_inv. match goal with H : log_ssl_error _ _ _ _ _ _ = _ |- _ => apply log_ssl_error_done in H as (E1 & E2 & E3) end.
    rewrite tls_sent_app, E2. done.
  - rewrite (proj2 (Z.ltb_lt _ _)) in Hs by lia. rewrite Hs.
    destruct (Z.eqb_spec HPC_OK (fst (CheckHttp (rb ++ r_data a) 0)));
      [|destruct (Z.eqb_spec HPC_NOT_COMPLETE_HTTP (fst (CheckHttp (rb ++ r_data a) 0)))];
      io_inv; change (tls_received []) with (@nil ascii); rewrite ?app_nil_r; split_and!; done.
Qed.

Lemma ssl_read_loop ret c w :
  match loop (ssl_read_body strerror ret c) [] w with
  | Done (done_, rb, c') t _ => tls_sent t = [] /\ session c' = session c /\
      (done_ = true -> rb = tls_received t /\ fst (CheckHttp rb 0) = HPC_OK)
  | Blocked _ => True
  end.
Proof.
  pose proof (loop_rule _ (ssl_read_productive ret c)
    (fun rb acc => tls_sent acc = [] /\ rb = tls_received acc)
    (fun x t => tls_sent t = [] /\ session x.2 = session c /\
      (x.1.1 = true -> x.1.2 = tls_received t /\ fst (CheckHttp x.1.2 0) = HPC_OK)) [] w) as H.
  destruct (loop _ _ w) as [[[d rb] c'] t w'|]; [|done]. apply H; [| |done]; clear.
  - intros rb acc w0 rb' t w' (Hs & ->) Hbody.
    destruct (ssl_read_step _ _ _ _ _ _ _ Hbody) as (E1 & -> & _).
    by rewrite tls_sent_app, tls_received_app, Hs, E1.
  - intros rb acc w0 [[d rb'] c'] t w' (Hs & ->) Hbody.
    destruct (ssl_read_step _ _ _ _ _ _ _ Hbody) as (E1 & E2 & E3).
    rewrite tls_sent_app, tls_received_app, Hs, E1. done.
Qed.

Lemma tls_exchange c buf out w :
  0 <= hs_fd c -> ssl_ c = true -> bio_ c <> None -> buf <> [] -> blen buf < 2 ^ 31 ->
  match Https_SendAndReceive strerror (Some buf) (Some out) c w with
  | Done (ret, out', c') t _ =>
      session c' = session c /\
      ((ret = 0 /\ tls_sent t = buf /\ out' = Some (tls_received t) /\
        fst (CheckHttp (tls_received t) 0) = HPC_OK) \/
       (ret = -1 /\ out' = Some out /\ exists n, tls_sent t = take n buf))
  | Blocked _ => True
  end.
Proof.
  intros Hfd Hssl Hbio Hne Hlen. unfold Https_SendAndReceive.
  set (c0 := ClearLog c). change (hs_fd c0) with (hs_fd c). change (ssl_ c0) with (ssl_ c).
  change (bio_ c0) with (bio_ c). rewrite (proj2 (Z.ltb_ge _ _)), Hssl, bool_decide_eq_false_2 by done.
  cbn [negb orb].
  destruct (Z.eqb_spec (blen buf) 0) as [E|_]; [destruct buf; [done|unfold blen in E; simpl in E; lia]|].
  assert (Hc0 : session c0 = session c) by done.
  unfold SslSendAndReceive, io_bind. pose proof (ssl_write_loop buf c0 Hlen w) as Hw.
  destruct (loop (ssl_write_body strerror buf c0) _ w) as [[ret|c1] t1 w1|t1]; [| |done].
  - destruct Hw as [Hr1 Hs1]. pose proof (ssl_read_loop ret c0 w1) as Hrd.
    destruct (loop (ssl_read_body strerror ret c0) [] w1) as [[[d rb] c1] t2 w2|t2]; [|done].
    destruct Hrd as (Hs2 & Hses & Hd). destruct d; cbn; rewrite ?app_nil_r, tls_sent_app, tls_received_app, Hr1, Hs1, Hs2, app_nil_r.
    + destruct (Hd eq_refl) as [-> Hok]. split; [congruence|]. left. done.
    + split; [congruence|]. right. split_and!; try done. exists (length buf). by rewrite take_ge.
  - destruct Hw as (_ & Hses & n & Hs). cbn. rewrite ?app_nil_r. split; [congruence|]. right. eauto.
Qed.

(** C30: [HttpsClient::SendAndReceive] on a connected client is one exchange: with 0
    OpenSSL accepted the whole request in order and the output is everything it
    returned, of which the parser says that it is a complete message; otherwise
    the result is -1, the output is untouched and a prefix of the request was
    accepted.  The connection itself stays the same. *)
Theorem https_exchange c buf out w :
  0 <= hs_fd c -> ssl_ c = true -> bio_ c <> None -> buf <> [] -> blen buf < 2 ^ 31 ->
  match Https_SendAndReceive strerror (Some buf) (Some out) c w with
  | Done (ret, out', c') t _ =>
      session c' = session c /\
      ((ret = 0 /\ tls_sent t = buf /\ out' = Some (tls_received t) /\
        fst (CheckHttp (tls_received t) 0) = HPC_OK) \/
       (ret = -1 /\ out' = Some out /\ exists n, tls_sent t = take n buf))
  | Blocked _ => True
  end.
Proof. exact (tls_exchange c buf out w). Qed.

(** ** Closing *)

(** A client as a successful [Init] leaves it: the BIO owns the descriptor. *)
Definition connected (c : HttpsClient) : Prop :=
  0 <= hs_fd c /\ ssl_ c = true /\ bio_ c = Some (mkBIO true (hs_fd c) true).

Lemma start_tls_connected c w c' t w' :
  0 <= hs_fd c -> bio_ c = Some (mkBIO true (hs_fd c) true) ->
  start_tls c w = Done (0, c') t w' -> connected c'.
Proof.
  intros Hfd Hb H. unfold start_tls, init_end, openssl in H. io_inv.
  destruct (r_ret a =? 0); io_inv; [done|].
  destruct (s32 (r_ret a0) <=? 0); io_inv; [done|]. simplify_eq. done.
Qed.

Lemma Init_connected ip port ct rt wt c w c' t w' :
  Https_Init ip port ct rt wt c w = Done (0, c') t w' -> connected c'.
Proof.
  intros H. unfold Https_Init in H. io_inv. destruct a as [fd c1]. cbv zeta in H.
  destruct (Z.ltb_spec (hs_fd (hs_set_fd fd c1)) 0) as [|Hfd]; io_inv; [done|].
  match goal with H : BIO_new_socket_mt _ _ _ = _ |- _ => rename H into Hbio end.
  unfold BIO_new_socket_mt, openssl in Hbio. io_inv.
  destruct (r_ret a0 =? 0); io_inv; [unfold init_end in H; io_inv; done|].
  match goal with H : mt_ctrl _ _ _ _ = _ |- _ => cbn in H; unfold io_ret in H; injection H as <- <- <- end.
  cbn [snd fst] in H. io_inv. destruct a as [ok c2].
  match goal with H : init_ctx _ _ = _ |- _ => rename H into Hctx end.
  assert (Hc2 : hs_fd c2 = fd /\ bio_ c2 = Some (mkBIO true fd true)).
  { unfold init_ctx, openssl in Hctx. destruct (ctx_ _); io_inv; [by simplify_eq|].
    destruct (r_ret a =? 0); io_inv; by simplify_eq. }
  destruct ok; cbn [negb] in H; [|unfold init_end in H; io_inv; done].
  io_inv. destruct (a <? 0); [unfold init_end in H; io_inv; done|].
  destruct Hc2 as [E1 E2]. eapply start_tls_connected; [| |exact H]; cbn in *; rewrite ?E1; done.
Qed.

(** A connected client closes its descriptor twice: [SSL_free] destroys the BIO,
    which owns the descriptor and closes it, and then [Close] closes the number
    again, which by then may name a descriptor of another coroutine.  This holds
    for every client that [Init] has connected. *)
Theorem https_close_twice ip port ct rt wt c w c1 t1 w1 :
  Https_Init ip port ct rt wt c w = Done (0, c1) t1 w1 ->
  match Https_Close c1 w1 with
  | Done c2 t _ =>
      hs_fd c2 = -1 /\ ssl_ c2 = false /\ bio_ c2 = None /\
      t.*1 = [c_openssl l_SSL_shutdown; c_shutdown (hs_fd c1) SHUT_RDWR; c_close (hs_fd c1); c_close (hs_fd c1)]
  | Blocked _ => True
  end.
Proof.
  intros H. apply Init_connected in H as (Hfd & Hssl & Hbio).
  destruct (Https_Close c1 w1) as [c2 t w2|] eqn:E; [|done].
  unfold Https_Close in E. rewrite Hssl, Hbio in E. unfold openssl, free_bio, mt_free in E. cbn [b_init b_shutdown b_num] in E.
  io_inv. cbn in *. unfold io_ret in *. simplify_eq.
  destruct (Z.eqb_spec (hs_fd c1) (-1)); [lia|]. cbn in *. io_inv.
  match goal with H : Done _ _ _ = Done _ _ _ |- _ => injection H as <- <- <- end. done.
Qed.

End props.

(** ** Witnesses *)

(** A parser for which every non-empty text is a complete message. *)
#[local] Instance any_lib : HttpLib := {|
  http_parser_execute _ _ b := mkParsed [on_message_complete] (blen b) 0 200;
  http_parser_parse_url _ := None;
  curl_unescape b := b
|}.

Definition tls_client : HttpsClient := mkHttps 5 true (Some (mkBIO true 5 true)) true [] [] (0, 0, 0).

(** The request is accepted in two parts, the answer comes in one. *)
Lemma https_exchange_witness :
  match Https_SendAndReceive (fun _ => []) (Some (lit "ping")) (Some []) tls_client
    (os [answer 3 0 []; answer 1 0 []; answer 4 0 (lit "pong")]) with
  | Done (ret, out', c') t _ =>
      ret = 0 /\ out' = Some (lit "pong") /\
      session c' = session tls_client /\
      ((ret = 0 /\ tls_sent t = lit "ping" /\ out' = Some (tls_received t) /\
        fst (CheckHttp (tls_received t) 0) = HPC_OK) \/
       (ret = -1 /\ out' = Some [] /\ exists n, tls_sent t = take n (lit "ping")))
  | Blocked _ => False
  end.
Proof.
  pose proof (https_exchange (fun _ => []) tls_client (lit "ping") []
    (os [answer 3 0 []; answer 1 0 []; answer 4 0 (lit "pong")])
    ltac:(discriminate) eq_refl ltac:(discriminate) ltac:(discriminate) eq_refl) as H.
  destruct (Https_SendAndReceive _ _ _ _ _) as [[[ret out'] c'] t w'|t] eqn:E;
    [|vm_compute in E; discriminate E].
  assert (Hr : ret = 0 /\ out' = Some (lit "pong")).
  { vm_compute in E. injection E as <- <- _ _ _. split; reflexivity. }
  destruct Hr as [Hr1 Hr2]. split; [exact Hr1|]. split; [exact Hr2|]. exact H.
Defined.

(** Socket 5, its options, the BIO, the context, a connection, a handshake; then
    the answers to [Close]. *)
Definition tls_script : world :=
  os [answer 5 0 []; answer 0 0 []; answer 0 0 []; answer 0 0 []; answer 0 0 []; answer 0 0 [];
      answer 0 0 []; answer 1 0 []; answer 1 0 []; answer 0 0 []; answer 1 0 []; answer 1 0 [];
      answer 0 0 []; answer 0 0 []; answer 0 0 []; answer 0 0 []].

Lemma https_close_twice_witness :
  exists c1 t1 w1 c2 t w2,
    Https_Init 16777343 443 1000 5000 500 (HttpsClient_new (0, 0, 0) false) tls_script = Done (0, c1) t1 w1 /\
    Https_Close c1 w1 = Done c2 t w2 /\
    t.*1 = [c_openssl l_SSL_shutdown; c_shutdown (hs_fd c1) SHUT_RDWR; c_close (hs_fd c1); c_close (hs_fd c1)].
Proof.
  destruct (Https_Init 16777343 443 1000 5000 500 (HttpsClient_new (0, 0, 0) false) tls_script)
    as [[r c1] t1 w1|t1] eqn:E1; [|vm_compute in E1; discriminate E1].
  assert (Hr : r = 0) by (vm_compute in E1; injection E1 as <- _ _ _; reflexivity). subst r.
  pose proof (https_close_twice _ _ _ _ _ _ _ _ _ _ E1) as H.
  destruct (Https_Close c1 w1) as [c2 t w2|t] eqn:E2.
  - exists c1, t1, w1, c2, t, w2. split; [reflexivity|]. split; [exact E2|]. exact (proj2 (proj2 (proj2 H))).
  - exfalso. vm_compute in E1. injection E1 as <- _ <-. vm_compute in E2. discriminate E2.
Defined.
