(* ===== verification/HttpOp.v ===== *)
(** * One-call requests: http_op.{h,cc}

    [HttpGet] and [HttpPost] parse the URL, resolve the host, build the request,
    exchange it over a new connection and parse the response.  The resolver is an
    object with a virtual method and so a parameter; its state and the static TLS
    context are passed along.  [None] is an exception of the parser. *)

From S2P Require Import Prelude CStr World Network FrameIO HttpMsg HttpTool TcpConn Https Dns.

Definition EC_NONE : Z := 0.
Definition EC_DNS_RESOLVE_ERROR : Z := -1.
Definition EC_INIT_ERROR : Z := -2.
Definition EC_SEND_AND_RECEIVE_ERROR : Z := -3.
Definition EC_RESPONSE_ERROR : Z := -4.
Definition EC_UNKNOWN : Z := -5.

Section op.
Context {HL : HttpLib} {IOrd : IterOrder} (strerror : Z -> bytes).
(** The uninitialised members of the local client objects. *)
Context (garbage : TcpConn) (bud : Z * Z * Z).

(** ** Exchanges *)

Definition __HttpSendAndReveive (ip port : Z) (sendbuf recvbuf : bytes) : IO (Z * bytes) :=
  let hc := HttpClient_new garbage in
  let* r := HttpClient_Init strerror ip (wrap 16 port) hc in
  let '(ret, hc) := r in
  if ret <? 0 then let* _ := HttpClient_delete hc in io_ret (EC_INIT_ERROR, recvbuf)
  else
    let* r := HttpClient_SendAndReceive strerror (Some sendbuf) (Some recvbuf) hc in
    let '(ret, out, hc) := r in
    let* _ := HttpClient_delete hc in
    io_ret (if ret <? 0 then EC_SEND_AND_RECEIVE_ERROR else ret, default recvbuf out).

Definition kMsBIOConnectTimeout : Z := 1000.
Definition kMsBIOReadTimeout : Z := 5000.
Definition kMsBIOWriteTimeout : Z := 500.

Definition __HttpsSendAndReveive (ip port : Z) (sendbuf recvbuf : bytes) (ctx : bool) :
    IO (Z * bytes * bool) :=
  let hc := HttpsClient_new bud ctx in
  let* r := Https_Init ip (wrap 16 port) kMsBIOConnectTimeout kMsBIOReadTimeout kMsBIOWriteTimeout hc in
  let '(ret, hc) := r in
  if ret <? 0 then let* hc := HttpsClient_delete hc in io_ret (EC_INIT_ERROR, recvbuf, ctx_ hc)
  else
    let* r := Https_SendAndReceive strerror (Some sendbuf) (Some recvbuf) hc in
    let '(ret, out, hc) := r in
    let* hc := HttpsClient_delete hc in
    io_ret (if ret <? 0 then EC_SEND_AND_RECEIVE_ERROR else ret, default recvbuf out, ctx_ hc).

(** What both do with the bytes received. *)
Definition parse_response (ret : Z) (recvbuf : bytes) (hr : HttpResponse) : option (Z * HttpResponse) :=
  if ret <? 0 then Some (ret, hr)
  else
    '(res, r) ← ParseHttpResponse recvbuf (Some hr);
    Some (if res <? 0 then EC_RESPONSE_ERROR else res, default hr r).

Definition __HttpRequest (ip port : Z) (http_request : HttpRequest) (hr : HttpResponse) :
    IO (option (Z * HttpResponse)) :=
  let sendbuf := snd (Request_SerializeToString http_request []) in
  let* r := __HttpSendAndReveive ip port sendbuf [] in
  io_ret (parse_response (fst r) (snd r) hr).

Definition __HttpsRequest (ip port : Z) (http_request : HttpRequest) (hr : HttpResponse) (ctx : bool) :
    IO (option (Z * HttpResponse) * bool) :=
  let sendbuf := snd (Request_SerializeToString http_request []) in
  let* r := __HttpsSendAndReveive ip port sendbuf [] ctx in
  let '(ret, recvbuf, ctx) := r in io_ret (parse_response ret recvbuf hr, ctx).

(** ** Requests for a URL *)

Definition starts_with (p s : bytes) : bool := bool_decide (take (length p) s = p).

Definition fix_url (url : bytes) : bytes :=
  if negb (starts_with (lit "http://") url) && negb (starts_with (lit "https://") url)
  then lit "http://" ++ url else url.

(** [for (auto &ite : extra_headers) SetHeader(ite.first, ite.second)] *)
Fixpoint add_extra (extra_headers : list (bytes * bytes)) (r : HttpRequest) : HttpRequest :=
  match extra_headers with
  | [] => r
  | (k, v) :: l => add_extra l (SetHeader k v r)
  end.

Definition get_request (u : URL) (extra_headers : list (bytes * bytes)) : HttpRequest :=
  add_extra extra_headers
    (SetUri (uri u) (SetMethod HTTP_REQUEST_METHOD_GET (SetHeader (lit "Host") (host u) HttpRequest_new))).

Definition post_request (u : URL) (extra_headers : list (bytes * bytes)) (content : bytes) : HttpRequest :=
  add_extra extra_headers
    (SetContent content (SetHeader (lit "Host") (host u)
      (SetUri (uri u) (SetMethod HTTP_REQUEST_METHOD_POST HttpRequest_new)))).

Section url.
Context {R : Type} (Resolve : bytes -> Z -> IO (bool * Z * R)) (r0 : R).

(** Both functions, up to the request they build. *)
Definition request_for (build : URL -> HttpRequest) (url : bytes) (hr : HttpResponse) (ctx : bool) :
    IO (option (Z * HttpResponse) * R * bool) :=
  match ParseUrl (fix_url url) URL_default with
  | None => io_ret (None, r0, ctx)
  | Some (ret, urlobj) =>
      if ret <? 0 then io_ret (Some (EC_UNKNOWN, hr), r0, ctx)
      else
        let* v := Resolve (host urlobj) 0 in
        let '(ok, ip, st) := v in
        if negb ok then io_ret (Some (EC_DNS_RESOLVE_ERROR, hr), st, ctx)
        else if negb (IsHttps urlobj) then
          let* res := __HttpRequest ip (wrap 16 (port urlobj)) (build urlobj) hr in
          io_ret (res, st, ctx)
        else
          let* res := __HttpsRequest ip (wrap 16 (port urlobj)) (build urlobj) hr ctx in
          io_ret (fst res, st, snd res)
  end.

Definition HttpGet (url : bytes) (extra_headers : list (bytes * bytes)) :=
  request_for (fun u => get_request u extra_headers) url.

Definition HttpPost (url : bytes) (extra_headers : list (bytes * bytes)) (content : bytes) :=
  request_for (fun u => post_request u extra_headers content) url.

End url.

(** The two functions that use the resolver of the framework. *)
Definition HttpGet_dns {A : Ares} others tv1 tv2 (url : bytes) (extra_headers : list (bytes * bytes))
    (r : Resolver) :=
  HttpGet (fun d ip => Dns.Resolve others tv1 tv2 d ip r) r url extra_headers.
Definition HttpPost_dns {A : Ares} others tv1 tv2 (url : bytes) (extra_headers : list (bytes * bytes))
    (content : bytes) (r : Resolver) :=
  HttpPost (fun d ip => Dns.Resolve others tv1 tv2 d ip r) r url extra_headers content.

(** [HttpRequest] and [HttpsRequest] *)
Definition HttpOp_HttpRequest := __HttpRequest.
Definition HttpOp_HttpsRequest := __HttpsRequest.

(** ** The request that is sent *)

Lemma add_extra_spec l r :
  method_ (add_extra l r) = method_ r /\ struri_ (add_extra l r) = struri_ r /\
  content_ (add_extra l r) = content_ r /\
  headers_ (add_extra l r) = list_to_map (rev l) ∪ headers_ r.
Proof.
  revert r. induction l as [|[k v] l IH]; intros r; simpl.
  - by rewrite (left_id_L ∅ (∪)).
  - destruct (IH (SetHeader k v r)) as (-> & -> & -> & ->). split_and!; try done. simpl.
    rewrite list_to_map_app. simpl. rewrite <- (assoc_L (∪)). f_equal.
    by rewrite insert_union_singleton_l, insert_empty.
Qed.

Lemma request_for_branches {R} (Res : bytes -> Z -> IO (bool * Z * R)) r0 build url hr ctx w :
  let run := request_for Res r0 build url hr ctx w in
  match ParseUrl (fix_url url) URL_default with
  | None => run = Done (None, r0, ctx) [] w
  | Some (ret, u) =>
      if ret <? 0 then run = Done (Some (EC_UNKNOWN, hr), r0, ctx) [] w
      else match Res (host u) 0 w with
      | Blocked t => run = Blocked t
      | Done (false, _, st) t w' => run = Done (Some (EC_DNS_RESOLVE_ERROR, hr), st, ctx) t w'
      | Done (true, ip, st) t w' =>
          run = (let* _ := fun _ => Done tt t w' in
                 if port u =? 443 then
                   let* res := __HttpsRequest ip (wrap 16 (port u)) (build u) hr ctx in
                   io_ret (fst res, st, snd res)
                 else
                   let* res := __HttpRequest ip (wrap 16 (port u)) (build u) hr in
                   io_ret (res, st, ctx)) w
      end
  end.
Proof.
  cbv zeta. unfold request_for. destruct (ParseUrl (fix_url url) URL_default) as [[ret u]|]; [|reflexivity].
  destruct (ret <? 0); [reflexivity|].
  destruct (Res (host u) 0 w) as [[[[] ip] st] t w'|t] eqn:E.
  - unfold io_bind, IsHttps. rewrite E, (Z.eqb_sym 443). destruct (port u =? 443); reflexivity.
  - unfold io_bind. rewrite E. cbn. by rewrite app_nil_r.
  - unfold io_bind. by rewrite E.
Qed.

(** A reader of HTTP/1.1 gets the target and the headers. *)
Lemma get_request_read u extra :
  let hs := list_to_map (rev extra) ∪ <[lit "Host" := host u]> ∅ in
  sendable (uri u) hs ->
  read_request (Request_Serialize (get_request u extra)) = Some (lit "GET", uri u, filter nonempty_value hs, []).
Proof.
  intros hs Hs. destruct (add_extra_spec extra (SetUri (uri u) (SetMethod HTTP_REQUEST_METHOD_GET
    (SetHeader (lit "Host") (host u) HttpRequest_new)))) as (Em & Eu & Ec & Eh).
  fold (get_request u extra) in Em, Eu, Ec, Eh. simpl in Em, Eu, Ec, Eh.
  destruct (Request_read (get_request u extra) []) as (out & Hout & Hread).
  - left. rewrite Em. reflexivity.
  - rewrite Eu, Eh. exact Hs.
  - unfold Request_Serialize. rewrite Hout. cbn [snd]. rewrite Hread, Em, Eu, Ec, Eh. reflexivity.
Qed.

End op.
