(* ===== verification/HttpOpProps.v ===== *)
(** * Properties of the one-call requests

    How a call of [HttpOp] ends: at which stage, with which code, and what was put on
    the connection and taken from it by then. *)

From S2P Require Import Prelude CStr World Network FrameIO FrameIOProps HttpMsg HttpTool HttpWire.
From S2P Require Import HttpStream TcpConn TcpConnProps HttpServer HttpServerProps HttpExchange Https HttpsProps Dns HttpOp.

(** ** A connection of its own *)

(** Calls that put nothing on a connection and take nothing from one, and that
    connect no descriptor but [fd]. *)
Definition connects_only (fd : Z) (c : syscall) : Prop :=
  match c with
  | c_send _ _ _ | c_recv _ _ _ | c_recvfrom _ _ _ => False
  | c_connect fd' _ => fd' = fd
  | _ => True
  end.

(** The calls of an exchange connect nothing. *)
Definition no_connect (c : syscall) : Prop := match c with c_connect _ _ => False | _ => True end.

Lemma connects_only_silent fd fd' t :
  Forall (fun e => connects_only fd e.1) t -> sent fd' t = [] /\ received fd' t = [].
Proof.
  induction 1 as [|[c r] t Hc _ [IH1 IH2]]; [done|]. rewrite sent_cons, received_cons, IH1, IH2.
  by destruct c.
Qed.

Section client.
Context {HL : HttpLib} {IOrd : IterOrder} (strerror : Z -> bytes).

Lemma calls_Close fd c : calls (connects_only fd) (Close c).
Proof. unfold Close. calls_tac. Qed.

Lemma calls_SetBlocking fd b c : calls (connects_only fd) (SetBlocking b c).
Proof. unfold SetBlocking. calls_tac. Qed.

Lemma calls_Frame_connect fd addr : calls (connects_only fd) (Frame_connect fd addr).
Proof. unfold Frame_connect, connect_body. apply calls_loop. calls_tac. Qed.

Lemma SetBlocking_fd b c w ret c' t w' : SetBlocking b c w = Done (ret, c') t w' -> fd_ c' = fd_ c.
Proof. unfold SetBlocking. intros H. io_inv. repeat (split_match_in H; io_inv; simplify_eq/=); done. Qed.

(** A connection that was initialised has a descriptor, the only one connected. *)
Lemma Init_connects ip port t1 t2 t3 c w ret c' t w' :
  Init strerror ip port t1 t2 t3 c w = Done (ret, c') t w' -> 0 <= ret ->
  fd_ c' <> kInvalidFd /\ Forall (fun e => connects_only (fd_ c') e.1) t.
Proof.
  unfold Init. intros H Hret. destruct (_ || _); [io_inv; by simplify_eq|]. io_inv.
  destruct (Z.eqb_spec (-1) (s32 (r_ret a))) as [|Hfd]; [io_inv; by simplify_eq|]. io_inv.
  destruct a0 as [res c1].
  assert (Hc1 : fd_ c1 = s32 (r_ret a)) by (eapply (SetBlocking_fd _ (mkTcpConn _ _ _ _ _ _ _)); eassumption).
  destruct (res <? 0); [io_inv; by simplify_eq|]. io_inv.
  destruct (a0 <? 0); [io_inv; by simplify_eq|]. io_inv. simplify_eq. rewrite Hc1. split; [by unfold kInvalidFd; congruence|].
  rewrite !Forall_app. split; [by repeat constructor|].
  split; [eapply (calls_done (connects_only _)); [apply calls_SetBlocking|eassumption]|].
  split; [|done]. rewrite <- Hc1.
  eapply (calls_done (connects_only _)); [apply calls_Frame_connect|eassumption].
Qed.

Lemma exchange_no_connect b out func c w :
  fd_ c <> kInvalidFd ->
  Forall (fun e => no_connect e.1) (trace_of (SendAndReceive strerror b out func c w)).
Proof.
  intros Hfd. enough (H : calls no_connect (SendAndReceive strerror b out func c)).
  { specialize (H w). by destruct (SendAndReceive _ _ _ _ _ w). }
  unfold SendAndReceive, reconnect_if_needed. rewrite (proj2 (Z.eqb_neq kInvalidFd (fd_ c))) by congruence.
  unfold send_all. calls_tac.
  - apply calls_loop. unfold send_left_body. calls_tac. by apply calls_Frame_send.
  - apply calls_loop. unfold recv_check_body. calls_tac. by apply calls_Frame_recv.
Qed.

(** [__HttpSendAndReveive] that returns 0 is an exchange on a new connection with
    silent calls before and after. *)
Lemma op_exchange garbage ip port sendbuf w ret out t w' :
  __HttpSendAndReveive strerror garbage ip port sendbuf [] w = Done (ret, out) t w' ->
  ret < 0 \/
  exists c w1 out' c' te w2 t1 t3,
    SendAndReceive strerror (Some sendbuf) (Some []) HttpCheckComplete c w1 = Done (ret, out', c') te w2 /\
    0 <= ret /\ out = default [] out' /\ fd_ c <> kInvalidFd /\ t = t1 ++ te ++ t3 /\
    Forall (fun e => connects_only (fd_ c) e.1) t1 /\ Forall (fun e => connects_only (fd_ c) e.1) t3.
Proof.
  unfold __HttpSendAndReveive, HttpClient_Init. intros H. io_inv. destruct a as [r hc].
  destruct (_ || _); io_inv.
  { simplify_eq. simpl in H. io_inv. simplify_eq. by left. }
  destruct a as [ret1 c]. io_inv. simplify_eq. destruct (Z.ltb_spec ret1 0) as [Hn|Hn].
  { simpl in H. io_inv. simplify_eq. by left. }
  change (0 <? 0) with false in H. cbv iota in H. unfold HttpClient_SendAndReceive in H. io_inv.
  destruct a as [[r1 o1] c1]. io_inv. cbv iota beta in H. io_inv. simplify_eq.
  destruct (Z.ltb_spec r1 0) as [Hr|Hr]; [by left|]. right.
  destruct a0 as [[r2 o2] c2]. io_inv. simplify_eq.
  match goal with H : Init _ _ _ _ _ _ _ _ = _ |- _ => apply Init_connects in H as [Hfd Ht]; [|done] end.
  match goal with H : HttpClient_delete _ _ = Done _ ?u _ |- _ =>
    assert (Hu : Forall (fun e => connects_only (fd_ c) e.1) u) by
      (eapply (calls_done (connects_only _)); [|exact H]; unfold HttpClient_delete; calls_tac; apply calls_Close) end.
  eexists c, _, _, _, _, _, _, _. split_and!; [eassumption|done..| |exact Ht|exact Hu].
  by rewrite !app_nil_r.
Qed.

End client.

(** ** How a call ends *)

(** A connection of the program, plain or through OpenSSL: what was put on it and
    taken from it. *)
Inductive channel := over_tcp (fd : Z) | over_tls.
Definition is_tls (k : channel) : bool := match k with over_tcp _ => false | over_tls => true end.
Definition put (k : channel) (t : io_trace) : bytes :=
  match k with over_tcp fd => sent fd t | over_tls => tls_sent t end.
Definition got (k : channel) (t : io_trace) : bytes :=
  match k with over_tcp fd => received fd t | over_tls => tls_received t end.

(** No byte on any connection, and no socket connected but to [addr]. *)
Definition opening (addr : sockaddr) (c : syscall) : Prop :=
  match c with
  | c_send _ _ _ | c_recv _ _ _ | c_recvfrom _ _ _ => False
  | c_openssl (l_SSL_write _ _) | c_openssl (l_SSL_read _) => False
  | c_connect _ a => a = addr
  | _ => True
  end.
Definition connects_to (addr : sockaddr) (t : io_trace) : Prop :=
  Forall (fun e => match e.1 with c_connect _ a => a = addr | _ => True end) t.

Lemma opening_silent addr t k : Forall (fun e => opening addr e.1) t -> put k t = [] /\ got k t = [].
Proof.
  induction 1 as [|[c r] t Hc _ [IH1 IH2]]; [by destruct k|]. destruct k as [fd|]; simpl in *.
  - rewrite sent_cons, received_cons, IH1, IH2. by destruct c.
  - change (tls_sent ((c, r) :: t)) with (tls_out (c, r) ++ tls_sent t).
    change (tls_received ((c, r) :: t)) with (tls_in (c, r) ++ tls_received t). rewrite IH1, IH2.
    destruct c; try done. by destruct f.
Qed.

Lemma opening_connects addr t : Forall (fun e => opening addr e.1) t -> connects_to addr t.
Proof. intros H. eapply Forall_impl; [exact H|]. intros [c r]. by destruct c. Qed.
Lemma quiet_connects addr t : Forall (fun e => no_connect e.1) t -> connects_to addr t.
Proof. intros H. eapply Forall_impl; [exact H|]. intros [c r]. by destruct c. Qed.


Lemma connects_app addr t u : connects_to addr t -> connects_to addr u -> connects_to addr (t ++ u).
Proof. intros. by apply Forall_app. Qed.

(** What the clients accept as a response among the bytes [d] they got: the parser
    found a whole message; the plain client cuts at the size as an int. *)
Definition whole_response {HL : HttpLib} (k : channel) (d data : bytes) : Prop :=
  fst (CheckHttp d 0) = HPC_OK /\
  data = match k with over_tcp _ => take (Z.to_nat (s32 (blen d))) d | over_tls => d end.

(** What a call of the exchange functions did when it returned [ret] and the output [out]. *)
Definition exchanged {HL : HttpLib} (tls : bool) (req : bytes) (t : io_trace) (ret : Z) (out : bytes) : Prop :=
  (ret = EC_INIT_ERROR /\ forall k, put k t = []) \/
  (exists k, is_tls k = tls /\
    ((ret = EC_SEND_AND_RECEIVE_ERROR /\ exists n, put k t = take n req) \/
     (ret = EC_NONE /\ put k t = req /\ whole_response k (got k t) out))).

Section ends.
Context {HL : HttpLib} {IOrd : IterOrder} (strerror : Z -> bytes) (garbage : TcpConn) (bud : Z * Z * Z).

Lemma complete_ok d : 0 < HttpCheckComplete d -> fst (CheckHttp d 0) = HPC_OK /\ HttpCheckComplete d = s32 (blen d).
Proof.
  unfold HttpCheckComplete. destruct (Z.eqb_spec (fst (CheckHttp d 0)) HPC_OK); [done|].
  repeat case_match; done.
Qed.

Ltac opening_tac := calls_tac; try done.

Lemma opening_Close addr c : calls (opening addr) (Close c).
Proof. unfold Close. opening_tac. Qed.

Lemma opening_connect fd addr : calls (opening addr) (Frame_connect fd addr).
Proof. unfold Frame_connect, connect_body. apply calls_loop. opening_tac. Qed.

Lemma opening_Init ip port t1 t2 t3 c : calls (opening (mkSockaddr ip (htons port))) (Init strerror ip port t1 t2 t3 c).
Proof.
  unfold Init, SetBlocking, log_errno. opening_tac; try apply opening_Close; apply opening_connect.
Qed.

(** *** A plain connection *)

Lemma tcp_exchanged ip port req w ret out t w' :
  req <> [] -> blen req < 2 ^ 31 ->
  __HttpSendAndReveive strerror garbage ip port req [] w = Done (ret, out) t w' -> Forall os_ok t ->
  connects_to (mkSockaddr ip (htons (wrap 16 port))) t /\ exchanged false req t ret out.
Proof.
  intros Hne Hlen. set (addr := mkSockaddr _ _). unfold __HttpSendAndReveive, HttpClient_Init. intros H Hok.
  assert (Hdel : forall h v u w1 w2, HttpClient_delete h w1 = Done v u w2 -> Forall (fun e => opening addr e.1) u).
  { intros h v u w1 w2 Hd. eapply (calls_done (opening addr)); [|exact Hd]. unfold HttpClient_delete. calls_tac; apply opening_Close. }
  assert (Hinit : forall u, Forall (fun e => opening addr e.1) u ->
    connects_to addr u /\ exchanged false req u EC_INIT_ERROR []).
  { intros u Hu. split; [by apply opening_connects|]. left. split; [done|]. intros k. by destruct (opening_silent addr u k Hu). }
  io_inv. destruct a as [r hc]. destruct (_ || _); io_inv.
  { simplify_eq. simpl in H. io_inv. simplify_eq. rewrite app_nil_l, app_nil_r. apply Hinit. eauto. }
  destruct a as [ret1 c]. io_inv. simplify_eq.
  match goal with H : Init _ _ _ _ _ _ _ _ = _ |- _ =>
    pose proof (calls_done _ _ _ _ _ _ (opening_Init _ _ _ _ _ _) H) as Ho; fold addr in Ho; rename H into HI end.
  destruct (Z.ltb_spec ret1 0) as [Hn|Hn].
  { simpl in H. io_inv. simplify_eq. rewrite !app_nil_r. apply Hinit, Forall_app. eauto. }
  apply Init_connects in HI as [Hfd _]; [|done].
  change (0 <? 0) with false in H. cbv iota in H. unfold HttpClient_SendAndReceive in H. io_inv.
  destruct a as [[r1 o1] c1]. io_inv. cbv iota beta in H. io_inv. simplify_eq. destruct a0 as [[r2 o2] c2]. io_inv. simplify_eq.
  match goal with H : HttpClient_delete _ _ = _ |- _ => pose proof (Hdel _ _ _ _ _ H) as Hd end.
  change (hc_conn (set_conn c (HttpClient_new garbage))) with c in *.
  match goal with H : SendAndReceive _ _ _ _ _ ?w = Done _ ?u _ |- _ =>
    pose proof (exchange_facts strerror HttpCheckComplete req [] c w Hfd Hne Hlen) as Hx;
    pose proof (exchange_no_connect strerror (Some req) (Some []) HttpCheckComplete c w Hfd) as Hc;
    rewrite H in Hx, Hc; cbn [trace_of] in Hc end.
  rewrite !app_nil_r in *. rewrite !Forall_app in Hok. destruct Hok as (_ & Hok & _).
  destruct (Hx Hok) as (_ & Hcase). clear Hx Hok.
  split; [auto using connects_app, opening_connects, quiet_connects|].
  right. exists (over_tcp (fd_ c)). split; [done|].
  destruct (opening_silent addr _ (over_tcp (fd_ c)) Ho) as [Ho1 Ho2].
  destruct (opening_silent addr _ (over_tcp (fd_ c)) Hd) as [Hd1 Hd2]. cbn [put got] in *.
  repeat rewrite sent_app. repeat rewrite received_app. rewrite Ho1, Ho2, Hd1, Hd2, !app_nil_r, !app_nil_l.
  destruct Hcase as [(-> & Hsent & ch & l & Hrec & Hpos & _ & ->)|(-> & -> & Hsent)]; [right|by left].
  split; [done|]. split; [done|]. rewrite Hrec in *. apply complete_ok in Hpos as [Hp1 Hp2]. rewrite Hp2.
  by split.
Qed.

(** *** A connection through OpenSSL *)

Lemma opening_free addr b : calls (opening addr) (free_bio b).
Proof. unfold free_bio, mt_free. opening_tac. Qed.

Lemma opening_delete addr c : calls (opening addr) (HttpsClient_delete c).
Proof. unfold HttpsClient_delete, Https_Close, openssl. opening_tac; apply opening_free. Qed.

Lemma opening_options addr l c : calls (opening addr) (set_options l c).
Proof.
  revert c. induction l as [|[[[[level opt] val] msg] ret] l IH]; intros c; simpl; [apply calls_ret|].
  opening_tac.
Qed.

Lemma opening_tls_Init ip port ct rt wt c :
  calls (opening (mkSockaddr ip (htons port))) (Https_Init ip port ct rt wt c).
Proof.
  unfold Https_Init, CreateSocket, BIO_new_socket_mt, mt_ctrl, mt_free, init_ctx, start_tls, init_end, openssl.
  opening_tac; try apply opening_delete; try apply opening_options; try apply opening_connect.
  all: by apply calls_SetNonBlock.
Qed.

Lemma tls_Init_result ip port ct rt wt c w ret c' t w' :
  Https_Init ip port ct rt wt c w = Done (ret, c') t w' -> ret = 0 \/ ret < 0.
Proof.
  unfold Https_Init, start_tls, init_end. intros H. io_inv. repeat (split_match_in H; io_inv; simplify_eq/=; auto).
  all: try (right; lia).
Qed.

Lemma tls_quiet b out c w : Forall (fun e => no_connect e.1) (trace_of (Https_SendAndReceive strerror b out c w)).
Proof.
  enough (H : calls no_connect (Https_SendAndReceive strerror b out c)).
  { specialize (H w). by destruct (Https_SendAndReceive _ _ _ _ w). }
  unfold Https_SendAndReceive, SslSendAndReceive. calls_tac.
  - apply calls_loop. unfold ssl_write_body, log_ssl_error, openssl. calls_tac.
  - apply calls_loop. unfold ssl_read_body, log_ssl_error, openssl. calls_tac.
Qed.

Lemma tls_exchanged ip port req ctx w ret out ctx' t w' :
  req <> [] -> blen req < 2 ^ 31 ->
  __HttpsSendAndReveive strerror bud ip port req [] ctx w = Done (ret, out, ctx') t w' ->
  connects_to (mkSockaddr ip (htons (wrap 16 port))) t /\ exchanged true req t ret out.
Proof.
  intros Hne Hlen. set (addr := mkSockaddr _ _). unfold __HttpsSendAndReveive. intros H. io_inv.
  destruct a as [r c].
  match goal with H : Https_Init _ _ _ _ _ _ _ = _ |- _ =>
    pose proof (calls_done _ _ _ _ _ _ (opening_tls_Init _ _ _ _ _ _) H) as Ho; fold addr in Ho; rename H into HI end.
  destruct (tls_Init_result _ _ _ _ _ _ _ _ _ _ _ HI) as [->|Hr].
  2:{ rewrite (proj2 (Z.ltb_lt r 0) Hr) in H. io_inv. simplify_eq.
      match goal with H : HttpsClient_delete _ _ = _ |- _ => pose proof (calls_done _ _ _ _ _ _ (opening_delete addr _) H) as Hd end.
      rewrite !app_nil_r. split; [auto using connects_app, opening_connects|]. left. split; [done|].
      intros k. apply (opening_silent addr). by apply Forall_app. }
  apply Init_connected in HI as (Hfd & Hssl & Hbio). change (0 <? 0) with false in H. cbv iota in H. io_inv.
  destruct a as [[r1 o1] c1]. io_inv. simplify_eq.
  match goal with H : HttpsClient_delete _ _ = _ |- _ => pose proof (calls_done _ _ _ _ _ _ (opening_delete addr _) H) as Hd end.
  match goal with H : Https_SendAndReceive _ _ _ _ ?w = Done _ ?u _ |- _ =>
    pose proof (tls_exchange strerror c req [] w Hfd Hssl ltac:(by rewrite Hbio) Hne Hlen) as Hx;
    pose proof (tls_quiet (Some req) (Some []) c w) as Hc; rewrite H in Hx, Hc; cbn [trace_of] in Hc end.
  rewrite !app_nil_r. split; [auto using connects_app, opening_connects, quiet_connects|].
  right. exists over_tls. split; [done|]. cbn [put got].
  destruct (opening_silent addr _ over_tls Ho) as [Ho1 Ho2].
  destruct (opening_silent addr _ over_tls Hd) as [Hd1 Hd2]. cbn [put got] in *.
  repeat rewrite tls_sent_app. repeat rewrite tls_received_app. rewrite Ho1, Ho2, Hd1, Hd2, !app_nil_r, !app_nil_l.
  destruct Hx as (_ & [(-> & Hsent & -> & Hok)|(-> & -> & Hsent)]); [right|by left].
  split; [done|]. split; [done|]. by split.
Qed.

(** *** The stages *)

(** How a call ends once it has the address: the code, the response object, and what
    was put on the connection and taken from it. *)
Definition call_end (tls : bool) (req : bytes) (hr : HttpResponse) (t : io_trace) (code : Z) (hr' : HttpResponse) : Prop :=
  (code = EC_INIT_ERROR /\ hr' = hr /\ forall k, put k t = []) \/
  (exists k, is_tls k = tls /\
    ((code = EC_SEND_AND_RECEIVE_ERROR /\ hr' = hr /\ exists n, put k t = take n req) \/
     (put k t = req /\ exists data, whole_response k (got k t) data /\
       ((code = EC_RESPONSE_ERROR /\ ParseHttpResponse data (Some hr) = Some (-1, Some hr')) \/
        (code = EC_NONE /\ ParseHttpResponse data (Some hr) = Some (0, Some hr')))))).

Lemma response_results b hr res r :
  ParseHttpResponse b (Some hr) = Some (res, r) -> exists r', r = Some r' /\ (res = -1 \/ res = 0).
Proof. unfold ParseHttpResponse. intros H. repeat (case_match; try done); simplify_eq; eauto. Qed.

Lemma exchanged_call tls req hr t ret out code hr' :
  exchanged tls req t ret out -> parse_response ret out hr = Some (code, hr') -> call_end tls req hr t code hr'.
Proof.
  unfold parse_response. intros [[-> Hput]|(k & Hk & [[-> Hput]|(-> & Hput & Hd)])] H.
  { simpl in H. simplify_eq. by left. }
  { simpl in H. simplify_eq. right. exists k. split; [done|by left]. }
  change (EC_NONE <? 0) with false in H. cbv iota in H.
  destruct (ParseHttpResponse out (Some hr)) as [[res r]|] eqn:E; [|done]. cbn [mbind option_bind] in H.
  destruct (response_results _ _ _ _ E) as (r' & -> & Hres). simplify_eq.
  right. exists k. split; [done|]. right. split; [done|]. exists out. split; [done|].
  destruct Hres as [-> | ->]; simpl; auto.
Qed.

Section stages.
Context {R : Type} (Resolve : bytes -> Z -> IO (bool * Z * R)) (r0 : R) (build : URL -> HttpRequest).

(** The URL, the resolver, and the exchange with the resolved address. *)
Lemma request_for_end url hr ctx w code hr' st ctx' t w' :
  (forall ret u, ParseUrl (fix_url url) URL_default = Some (ret, u) ->
     Request_Serialize (build u) <> [] /\ blen (Request_Serialize (build u)) < 2 ^ 31) ->
  request_for strerror garbage bud Resolve r0 build url hr ctx w = Done (Some (code, hr'), st, ctx') t w' ->
  Forall os_ok t ->
  exists ret u, ParseUrl (fix_url url) URL_default = Some (ret, u) /\
  if ret <? 0 then code = EC_UNKNOWN /\ hr' = hr /\ t = []
  else exists ok ip t0 w0 t1, Resolve (host u) 0 w = Done (ok, ip, st) t0 w0 /\ t = t0 ++ t1 /\
    if (ok : bool) then
      connects_to (mkSockaddr ip (htons (wrap 16 (port u)))) t1 /\
      call_end (port u =? 443) (Request_Serialize (build u)) hr t1 code hr'
    else code = EC_DNS_RESOLVE_ERROR /\ hr' = hr /\ t1 = [].
Proof.
  intros Hbuild H Hok. pose proof (request_for_branches strerror garbage bud Resolve r0 build url hr ctx w) as Hb.
  cbv zeta in Hb. destruct (ParseUrl (fix_url url) URL_default) as [[ret u]|]; [|congruence].
  destruct (Hbuild ret u eq_refl) as [Hne Hlen]. exists ret, u. split; [done|].
  destruct (ret <? 0). { rewrite Hb in H. by simplify_eq. }
  destruct (Resolve (host u) 0 w) as [[[ok ip] st0] t0 w0|t0]; [|congruence].
  destruct ok; rewrite Hb in H.
  2:{ simplify_eq. exists false, ip, t, w', []. by rewrite app_nil_r. }
  clear Hb. apply io_bind_inv in H as (x & t1 & w1 & t2 & [= <- <- <-] & H & ->).
  assert (Hww : wrap 16 (wrap 16 (port u)) = wrap 16 (port u)) by (apply Z.mod_mod; lia).
  assert (Hst : st0 = st /\ connects_to (mkSockaddr ip (htons (wrap 16 (port u)))) t2 /\
    call_end (port u =? 443) (Request_Serialize (build u)) hr t2 code hr').
  { apply Forall_app in Hok as [_ Hok]. destruct (port u =? 443); io_inv; simplify_eq.
    - unfold __HttpsRequest in *. io_inv. destruct a0 as [[ret1 out] ctx1]. io_inv. simplify_eq. rewrite !app_nil_r.
      match goal with H : __HttpsSendAndReveive _ _ _ _ _ _ _ _ = _ |- _ =>
        apply tls_exchanged in H as [Hc He]; [|done..]; rewrite Hww in Hc end.
      split; [done|]. split; [done|]. eapply exchanged_call; [exact He|done].
    - unfold __HttpRequest in *. io_inv. destruct a as [ret1 out]. io_inv. simplify_eq. rewrite !app_nil_r in *.
      match goal with H : __HttpSendAndReveive _ _ _ _ _ _ _ = _ |- _ =>
        apply tcp_exchanged in H as [Hc He]; [|done..]; rewrite Hww in Hc end.
      split; [done|]. split; [done|]. eapply exchanged_call; [exact He|done]. }
  destruct Hst as (-> & Hc & He). by exists true, ip, t0, w0, t2.
Qed.

End stages.

Lemma get_request_nonempty u extra : Request_Serialize (get_request u extra) <> [].
Proof.
  unfold Request_Serialize, Request_SerializeToString, get_request.
  destruct (add_extra_spec extra (SetUri (uri u) (SetMethod HTTP_REQUEST_METHOD_GET
    (SetHeader (lit "Host") (host u) HttpRequest_new)))) as (-> & _). done.
Qed.


End ends.

(** ** Witness *)

(** [HttpStream.stream_lib], which knows the fields of one URL. *)
#[local] Instance url_lib : HttpLib := {
  http_parser_execute := @http_parser_execute stream_lib;
  http_parser_parse_url s :=
    if decide (s = lit "http://example.org/")
    then Some (mkUrlFields (Some (0, 4)) (Some (7, 11)) None (Some (18, 1)) None None None) else None;
  curl_unescape b := b
}.

Definition get_text : bytes :=
  lit "GET / HTTP/1.1" ++ crlf ++ lit "Host: example.org" ++ crlf ++ crlf.
Definition get_answer : bytes := Response_Serialize (Response_SetContent (lit "hi") HttpResponse_new).

(** Socket 9; the response comes in two pieces. *)
Definition get_world : world :=
  os ([answer 9 0 []; answer 2 0 []; answer 0 0 []; answer 0 0 []; answer (blen get_text) 0 []] ++
      pieces [take 9 get_answer; drop 9 get_answer] ++ [answer 0 0 []]).
(** The resolver answers without calls. *)
Definition get_run : outcome (option (Z * HttpResponse) * unit * bool) :=
  HttpGet (fun _ => []) (mkTcpConn 0 0 0 0 0 0 []) (0, 0, 0) (fun _ _ => io_ret (true, 16777343, tt)) tt
    (lit "example.org/") [] HttpResponse_new false get_world.

Lemma get_run_ok : match get_run with Done (Some (code, hr'), _, _) t _ => code = 0 /\ content hr' = lit "hi" | _ => False end.
Proof. vm_compute. split; reflexivity. Qed.

Lemma get_run_os : Forall os_ok (trace_of get_run).
Proof. os_tac get_run. Qed.

Lemma get_url ret u :
  ParseUrl (fix_url (lit "example.org/")) URL_default = Some (ret, u) ->
  ret = 0 /\ port u = 80 /\ Request_Serialize (get_request u []) = get_text.
Proof. intros H. vm_compute in H. injection H as <- <-. vm_compute. repeat split. Qed.

