(* ===== verification/Rpc.v ===== *)
(** * Remote procedure calls: rpc/ and the method table of server.{h,cc}

    The protobuf library, the generated service classes and the user's methods are
    the parameter [Protobuf].  A service method may do anything, so it is a
    computation. *)

From S2P Require Import Prelude CStr World Network FrameIO FrameIOProps HttpMsg HttpTool HttpServer HttpServerProps TcpConn Https Dns HttpOp.

Class Protobuf := {
  Service : Type;
  Method : Type;
  Message : Type;
  method_count : Service -> Z;
  FindMethodByName : Service -> bytes -> option Method;
  full_name : Method -> bytes;
  RequestParse : Service -> Method -> bytes -> option Message;
  CallMethod : Service -> Method -> Message -> IO Message;
  MessageSerialize : Message -> bytes;
  MessageParse : Message -> bytes -> bool * Message
}.

Section rpc.
Context {PB : Protobuf} {HL : HttpLib} {IOrd : IterOrder}.

(** ** The method table *)

Record MethodDescriptor := mkMethod { md_service : Service; md_method : bytes; md_full_name : bytes }.

Abbreviation method_map := (gmap bytes MethodDescriptor).

(** The loop over the mappings; an error leaves the earlier ones in the table. *)
Fixpoint add_methods (service : Service) (methods : list bytes) (m : method_map) : bool * method_map :=
  match methods with
  | [] => (true, m)
  | method :: methods =>
      match Split method ">"%char with
      | [p; n] =>
          let p := trim p in
          let n := trim n in
          match FindMethodByName service n with
          | None => (false, m)
          | Some pmd => add_methods service methods (<[p := mkMethod service n (full_name pmd)]> m)
          end
      | _ => (false, m)
      end
  end.

Definition AddRpcService (service : Service) (restful_mappings : bytes) (m : method_map) :
    bool * method_map := add_methods service (Split restful_mappings ","%char) m.

(** ** The server side *)

Definition reply404 (h : HttpSrvWork) : IO (Z * HttpSrvWork) :=
  let* r := Reply (set_hrsp (SetStatus 404 (hrsp_ h)) h) in io_ret (0, snd r).

Definition TinycoRpc_Serve (m : method_map) (h : HttpSrvWork) : IO (Z * HttpSrvWork) :=
  match m !! path (GetUriObj (hreq_ h)) with
  | None => reply404 h
  | Some rpc_md =>
      let service := md_service rpc_md in
      if method_count service =? 0 then reply404 h
      else match FindMethodByName service (md_method rpc_md) with
      | None => reply404 h
      | Some method =>
          match RequestParse service method (GetContent (hreq_ h)) with
          | None => io_ret (-1, h)
          | Some request =>
              let* response := CallMethod service method request in
              let strrsp := MessageSerialize response in
              let* r := Reply (set_hrsp (Response_SetContent strrsp (hrsp_ h)) h) in
              io_ret (0, snd r)
          end
      end
  end.

(** ** The client side *)

(** The time-outs are left uninitialised by the constructor. *)
Record Controller := mkController {
  connect_timeout_ : Z;
  recv_timeout_ : Z;
  error_code_ : Z;
  hreq_header_ : HttpRequest;
  hrsp_header_ : HttpResponse
}.

Definition Controller_new (g1 g2 : Z) : Controller :=
  mkController g1 g2 0 (SetMethod HTTP_REQUEST_METHOD_POST HttpRequest_new) HttpResponse_new.
Definition set_error_code (ec : Z) (c : Controller) : Controller :=
  mkController (connect_timeout_ c) (recv_timeout_ c) ec (hreq_header_ c) (hrsp_header_ c).
Definition set_connect_timoeut (t : Z) (c : Controller) : Controller :=
  mkController t (recv_timeout_ c) (error_code_ c) (hreq_header_ c) (hrsp_header_ c).
Definition set_recv_timoeut (t : Z) (c : Controller) : Controller :=
  mkController (connect_timeout_ c) t (error_code_ c) (hreq_header_ c) (hrsp_header_ c).
Definition set_hreq_header (r : HttpRequest) (c : Controller) : Controller :=
  mkController (connect_timeout_ c) (recv_timeout_ c) (error_code_ c) r (hrsp_header_ c).
Definition connect_timeout (c : Controller) : Z := connect_timeout_ c.
Definition recv_timeout (c : Controller) : Z := recv_timeout_ c.
Definition error_code (c : Controller) : Z := error_code_ c.
Definition http_response_header (c : Controller) : HttpResponse := hrsp_header_ c.
Definition http_requeset_header (c : Controller) : HttpRequest := hreq_header_ c.
Definition Failed (c : Controller) : bool := false.
Definition ErrorText (c : Controller) : bytes := [].
Definition Reset (c : Controller) : Controller := c.
Definition StartCancel (c : Controller) : Controller := c.
Definition SetFailed (reason : bytes) (c : Controller) : Controller := c.
Definition IsCanceled (c : Controller) : bool := false.

(** A channel is the end point of its server. *)
Record Channel := mkChannel { server_ : EndPoint }.
Definition InitServer (server : EndPoint) (c : Channel) : Channel := mkChannel server.

(** [request] is the serialised message; the result is the controller and the
    response message, [None] an exception of the parser. *)
Definition Channel_CallMethod (strerror : Z -> bytes) (garbage : TcpConn) (server : EndPoint)
    (cntl : Controller) (request : bytes) (response : Message) : IO (option (Controller * Message)) :=
  let hreq := SetContent request (hreq_header_ cntl) in
  let hrsp := HttpResponse_new in
  if negb (GetStatus hrsp =? 200) then io_ret (Some (cntl, response))
  else
    let* r := HttpOp_HttpRequest strerror garbage (af_inet_ip (ep_ip server)) (ep_port server) hreq hrsp in
    match r with
    | None => io_ret None
    | Some (ret, hrsp) =>
        if ret <? 0 then io_ret (Some (set_error_code (-1) cntl, response))
        else
          let '(_, response) := MessageParse response (Response_GetContent hrsp) in
          io_ret (Some (cntl, response))
    end.

(** ** The table of a mapping text *)

(** "path>method" *)
Definition render (e : bytes * bytes) : bytes := e.1 ++ ">"%char :: e.2.

Definition entry_ok (e : bytes * bytes) : Prop :=
  (","%char ∉ e.1) /\ (">"%char ∉ e.1) /\ (","%char ∉ e.2) /\ (">"%char ∉ e.2) /\ e.2 <> [].

#[export] Instance entry_ok_dec e : Decision (entry_ok e).
Proof. unfold entry_ok. apply _. Defined.

Definition found (service : Service) (e : bytes * bytes) : Prop :=
  is_Some (FindMethodByName service (trim e.2)).

(** The row of the table that an entry stands for. *)
Definition row (service : Service) (e : bytes * bytes) : bytes * MethodDescriptor :=
  (trim e.1, mkMethod service (trim e.2) (default [] (full_name <$> FindMethodByName service (trim e.2)))).

Lemma render_split e : entry_ok e -> Split (render e) ">"%char = [e.1; e.2].
Proof.
  intros (_ & H1 & _ & H2 & Hne). apply (Split_join ">"%char [e.1; e.2]); [done|by repeat constructor|].
  simpl. congruence.
Qed.

Lemma render_no_comma e : entry_ok e -> ","%char ∉ render e.
Proof. intros (H1 & _ & H2 & _). unfold render. rewrite elem_of_app, elem_of_cons. by intros [?|[?|?]]. Qed.

Lemma Split_renders l :
  l <> [] -> Forall entry_ok l -> Split (join ","%char (map render l)) ","%char = map render l.
Proof.
  intros Hne Hok. apply Split_join; [by destruct l| |].
  - rewrite Forall_fmap. eapply Forall_impl; [exact Hok|]. exact render_no_comma.
  - rewrite fmap_last. destruct (last l) as [e|]; [|done]. simpl. intros [= H].
    unfold render in H. by destruct e.1.
Qed.

Lemma add_methods_app service l1 methods m :
  Forall entry_ok l1 -> Forall (found service) l1 ->
  add_methods service (map render l1 ++ methods) m =
  add_methods service methods (list_to_map (rev (map (row service) l1)) ∪ m).
Proof.
  intros Hok Hf. revert m. induction Hok as [|e l1 He Hok IH]; intros m; simpl.
  - by rewrite (left_id_L ∅ (∪)).
  - apply Forall_cons in Hf as [[pmd Hpmd] Hf]. rewrite render_split, Hpmd, IH by done. f_equal.
    rewrite list_to_map_app. simpl. rewrite <- (assoc_L (∪)). f_equal.
    unfold row. rewrite Hpmd. simpl. by rewrite insert_union_singleton_l, insert_empty.
Qed.

(** C29: [AddRpcService] builds the table its mapping text describes: for a text
    "path>method,..." whose methods all exist the result is true and the table is
    the old one overridden by one row per entry, blanks around paths and methods
    removed and later entries winning; with the first method that does not exist
    the result is false and exactly the rows before it have been added. *)
Theorem rpc_table service l m :
  l <> [] -> Forall entry_ok l ->
  (Forall (found service) l ->
   AddRpcService service (join ","%char (map render l)) m =
     (true, list_to_map (rev (map (row service) l)) ∪ m)) /\
  (forall l1 e l2, l = l1 ++ e :: l2 -> Forall (found service) l1 -> ~ found service e ->
   AddRpcService service (join ","%char (map render l)) m =
     (false, list_to_map (rev (map (row service) l1)) ∪ m)).
Proof.
  intros Hne Hok. unfold AddRpcService. rewrite Split_renders by done. split.
  - intros Hf. pose proof (add_methods_app service l [] m Hok Hf) as H. by rewrite app_nil_r in H.
  - intros l1 e l2 -> Hf Hn. apply Forall_app in Hok as [Hok1 [He _]%Forall_cons].
    rewrite map_app, add_methods_app by done. simpl. rewrite render_split by done.
    destruct (FindMethodByName service (trim e.2)) eqn:E; [|done].
    destruct Hn. unfold found. by rewrite E.
Qed.

(** ** Replies *)

Lemma replied_keeps h : status (replied h) = status (hrsp_ h) /\ content (replied h) = content (hrsp_ h).
Proof. unfold replied. by destruct (IsHeader _ _). Qed.

(** The request can be served: its path is mapped, the method exists and the body
    parses. *)
Definition servable (m : method_map) (q : HttpRequest) (service : Service) (method : Method)
    (msg : Message) : Prop :=
  exists md, m !! path (GetUriObj q) = Some md /\ md_service md = service /\ method_count service <> 0 /\
    FindMethodByName service (md_method md) = Some method /\
    RequestParse service method (GetContent q) = Some msg.

(** A request for an unmapped path is answered 404 and served with result 0.
    The response object belongs to the connection and nothing resets it: a request
    that is served afterwards on the same connection calls its method and sends
    the serialised result, but with the status 404. *)
Theorem rpc_404_sticks m h q2 service method msg w :
  m !! path (GetUriObj (hreq_ h)) = None -> servable m q2 service method msg ->
  match TinycoRpc_Serve m h w with
  | Done (v, h1) _ _ =>
      v = 0 /\ sockfd_ h1 = sockfd_ h /\ status (hrsp_ h1) = 404 /\
      exists (answer : Message -> HttpResponse),
        (forall x, status (answer x) = 404 /\ content (answer x) = MessageSerialize x) /\
        forall w2, TinycoRpc_Serve m (set_hreq q2 h1) w2 =
          (let* x := CallMethod service method msg in
           let* _ := Frame_send (sockfd_ h) (Response_Serialize (answer x)) 0 in
           io_ret (0, set_hrsp (answer x) (set_hreq q2 h1))) w2
  | Blocked _ => True
  end.
Proof.
  intros Hun (md & Hmd & <- & Hc & Hm & Hp). unfold TinycoRpc_Serve at 1. rewrite Hun. unfold reply404.
  destruct (io_bind _ _ w) as [[v h1] t w'|t] eqn:E; [|done].
  apply io_bind_inv in E as ([ret h0] & t1 & w1 & t2 & H1 & H2 & _). apply io_ret_inv in H2 as (Hv & _ & _).
  injection Hv as <- Hh1. cbn [snd] in Hh1. subst h1.
  rewrite Reply_unfold in H1. apply io_bind_inv in H1 as (a & t3 & w3 & t4 & _ & H1 & _).
  apply io_ret_inv in H1 as (Hh0 & _ & _).
  injection Hh0 as _ <-.
  set (h1 := set_hrsp _ _). assert (Hst : status (hrsp_ h1) = 404).
  { unfold h1. simpl. by rewrite (proj1 (replied_keeps _)). }
  split_and!; try done.
  exists (fun x => replied (set_hrsp (Response_SetContent (MessageSerialize x) (hrsp_ h1)) (set_hreq q2 h1))).
  split.
  - intros x. destruct (replied_keeps (set_hrsp (Response_SetContent (MessageSerialize x) (hrsp_ h1)) (set_hreq q2 h1)))
      as [-> ->]. split; [exact Hst|done].
  - intros w2. unfold TinycoRpc_Serve. change (hreq_ (set_hreq q2 h1)) with q2. rewrite Hmd.
    rewrite (proj2 (Z.eqb_neq _ _) Hc), Hm, Hp. unfold io_bind.
    destruct (CallMethod _ _ _ w2) as [x t5 w5|]; [|done].
    rewrite Reply_unfold. unfold io_bind, io_ret.
    change (sockfd_ (set_hrsp _ _)) with (sockfd_ h). change (hrsp_ (set_hreq q2 h1)) with (hrsp_ h1).
    destruct (Frame_send _ _ _ w5) as [y t6 w6|]; [|done]. cbn [snd]. by rewrite !app_nil_r.
Qed.

End rpc.

(** ** Witnesses *)

(** A service with one method that doubles its text. *)
#[local] Instance echo_pb : Protobuf := {|
  Service := unit; Method := unit; Message := bytes;
  method_count _ := 1;
  FindMethodByName _ n := if decide (n = lit "Echo") then Some tt else None;
  full_name _ := lit "demo.Echo";
  RequestParse _ _ b := Some b;
  CallMethod _ _ b := io_ret (b ++ b);
  MessageSerialize b := b;
  MessageParse _ b := (true, b)
|}.

Definition echo_svc : Service := tt.
Definition echo_call : Method := tt.

Lemma rpc_table_witness :
  AddRpcService echo_svc (lit "/a> Echo ,/b>Missing,/c>Echo") ∅ =
    (false, list_to_map [(lit "/a", mkMethod echo_svc (lit "Echo") (lit "demo.Echo"))] ∪ ∅).
Proof.
  apply (proj2 (rpc_table echo_svc [(lit "/a", lit " Echo "); (lit "/b", lit "Missing"); (lit "/c", lit "Echo")] ∅
    ltac:(discriminate) ltac:(by apply (bool_decide_unpack (Forall entry_ok
      [(lit "/a", lit " Echo "); (lit "/b", lit "Missing"); (lit "/c", lit "Echo")])))))
    with (l1 := [(lit "/a", lit " Echo ")]) (e := (lit "/b", lit "Missing")) (l2 := [(lit "/c", lit "Echo")]).
  - reflexivity.
  - apply Forall_cons. split; [exists echo_call; vm_compute; reflexivity|apply Forall_nil; exact I].
  - intros [x Hx]. vm_compute in Hx. discriminate Hx.
Defined.

Definition echo_map : gmap bytes MethodDescriptor :=
  {[ lit "/echo" := mkMethod echo_svc (lit "Echo") (lit "demo.Echo") ]}.
Definition echo_request : HttpRequest :=
  set_uri_obj (mkURL [] [] 80 [] (lit "/echo") [] [] [] ∅) (SetContent (lit "ab") HttpRequest_new).
Definition lost_work : HttpSrvWork := mkWork 7 HttpRequest_new HttpResponse_new.

(** The 404 reply has 26 bytes; then the mapped request is answered with 404 too. *)
Lemma rpc_404_sticks_witness :
  exists h1 t1 w1, TinycoRpc_Serve echo_map lost_work (os [answer 26 0 []]) = Done (0, h1) t1 w1 /\
    status (hrsp_ h1) = 404 /\
    exists (ans : bytes -> HttpResponse), (forall x, status (ans x) = 404 /\ content (ans x) = x) /\
      forall w2, TinycoRpc_Serve echo_map (set_hreq echo_request h1) w2 =
        (let* x := io_ret (lit "ab" ++ lit "ab") in
         let* _ := Frame_send 7 (Response_Serialize (ans x)) 0 in
         io_ret (0, set_hrsp (ans x) (set_hreq echo_request h1))) w2.
Proof.
  assert (Hs : servable echo_map echo_request echo_svc echo_call (lit "ab")).
  { exists (mkMethod echo_svc (lit "Echo") (lit "demo.Echo")). repeat split; discriminate || reflexivity. }
  pose proof (rpc_404_sticks echo_map lost_work echo_request echo_svc echo_call (lit "ab") (os [answer 26 0 []])
    ltac:(reflexivity) Hs) as H.
  destruct (TinycoRpc_Serve echo_map lost_work (os [answer 26 0 []])) as [[v h1] t1 w1|t1] eqn:E;
    [|vm_compute in E; discriminate E].
  destruct H as (Hv & _ & Hst & ans & Hans & Heq). subst v. exists h1, t1, w1.
  split; [reflexivity|]. split; [exact Hst|]. exists ans. split; [exact Hans|exact Heq].
Defined.
