(* ===== verification/RpcExchange.v ===== *)
(** * A remote procedure call, end to end

    [Channel::CallMethod] of a client and [TinycoRpc] on an [HttpSrvWork] of a
    server at the two ends of a connection: [TinycoRpc::Serve] is a [Handler], and
    the client's calls before and after the exchange put nothing on the
    connection. *)

From S2P Require Import Prelude CStr World Network FrameIO FrameIOProps HttpMsg HttpTool HttpWire.
From S2P Require Import HttpStream TcpConn TcpConnProps HttpServer HttpServerProps HttpExchange Https Dns HttpOp HttpOpProps Rpc.

(** ** The server *)

Section server.
Context {PB : Protobuf} {HL : HttpLib} {IOrd : IterOrder}.
Abbreviation method_map := (gmap bytes MethodDescriptor).

(** The path is mapped and the method exists. *)
Definition mapped (m : method_map) (p : bytes) (service : Service) (method : Method) : Prop :=
  exists md, m !! p = Some md /\ md_service md = service /\ method_count service <> 0 /\
    FindMethodByName service (md_method md) = Some method.

(** What [TinycoRpc::Serve] may answer: 404, or what the method computed. *)
Inductive rpc_responds (m : method_map) (h : HttpSrvWork) : HttpResponse -> Prop :=
  | responds_404 :
      (forall service method, ~ mapped m (path (GetUriObj (hreq_ h))) service method) ->
      rpc_responds m h (replied (set_hrsp (SetStatus 404 (hrsp_ h)) h))
  | responds_result service method msg x w t w' :
      servable m (hreq_ h) service method msg -> CallMethod service method msg w = Done x t w' ->
      rpc_responds m h (replied (set_hrsp (Response_SetContent (MessageSerialize x) (hrsp_ h)) h)).

(** The methods of the services leave the connection [fd] alone. *)
Class QuietMethods (fd : Z) := {
  method_sane service method msg : sane (CallMethod service method msg);
  method_quiet service method msg w :
    Forall os_ok (trace_of (CallMethod service method msg w)) ->
    sent fd (trace_of (CallMethod service method msg w)) = [] /\
    received fd (trace_of (CallMethod service method msg w)) = []
}.

Lemma sends_one_reply (P : HttpResponse -> Prop) h w :
  P (replied h) -> blen (Response_Serialize (replied h)) < 2 ^ 31 -> Forall os_ok (trace_of (Reply h w)) ->
  received (sockfd_ h) (trace_of (Reply h w)) = [] /\ sends_one P (sent (sockfd_ h) (trace_of (Reply h w))).
Proof.
  intros HP Hl. rewrite trace_Reply. intros Hok. destruct (Frame_send_prefix _ _ _ _ Hl Hok) as [Hr Hs].
  split; [done|]. right. eauto.
Qed.

Lemma trace_ret_after {A B} (m : IO A) (g : A -> B) w :
  trace_of ((let* a := m in io_ret (g a)) w) = trace_of (m w).
Proof. rewrite io_bind_after. destruct (m w); simpl; by rewrite ?app_nil_r. Qed.

Lemma trace_reply404 h w : trace_of (reply404 h w) = trace_of (Reply (set_hrsp (SetStatus 404 (hrsp_ h)) h) w).
Proof. apply (trace_ret_after _ (fun r => (0, snd r))). Qed.

Lemma sane_reply404 h : sane (reply404 h).
Proof. unfold reply404. apply sane_bind; [apply sane_Reply|intros; apply sane_ret]. Qed.

Lemma reply_fd h w v h' t w' : Reply h w = Done (v, h') t w' -> sockfd_ h' = sockfd_ h.
Proof. apply (handler_fd (fd := 0) (Serve := Reply)). Qed.

(** How [TinycoRpc::Serve] goes on after the look-ups. *)
Lemma rpc_serve_cases m h :
  (forall service method, ~ mapped m (path (GetUriObj (hreq_ h))) service method) /\ TinycoRpc_Serve m h = reply404 h \/
  exists service method, mapped m (path (GetUriObj (hreq_ h))) service method /\
    TinycoRpc_Serve m h =
      match RequestParse service method (GetContent (hreq_ h)) with
      | None => io_ret (-1, h)
      | Some request =>
          let* x := CallMethod service method request in
          let* r := Reply (set_hrsp (Response_SetContent (MessageSerialize x) (hrsp_ h)) h) in
          io_ret (0, snd r)
      end.
Proof.
  unfold TinycoRpc_Serve, mapped. destruct (m !! path (GetUriObj (hreq_ h))) as [md|].
  2:{ left. split; [by intros ?? (? & ? & _)|done]. }
  destruct (Z.eqb_spec (method_count (md_service md)) 0) as [Hc|Hc].
  { left. split; [|done]. by intros ?? (md' & [= <-] & <- & ? & _). }
  destruct (FindMethodByName (md_service md) (md_method md)) as [method|] eqn:Hf.
  - right. exists (md_service md), method. split; [by exists md|done].
  - left. split; [|done]. intros ?? (md' & [= <-] & <- & _ & ?). congruence.
Qed.

Lemma rpc_handler m fd : QuietMethods fd -> Handler fd (TinycoRpc_Serve m) (rpc_responds m).
Proof.
  intros HQ. split.
  - intros h. destruct (rpc_serve_cases m h) as [[_ ->]|(service & method & _ & ->)]; [apply sane_reply404|].
    destruct (RequestParse _ _ _); [|apply sane_ret]. apply sane_bind; [apply method_sane|]. intros x.
    apply sane_bind; [apply sane_Reply|intros; apply sane_ret].
  - intros h w <- Hl. destruct (rpc_serve_cases m h) as [[Hm ->]|(service & method & Hm & ->)].
    + rewrite trace_reply404. intros Hok. pose proof (responds_404 m h Hm) as Hresp.
      exact (sends_one_reply (rpc_responds m h) _ w Hresp (Hl _ Hresp) Hok).
    + destruct (RequestParse service method (GetContent (hreq_ h))) as [msg|] eqn:Hp; [|by split; [|left]].
      rewrite io_bind_after. pose proof (method_quiet (fd := sockfd_ h) service method msg w) as Hq.
      destruct (CallMethod service method msg w) as [x t w'|t] eqn:Ec; simpl in Hq.
      2:{ simpl. intros Hok. destruct (Hq Hok) as [-> ->]. split; [done|by left]. }
      rewrite trace_after, (trace_ret_after _ (fun r => (0, snd r))), Forall_app. intros [Hok1 Hok2].
      destruct (Hq Hok1) as [Hs Hr]. rewrite sent_app, received_app, Hs, Hr.
      assert (Hresp : rpc_responds m h
        (replied (set_hrsp (Response_SetContent (MessageSerialize x) (hrsp_ h)) h))).
      { eapply responds_result; [|exact Ec]. destruct Hm as (md & H1 & H2 & H3 & H4). by exists md. }
      apply (sends_one_reply (rpc_responds m h)) in Hok2; [exact Hok2|exact Hresp|by apply Hl].
  - intros h w v h' t w' H. destruct (rpc_serve_cases m h) as [[_ E]|(service & method & _ & E)]; rewrite E in H.
    + unfold reply404 in H. io_inv. simplify_eq. destruct a as [v h2]. by apply reply_fd in H0.
    + destruct (RequestParse _ _ _); [|io_inv; by simplify_eq]. io_inv. simplify_eq.
      match goal with E : Reply _ _ = Done ?a _ _ |- _ => destruct a as [v h2]; by apply reply_fd in E end.
Qed.
End server.

(** ** The call *)

Section call.
Context {PB : Protobuf} {HL : HttpLib} {HP : HttpParserSpec HL} {HS : HttpStreamSpec HL} {IOrd : IterOrder}.
Context (strerror : Z -> bytes) (garbage : TcpConn) (m : gmap bytes MethodDescriptor).
Context (service : Service) (method : Method).

(** What the method may compute for a serialised request. *)
Definition computes (request : bytes) (x : Message) : Prop :=
  exists msg w t w', RequestParse service method request = Some msg /\
    CallMethod service method msg w = Done x t w'.

(** A response with a body and nothing else. *)
Lemma result_plain x :
  blen x < 2 ^ 28 ->
  plain_response (Response_SetContent x HttpResponse_new) /\
  blen (Response_Serialize (Response_SetContent x HttpResponse_new)) < 2 ^ 30 - 2 ^ 10.
Proof.
  intros Hx. pose proof (blen_nonneg x) as Hx0. split.
  - split; [done| |done]. cbn [rsp_headers Response_SetContent HttpResponse_new].
    apply map_Forall_insert_2; [right; by apply length_header_plain|]. by apply map_Forall_empty.
  - unfold Response_Serialize, Response_SerializeToString.
    cbn [snd status content rsp_headers Response_SetContent HttpResponse_new]. rewrite !blen_app.
    pose proof (write_headers_insert (lit "Content-Length") (to_string (blen x)) ∅) as H.
    pose proof (to_string_length (blen x) Hx0).
    rewrite (write_headers_perm (iter ∅) []) in H by (by rewrite iter_perm, map_to_list_empty).
    change (blen (write_headers [])) with 0 in H. change (blen (lit "Content-Length")) with 14 in H.
    change (blen (lit "HTTP/1.1 ")) with 9. change (blen (to_string 200)) with 3.
    change (blen (lit " ")) with 1. change (blen (reason 200)) with 2. change (blen crlf) with 2. lia.
Qed.

(** A new work object of the server answers with what the method computed. *)
Lemma rpc_answerable h rq :
  hrsp_ h = HttpResponse_new -> plain_request rq -> blen (Request_Serialize rq) < 2 ^ 30 ->
  (forall r, arrived rq r -> mapped m (path (GetUriObj r)) service method) ->
  (forall x, computes (GetContent rq) x -> blen (MessageSerialize x) < 2 ^ 28) ->
  answerable (rpc_responds m) h rq /\
  forall r rs, arrived rq r -> rpc_responds m (set_hreq r h) rs ->
    exists x, computes (GetContent rq) x /\ content rs = MessageSerialize x.
Proof.
  intros Hh Hrq Hl Hmap Hsz.
  assert (Hcase : forall r rs, arrived rq r -> rpc_responds m (set_hreq r h) rs ->
    exists x, computes (GetContent rq) x /\
      rs = replied (set_hrsp (Response_SetContent (MessageSerialize x) HttpResponse_new) (set_hreq r h))).
  { intros r rs Hr Hresp. destruct (Hmap r Hr) as (md & Hmd & Hsv & Hc & Hf).
    destruct Hresp as [Hn|sv mt msg x w t w' (md' & Hmd' & <- & _ & Hf' & Hp) Hcall].
    - destruct (Hn service method). by exists md.
    - cbn [hreq_ set_hreq hrsp_] in *. rewrite Hmd in Hmd'. injection Hmd' as <-.
      rewrite Hsv in *. rewrite Hf in Hf'. injection Hf' as <-.
      exists x. rewrite Hh. split; [|done]. exists msg, w, t, w'.
      by rewrite <- (proj1 (proj2 (proj2 Hr))). }
  split.
  - intros r Hr rs Hresp. destruct (Hcase r rs Hr Hresp) as (x & Hx & ->).
    destruct (result_plain _ (Hsz x Hx)) as [H1 H2].
    refine (answerable_replied (set_hrsp (Response_SetContent (MessageSerialize x) HttpResponse_new))
      h rq (Response_SetContent (MessageSerialize x) HttpResponse_new) Hrq Hl H1 H2 _ r Hr _ eq_refl). done.
  - intros r rs Hr Hresp. destruct (Hcase r rs Hr Hresp) as (x & Hx & ->). exists x. split; [done|].
    by rewrite (proj2 (replied_keeps _)).
Qed.

(** How a call ends. *)
Lemma channel_cases server cntl request response w v t w' :
  Channel_CallMethod strerror garbage server cntl request response w = Done v t w' ->
  v = Some (set_error_code (-1) cntl, response) \/
  exists ret out,
    __HttpSendAndReveive strerror garbage (af_inet_ip (ep_ip server)) (ep_port server)
      (Request_Serialize (SetContent request (hreq_header_ cntl))) [] w = Done (ret, out) t w' /\ 0 <= ret /\
    forall rs, ParseHttpResponse out (Some HttpResponse_new) = Some (0, Some rs) ->
      v = Some (cntl, snd (MessageParse response (content rs))).
Proof.
  unfold Channel_CallMethod, HttpOp_HttpRequest, __HttpRequest.
  change (negb (GetStatus HttpResponse_new =? 200)) with false. cbv iota zeta. intros H. io_inv.
  match goal with E : __HttpSendAndReveive _ _ _ _ _ _ _ = Done ?a _ _ |- _ => destruct a as [ret out] end.
  cbn [fst snd] in H. unfold parse_response in H.
  destruct (Z.ltb_spec ret 0) as [Hret|Hret].
  { rewrite (proj2 (Z.ltb_lt ret 0) Hret) in H. io_inv. by left. }
  destruct (ParseHttpResponse out (Some HttpResponse_new)) as [[res r]|] eqn:Ep; cbn [mbind option_bind] in H.
  - destruct (Z.ltb_spec res 0) as [Hres|Hres].
    { change (EC_RESPONSE_ERROR <? 0) with true in H. cbv iota in H. io_inv. by left. }
    rewrite (proj2 (Z.ltb_ge res 0) Hres) in H. destruct (MessageParse _ _) as [b x] eqn:Em. io_inv.
    right. exists ret, out. rewrite !app_nil_r. split_and!; [done|done|]. intros rs Hrs. rewrite Ep in Hrs.
    simplify_eq/=. unfold Response_GetContent in Em. by rewrite Em.
  - io_inv. right. exists ret, out. rewrite !app_nil_r. split_and!; [done|done|]. intros rs Hrs.
    by rewrite Ep in Hrs.
Qed.

(** How a call on a served connection ends. *)
Lemma call_returns h server cntl request response cfd addr wc ws :
  let rq := SetContent request (hreq_header_ cntl) in
  let client := Channel_CallMethod strerror garbage server cntl request response wc in
  let srv := trace_of (Run (TinycoRpc_Serve m) h ws) in
  plain_request rq -> blen (Request_Serialize rq) < 2 ^ 30 ->
  hreq_ h = HttpRequest_new -> hrsp_ h = HttpResponse_new ->
  (forall r, arrived rq r -> mapped m (path (GetUriObj r)) service method) ->
  (forall x, computes request x -> blen (MessageSerialize x) < 2 ^ 28) -> QuietMethods (sockfd_ h) ->
  tcp_run cfd (sockfd_ h) [] [] (trace_of client) srv ->
  (exists r, (c_connect cfd addr, r) ∈ trace_of client) ->
  Forall os_ok (trace_of client) -> Forall os_ok srv ->
  match client with
  | Done (Some (cntl', response')) _ _ =>
      cntl' = set_error_code (-1) cntl /\ response' = response \/
      cntl' = cntl /\ received (sockfd_ h) srv = Request_Serialize rq /\
      exists x, computes request x /\ response' = snd (MessageParse response (MessageSerialize x))
  | Done None _ _ => False
  | Blocked _ => True
  end.
Proof.
  intros rq client srv Hrq Hl Hh1 Hh2 Hmap Hsz HQ Htcp [rc Hconn] Hokc Hoks.
  destruct (rpc_answerable h rq Hh2 Hrq Hl Hmap Hsz) as [Hans Hresult].
  destruct (tcp_run_prefix _ _ _ _ _ _ Htcp) as [Hpre1 Hpre2]. rewrite !app_nil_l in *.
  pose proof (rpc_handler m (sockfd_ h) HQ) as HH.
  destruct client as [v t w'|t] eqn:E; [|done]. cbn [trace_of] in *. apply channel_cases in E as [->|E]; [by left|].
  destruct E as (ret & out & E & Hret & Hv). fold rq in E.
  apply op_exchange in E as [|(c & w1 & out' & c' & te & w2 & t1 & t3 & E & _ & -> & Hfd & -> & H1 & H3)]; [lia|].
  pose proof (exchange_no_connect strerror (Some (Request_Serialize rq)) (Some []) HttpCheckComplete c w1 Hfd) as H2.
  rewrite E in H2. cbn [trace_of] in H2.
  assert (cfd = fd_ c).
  { rewrite !elem_of_app in Hconn. rewrite !Forall_forall in *. destruct Hconn as [Hx|[Hx|Hx]];
      [exact (H1 _ Hx)|destruct (H2 _ Hx)|exact (H3 _ Hx)]. }
  subst cfd. destruct (connects_only_silent _ (fd_ c) _ H1), (connects_only_silent _ (fd_ c) _ H3).
  repeat rewrite sent_app in Hpre1. repeat rewrite received_app in Hpre2.
  rewrite H, H4, app_nil_l, app_nil_r in Hpre1. rewrite H0, H5, app_nil_l, app_nil_r in Hpre2.
  rewrite !Forall_app in Hokc. destruct Hokc as (_ & Hokc & _).
  pose proof (exchange_safe strerror _ _ h rq c [] w1 ws (HH := HH) Hrq Hl Hh1 Hans Hfd) as Hx.
  pose proof (exchange_facts strerror HttpCheckComplete (Request_Serialize rq) [] c w1 Hfd) as Hret0.
  rewrite E in Hx, Hret0. cbn [trace_of] in Hx. destruct (Hx Hpre1 Hpre2 Hokc Hoks) as [_ Hx']. clear Hx.
  assert (ret = 0).
  { pose proof (message_blen _ (plain_request_message rq Hrq)) as Hb.
    destruct Hret0 as (_ & [(? & _)|(? & _)]); [by intros Hn; rewrite Hn in Hb|lia|done|done|lia]. }
  subst ret. destruct (Hx' eq_refl) as (Hreq & r & rs & Hr & _ & Hresp & -> & Hparse).
  destruct (Hresult r rs Hr Hresp) as (x & Hx & Hcont). rewrite (Hv _ Hparse). right. split; [done|].
  split; [done|]. exists x. split; [done|]. simpl. by rewrite Hcont.
Qed.

(** A remote call returns what the method computes.  A client calls
    [Channel::CallMethod] on a server where a new work object of [TinycoRpc] serves
    the connection and the request's path is mapped to a method.  Whatever the
    kernels do and however the connection cuts the bytes, no exception leaves the
    call, and either the controller has the error code -1 and the response message is
    untouched, or the server received exactly the request, the method was run on
    the client's message as the server parsed it, and the response message is what
    [ParseFromString] makes of the serialised result of that run. *)
Theorem rpc_call h server cntl request response cfd addr wc ws :
  let rq := SetContent request (hreq_header_ cntl) in
  let client := Channel_CallMethod strerror garbage server cntl request response wc in
  let srv := trace_of (Run (TinycoRpc_Serve m) h ws) in
  plain_request rq -> blen (Request_Serialize rq) < 2 ^ 30 ->
  hreq_ h = HttpRequest_new -> hrsp_ h = HttpResponse_new ->
  (forall r, arrived rq r -> mapped m (path (GetUriObj r)) service method) ->
  (forall x, computes request x -> blen (MessageSerialize x) < 2 ^ 28) -> QuietMethods (sockfd_ h) ->
  tcp_run cfd (sockfd_ h) [] [] (trace_of client) srv ->
  (exists r, (c_connect cfd addr, r) ∈ trace_of client) ->
  Forall os_ok (trace_of client) -> Forall os_ok srv ->
  match client with
  | Done (Some (cntl', response')) _ _ =>
      cntl' = set_error_code (-1) cntl /\ response' = response \/
      cntl' = cntl /\ received (sockfd_ h) srv = Request_Serialize rq /\
      exists x, computes request x /\ response' = snd (MessageParse response (MessageSerialize x))
  | Done None _ _ => False
  | Blocked _ => True
  end.
Proof. exact (call_returns h server cntl request response cfd addr wc ws). Qed.
End call.

(** ** A witness *)

#[local] Existing Instance stream_lib.
#[local] Existing Instance echo_pb.

Definition call_cntl : Controller :=
  mkController 0 0 0 (SetUri (lit "/echo") (SetMethod HTTP_REQUEST_METHOD_POST HttpRequest_new)) HttpResponse_new.
Definition call_rq : HttpRequest := SetContent (lit "ab") (hreq_header_ call_cntl).
Definition call_rsp : bytes := Response_Serialize (Response_SetContent (lit "abab") HttpResponse_new).
Definition call_server : EndPoint := mkEndPoint (mkIP 16777343) 8080.
Definition call_garbage : TcpConn := mkTcpConn 0 0 0 0 0 0 [].

(** The socket is descriptor 9; the response comes in three pieces. *)
Definition call_wc : world := os (
  [answer 9 0 []; answer 2 0 []; answer 0 0 []; answer 0 0 []] ++
  [answer (blen (Request_Serialize call_rq)) 0 []] ++ pieces (cut3 call_rsp) ++ [answer 0 0 []]).
Definition call_ws : world := os (pieces (cut3 (Request_Serialize call_rq)) ++ [answer (blen call_rsp) 0 []]).
Definition call_client : outcome (option (Controller * bytes)) :=
  Channel_CallMethod (fun _ => []) call_garbage call_server call_cntl (lit "ab") [] call_wc.
Definition call_srv : outcome run_result := Run (TinycoRpc_Serve echo_map) demo_work call_ws.

Lemma call_rq_plain : plain_request call_rq.
Proof.
  split; [by right|done| |done|done].
  apply (map_Forall_check (fun x => x.2 = [] \/ plain_header x = true)). vm_compute. reflexivity.
Qed.

Lemma call_rq_mapped r : arrived call_rq r -> mapped echo_map (path (GetUriObj r)) echo_svc echo_call.
Proof.
  intros (_ & _ & _ & _ & res & Hurl).
  generalize dependent (GetUriObj r). intros u Hurl.
  assert (Hp : path u = lit "/echo") by (vm_compute in Hurl; injection Hurl as _ <-; reflexivity).
  rewrite Hp. exists (mkMethod echo_svc (lit "Echo") (lit "demo.Echo")). repeat split; discriminate || reflexivity.
Qed.

Lemma echo_quiet fd : QuietMethods fd.
Proof. split; intros; [apply sane_ret|done]. Qed.

Lemma rpc_call_witness :
  exists cntl t w, call_client = Done (Some (cntl, lit "abab")) t w /\
    received 7 (trace_of call_srv) = Request_Serialize call_rq.
Proof.
  assert (Htcp : tcp_run 9 7 [] [] (trace_of call_client) (trace_of call_srv)).
  { rewrite <- (take_drop 5 (trace_of call_client)). apply tcp_half_duplex.
    - vm_compute. reflexivity.
    - apply (bool_decide_unpack _). vm_compute. exact I.
    - apply (bool_decide_unpack _). vm_compute. exact I. }
  assert (Hc : Forall os_ok (trace_of call_client)) by os_tac call_client.
  assert (Hs : Forall os_ok (trace_of call_srv)) by os_tac call_srv.
  assert (Hin : exists r, (c_connect 9 (mkSockaddr 16777343 36895), r) ∈ trace_of call_client).
  { exists (answer 0 0 []). let t := eval vm_compute in (trace_of call_client) in change (trace_of call_client) with t.
    do 3 right. left. }
  assert (Hl : blen (Request_Serialize call_rq) < 2 ^ 30) by (vm_compute; reflexivity).
  assert (Hsz : forall x, computes echo_svc echo_call (lit "ab") x -> blen (MessageSerialize x) < 2 ^ 28).
  { intros x (msg & w & t & w' & [= <-] & [= <- _ _]). vm_compute. reflexivity. }
  pose proof (rpc_call (fun _ => []) call_garbage echo_map echo_svc echo_call demo_work call_server call_cntl (lit "ab") []
    9 (mkSockaddr 16777343 36895) call_wc call_ws call_rq_plain Hl eq_refl eq_refl call_rq_mapped Hsz (echo_quiet 7)
    Htcp Hin Hc Hs) as H.
  fold call_client in H. fold call_srv in H. clear Htcp Hc Hs.
  assert (Hv : match call_client with Done (Some (c, x)) _ _ => x <> [] | _ => False end) by (vm_compute; discriminate).
  destruct call_client as [[[cntl x]|] t w|]; [|destruct Hv..].
  destruct H as [[_ Hx]|(_ & Hrec & y & (msg & w1 & t1 & w2 & [= <-] & [= <- _ _]) & Hx)]; [destruct (Hv Hx)|].
  exists cntl, t, w. subst x. split; [reflexivity|exact Hrec].
Defined.
