(* ===== verification/Defer.v ===== *)
(** * The scope guard: util/defer.h

    A guard holds a closure; its destructor calls it.  C++ destroys the guards of a
    scope in the reverse order of their construction, however the scope is left:
    by its end, by a [return] or by an exception. *)

From S2P Require Import Prelude.

Section guard.
(** What the closures change. *)
Context {St : Type}.

(** The member [t]. *)
Record defer := mkDefer { t : St -> St }.

Definition defer_new (t : St -> St) : defer := mkDefer t.
Definition defer_delete (d : defer) (s : St) : St := t d s.

(** How a scope is left, with what it returns or throws. *)
Inductive scope_end (A E : Type) :=
  | Returns (a : A)
  | Throws (e : E).

(** A scope: the guards that were constructed when it is left, the last one first,
    and its end. *)
Definition leave_scope {A E} (guards : list defer) (end_ : scope_end A E) (s : St) : scope_end A E * St :=
  (end_, foldl (fun s d => defer_delete d s) s guards).

(** A body that runs under one more guard. *)
Definition guarded {A E} (f : St -> St) (body : St -> scope_end A E * St) (s : St) : scope_end A E * St :=
  let '(end_, s) := body s in leave_scope [defer_new f] end_ s.

(** The closure runs exactly once, after the body, whether the body returns or
    throws, and the end of the scope is that of the body; nested guards run from
    the inside out. *)
Theorem guarded_runs_closure {A E} f g (body : St -> scope_end A E * St) s :
  guarded f body s = ((body s).1, f (body s).2) /\
  guarded f (guarded g body) s = ((body s).1, f (g (body s).2)).
Proof. unfold guarded, leave_scope. by destruct (body s). Qed.

End guard.
