(* ===== verification/Examples.v ===== *)
(** * The example programs: example/

    Each example is a work object with its [Run] or [Serve], a builder of work
    objects and a [main].  What the coroutines of a program do to the scheduler
    while [main] waits is a parameter of its model, like the answers of the system
    calls.  Lines written to the log are left out. *)

From S2P Require Import Prelude Heap Thread Frame Sched CStr World Network FrameIO.
From S2P Require Import HttpMsg HttpTool TcpConn HttpServer Listener Server ServerImpl SimpleServer Log SetProcTitle ServerInit.
From S2P Require Import Dns Https HttpOp Rpc.

(** ** Programs *)

Inductive main_end :=
  | M_ret (code : Z)
  | M_exit (code : Z)
  | M_abort                (* a failed [assert] *)
  | M_double_delete
  | M_crash.

(** The [main] of a client: [assert(Frame::Init())], a coroutine for the work, wait
    until it is dead, [Frame::Fini()].  [others] is what the coroutines make of the
    scheduler meanwhile. *)
Definition client_main (others : frame -> frame) (work : Work) (x : frame) : IO main_end :=
  match Frame_Init x with
  | None => io_ret M_crash
  | Some (false, _) => io_ret M_abort
  | Some (true, x) =>
      match CreateThread work x with
      | None => io_ret M_crash
      | Some (_, x) =>
          let* _ := wait_dead in
          match Frame_Fini (others x) with
          | None => io_ret M_crash
          | Some _ => io_ret (M_ret 0)
          end
      end
  end.

(** The [main] of a simple server: the result of [TcpSrv] or [UdpSrv] is dropped. *)
Definition simple_main (srv : frame -> IO simple_end) (x : frame) : IO main_end :=
  let* r := srv x in
  io_ret (match r with
          | S_ret _ => M_ret 0
          | S_double_delete => M_double_delete
          | S_crash => M_crash
          end).

(** The [main] of a server: [Initialize], [install] what it offers, [Run], whose
    result is dropped. *)
Definition server_main (Initialize : srv_process -> IO init_result) (install : bool) (p : srv_process) :
    IO main_end :=
  let* r := Initialize p in
  match r with
  | Init_exit code => io_ret (M_exit code)
  | Init_crash => io_ret M_crash
  | Init_ret ret p =>
      if ret <? 0 then io_ret (M_ret (-1))
      else if negb install then io_ret (M_ret (-1))
      else
        let* e := ServerImpl_Run (srv p) in
        io_ret (match e with Ret _ => M_ret 0 | NullDeref => M_crash end)
  end.

(** [inet_pton(AF_INET, "127.0.0.1")] *)
Definition loopback : Z := 16777343.

(** ** http_server *)

Section http_server.
Context {HL : HttpLib} {IOrd : IterOrder}.

(** [TestWork::Serve] *)
Definition TestWork_Serve (h : HttpSrvWork) : IO (Z * HttpSrvWork) :=
  let h := set_hrsp (SetStatus 200 (hrsp_ h)) h in
  let h := set_hrsp (Response_SetContent (lit "hello world!") (hrsp_ h)) h in
  let* r := Reply h in
  io_ret (0, snd r).

End http_server.

Definition http_server_stream : builder := fun _ => true.
Definition http_server_udp : builder := fun _ => false.

Definition http_server_main (garbage : Listener) (work : Work) : frame -> IO main_end :=
  simple_main (TcpSrv garbage work (mkIP 0) 8080).

(** ** udp_server *)

(** [TestWork::Run]: [req_] is [r]. *)
Definition UdpEcho_Run (r : UdpReqInfo) : IO Z :=
  let* _ := sys (c_sleep 10000) in
  let* _ := UdpReqWork_Reply r (reqpkg r) in
  io_ret 0.

Definition udp_server_udp : builder := fun _ => true.
Definition udp_server_stream : builder := fun _ => false.

Definition udp_server_main (garbage : Listener) (work : Work) : frame -> IO main_end :=
  simple_main (UdpSrv garbage work (mkIP 0) 32000).

(** ** udp_client *)

(** [TestWork::Run]: the result and [recvbuf], which is logged. *)
Definition UdpClient_Run : IO (Z * bytes) :=
  let addr := mkSockaddr loopback (htons 32000) in
  let sendbuf := lit "hello" in
  let* _ := sys (c_sleep 1000) in
  let* _ := sys (c_sleep 2000) in
  let* r := UdpSendAndRecv sendbuf addr [] in
  let '(ret, recvbuf) := r in
  if ret <? 0 then io_ret (-1, recvbuf) else io_ret (0, recvbuf).

Definition udp_client_main (others : frame -> frame) (work : Work) : frame -> IO main_end :=
  client_main others work.

(** ** dns *)

Section dns.
Context {A : Ares}.
(** For each call: what other coroutines do to the cache, and the two times. *)
Context (others : nat -> gmap bytes ResCache -> gmap bytes ResCache) (tv1 tv2 : nat -> timeval).

Definition dns_domains : list bytes :=
  [lit "www.baidu.com"; lit "www.qq.com"; lit "www.taobao.com"; lit "daoluan.net"].

(** The loop: [i] counts the calls, [ip] is the variable that every call gets; the
    answers are logged. *)
Fixpoint resolve_all (domains : list bytes) (i : nat) (ip : Z) (r : Resolver) :
    IO (list (bool * Z) * Z * Resolver) :=
  match domains with
  | [] => io_ret ([], ip, r)
  | d :: domains =>
      let* v := Resolve (others i) (tv1 i) (tv2 i) d ip r in
      let '(bret, ip, r) := v in
      let* v := resolve_all domains (S i) ip r in
      let '(l, last_ip, r) := v in
      io_ret ((bret, ip) :: l, last_ip, r)
  end.

Definition DnsTest_Run (r : Resolver) : IO (Z * list (bool * Z) * Resolver) :=
  let* v := resolve_all dns_domains 0 0 r in
  let '(l1, ip, r) := v in
  let* v := resolve_all dns_domains (length dns_domains) ip r in
  let '(l2, _, r) := v in
  io_ret (0, l1 ++ l2, r).

End dns.

(** ** http_client *)

Section http_client.
Context {HL : HttpLib} {IOrd : IterOrder} {A : Ares} (strerror : Z -> bytes).
(** The uninitialised members and the uninitialised [ip]. *)
Context (garbage : TcpConn) (bud : Z * Z * Z) (ip0 : Z).
(** The two resolutions: what other coroutines do to the cache, and the times. *)
Context (others1 others2 : gmap bytes ResCache -> gmap bytes ResCache) (tv1 tv2 tv3 tv4 : timeval).

(** The request that is sent twice. *)
Definition baidu_request : HttpRequest :=
  SetHeader (lit "Host") (lit "baidu.com") (SetUri (lit "/") (SetMethod HTTP_REQUEST_METHOD_GET HttpRequest_new)).

(** [return 0] where only [hc] has been built. *)
Definition end_http (hc : HttpClient) : IO (option Z) :=
  let* _ := HttpClient_delete (snd (HttpClient_GetErrorMsg hc)) in io_ret (Some 0).

(** [return 0] where [hsc] has been built too. *)
Definition end_https (hsc : HttpsClient) (hc : HttpClient) : IO (option Z) :=
  let* _ := HttpsClient_delete hsc in
  let* _ := HttpClient_delete hc in io_ret (Some 0).

(** From "test https..." on; [r] is the resolver's state, [ctx] the static TLS
    context. *)
Definition test_https (ip : Z) (req : bytes) (rsp : option bytes) (hc : HttpClient) (r : Resolver) (ctx : bool) :
    IO (option Z * Resolver * bool) :=
  let* v := Https_Init ip 443 kMsBIOConnectTimeout kMsBIOReadTimeout kMsBIOWriteTimeout (HttpsClient_new bud ctx) in
  let '(ret, hsc) := v in
  if ret <? 0 then let* e := end_https (snd (Https_GetErrorMsg hsc)) hc in io_ret (e, r, ctx_ hsc)
  else
    let* v := Https_SendAndReceive strerror (Some req) rsp hsc in
    let '(ret, _, hsc) := v in
    if ret <? 0 then let* e := end_https (snd (Https_GetErrorMsg hsc)) hc in io_ret (e, r, ctx_ hsc)
    else
      let* v := HttpGet_dns strerror garbage bud others2 tv3 tv4 (lit "https://www.baidu.com") [] r
                  HttpResponse_new (ctx_ hsc) in
      let '(res, r, ctx) := v in
      match res with
      | None => io_ret (None, r, ctx)
      | Some _ => let* e := end_https hsc hc in io_ret (e, r, ctx)
      end.

(** [TestWork::Run]; [None] is an exception that nobody catches. *)
Definition HttpClientTest_Run (r : Resolver) (ctx : bool) : IO (option Z * Resolver * bool) :=
  let* v := Resolve others1 tv1 tv2 (lit "baidu.com") ip0 r in
  let '(bret, ip, r) := v in
  if negb bret then io_ret (Some 0, r, ctx)
  else
    let* v := HttpClient_Init strerror ip 80 (HttpClient_new garbage) in
    let '(ret, hc) := v in
    if ret <? 0 then let* e := end_http hc in io_ret (e, r, ctx)
    else
      let req := snd (Request_SerializeToString baidu_request []) in
      let* v := HttpClient_SendAndReceive strerror (Some req) (Some []) hc in
      let '(ret, rsp, hc) := v in
      if ret <? 0 then let* e := end_http hc in io_ret (e, r, ctx)
      else test_https ip req rsp hc r ctx.

End http_client.

Definition http_client_main (others : frame -> frame) (work : Work) : frame -> IO main_end :=
  client_main others work.

(** ** server *)

(** [MyHttpReqWork::Serve] is that of the HTTP example. *)
Definition MyHttpReqWork_Serve {HL : HttpLib} {IOrd : IterOrder} (h : HttpSrvWork) : IO (Z * HttpSrvWork) :=
  TestWork_Serve h.

(** [MyServer::BuildStreamBusinessWork] and [BuildUdpBusinessWork]. *)
Definition MyServer_stream : builder := fun port => 8080 =? port.
Definition MyServer_udp : builder := fun port => 123456 =? port.

(** [MyUdpReqWork::Run], which falls off its end: it returns no value. *)
Definition MyUdpReqWork_Run (r : UdpReqInfo) : IO unit :=
  let* _ := sys (c_sleep 10000) in
  let* _ := UdpReqWork_Reply r (reqpkg r) in
  io_ret tt.

Definition example_server_main (Initialize : srv_process -> IO init_result) : srv_process -> IO main_end :=
  server_main Initialize true.

(** ** rpc *)

(** The classes that protoc generates for service.proto: both messages have the one
    field "content". *)
Class Messages := {
  Msg : Type;
  msg_new : Msg;
  msg_content : Msg -> bytes;
  set_content : bytes -> Msg -> Msg;
  msg_serialize : Msg -> bytes;
  msg_parse : Msg -> bytes -> bool * Msg
}.

Section rpc_example.
Context {M : Messages}.

(** [HttpServiceImpl::Foo] *)
Definition Foo (request response : Msg) : IO Msg := io_ret (set_content (lit "world") response).

(** [service Service { rpc Foo(MyRequest) returns(MyResponse); }] *)
#[export] Instance example_pb : Protobuf := {|
  Service := unit;
  Method := unit;
  Message := Msg;
  method_count _ := 1;
  FindMethodByName _ n := if decide (n = lit "Foo") then Some tt else None;
  full_name _ := lit "Service.Foo";
  RequestParse _ _ b := let '(ok, m) := msg_parse msg_new b in if ok : bool then Some m else None;
  CallMethod _ _ m := Foo m msg_new;
  MessageSerialize := msg_serialize;
  MessageParse := msg_parse
|}.

Definition example_service : Service := tt.
Definition example_method : Method := tt.

Definition example_mappings : bytes :=
  lit "/v1/queue/start  > Foo,/v1/queue/stop   > Foo,/v1/queue/stats/ > Foo".

(** The builder of example/rpc/server.cc: the work objects are those of
    [TinycoRpc] with the table of the server. *)
Definition rpc_server_stream : builder := fun port => 8080 =? port.
Definition rpc_server_udp : builder := fun _ => false.

Definition rpc_server_main (Initialize : srv_process -> IO init_result) (m : gmap bytes MethodDescriptor) :
    srv_process -> IO main_end :=
  server_main Initialize (fst (AddRpcService example_service example_mappings m)).

(** [TestWork::Run] of example/rpc/client.cc: the controller and the response after
    the call; [None] is an exception. *)
Context {HL : HttpLib} {IOrd : IterOrder} (strerror : Z -> bytes) (garbage : TcpConn) (g1 g2 : Z).

Definition rpc_client_cntl : Controller :=
  let ctrl := set_recv_timoeut 2000 (set_connect_timoeut 1000 (Controller_new g1 g2)) in
  set_hreq_header (SetUri (lit "/v1/queue/stop") (http_requeset_header ctrl)) ctrl.

Definition RpcClient_Run : IO (option (Z * (Controller * Msg))) :=
  let request := set_content (lit "hello") msg_new in
  let channel := InitServer (mkEndPoint (mkIP loopback) 8080) (mkChannel EndPoint_default) in
  let* r := Channel_CallMethod strerror garbage (server_ channel) rpc_client_cntl
              (msg_serialize request) msg_new in
  io_ret (match r with None => None | Some v => Some (0, v) end).

End rpc_example.

(** Its [main] up to [Frame::Schedule]: what follows runs only if the coroutine of
    [main] executes again. *)
Definition rpc_client_main (work : Work) (x : frame) : option Sched.config :=
  '(ok, x) ← Frame_Init x;
  if ok : bool then '(_, x) ← CreateThread work x; '(x, k) ← Frame_Schedule x; Some (mkConfig x k) else None.
