(* ===== verification/ExampleProps.v ===== *)
(** * Properties of the example programs

    The resolver's test uses the cache, the two datagram programs echo, the HTTP
    server says hello, the RPC client gets what the RPC server's method returns;
    the server example's builder for datagrams never builds, and the RPC client's
    main program is never continued. *)

From S2P Require Import Prelude Heap Thread Frame FrameFacts Sched SchedProps SchedSpec CStr World Network FrameIO FrameIOProps Mutex.
From S2P Require Import HttpMsg HttpTool HttpWire TcpConn TcpConnProps HttpServer HttpServerProps HttpStream HttpExchange.
From S2P Require Import Listener Server ServerProps ServerImpl SimpleServer Log SetProcTitle ServerInit Dns Https HttpOp Rpc RpcExchange UdpExchange Examples.

(** ** The resolver's test uses the cache *)

Section dns_facts.
Context {A : Ares}.
Context (others : nat -> gmap bytes ResCache -> gmap bytes ResCache) (tv1 tv2 : nat -> timeval).
Abbreviation all_of := (resolve_all others tv1 tv2).

(** The entry answers all the checks of the second loop. *)
Definition lives (c : ResCache) : Prop := forall j, mstime (tv1 (4 + j)) / 1000 < rc_timeout c.

(** Other coroutines leave the entries of these domains alone, and the second loop
    runs within five minutes of the first. *)
Hypothesis Hothers : forall i m d, d ∈ dns_domains -> others i m !! d = m !! d.
Hypothesis Htimes : forall i j, mstime (tv1 (4 + j)) / 1000 < u32 (mstime (tv2 i) / 1000 + 300).

Definition all_live (r : Resolver) : Prop :=
  forall d c, d ∈ dns_domains -> res_cache_ r !! d = Some c -> lives c.

(** A successful resolution keeps the entries of the other domains and leaves one
    for its own. *)
Lemma Resolve_live i d ip r w ip' r' t w' :
  d ∈ dns_domains -> all_live r -> Resolve (others i) (tv1 i) (tv2 i) d ip r w = Done (true, ip', r') t w' ->
  ares_channel_init r' = true /\ all_live r' /\
  forall e, e ∈ dns_domains -> e = d \/ is_Some (res_cache_ r !! e) -> is_Some (res_cache_ r' !! e).
Proof using Hothers Htimes.
  intros Hd Hr H. apply Resolve_true in H as (Hinit & c' & Hc' & Hcase). split; [done|].
  assert (Hlive : lives c').
  { destruct Hcase as [(_ & (c & Hc & E) & _)|[E _]]; intros j; rewrite E; [exact (Hr d c Hd Hc j)|apply Htimes]. }
  assert (Hother : forall e, e ∈ dns_domains -> e <> d -> res_cache_ r' !! e = res_cache_ r !! e).
  { intros e He Hne. destruct Hcase as [(_ & _ & _ & Heq)|[_ Heq]]; rewrite Heq by done; [done|by apply Hothers]. }
  split.
  - intros e c He Hec. destruct (decide (e = d)) as [->|Hne]; [by simplify_eq|].
    rewrite Hother in Hec by done. exact (Hr e c He Hec).
  - intros e He Hcase'. destruct (decide (e = d)) as [->|Hne]; [by eexists|]. rewrite Hother by done.
    by destruct Hcase'.
Qed.

(** A loop whose resolutions all succeed. *)
Lemma all_resolved ds i ip r w l ip' r' t w' :
  ds ⊆ dns_domains -> all_live r -> all_of ds i ip r w = Done (l, ip', r') t w' ->
  Forall (fun a => a.1 = true) l ->
  all_live r' /\ (ds <> [] -> ares_channel_init r' = true) /\
  forall e, e ∈ dns_domains -> e ∈ ds \/ is_Some (res_cache_ r !! e) -> is_Some (res_cache_ r' !! e).
Proof using Hothers Htimes.
  revert i ip r w l t. induction ds as [|d ds IH]; intros i ip r w l t Hsub Hr H Hl; cbn [resolve_all] in H.
  { io_inv. simplify_eq. split_and!; [done|done|]. intros e _ [[]%elem_of_nil|?]; done. }
  io_inv. destruct a as [[bret ip1] r1]. io_inv. destruct a as [[l1 ip2] r2]. io_inv. simplify_eq.
  apply Forall_cons in Hl as [Hb Hl]. simpl in Hb. subst bret.
  assert (Hd : d ∈ dns_domains) by (apply Hsub; left).
  match goal with E : Resolve _ _ _ _ _ _ _ = _ |- _ => destruct (Resolve_live _ _ _ _ _ _ _ _ _ Hd Hr E) as (Hi & Hr1 & Hk) end.
  match goal with E : all_of _ _ _ _ _ = _ |- _ =>
    destruct (IH _ _ _ _ _ _ ltac:(intros x Hx; apply Hsub; by right) Hr1 E Hl) as (Hr2 & Hi2 & Hk2);
    destruct ds as [|d2 ds]; [cbn [resolve_all] in E; io_inv; simplify_eq|] end.
  - split_and!; [done|done|]. intros e He [[->|[]%elem_of_nil]%elem_of_cons|?]; apply Hk; auto.
  - split_and!; [done|intros _; by apply Hi2|]. intros e He [[->|?]%elem_of_cons|?]; apply Hk2; auto.
Qed.

(** The second loop. *)
Lemma all_cached ds i ip r w :
  ds ⊆ dns_domains -> ares_channel_init r = true -> all_live r ->
  (forall d, d ∈ ds -> is_Some (res_cache_ r !! d)) ->
  exists l ip' r', all_of ds (4 + i) ip r w = Done (l, ip', r') [] w /\
    length l = length ds /\ Forall (fun a => a.1 = true) l.
Proof using Hothers Htimes.
  revert i ip r. induction ds as [|d ds IH]; intros i ip r Hsub Hi Hr Hall.
  { by exists [], ip, r. }
  destruct (Hall d) as [c Hc]; [left|]. assert (Hd : d ∈ dns_domains) by (apply Hsub; left).
  pose proof (Resolve_cached (others (4 + i)) (tv1 (4 + i)) (tv2 (4 + i)) d ip r c w Hi Hc (Hr d c Hd Hc i)) as E.
  destruct (Resolve_live _ _ _ _ _ _ _ _ _ Hd Hr E) as (Hi1 & Hr1 & Hk).
  destruct (IH (S i) (fst (PickOne c)) _ ltac:(intros x Hx; apply Hsub; by right) Hi1 Hr1) as (l & ip' & r' & El & Hlen & Hl).
  { intros e He. apply Hk; [apply Hsub; by right|right; apply Hall; by right]. }
  exists ((true, fst (PickOne c)) :: l), ip', r'. cbn [resolve_all]. rewrite io_bind_after, E.
  rewrite io_bind_after. rewrite <- plus_n_Sm in El. rewrite El. simpl. rewrite Hlen. split_and!; [done|done|by constructor].
Qed.

(** The test of the resolver does what its log says: when every domain could be
    resolved, the second loop ("use dns cache") answers all of them again without a
    single call. *)
Theorem dns_test_uses_cache r w :
  res_cache_ r = ∅ ->
  match all_of dns_domains 0 0 r w with
  | Done (l1, _, _) t w1 =>
      Forall (fun a => a.1 = true) l1 ->
      exists l2 r2, DnsTest_Run others tv1 tv2 r w = Done (0, l1 ++ l2, r2) t w1 /\
        length l2 = 4%nat /\ Forall (fun a => a.1 = true) l2
  | Blocked _ => True
  end.
Proof using Hothers Htimes.
  intros Hr. destruct (all_of dns_domains 0 0 r w) as [[[l1 ip1] r1] t w1|t] eqn:E; [|done]. intros Hl.
  assert (Hr0 : all_live r) by (intros d c _ Hd; by rewrite Hr, lookup_empty in Hd).
  destruct (all_resolved _ _ _ _ _ _ _ _ _ _ (reflexivity dns_domains) Hr0 E Hl) as (Hr1 & Hi & Hk).
  destruct (all_cached dns_domains 0 ip1 r1 w1 (reflexivity dns_domains) (Hi ltac:(done)) Hr1) as (l2 & ip2 & r2 & E2 & Hlen & Hl2).
  { intros d Hd. apply Hk; auto. }
  exists l2, r2. split; [|done]. unfold DnsTest_Run. rewrite io_bind_after, E.
  change (length dns_domains) with (4 + 0)%nat. rewrite io_bind_after, E2. simpl. by rewrite app_nil_r.
Qed.

End dns_facts.

(** ** The datagram examples *)

(** The echo work sends nothing but its request back, to the sender. *)
Lemma echo_sends r w d :
  d ∈ sent_datagrams (trace_of (UdpEcho_Run r w)) -> d = (reqpkg r, srcaddr r).
Proof.
  apply sends_only_datagrams.
  enough (Hc : calls (sends_only (reqpkg r, srcaddr r)) (UdpEcho_Run r)).
  { specialize (Hc w). by destruct (UdpEcho_Run r w). }
  unfold UdpEcho_Run, UdpReqWork_Reply, Frame_sendto. calls_tac.
Qed.

(** The client sends "hello" and nothing else; what it logs is a datagram it got. *)
Lemma client_run_facts w :
  let o := UdpClient_Run w in
  (forall d, d ∈ sent_datagrams (trace_of o) -> d.1 = lit "hello") /\
  match o with
  | Done (ret, recvbuf) t _ =>
      Forall os_ok t ->
      ret = -1 /\ recvbuf = [] \/
      ret = 0 /\ (recvbuf = [] \/ exists addr, (recvbuf, addr) ∈ datagrams t)
  | Blocked _ => True
  end.
Proof.
  cbv zeta. set (dest := mkSockaddr loopback (htons 32000)).
  assert (Hfirst : forall u, Forall (fun e => exists ms, e.1 = c_sleep ms) u -> sent_datagrams u = [] /\ datagrams u = []).
  { intros u Hu. split; [apply sent_datagrams_none|apply datagrams_none];
      (eapply Forall_impl; [exact Hu|]); intros [c r] [ms Hms]; simpl in Hms; by subst c. }
  unfold UdpClient_Run. fold dest. rewrite io_bind_after.
  destruct (sys (c_sleep 1000) w) as [a t1 w1|t1] eqn:H1.
  2:{ apply sys_blocked in H1 as [-> _]. split; [by intros d []%elem_of_nil|done]. }
  apply sys_inv in H1 as (-> & _ & _). rewrite io_bind_after.
  destruct (sys (c_sleep 2000) w1) as [b t2 w2|t2] eqn:H2.
  2:{ apply sys_blocked in H2 as [-> _]. split; [by intros d []%elem_of_nil|done]. }
  apply sys_inv in H2 as (-> & _ & _). rewrite io_bind_after.
  destruct (udp_client_facts (lit "hello") dest [] w2) as [Hs Hf].
  assert (Hsent : forall d, d ∈ sent_datagrams (trace_of (UdpSendAndRecv (lit "hello") dest [] w2)) -> d.1 = lit "hello").
  { intros d Hd. by rewrite (sends_only_datagrams _ _ Hs d Hd). }
  destruct (UdpSendAndRecv (lit "hello") dest [] w2) as [[ret out] t w3|t]; [|exact (conj Hsent I)].
  destruct (Z.ltb_spec ret 0); cbn [after io_ret trace_of]; rewrite app_nil_r;
    (split; [exact Hsent|]); intros Hok; do 2 apply Forall_cons in Hok as [_ Hok];
    (destruct (Hf Hok) as [[? ->]|[-> Ho]]; [|try lia]); [by left|lia|by right].
Qed.

(** C24: The two datagram examples work together: a client of example/udp_client and a
    server of example/udp_server over a network that may lose, delay, duplicate and
    reorder datagrams but does not make them up: what the server gets from the
    client's address was sent by the client, and what the client gets was sent to it
    by one of the server's work objects.  Then the client ends with -1 and
    nothing, or with 0, and what it logs is nothing or "hello", its own datagram,
    which the server received and handed to a work object. *)
Theorem udp_echo l caddr ws wc :
  let server := trace_of (RunUdpSrv l (Some udp_server_udp) ws) in
  let client := UdpClient_Run wc in
  (forall b, (b, caddr) ∈ datagrams server -> exists dst, (b, dst) ∈ sent_datagrams (trace_of client)) ->
  (forall b src, (b, src) ∈ datagrams (trace_of client) ->
     exists q wq, q ∈ works server /\ (b, caddr) ∈ sent_datagrams (trace_of (UdpEcho_Run q wq))) ->
  Forall os_ok server -> Forall os_ok (trace_of client) ->
  match client with
  | Done (ret, recvbuf) _ _ =>
      ret = -1 /\ recvbuf = [] \/
      ret = 0 /\ (recvbuf = [] \/ recvbuf = lit "hello" /\
        request_of l (lit "hello", caddr) ∈ works server /\ (lit "hello", caddr) ∈ datagrams server)
  | Blocked _ => True
  end.
Proof.
  intros server client Hin Hout Hoks Hokc. destruct (client_run_facts wc) as [Hsent Hf].
  fold client in Hsent, Hf. destruct client as [[ret recvbuf] t w'|t]; [|done].
  destruct (Hf Hokc) as [?|[-> [->|[src Hsrc]]]]; [auto|auto|]. right. split; [done|]. right.
  destruct (Hout _ _ Hsrc) as (q & wq & Hq & Hb). apply echo_sends in Hb.
  destruct (RunUdpSrv_handover l udp_server_udp eq_refl ws Hoks) as [Hpre _]. fold server in Hpre.
  pose proof Hq as Hq'. apply (elem_of_prefix _ _ _ Hq') in Hpre.
  apply list_elem_of_fmap in Hpre as ([b a] & -> & Hd). unfold request_of in Hb. simpl in Hb. simplify_eq.
  destruct (Hin _ Hd) as [dst Hdst]. pose proof (Hsent _ Hdst) as Hhello. simpl in Hhello. by subst b.
Qed.

(** *** A witness *)

Definition echo_caddr : sockaddr := mkSockaddr loopback 40000.
Definition echo_ws : world :=
  os [answer 0 0 []; mkResp 5 0 (lit "hello") echo_caddr; answer 0 0 []; answer 0 0 []].
Definition echo_wc : world :=
  os [answer 0 0 []; answer 0 0 []; answer 9 0 []; answer 2 0 []; answer 0 0 []; answer 5 0 [];
      mkResp 5 0 (lit "hello") (mkSockaddr loopback (htons 32000))].
Definition echo_wq : world := os [answer 0 0 []; answer 5 0 []].
Definition echo_server : outcome srv_result := RunUdpSrv demo_listener (Some udp_server_udp) echo_ws.
Definition echo_client : outcome (Z * bytes) := UdpClient_Run echo_wc.

Lemma echo_traces :
  datagrams (trace_of echo_server) = [(lit "hello", echo_caddr)] /\
  works (trace_of echo_server) = [request_of demo_listener (lit "hello", echo_caddr)] /\
  datagrams (trace_of echo_client) = [(lit "hello", mkSockaddr loopback (htons 32000))] /\
  sent_datagrams (trace_of echo_client) = [(lit "hello", mkSockaddr loopback (htons 32000))] /\
  sent_datagrams (trace_of (UdpEcho_Run (request_of demo_listener (lit "hello", echo_caddr)) echo_wq)) =
    [(lit "hello", echo_caddr)].
Proof. vm_compute. repeat split. Qed.

Lemma udp_echo_witness :
  exists t w, echo_client = Done (0, lit "hello") t w /\
    request_of demo_listener (lit "hello", echo_caddr) ∈ works (trace_of echo_server).
Proof.
  destruct echo_traces as (Hd & Hw & Hc & Hs & Hq).
  pose proof (udp_echo demo_listener echo_caddr echo_ws echo_wc) as H. cbv zeta in H.
  fold echo_server in H. fold echo_client in H. rewrite Hd, Hw, Hc, Hs in H.
  assert (Hoks : Forall os_ok (trace_of echo_server)) by os_tac echo_server.
  assert (Hokc : Forall os_ok (trace_of echo_client)) by os_tac echo_client.
  specialize (H ltac:(intros b Hb; apply list_elem_of_singleton in Hb; injection Hb as ->; eexists; left)).
  specialize (H ltac:(intros b src Hb; apply list_elem_of_singleton in Hb; injection Hb as -> _;
    exists (request_of demo_listener (lit "hello", echo_caddr)), echo_wq; rewrite Hq; split; left) Hoks Hokc).
  rewrite Hw. clear Hd Hw Hc Hs Hq Hoks Hokc.
  assert (Hv : match echo_client with Done (ret, b) _ _ => ret = 0 /\ b <> [] | _ => False end)
    by (vm_compute; split; [reflexivity|discriminate]).
  destruct echo_client as [[ret b] t w|]; [|destruct Hv]. destruct Hv as [-> Hb].
  destruct H as [[[=] _]|(_ & [->|(-> & Hin & _)])]; [destruct (Hb eq_refl)|].
  exists t, w. split; [reflexivity|exact Hin].
Defined.

(** ** The server example *)

(** Its builder for datagrams knows only port 123456, which no listener can have:
    no work object is ever started, and the receive loop ends only with the error
    of a receive or through a null pointer, which ends the worker process. *)
Theorem example_server_udp_crashes l w :
  0 <= GetPort l < 2 ^ 16 ->
  works (trace_of (RunUdpSrv l (Some MyServer_udp) w)) = [] /\
  match RunUdpSrv l (Some MyServer_udp) w with
  | Done r t _ => r = NullDeref \/ r = Ret (-220)
  | Blocked t => True
  end.
Proof.
  intros Hp. assert (Hb : MyServer_udp (GetPort l) = false) by (unfold MyServer_udp; apply Z.eqb_neq; lia).
  split.
  - apply works_none. enough (Hc : calls starts_nothing (RunUdpSrv l (Some MyServer_udp))).
    { specialize (Hc w). by destruct (RunUdpSrv _ _ w). }
    unfold RunUdpSrv. apply calls_loop. intros []. unfold udp_srv_body. rewrite Hb.
    calls_tac. by apply calls_Frame_recvfrom.
  - unfold RunUdpSrv. apply (loop_rule _ (udp_srv_productive l (Some MyServer_udp)) (fun _ _ => True)
      (fun r _ => r = NullDeref \/ r = Ret (-220))); [done| |done].
    intros [] acc w0 r t w' _ H. unfold udp_srv_body in H. rewrite Hb in H. io_inv.
    repeat (case_match; io_inv; simplify_eq; auto).
Qed.

(** ** The HTTP examples *)

(** What [TestWork::Serve] replies with. *)
Definition hello (h : HttpSrvWork) : HttpSrvWork :=
  let h := set_hrsp (SetStatus 200 (hrsp_ h)) h in
  set_hrsp (Response_SetContent (lit "hello world!") (hrsp_ h)) h.

Section hello_world.
Context {HL : HttpLib} {HP : HttpParserSpec HL} {HS : HttpStreamSpec HL} {IOrd : IterOrder}.

Lemma hello_answerable h rq :
  hrsp_ h = HttpResponse_new -> plain_request rq -> blen (Request_Serialize rq) < 2 ^ 30 ->
  answerable (fun h rs => rs = replied (hello h)) h rq.
Proof.
  intros Hh Hrq Hl. destruct (result_plain (lit "hello world!")) as [H1 H2]; [by vm_compute|].
  apply (answerable_replied hello h rq _ Hrq Hl H1 H2). intros r. unfold hello. simpl. by rewrite Hh.
Qed.

(** A client of the HTTP example: when [SendAndReceive] returns 0 for a plain request
    to a new work object, what it got parses as the status 200 and the content
    "hello world!". *)
Theorem hello_world strerror h rq hc out wc ws :
  let client := client_call strerror rq out hc wc in
  let server := trace_of (Run TestWork_Serve h ws) in
  plain_request rq -> blen (Request_Serialize rq) < 2 ^ 30 ->
  hreq_ h = HttpRequest_new -> hrsp_ h = HttpResponse_new -> fd_ (hc_conn hc) <> kInvalidFd ->
  tcp_run (fd_ (hc_conn hc)) (sockfd_ h) [] [] (trace_of client) server ->
  Forall os_ok (trace_of client) -> Forall os_ok server ->
  match client with
  | Done (ret, out', _) _ _ =>
      ret = 0 -> exists b rs, out' = Some b /\
        ParseHttpResponse b (Some HttpResponse_new) = Some (0, Some rs) /\
        status rs = 200 /\ content rs = lit "hello world!"
  | Blocked _ => True
  end.
Proof.
  intros client server Hrq Hl Hh1 Hh2 Hfd Htcp Hokc Hoks.
  pose proof (reply_with_handler (sockfd_ h) hello (fun _ => eq_refl)) as HH.
  destruct (tcp_run_prefix _ _ _ _ _ _ Htcp) as [Hpre1 Hpre2]. rewrite !app_nil_l in *.
  pose proof (exchange_safe strerror (reply_with hello) _ h rq (hc_conn hc) out wc ws (HH := HH)
    Hrq Hl Hh1 (hello_answerable h rq Hh2 Hrq Hl) Hfd) as H.
  unfold client, client_call, HttpClient_SendAndReceive in *. rewrite io_bind_after in *.
  destruct (SendAndReceive _ _ _ _ _ wc) as [[[ret out'] c'] t w'|t]; [|done]. simpl in *.
  rewrite ?app_nil_r in *. destruct (H Hpre1 Hpre2 Hokc Hoks) as [_ Hret]. intros Hz.
  destruct (Hret Hz) as (_ & r & rs & _ & _ & -> & -> & Hp). do 2 eexists. split; [done|]. split; [exact Hp|].
  destruct (replied_keeps (hello (set_hreq r h))) as [E1 E2]. by rewrite E1, E2.
Qed.

End hello_world.

(** ** The RPC example *)

(** What protobuf promises of messages with the one field: parsing replaces the
    message by the one that was serialised, and a message is a tag, a length and the
    content. *)
Class MessagesSpec (M : Messages) := {
  parse_serialize m b : msg_parse m (msg_serialize (set_content b msg_new)) = (true, set_content b msg_new);
  content_set b m : msg_content (set_content b m) = b;
  serialize_size b : blen b < 2 ^ 28 -> blen (msg_serialize (set_content b msg_new)) <= blen b + 16
}.

(** A POST with a content and no other header. *)
Lemma post_plain {IOrd : IterOrder} target b :
  plain_target target = true -> blen target < 2 ^ 10 -> blen b < 2 ^ 28 ->
  let rq := SetContent b (SetUri target (SetMethod HTTP_REQUEST_METHOD_POST HttpRequest_new)) in
  plain_request rq /\ blen (Request_Serialize rq) < 2 ^ 30.
Proof.
  intros Ht Hl Hb rq. pose proof (blen_nonneg b) as Hb0. split.
  - split; [by right|exact Ht| |done|change (struri_ rq) with target; lia].
    cbn [headers_ rq SetContent SetUri SetMethod HttpRequest_new].
    apply map_Forall_insert_2; [right; by apply length_header_plain|]. by apply map_Forall_empty.
  - unfold Request_Serialize, Request_SerializeToString. change (method_ rq) with HTTP_REQUEST_METHOD_POST.
    change (HTTP_REQUEST_METHOD_POST =? HTTP_REQUEST_METHOD_GET) with false.
    change (HTTP_REQUEST_METHOD_POST =? HTTP_REQUEST_METHOD_POST) with true. cbv iota.
    cbn [snd struri_ content_ headers_ rq SetContent SetUri SetMethod HttpRequest_new]. rewrite !blen_app.
    pose proof (write_headers_insert (lit "Content-Length") (to_string (blen b)) ∅) as H.
    pose proof (to_string_length (blen b) Hb0).
    rewrite (write_headers_perm (iter ∅) []) in H by (by rewrite iter_perm, map_to_list_empty).
    change (blen (write_headers [])) with 0 in H. change (blen (lit "Content-Length")) with 14 in H.
    change (blen (lit "POST ")) with 5. change (blen (lit "HTTP/1.1")) with 8.
    change (blen (lit " ")) with 1. change (blen crlf) with 2.
    change (HttpMsg.content_ rq) with b. lia.
Qed.

Section rpc_facts.
Context {M : Messages} {MS : MessagesSpec M}.
Context {HL : HttpLib} {HP : HttpParserSpec HL} {HS : HttpStreamSpec HL} {IOrd : IterOrder}.
Context (strerror : Z -> bytes) (garbage : TcpConn) (g1 g2 : Z).

Definition foo_row : MethodDescriptor := mkMethod example_service (lit "Foo") (lit "Service.Foo").

(** The three rows of the server's table. *)
Definition example_table : gmap bytes MethodDescriptor :=
  <[lit "/v1/queue/stats/" := foo_row]> (<[lit "/v1/queue/stop" := foo_row]> (<[lit "/v1/queue/start" := foo_row]> ∅)).

Lemma example_mappings_table : AddRpcService example_service example_mappings ∅ = (true, example_table).
Proof. reflexivity. Qed.

Lemma example_computes b x :
  computes example_service example_method (msg_serialize (set_content b msg_new)) x ->
  x = set_content (lit "world") msg_new.
Proof.
  intros (msg & w & t & w' & Hp & Hx). simpl in Hp, Hx. rewrite parse_serialize in Hp. injection Hp as <-.
  unfold Foo, io_ret in Hx. by injection Hx.
Qed.

Lemma example_quiet fd : QuietMethods fd.
Proof. split; intros; [apply sane_ret|done]. Qed.

(** The path of a target without query and fragment is all of it. *)
Hypothesis Hpath : forall f, http_parser_parse_url (lit "/v1/queue/stop") = Some f -> UF_PATH f = Some (0, 14).

Lemma stop_mapped b r :
  arrived (SetContent b (hreq_header_ (rpc_client_cntl g1 g2))) r ->
  mapped example_table (path (GetUriObj r)) example_service example_method.
Proof using Hpath HP.
  intros (_ & _ & _ & _ & res & Hurl). change (GetUri _) with (lit "/v1/queue/stop") in Hurl.
  assert (Hp : path (GetUriObj r) = lit "/v1/queue/stop").
  { destruct (parse_url_plain (lit "/v1/queue/stop") ltac:(done)) as (f & len & Hf & Hp & Hs & Hport).
    rewrite (Hpath f Hf) in Hp. unfold ParseUrl in Hurl. rewrite Hf in Hurl. unfold parse_port in Hurl.
    rewrite Hport, Hs in Hurl. cbn [mbind option_bind] in Hurl. apply bind_Some in Hurl as (uri' & _ & Hurl).
    injection Hurl as _ <-. cbn [path]. by rewrite (Hpath f Hf). }
  rewrite Hp. exists foo_row. by repeat split.
Qed.

(** The RPC example works: when the client of example/rpc calls a server whose work
    object has the table of example/rpc/server.cc, no exception leaves the call, and
    either the controller has the error code -1 and the response is as new, or the
    error code is 0 and the content of the response is "world". *)
Theorem rpc_example h cfd addr wc ws :
  let client := RpcClient_Run strerror garbage g1 g2 wc in
  let m := snd (AddRpcService example_service example_mappings ∅) in
  let server := trace_of (Run (TinycoRpc_Serve m) h ws) in
  hreq_ h = HttpRequest_new -> hrsp_ h = HttpResponse_new ->
  tcp_run cfd (sockfd_ h) [] [] (trace_of client) server ->
  (exists r, (c_connect cfd addr, r) ∈ trace_of client) ->
  Forall os_ok (trace_of client) -> Forall os_ok server ->
  match client with
  | Done (Some (ret, (cntl, response))) _ _ =>
      ret = 0 /\ (error_code_ cntl = -1 /\ response = msg_new \/
                  error_code_ cntl = 0 /\ msg_content response = lit "world")
  | Done None _ _ => False
  | Blocked _ => True
  end.
Proof using Hpath HP HS MS.
  intros client m server Hh1 Hh2 Htcp Hconn Hokc Hoks.
  pose proof (serialize_size (lit "hello") ltac:(done)) as Hsz. pose proof (serialize_size (lit "world") ltac:(done)) as Hsz2.
  change (blen (lit "hello")) with 5 in Hsz. change (blen (lit "world")) with 5 in Hsz2.
  destruct (post_plain (lit "/v1/queue/stop") (msg_serialize (set_content (lit "hello") msg_new))
    ltac:(done) ltac:(done) ltac:(lia)) as [Hrq Hl].
  pose proof (call_returns strerror garbage example_table example_service example_method h
    (mkEndPoint (mkIP loopback) 8080) (rpc_client_cntl g1 g2) (msg_serialize (set_content (lit "hello") msg_new))
    msg_new cfd addr wc ws Hrq Hl Hh1 Hh2 (stop_mapped _)) as H.
  specialize (H ltac:(intros x ->%example_computes; apply (Z.le_lt_trans _ _ _ Hsz2); done) (example_quiet _)).
  unfold client, RpcClient_Run in *. rewrite io_bind_after in *.
  destruct (Channel_CallMethod _ _ _ _ _ _ wc) as [[[cntl rsp]|] t w|t]; cbn [trace_of after io_ret] in *;
    rewrite ?app_nil_r in *; specialize (H Htcp Hconn Hokc Hoks); [|done|done].
  split; [done|]. destruct H as [[-> ->]|(-> & _ & x & ->%example_computes & ->)]; [by left|right].
  split; [done|]. change (MessageParse ?m ?b) with (msg_parse m b). change (MessageSerialize ?y) with (msg_serialize y).
  rewrite parse_serialize. apply content_set.
Qed.

End rpc_facts.

(** ** The main program of the RPC client *)

Section lost.
Context {HO : HeapOps}.

(** A live thread object in none of the places from which a thread is continued. *)
Definition lost (t : tid) (c : Sched.config) : Prop :=
  is_Some (Frame.store (cfg_frame c) !! t) /\ (t ∉ owned (cfg_frame c) (cfg_ctl c)).

Lemma CreateThread_lost w x r x' h t :
  wf x (InThread h) -> CreateThread w x = Some (r, x') -> lost t (mkConfig x (InThread h)) ->
  t ∉ owned x' (InThread h).
Proof.
  intros Hwf H [Hlive Hn]. simpl in *. destruct (CreateThread_wf w x _ Hwf) as (u & y & Hy & _ & Hr & _ & Ho).
  rewrite H in Hy. simplify_eq. destruct (CreateThread_places _ _ _ _ H) as (v & Hv & Hrv & _).
  assert (u = v) as <- by (rewrite Hr in Hrv; by simplify_list_eq).
  destruct (last (thread_free_ x)) eqn:Hl; [by rewrite (proj2 Ho)|]. destruct Ho as [_ ->].
  apply not_elem_of_cons. split; [|done]. intros ->. apply (wf_fresh _ _ Hwf) in Hlive.
  apply last_None in Hl. rewrite Hl in Hv. destruct Hv as [[]%elem_of_nil| ->]. lia.
Qed.

Lemma InitHere_lost x x' h u t :
  wf x (InThread h) -> InitHereAsNewThread x = Some x' -> running_thread_ x' = Some u ->
  lost t (mkConfig x (InThread h)) -> t ∉ owned x' (InThread u).
Proof.
  intros Hwf H Hu [Hlive Hn]. simpl in *. destruct (InitHereAsNewThread_wf x h Hwf) as (y & v & Hy & Hv & _ & _ & Ho).
  rewrite H in Hy. simplify_eq. assert (Hnew : u = next_tid x).
  { unfold InitHereAsNewThread in H. simpl in H. destruct_calls. done. }
  intros Ht. assert (Hin : t ∈ h :: owned y (InThread u)) by (by right). rewrite Ho in Hin.
  apply elem_of_cons in Hin as [->|?]; [|done]. apply (wf_fresh _ _ Hwf) in Hlive. lia.
Qed.

Lemma exec_lost l c c' t :
  wf (cfg_frame c) (cfg_ctl c) -> enabled l c = true -> exec l c = Some c' -> lost t c -> lost t c'.
Proof.
  destruct c as [x k]. cbn [cfg_frame cfg_ctl]. intros Hwf He H Hlost. pose proof Hlost as [Hlive Hn].
  cbn [cfg_frame cfg_ctl] in *. destruct k as [|h].
  { destruct l; try done. cbn [exec cfg_frame cfg_ctl] in H.
    destruct (MainThreadLoop_wf now fired x Hwf (enabled_main _ _ _ He))
      as (x' & k & due & rest & y & Hm & _ & Ho & _ & Hs & _ & _ & _ & Hst).
    rewrite Hm in H. simplify_eq/=. split; simpl; [|by rewrite Ho].
    destruct (Schedule_inv _ _ _ Hs) as (-> & _). rewrite Hst.
    apply (fmap_is_Some uc_). rewrite wake_all_uc. by apply fmap_is_Some. }
  assert (Hh : t <> h) by (intros ->; apply Hn; left).
  assert (Hfree : t ∉ thread_free_ x) by (intros Hf; apply Hn; unfold owned; in_lists).
  destruct (coroutine_step l x h c' (wf_running _ _ Hwf h eq_refl) H) as (y & more & Hq & Hsw).
  assert (Hy : is_Some (Frame.store y !! t)).
  { rewrite (quiet_store _ _ _ _ Hq); [done|done|by apply (wf_fresh _ _ Hwf)|done]. }
  split.
  { destruct (switches l); [|by destruct Hsw as [-> _]]. by destruct (Schedule_inv _ _ _ Hsw) as (-> & _). }
  destruct l; cbn [exec cfg_frame cfg_ctl] in H; try done.
  - apply bind_Some in H as ([r x'] & Hc & [= <-]). by eapply CreateThread_lost.
  - destruct (Frame_Sleep_wf now ms x h Hwf) as (x' & k & Hs & _ & Ho). rewrite Hs in H. simplify_eq/=. by rewrite Ho.
  - simpl in He. destruct (io_wait_map_ x !! fd) eqn:Hio; [done|].
    destruct (io_wait_wf fd evs x h Hwf Hio) as (x' & k & Hs & _ & Ho). rewrite Hs in H. simplify_eq/=. by rewrite Ho.
  - destruct (HandleProcess_wf x h Hwf) as (x' & k & _ & Hs & _ & Ho & _). rewrite Hs in H. simplify_eq/=. by rewrite Ho.
  - apply bind_Some in H as (x' & Hi & H). apply bind_Some in H as (u & Hu & [= <-]). by eapply InitHere_lost.
Qed.

Lemma steps_lost c ls c' t :
  steps c ls c' -> wf (cfg_frame c) (cfg_ctl c) -> lost t c -> cfg_ctl c' <> InThread t.
Proof.
  intros Hs Hwf Hl. enough (lost t c') as [_ Hn] by (intros E; apply Hn; rewrite E; left). revert Hwf Hl.
  induction Hs as [c0|c0 l c1 ls c2 [He Hx]%step_inv _ IH]; [done|]. intros Hw Hl.
  destruct (exec_wf _ _ Hw He) as (c1' & Hx' & Hw'). rewrite Hx in Hx'. injection Hx' as <-. apply IH; [done|].
  exact (exec_lost _ _ _ _ Hw He Hx Hl).
Qed.

(** [Frame::Schedule] abandons its caller: the main program of the RPC client starts
    a coroutine and calls it, and from then on no sequence of steps ever executes
    the main program again: [Frame::Fini] and the [return] are not reached, and the
    process does not end when the call is answered. *)
Theorem rpc_client_main_abandoned work :
  exists c, rpc_client_main work frame0 = Some c /\ wf (cfg_frame c) (cfg_ctl c) /\
    forall ls c', steps c ls c' -> cfg_ctl c' <> InThread 1%nat.
Proof.
  destruct (Frame_Init_ok 1000) as (x & Hi & Hwf & _ & Hrun & _).
  destruct (CreateThread_wf work x _ Hwf) as (u & x1 & Hc & Hwf1 & Hr & _).
  pose proof (wf_drop_holder _ _ Hwf1) as Hwf2.
  destruct (Schedule_wf x1 Hwf2) as (x2 & k & Hs & Hwf3 & Ho & _).
  exists (mkConfig x2 k). unfold rpc_client_main, Frame_Init. rewrite Hi. cbn [mbind option_bind]. rewrite Hc.
  cbn [mbind option_bind]. rewrite Hs. split; [done|]. split; [done|].
  assert (Hlost : lost 1%nat (mkConfig x2 k)).
  { destruct (Schedule_inv _ _ _ Hs) as (Hst & _). split; simpl.
    - rewrite Hst. apply (wf_live _ _ Hwf1). left.
    - rewrite Ho. pose proof (wf_nodup _ _ Hwf1) as Hnd. by apply NoDup_cons in Hnd as [? _]. }
  intros ls c' Hsteps. exact (steps_lost _ _ _ _ Hsteps Hwf3 Hlost).
Qed.

End lost.
