(* ===== verification/HttpWorker.v ===== *)
(** * A worker that serves HTTP

    The worker of [Worker], whose connections run [HttpSrvWork::Run] with a handler
    [Serve], as the HTTP and RPC servers do.  What [HttpExchange] says of one
    [HttpSrvWork] and one client holds for each connection of a process with any
    number of them, under its scheduler. *)

From S2P Require Import Prelude CStr Heap Thread Frame FrameFacts Sched SchedProps SchedSpec SchedContext World Resume.
From S2P Require Import Process ProcessInv ProcessProps ProcessSched Network FrameIO FrameIOProps Mutex HttpMsg HttpTool HttpWire.
From S2P Require Import TcpConn HttpServer HttpServerProps HttpStream HttpExchange Rpc RpcExchange Listener Server ServerProps.
From S2P Require Import ServerImpl ServerImplProps SimpleServer ServerInit Shutdown Worker WorkerProgress.

(** ** The handler *)

(** [TcpSrvWork::Run] makes the work object and sets its descriptor. *)
Definition http_work (fd : Z) : HttpSrvWork := mkWork fd HttpRequest_new HttpResponse_new.

(** The result of [Run] is dropped; a write outside the buffer or an exception ends
    the process. *)
Definition http_conn {HL : HttpLib} {IOrd : IterOrder} (Serve : HttpSrvWork -> IO (Z * HttpSrvWork)) (fd port : Z) : IO bool :=
  let* r := Run Serve (http_work fd) in
  match r with
  | Returned _ _ => io_ret true
  | OutOfBounds | Threw => io_ret false
  end.

Definition http_handlers {HL : HttpLib} {IOrd : IterOrder} (Serve : HttpSrvWork -> IO (Z * HttpSrvWork))
    (datagrams : UdpReqInfo -> Z -> IO bool) : Handlers :=
  {| conn := http_conn Serve; datagram := datagrams |}.

(** [Serve] uses its own connection and starts no coroutines. *)
Class Serving {HL : HttpLib} {IOrd : IterOrder} (Serve : HttpSrvWork -> IO (Z * HttpSrvWork)) : Prop := {
  Serve_sane h : sane (Serve h);
  Serve_causal h : causal (Serve h);
  Serve_quiet h : calls quiet_call (Serve h);
  Serve_own h : calls (waits_own (Some (sockfd_ h))) (Serve h);
  Serve_fd h w v h' t w' : Serve h w = Done (v, h') t w' -> sockfd_ h' = sockfd_ h
}.

(** A loop whose states have an invariant. *)
Lemma calls_loop_inv {S R} (P : syscall -> Prop) (I : S -> Prop) (body : S -> IO (S + R)) s :
  (forall s, I s -> calls P (body s)) ->
  (forall s w s' t w', I s -> body s w = Done (inl s') t w' -> I s') -> I s -> calls P (loop body s).
Proof.
  intros Hb Hi Hs w. unfold loop. generalize (Datatypes.S (length (script w))). intros n.
  revert s w Hs. induction n as [|n IH]; intros s w Hs; [constructor|].
  simpl. unfold io_bind. pose proof (Hb s Hs w) as Hc. destruct (body s w) as [[s'|r] t w'|t] eqn:E; [|by simpl; rewrite app_nil_r|done].
  specialize (IH s' w' (Hi _ _ _ _ _ Hs E)). destruct (loop_fuel body n s' w'); by apply Forall_app.
Qed.

Section handler.
Context {HL : HttpLib} {IOrd : IterOrder} (Serve : HttpSrvWork -> IO (Z * HttpSrvWork)) {HSv : Serving Serve}.

Lemma causal_process s n : causal (process_pkg Serve s n).
Proof.
  unfold process_pkg. destruct (ParseHttpRequest _ _) as [[ret [r|]]|]; [|causal_tac..].
  destruct (0 =? ret); [|causal_tac]. apply causal_bind; [apply Serve_causal|]. intros v. causal_tac.
Qed.

Lemma causal_Run h : causal (Run Serve h).
Proof.
  apply causal_loop; [apply run_productive, Serve_sane|]. intros s. unfold run_body.
  apply causal_bind; [apply causal_Frame_recv|]. intros [ret data].
  repeat match goal with |- causal (if ?b then _ else _) => destruct b end; try apply causal_ret.
  destruct (store _ _ _); [|apply causal_ret].
  repeat match goal with |- causal (if ?b then _ else _) => destruct b end; try apply causal_ret. apply causal_process.
Qed.

(** The calls of an iteration and of the loop, for connections with descriptor [fd]. *)
Section calls.
Context (P : syscall -> Prop) (fd : Z) (Hrecv : forall len, P (c_recv fd len 0)) (Hwait : forall evs, P (c_wait fd evs)).
Context (HServe : forall h, sockfd_ h = fd -> calls P (Serve h)).

Lemma calls_process s n : sockfd_ (work s) = fd -> calls P (process_pkg Serve s n).
Proof.
  intros Hfd. unfold process_pkg. destruct (ParseHttpRequest _ _) as [[ret [r|]]|]; [|calls_tac..].
  destruct (0 =? ret); [|calls_tac]. apply calls_bind; [by apply HServe|]. calls_tac.
Qed.

Lemma process_fd s n w s' t w' :
  process_pkg Serve s n w = Done (inl s') t w' -> sockfd_ (work s') = sockfd_ (work s).
Proof.
  unfold process_pkg. destruct (ParseHttpRequest _ _) as [[ret [r|]]|]; [|done..].
  destruct (0 =? ret); [|done]. intros H. apply io_bind_inv in H as ([v h'] & t1 & w1 & t2 & H1 & H2 & ->).
  apply Serve_fd in H1. cbn [snd] in H2. repeat case_match; io_inv; simplify_eq; done.
Qed.

Lemma calls_Run h : sockfd_ h = fd -> calls P (Run Serve h).
Proof.
  intros Hh. apply (calls_loop_inv _ (fun s => sockfd_ (work s) = fd)); [| |done].
  - intros s Hs. unfold run_body. rewrite Hs. apply calls_bind; [by apply calls_Frame_recv|]. intros [ret data].
    repeat match goal with |- calls _ (if ?b then _ else _) => destruct b end; try apply calls_ret.
    destruct (store _ _ _); [|apply calls_ret].
    repeat match goal with |- calls _ (if ?b then _ else _) => destruct b end; try apply calls_ret. by apply calls_process.
  - intros s w s' t w' Hs H. unfold run_body in H. apply io_bind_inv in H as ([ret data] & t1 & w1 & t2 & _ & H & ->).
    destruct (0 <? ret); [|by destruct (0 =? ret)]. destruct (store _ _ _); [|done]. cbv zeta in H.
    destruct (0 <? _); [by apply process_fd in H; rewrite H|]. destruct (0 =? _); [|done].
    unfold io_ret in H. by injection H as <- _ _.
Qed.

End calls.

Context (datagrams : UdpReqInfo -> Z -> IO bool) (Hsane : forall r n, sane (datagrams r n)).
Context (Hcausal : forall r n, causal (datagrams r n)) (Hquiet : forall r n, calls quiet_call (datagrams r n)).

Lemma http_quiet : QuietHandlers (http_handlers Serve datagrams).
Proof.
  split; try done; intros fd port; cbn [conn http_handlers]; unfold http_conn.
  - apply sane_bind; [apply sane_loop, run_productive, Serve_sane|]. intros []; sane_tac.
  - apply causal_bind; [apply causal_Run|]. intros []; causal_tac.
  - apply calls_bind; [|intros []; calls_tac]. apply (calls_Run _ fd); try done. intros. apply Serve_quiet.
Qed.

Lemma http_own : (forall r n, calls (waits_own None) (datagrams r n)) -> OwnHandlers (http_handlers Serve datagrams).
Proof.
  intros Hd. split; [|done]. intros fd port; cbn [conn http_handlers]; unfold http_conn.
  apply calls_bind; [|intros []; calls_tac]. apply (calls_Run _ fd); try done. intros h <-. apply Serve_own.
Qed.

End handler.

#[export] Instance Reply_serving {HL : HttpLib} {IOrd : IterOrder} : Serving Reply.
Proof.
  split; intros.
  - apply sane_Reply.
  - unfold Reply. apply causal_bind; [apply causal_Frame_send|]. intros; apply causal_ret.
  - rewrite Reply_unfold. apply calls_bind; [by apply calls_Frame_send|]. intros; apply calls_ret.
  - rewrite Reply_unfold. apply calls_bind; [by apply calls_Frame_send|]. intros; apply calls_ret.
  - rewrite Reply_unfold in H. io_inv. by simplify_eq.
Qed.

Lemma serving_after {HL : HttpLib} {IOrd : IterOrder} (f : HttpSrvWork -> HttpSrvWork) :
  (forall h, sockfd_ (f h) = sockfd_ h) -> Serving (reply_with f).
Proof.
  intros Hf. split; unfold reply_with; intros.
  - apply sane_bind; [apply Serve_sane|intros; apply sane_ret].
  - apply causal_bind; [apply Serve_causal|intros; apply causal_ret].
  - apply calls_bind; [apply Serve_quiet|intros; apply calls_ret].
  - apply calls_bind; [rewrite <- (Hf h); apply Serve_own|intros; apply calls_ret].
  - apply io_bind_inv in H as ([v0 h2] & t1 & w1 & t2 & H & [= <- <- _] & _). apply Serve_fd in H. cbn [snd]. by rewrite H, Hf.
Qed.

(** ** A connection of a worker *)

(** Calls that put nothing on a connection and take nothing from one. *)
Definition silent (fd : Z) (e : io_event) : Prop := taken fd e = [] /\ delivered fd e = [].

Lemma tcp_run_silent cfd sfd q1 q2 tc ts us :
  tcp_run cfd sfd q1 q2 tc (ts ++ us) -> Forall (silent sfd) us -> tcp_run cfd sfd q1 q2 tc ts.
Proof.
  intros H. remember (ts ++ us) as vs eqn:E. revert ts us E. induction H as [q1 q2|e q1 q2 tc vs H IH|e q1 q2 tc vs H IH]; intros ts us E Hus.
  - symmetry in E. apply app_nil in E as [-> _]. constructor.
  - constructor. by eapply IH.
  - destruct ts as [|e' ts].
    + simpl in E. subst us. apply Forall_cons in Hus as [[He1 He2] Hus]. rewrite He1, app_nil_r in IH. rewrite He2. simpl.
      by apply (IH [] vs).
    + injection E as <- E. constructor. by eapply IH.
Qed.

Lemma silent_sent fd t us : Forall (silent fd) us -> sent fd (t ++ us) = sent fd t.
Proof.
  intros H. rewrite sent_app. rewrite <- (app_nil_r (sent fd t)) at 2. f_equal.
  induction H as [|e us [H _] _ IH]; [done|]. by rewrite sent_cons, H.
Qed.

Lemma silent_received fd t us : Forall (silent fd) us -> received fd (t ++ us) = received fd t.
Proof.
  intros H. rewrite received_app. rewrite <- (app_nil_r (received fd t)) at 2. f_equal.
  induction H as [|e us [_ H] _ IH]; [done|]. by rewrite received_cons, H.
Qed.

Section worker.
Context {HO : HeapOps} {HL : HttpLib} {HP : HttpParserSpec HL} {HS : HttpStreamSpec HL} {IOrd : IterOrder} (strerror : Z -> bytes).
Context (Serve : HttpSrvWork -> IO (Z * HttpSrvWork)) {HSv : Serving Serve}.
Context (datagrams : UdpReqInfo -> Z -> IO bool) (Hq : QuietHandlers (http_handlers Serve datagrams)).
Context (s : ServerImpl) (sigfd : Z) (build : builder) (Hmode : mode_ s = WM_WORKER).

#[local] Instance serving_handlers : Handlers := http_handlers Serve datagrams.
Context (pool : nat) (e0 : Z) (p : proc wjob ConnTracker) (Hr : worker_reachable s sigfd build pool e0 p).

(** What a connection's coroutine did is a run of [HttpSrvWork::Run], perhaps with
    the calls of the destructor after it. *)
Lemma connection_calls w fd port tracked :
  jobs p !! w = Some (J_conn fd port tracked) ->
  exists ws us, calls_by w (plog p) = trace_of (Run Serve (http_work fd) ws) ++ us /\ Forall (silent fd) us.
Proof.
  intros Hj. destruct (worker_runs Hq s sigfd build Hmode pool e0 p Hr w _ Hj) as [wo Hwo]. exists wo.
  cbn [worker_code conn http_handlers serving_handlers] in Hwo. unfold http_conn in Hwo. rewrite !io_bind_after in Hwo.
  destruct (Run Serve (http_work fd) wo) as [r t w'|t]; cbn [after trace_of] in *; [|exists []; rewrite app_nil_r; by split].
  destruct r; cbn [after io_ret] in Hwo; rewrite ?app_nil_r in Hwo; cbn [trace_of] in Hwo;
    [|by exists []; rewrite app_nil_r|by exists []; rewrite app_nil_r].
  rewrite trace_after in Hwo. eexists. split; [exact Hwo|].
  assert (Hc : calls (fun c => exists fd, c = c_close fd) (let* _ := TcpReqWork_delete (conn_work fd tracked) ConnTracker_new in io_ret true)).
  { unfold TcpReqWork_delete. repeat first [apply calls_bind; [|intros ?]|apply calls_ret|apply calls_sys; by eexists|case_match]. }
  specialize (Hc w'). apply Forall_forall. intros [c r] Hin.
  destruct ((let* _ := _ in io_ret true) w'); cbn [trace_of] in Hin; rewrite Forall_forall in Hc;
    destruct (Hc _ Hin) as [fd' E]; simpl in E; subst c; by split.
Qed.

Context (responds : HttpSrvWork -> HttpResponse -> Prop).

(** C6: A client of a worker process, end to end: an [HttpClient] at the other end
    of a connection that the worker accepted, while any number of other listeners,
    connections, datagrams and signals are served by the same process under its
    scheduler.  Whatever happens in the process and however the bytes are cut,
    nothing is put on the connection before the whole request has arrived; and when
    [HttpClient::SendAndReceive] returns 0, the connection's coroutine has received
    exactly the request, and the output is exactly a response that the handler may
    give to the request as it was parsed. *)
Theorem worker_serves_client w fd port tracked rq hc out wc {HH : Handler fd Serve responds} :
  let client := client_call strerror rq out hc wc in
  let server := calls_by w (plog p) in
  jobs p !! w = Some (J_conn fd port tracked) ->
  plain_request rq -> blen (Request_Serialize rq) < 2 ^ 30 ->
  answerable responds (http_work fd) rq -> fd_ (hc_conn hc) <> kInvalidFd ->
  tcp_run (fd_ (hc_conn hc)) fd [] [] (trace_of client) server ->
  Forall os_ok (trace_of client) -> Forall os_ok server ->
  (sent fd server <> [] -> received fd server = Request_Serialize rq) /\
  match client with
  | Done (ret, out', _) _ _ =>
      ret = 0 ->
      received fd server = Request_Serialize rq /\
      exists r rs, arrived rq r /\
        ParseHttpRequest (Request_Serialize rq) (Some HttpRequest_new) = Some (0, Some r) /\
        responds (set_hreq r (http_work fd)) rs /\ out' = Some (Response_Serialize rs) /\
        ParseHttpResponse (Response_Serialize rs) (Some HttpResponse_new) =
        Some (0, Some (mkHttpResponse (status rs) (content rs) (filter nonempty_value (rsp_headers rs))))
  | Blocked _ => True
  end.
Proof.
  intros client server Hj Hrq Hl Hans Hfd Htcp Hokc Hoks.
  destruct (connection_calls w fd port tracked Hj) as (ws & us & E & Hus). unfold server in *. rewrite E in *.
  apply tcp_run_silent in Htcp; [|done]. apply Forall_app in Hoks as [Hoks _].
  rewrite silent_sent, silent_received by done.
  destruct (tcp_run_prefix _ _ _ _ _ _ Htcp) as [Hpre1 Hpre2]. rewrite !app_nil_l in *.
  pose proof (exchange_safe strerror Serve responds (http_work fd) rq (hc_conn hc) out wc ws (HH := HH) Hrq Hl eq_refl Hans Hfd) as H.
  unfold client, client_call, HttpClient_SendAndReceive in *. rewrite io_bind_after in *.
  destruct (SendAndReceive _ _ _ _ _ wc) as [[[ret out'] c'] t w'|t]; simpl in *; rewrite ?app_nil_r in *; by apply H.
Qed.

End worker.

(** ** Witness *)

#[local] Existing Instance stream_lib.
#[local] Instance hi_serving : Serving (reply_with say_hi) := serving_after say_hi (fun _ => eq_refl).

Lemma hi_quiet : QuietHandlers (http_handlers (reply_with say_hi) (fun _ _ => io_ret true)).
Proof. apply (http_quiet (reply_with say_hi)); intros; [apply sane_ret|apply causal_ret|apply calls_ret]. Qed.

(** The run of [Worker.worker_labels] up to the connection, which then receives
    [demo_get] in three pieces and answers. *)
Definition hi_answer : bytes := Response_Serialize (Response_SetContent (lit "hi") HttpResponse_new).
Definition hi_labels : list plabel :=
  take 17 worker_labels ++ (P_call <$> pieces (cut3 (Request_Serialize demo_get)) ++ [answer (blen hi_answer) 0 []]).
Definition hi_end : option (proc wjob ConnTracker) :=
  p0 ← start 1 J_main [J_signal] true 0 ConnTracker_new;
  prun (worker_program (Ha := http_handlers (reply_with say_hi) (fun _ _ => io_ret true)) demo_worker 9 any_port) hi_labels p0.
Definition hi_client : outcome (Z * option bytes * HttpClient) :=
  client_call (fun _ => []) demo_get [] demo_client
    (mkWorld (answer (blen (Request_Serialize demo_get)) 0 [] :: pieces (cut3 hi_answer)) 0).

(** The calls of the connection's coroutine, computed. *)
Definition hi_calls : io_trace := match hi_end with Some p => calls_by 3%nat (plog p) | None => [] end.

Lemma hi_end_job : (fun p => jobs p !! 3%nat) <$> hi_end = Some (Some (J_conn 7 80 true)).
Proof. vm_compute. reflexivity. Qed.

Lemma hi_run : tcp_run 7 7 [] [] (trace_of hi_client) hi_calls /\ Forall os_ok (trace_of hi_client) /\ Forall os_ok hi_calls.
Proof.
  split; [|split].
  - rewrite <- (take_drop 1 (trace_of hi_client)). apply tcp_half_duplex.
    + vm_compute. reflexivity.
    + apply (bool_decide_unpack _). vm_compute. exact I.
    + apply (bool_decide_unpack _). vm_compute. exact I.
  - os_tac hi_client.
  - change hi_calls with (trace_of (Blocked (A := unit) hi_calls)). os_tac (Blocked (A := unit) hi_calls).
Qed.

Lemma worker_serves_client_witness :
  exists p r rs hc t w, hi_end = Some p /\ received 7 (calls_by 3%nat (plog p)) = Request_Serialize demo_get /\
    arrived demo_get r /\ hi_client = Done (0, Some (Response_Serialize rs), hc) t w.
Proof.
  pose proof hi_end_job as Hj. destruct hi_run as (Htcp & Hc & Hs). unfold hi_calls in Htcp, Hs.
  destruct hi_end as [p|] eqn:E; [|discriminate Hj]. injection Hj as Hj. pose proof E as E'.
  unfold hi_end in E'. pose proof (prun_preachable _ _ _ _ _ _ _ _ p E') as Hr. clear E'.
  destruct (worker_serves_client (fun _ => []) (reply_with say_hi) (fun _ _ => io_ret true) hi_quiet demo_worker 9 any_port eq_refl
    1 0 p Hr (fun h rs => rs = replied (say_hi h)) 3%nat 7 80 true demo_get demo_client []
    (mkWorld (answer (blen (Request_Serialize demo_get)) 0 [] :: pieces (cut3 hi_answer)) 0)
    (HH := reply_with_handler _ say_hi (fun _ => eq_refl)) Hj demo_get_plain ltac:(vm_compute; reflexivity) say_hi_answerable
    ltac:(discriminate) Htcp Hc Hs) as [_ H].
  fold hi_client in H. clear Htcp Hc Hs Hr.
  assert (Hret : match hi_client with Done (ret, _, _) _ _ => ret = 0 | Blocked _ => False end) by (vm_compute; reflexivity).
  destruct hi_client as [[[ret out'] hc'] t w'|]; [|destruct Hret].
  destruct (H Hret) as (Hrec & r & rs & Ha & _ & _ & -> & _). subst ret. exists p, r, rs, hc', t, w'. auto.
Defined.
