(* ===== verification/RpcWorker.v ===== *)
(** * Remote calls to a worker

    [TinycoRpc] on the connections of a worker: a client's [Channel::CallMethod]
    against a process that serves any number of connections.  The methods of the
    services are the parameter [Protobuf] with the interface [LocalMethods]. *)

From S2P Require Import Prelude CStr Heap Thread Frame FrameFacts Sched SchedProps SchedSpec SchedContext World Resume.
From S2P Require Import Process ProcessInv ProcessProps ProcessSched Network FrameIO FrameIOProps Mutex HttpMsg HttpTool HttpWire.
From S2P Require Import TcpConn HttpServer HttpServerProps HttpStream HttpExchange Https Dns HttpOp Rpc RpcExchange Listener Server ServerProps.
From S2P Require Import ServerImpl ServerImplProps SimpleServer ServerInit Shutdown Worker WorkerProgress HttpWorker.

(** The methods may sleep; they wait for no descriptor and start no coroutine. *)
Class LocalMethods (PB : Protobuf) : Prop := {
  local_sane service method msg : sane (CallMethod service method msg);
  local_causal service method msg : causal (CallMethod service method msg);
  local_quiet service method msg : calls quiet_call (CallMethod service method msg);
  local_own service method msg : calls (waits_own None) (CallMethod service method msg)
}.

Section rpc.
Context {PB : Protobuf} {HL : HttpLib} {IOrd : IterOrder}.

Lemma waits_weaken own c : waits_own None c -> waits_own own c.
Proof. by destruct c. Qed.

(** After the method, or at once, the work object replies: what calls do, [Reply] and
    the method do. *)
Lemma rpc_serve_ind (m : gmap bytes MethodDescriptor) h (Q : IO (Z * HttpSrvWork) -> Prop) :
  (forall z, Q (io_ret (z, h))) ->
  (forall rs, Q (let* r := Reply (set_hrsp rs h) in io_ret (0, snd r))) ->
  (forall service method msg (k : Message -> IO (Z * HttpSrvWork)),
     (forall x, Q (k x)) -> Q (let* x := CallMethod service method msg in k x)) ->
  Q (TinycoRpc_Serve m h).
Proof.
  intros H1 H2 H3. destruct (rpc_serve_cases m h) as [[_ ->]|(service & method & _ & ->)]; [apply H2|].
  destruct (RequestParse _ _ _); [|apply H1]. apply H3. intros x. apply H2.
Qed.

#[export] Instance rpc_serving (m : gmap bytes MethodDescriptor) : LocalMethods PB -> Serving (TinycoRpc_Serve m).
Proof.
  intros Hm. split.
  - intros h. apply rpc_serve_ind; intros; [apply sane_ret| |apply sane_bind; [apply local_sane|done]].
    apply sane_bind; [apply Serve_sane|intros; apply sane_ret].
  - intros h. apply rpc_serve_ind; intros; [apply causal_ret| |apply causal_bind; [apply local_causal|done]].
    apply causal_bind; [apply Serve_causal|intros; apply causal_ret].
  - intros h. apply rpc_serve_ind; intros; [apply calls_ret| |apply calls_bind; [apply local_quiet|done]].
    apply calls_bind; [apply Serve_quiet|intros; apply calls_ret].
  - intros h. apply rpc_serve_ind; intros; [apply calls_ret| |].
    + apply calls_bind; [apply (Serve_own (set_hrsp rs h))|intros; apply calls_ret].
    + apply calls_bind; [|done]. eapply calls_impl; [|apply local_own]. apply waits_weaken.
  - intros h. apply (rpc_serve_ind m h (fun n => forall w v h' t w', n w = Done (v, h') t w' -> sockfd_ h' = sockfd_ h)).
    + by intros z w v h' t w' [= _ <- _ _].
    + intros rs w v h' t w' H. apply io_bind_inv in H as ([v0 h2] & t1 & w1 & t2 & H & [= <- <- _] & _). apply Serve_fd in H. exact H.
    + intros service method msg k Hk w v h' t w' H. apply io_bind_inv in H as (x & t1 & w1 & t2 & _ & H & _). by eapply Hk.
Qed.

End rpc.

(** ** The call *)

Section call.
Context {HO : HeapOps} {PB : Protobuf} {HM : LocalMethods PB}.
Context {HL : HttpLib} {HP : HttpParserSpec HL} {HS : HttpStreamSpec HL} {IOrd : IterOrder}.
Context (strerror : Z -> bytes) (garbage : TcpConn) (m : gmap bytes MethodDescriptor) (service : Service) (method : Method).
Context (datagrams : UdpReqInfo -> Z -> IO bool) (Hq : QuietHandlers (http_handlers (TinycoRpc_Serve m) datagrams)).
Context (s : ServerImpl) (sigfd : Z) (build : builder) (Hmode : mode_ s = WM_WORKER).

#[local] Instance rpc_handlers : Handlers := http_handlers (TinycoRpc_Serve m) datagrams.
Context (pool : nat) (e0 : Z) (p : proc wjob ConnTracker) (Hr : worker_reachable s sigfd build pool e0 p).

(** C4: A remote call to a worker process returns what the method computes.  A client
    calls [Channel::CallMethod], and [TinycoRpc] serves its connection in a worker
    that serves any number of other connections under its scheduler; the path of
    the request is mapped to a method.  Whatever happens in the process and however
    the bytes are cut, no exception leaves the call, and either the controller has
    the error code -1 and the response message is untouched, or the connection's
    coroutine received exactly the request, and the response message is what
    [ParseFromString] makes of the serialised result of the method on the client's
    message as the server parsed it. *)
Theorem worker_rpc_call w fd port tracked server cntl request response cfd addr wc :
  let rq := SetContent request (hreq_header_ cntl) in
  let client := Channel_CallMethod strerror garbage server cntl request response wc in
  let srv := calls_by w (plog p) in
  jobs p !! w = Some (J_conn fd port tracked) ->
  plain_request rq -> blen (Request_Serialize rq) < 2 ^ 30 ->
  (forall r, arrived rq r -> mapped m (path (GetUriObj r)) service method) ->
  (forall x, computes service method request x -> blen (MessageSerialize x) < 2 ^ 28) -> QuietMethods fd ->
  tcp_run cfd fd [] [] (trace_of client) srv ->
  (exists r, (c_connect cfd addr, r) ∈ trace_of client) ->
  Forall os_ok (trace_of client) -> Forall os_ok srv ->
  match client with
  | Done (Some (cntl', response')) _ _ =>
      cntl' = set_error_code (-1) cntl /\ response' = response \/
      cntl' = cntl /\ received fd srv = Request_Serialize rq /\
      exists x, computes service method request x /\ response' = snd (MessageParse response (MessageSerialize x))
  | Done None _ _ => False
  | Blocked _ => True
  end.
Proof.
  intros rq client srv Hj Hrq Hl Hmap Hsz HQ Htcp Hconn Hokc Hoks.
  destruct (connection_calls (TinycoRpc_Serve m) datagrams Hq s sigfd build Hmode pool e0 p Hr w fd port tracked Hj)
    as (ws & us & E & Hus). unfold srv in *. rewrite E in *.
  apply tcp_run_silent in Htcp; [|done]. apply Forall_app in Hoks as [Hoks _]. rewrite silent_received by done.
  exact (call_returns strerror garbage m service method (http_work fd) server cntl request response cfd addr wc ws
    Hrq Hl eq_refl eq_refl Hmap Hsz HQ Htcp Hconn Hokc Hoks).
Qed.

End call.

(** ** Witness *)

#[local] Existing Instance stream_lib.
#[local] Existing Instance echo_pb.

#[local] Instance echo_local : LocalMethods echo_pb.
Proof. split; intros; [apply sane_ret|apply causal_ret|apply calls_ret|apply calls_ret]. Qed.

Definition no_datagrams : UdpReqInfo -> Z -> IO bool := fun _ _ => io_ret true.

Lemma echo_rpc_quiet : QuietHandlers (http_handlers (TinycoRpc_Serve echo_map) no_datagrams).
Proof. apply (http_quiet (TinycoRpc_Serve echo_map)); intros; [apply sane_ret|apply causal_ret|apply calls_ret]. Qed.

(** The run of [Worker.worker_labels] up to the connection, which then receives the
    call of [RpcExchange.call_client] and answers it. *)
Definition rpc_labels : list plabel :=
  take 17 worker_labels ++ (P_call <$> pieces (cut3 (Request_Serialize call_rq)) ++ [answer (blen call_rsp) 0 []]).
Definition rpc_end : option (proc wjob ConnTracker) :=
  p0 ← start 1 J_main [J_signal] true 0 ConnTracker_new;
  prun (worker_program (Ha := http_handlers (TinycoRpc_Serve echo_map) no_datagrams) demo_worker 9 any_port) rpc_labels p0.
Definition rpc_calls : io_trace := match rpc_end with Some p => calls_by 3%nat (plog p) | None => [] end.

Lemma rpc_end_job : (fun p => jobs p !! 3%nat) <$> rpc_end = Some (Some (J_conn 7 80 true)).
Proof. vm_compute. reflexivity. Qed.

Lemma rpc_run : tcp_run 9 7 [] [] (trace_of call_client) rpc_calls /\ Forall os_ok (trace_of call_client) /\ Forall os_ok rpc_calls.
Proof.
  split; [|split].
  - rewrite <- (take_drop 5 (trace_of call_client)). apply tcp_half_duplex.
    + vm_compute. reflexivity.
    + apply (bool_decide_unpack _). vm_compute. exact I.
    + apply (bool_decide_unpack _). vm_compute. exact I.
  - os_tac call_client.
  - change rpc_calls with (trace_of (Blocked (A := unit) rpc_calls)). os_tac (Blocked (A := unit) rpc_calls).
Qed.

Lemma rpc_connects : exists r, (c_connect 9 (mkSockaddr 16777343 36895), r) ∈ trace_of call_client.
Proof.
  exists (answer 0 0 []). let t := eval vm_compute in (trace_of call_client) in change (trace_of call_client) with t.
  do 3 right. left.
Qed.

Lemma echo_small x : computes echo_svc echo_call (lit "ab") x -> blen (MessageSerialize x) < 2 ^ 28.
Proof. intros (msg & w & t & w' & [= <-] & [= <- _ _]). vm_compute. reflexivity. Qed.

Lemma worker_rpc_call_witness :
  exists p cntl t w, rpc_end = Some p /\ call_client = Done (Some (cntl, lit "abab")) t w /\
    received 7 (calls_by 3%nat (plog p)) = Request_Serialize call_rq.
Proof.
  pose proof rpc_end_job as Hj. destruct rpc_run as (Htcp & Hc & Hs). unfold rpc_calls in Htcp, Hs.
  destruct rpc_end as [p|] eqn:E; [|discriminate Hj]. injection Hj as Hj. pose proof E as E'.
  unfold rpc_end in E'. pose proof (prun_preachable _ _ _ _ _ _ _ _ p E') as Hr. clear E'.
  pose proof (worker_rpc_call (fun _ => []) call_garbage echo_map echo_svc echo_call no_datagrams echo_rpc_quiet demo_worker 9 any_port
    eq_refl 1 0 p Hr 3%nat 7 80 true call_server call_cntl (lit "ab") [] 9 (mkSockaddr 16777343 36895) call_wc Hj call_rq_plain
    ltac:(vm_compute; reflexivity) call_rq_mapped echo_small (echo_quiet 7) Htcp rpc_connects Hc Hs) as H.
  fold call_client in H. clear Htcp Hc Hs Hr.
  assert (Hv : match call_client with Done (Some (c, x)) _ _ => x <> [] | _ => False end) by (vm_compute; discriminate).
  destruct call_client as [[[cntl x]|] t w|]; [|destruct Hv..].
  destruct H as [[_ Hx]|(_ & Hrec & y & (msg & w1 & t1 & w2 & [= <-] & [= <- _ _]) & Hx)]; [destruct (Hv Hx)|].
  exists p, cntl, t, w. subst x. split; [reflexivity|]. split; [reflexivity|exact Hrec].
Defined.
